(* ===== verification/_CoqProject ===== *)
-Q . S2P
Prelude.v
F64.v
Text.v
Config.v
Validate.v
RateSearch.v
Keys.v
Limiter.v
Dispatch.v
Metrics.v
InFlight.v
KeyDist.v
Routed.v
Reply.v
Workload.v
Prefill.v
Append.v
Saturation.v
Trace.v
KvRequest.v
KvDispatch.v
Startup.v
Recorder.v
Sizing.v
Load.v
Tls.v
Launch.v
Pool.v
Results.v
Runner.v
Discovery.v
Exchange.v
Dma.v
Fabric.v
Progress.v
Tasks.v
Buffer.v
Format.v
Report.v
Json.v
Query.v
Viewer.v
Admin.v
Lab.v
Search.v
