(* ===== verification/Prelude.v ===== *)
(** * A verification of cachecannon

    cachecannon is a load generator for caches.  It reads a TOML configuration,
    finds out which servers there are, starts a thread per worker on the
    io_uring runtime ringline, and drives many pipelined connections through a
    prefill, a warmup and a recording; it reports throughput, latencies and
    hits, and can search for the highest rate that keeps a latency objective.
    Besides the synthetic workload it replays object traces and KV-cache traces,
    drives an append stream, transfers values over a libfabric endpoint, and
    runs a vector-search benchmark.  A viewer serves a recording as dashboards.

    This library models that program as definitions one can run and states what
    makes each part correct.  Every definition is named after the function,
    struct or enum it translates.

    ** How the code is rendered

    - A [u64] or [usize] is a [Z]; where the source can reach the width, the
      wrap-around ([wrap64]) or the saturation is written out.  An [f64] is an
      exact binary64 value (F64), so rates, percentiles and printed figures are
      the program's own, rounding included.
    - An [Option] or [Result] is [option] or [result]; where the source would
      panic (an index out of bounds, an assertion, [expect]) the answer is
      [None], and the theorems say when that cannot happen.
    - A struct is a record with the source's field names, changed with
      [s <| f := v |>]; an enum is an inductive type.
    - Code of one thread is a function on its state.  What a function reads from
      outside (a clock, a reply, a phase another thread may change) is an
      argument, often a sequence indexed by the number of the read.
    - A [Waker] is the number of the task it wakes and an [Rc] or [Arc] an index
      into a store, so aliasing and lost wake-ups are visible.
    - Threads and connections that share state are a system of steps in any
      order.  The grain is the one the code has: a turn between two awaits for
      tasks of one thread, one iteration or reply of a connection over the
      shared prefill, append and replay queues, one atomic access, lock or
      notification for the completion-queue poller and the shutdown.
    - What is counted or measured goes to a log of metric events; Metrics shows
      that the sharded counters add up to the log.

    ** Third-party code

    It appears as classes of operations, with classes of the documented laws the
    theorems use, each with a concrete instance in the witnesses:
    [Ratelimiter] (crate ratelimit, Limiter), [Hashing] (the CRC16 slot and the
    ketama ring, Keys), [Rng] (rand, rand_distr; KeyDist), [Client] and
    [ClientErrors] (the ringline protocol clients; Workload, Trace), [AddrParse]
    (Reply), [Histograms] (Saturation), [TraceOps] (Trace), [Mapper] (kvtrace;
    KvRequest), [KvTrace] (kvtrace's geometry; Load), [Rustls] (Tls), [SlotMaps] and [Resolver] (resp_proto, name resolution;
    Discovery), [Peer] (the search server with its client library and clock;
    Search), [Notify] (tokio; Recorder), [ParquetReader] (metriken_query; Query).
    Arguments of the definitions stand for the rest: the CRC-32c of Dma, what
    libfabric answers in Fabric, the metric registry and msgpack in Admin, file
    loading and name resolution in Lab, serde_json's text and the embedded files
    in Viewer.

    ** The parts

    Foundations.  [Prelude] (this file): machine integers, [result], record
    update, lists, automation.  [F64]: binary64 and Rust's formatting of it.
    [Text]: [str], UTF-8 and integer parsing.

    Configuration.  [Config] (config/mod.rs): every table, default and pure
    method.  [Validate]: [Config::validate], check by check; it accepts exactly
    the configurations that a declarative predicate calls valid.  [Lab]
    (valkey_lab.rs): from flags to the configuration a run is launched with.

    What a run prepares.  [Discovery] (cluster.rs, autodiscovery.rs, and
    [resolve_endpoints] of runner.rs): from the bytes the servers send to the
    endpoints and the slot table.  [Exchange] (autodiscovery.rs): the time the
    latter takes.  [Keys] (worker.rs): key text, routing, the
    prefill queues and endpoint partitions, seeds.  [KeyDist] (keydist.rs): the
    key distributions.  [Limiter] (limiters.rs): the per-worker limiters and the
    prefill pacer.  [Sizing] (runner.rs): the tasks, buffers and send pool asked
    of ringline.  [Load] (kvreplay.rs, tracereplay.rs): opening a replay, with
    the model geometry and the footer of an object trace.  [Tls] (runner.rs): the
    TLS client configuration.  [Launch] (runner.rs): the composition of these that
    [run_benchmark_full] makes, and each worker's configuration.

    A worker.  [Startup] (worker.rs): which connection serves which endpoint,
    the shared state, [create_for_worker], [on_start], [on_tick].  [Tasks]
    (worker.rs, dma/connection.rs, sharded_counter.rs): the life of a
    connection's task around its drive loop, and the ping protocol.  [Dispatch]:
    the token dispatcher between the limiter and the tasks.  [Routed]: the
    per-node queues of routed dispatch.  [InFlight]: the requests in flight and
    the deadline on their replies.  [Reply] (client/mod.rs, worker.rs): what a
    completed operation is, what is recorded of it, redirects.  [Metrics]
    (metrics.rs, sharded_counter.rs): the counters.  [Buffer] (buffer/mod.rs).

    The loops that drive a connection.  [Workload] (worker.rs): RESP and
    memcache, one iteration, one reply, one disconnect.  [Prefill]: all
    connections over the shared prefill queues.  [Pool]: the window of the value
    pool each SET in flight reads.  [Append] (worker.rs,
    runner.rs): the append stream's writers and the batch scheduler.  [Trace]
    (tracereplay.rs).  [KvRequest] and [KvDispatch] (kvreplay.rs): one request of
    a KV trace, and the reader, dispatchers and connections that share the
    trace.  [Dma] (dma/advertisement.rs, command.rs, client.rs, connection.rs):
    the text of the commands, what is accepted as a transfer, the loop.
    [Fabric] (dma/fabric/): endpoint, registrations and buffers.  [Progress]
    (dma/fabric/progress.rs): the poller of the completion queue.

    The main thread.  [Runner] (runner.rs): the 100 ms loop of
    [run_benchmark_full], from the precheck to the exit status.  [RateSearch]
    and [Saturation] (saturation.rs): the search for the knee, and the windows
    it measures in.  [Results] (output/mod.rs, runner.rs, kvreplay.rs): what is
    reported.

    Output.  [Format] (output/format.rs), [Report] (output/clean.rs, quiet.rs,
    verbose.rs), [Json] (output/json.rs).  [Admin] (admin/mod.rs, stream.rs): the
    metrics endpoint's text and framing.  [Recorder] (admin/mod.rs): the admin
    thread's tasks and its shutdown.  [Query] (viewer/api.rs) and [Viewer]
    (viewer/mod.rs, plot.rs, dashboard/): the dashboards and their API.

    [Search] (search/): the vector-search benchmark.

    ** How the parts meet

    Workload, Trace and Append call Limiter and Dispatch for tokens, Keys and
    KeyDist for keys, Reply for what a reply means, InFlight for its deadline,
    and write Metrics' events; all of them run against the class [Client].
    Prefill and Append put many of those connections over the queues that Keys
    built, and Tasks puts any drive loop into the life of a task; Tasks refines
    the abstract precheck that Runner waits for.  Runner composes the phases of
    Startup, Append's scheduler, Saturation's turn and Results.  Launch shows
    that a configuration Validate accepts makes all of these start from the
    states their theorems assume.  Load does the same for a KV replay: the
    mapping it loads obeys the laws KvRequest's theorems assume, and Sizing's pool
    for it holds every lookup KvRequest sends.  Fabric holds what Dma transfers through, and
    Progress drives it.  Viewer's pages send their queries to Query, over names
    that metrics.rs registers.

    ** What is proved

    Conservation under any interleaving: every key of the keyspace is prefilled
    exactly once, over RESP and memcache (Prefill, Workload) and over DMA (Dma);
    no append key below the head readers draw from is unwritten (Append); every
    row of an object trace and every request of a KV trace is settled exactly
    once (Trace, KvDispatch); no token claim is stranded (Dispatch).

    What is measured: REQUESTS_SENT and the connection gauges are exact
    (Workload, Tasks); a reply settles exactly its own request (Workload); the
    results are the growth since recording began and the periodic samples tile
    it (Runner); a search step measures one rate in its steady state and the
    knee is the best rate that passed (Saturation, RateSearch); KV token
    accounting adds up (KvRequest); recall is the benchmark's definition and a
    search measures an index that is ready (Search).

    Order and ends: the phases follow one plan, a run ends in a bounded number
    of passes, the tasks of a stopped run return (Runner, Tasks); the tasks
    refine the precheck's abstract count, and the precheck is a server's word
    (Tasks); a receive deadline is exact (InFlight); a push wakes the longest
    waiting task (Routed); the completion queue is polled while a transfer is in
    flight (Progress); every libfabric object is closed, once and in order
    (Fabric); the admin thread's join returns exactly when the shutdown found
    both tasks waiting (Recorder).

    Bounds: batches stay within the tokens taken (Workload), the send pool holds
    every pipeline (Sizing) and every lookup of a KV replay that loaded (Load),
    no SET of an object trace is longer than its footer says (Load), and every value in flight lies inside the value
    pool, which the code hands to the kernel unchecked (Pool).

    Text: validation and the command line against declarative statements
    (Validate, Lab), the TLS options against what they promise (Tls), preparation
    agrees with itself (Launch); discovery reads
    back what nodes say however the reads are cut, and ends by its deadline
    (Discovery, Exchange); a scrape reads
    back the registry (Admin); colour changes nothing but colour (Report); JSON
    documents are well formed (Json); the byte buffer is a queue (Buffer); a
    query gets a stride exactly when it is one histogram call, and every page
    shows the recording it names (Query, Viewer).

    ** Bounds and fuel

    Recursion is structural or by a number of steps.  UTF-8 decoding has a step
    per byte; decimal digits a step per bit; the shortest decimal of a double
    tries up to 17 digits, which are enough for binary64, and places its point among
    the 700 positions binary64 has.  The prefill and append
    fills of a connection have a step per queued key, its routed fill one per
    free place of the pipeline; the theorems hold for every fuel above that and
    show that the loops are not cut short.  A receive poll needs two rounds
    (InFlight).  [Dispatch], [Routed] and the queues recurse on what they drain.
    The loops of Search that wait for the server (index readiness, the scan of a
    delete) have no bound in the source: their fuel is an argument, and running
    out of it is an outcome of its own, distinct from a report.  The main loop
    is a fold over the passes given; [run_ends_in_time] says how many suffice.

    ** Not modelled

    - Calls of the operating system and of ringline that return nothing the
      program decides on: spawning and joining threads, CPU pinning, signal
      handlers, tracing, the config channel; the outcome of a connect, a send or
      a sleep is an argument of the step that waits for it.
    - Files and formats read by third-party crates: TOML (serde), Parquet
      (footers and trace entries), HDF5, msgpack; the models start from the
      values they give.
    - What rustls does with the TLS client configuration and a server's name.
    - Storage of histograms, and metriken's registry: a histogram is the
      sequence of its samples.
    - HTTP below the handlers (axum, tokio's sockets), the frames of the metrics
      stream (metriken_exposition), the viewer's page scripts.
    - The drawing of random bytes of the value pool; a value is its length, and
      where its bytes are checked (Dma) they are data.
    - clap's parsing, [main.rs] and [lib.rs], and the constant Grafana template.

    ** This file

    Machine integers with their database of hints [u64], [result], record
    update, the tactics the proofs share, and lemmas on integers. *)

From Stdlib Require Export ZArith Lia Permutation.
From stdpp Require Export base tactics numbers list option strings gmap.
Open Scope Z_scope.

(** ** Machine integers

    A [u64] or [usize] is a [Z]; the width is written out where the source
    can reach it.  The release profile leaves overflow checks off, so plain
    [+], [-] and [*] wrap. *)

Definition u8_max : Z := 2 ^ 8 - 1.

Definition u16_max : Z := 2 ^ 16 - 1.

Definition u32_max : Z := 2 ^ 32 - 1.

Definition u64_max : Z := 2 ^ 64 - 1.

(** Plain arithmetic on [u64]: the value modulo [2^64]. *)
Definition wrap64 (z : Z) : Z := z mod 2 ^ 64.

Definition sat_add (a b : Z) : Z := Z.min (a + b) u64_max.

Definition sat_sub (a b : Z) : Z := Z.max (a - b) 0.

Definition sat_mul (a b : Z) : Z := Z.min (a * b) u64_max.

(** [usize::div_ceil]. *)
Definition div_ceil (a b : Z) : Z :=
  if a mod b =? 0 then a / b else a / b + 1.

(** [Ord::clamp]: below [lo] it is [lo], above [hi] it is [hi]. *)
Definition clampZ (x lo hi : Z) : Z :=
  if x <? lo then lo else if hi <? x then hi else x.

Declare Scope u64_scope.
Delimit Scope u64_scope with u64.
Infix "+|" := sat_add (at level 50, left associativity) : u64_scope.
Infix "-|" := sat_sub (at level 50, left associativity) : u64_scope.
Infix "*|" := sat_mul (at level 40, left associativity) : u64_scope.

Abbreviation is_u64 z := (0 <= z <= u64_max)%Z.

(** ** Fallible code *)

Inductive result (E A : Type) : Type :=
| Ok (a : A)
| Err (e : E).
Arguments Ok {E A} a.
Arguments Err {E A} e.

#[export] Instance result_ret E : MRet (result E) := fun A a => Ok a.

#[export] Instance result_bind E : MBind (result E) :=
  fun A B f m => match m with Ok a => f a | Err e => Err e end.

Definition is_ok {E A} (r : result E A) : bool :=
  match r with Ok _ => true | Err _ => false end.

(** ** Record updates: [s <| field := v |>] *)

(** The identity of a record type written with its projections; the setter of
    each field is read off it. *)
Class Settable (T : Type) := settable_eta : T -> T.

Class Setter {T E : Type} (proj : T -> E) := set_field : (E -> E) -> T -> T.

Ltac field_setter T E proj :=
  exact (fun (f : E -> E) (r : T) =>
    ltac:(let b := constr:(@settable_eta T _ r) in
          let b := eval cbv beta delta [settable_eta] in b in
          let b := match b with ?i r => let i := eval hnf in i in
                                        eval cbv beta in (i r) end in
          match b with
          | context C [proj r] => let b := context C [f (proj r)] in exact b
          end)).

#[export] Hint Extern 1 (@Setter ?T ?E ?proj) =>
  field_setter T E proj : typeclass_instances.

Declare Scope field_scope.
Open Scope field_scope.
Notation "s <| proj := v |>" := (set_field (proj := proj) (fun _ => v) s)
  (at level 1, left associativity, proj at level 9, v at level 99,
   format "s <| proj  :=  v |>") : field_scope.

(** ** Automation *)

(** Split every conjunction and existential among the hypotheses. *)
Ltac destruct_hyps :=
  repeat match goal with
  | H : _ /\ _ |- _ => destruct H
  | H : exists _, _ |- _ => destruct H
  end.

(** Case analysis on the innermost [if] or [match] scrutinee, keeping the
    equation. *)
Ltac inner_match t :=
  lazymatch t with
  | context [match ?x with _ => _ end] => inner_match x
  | _ => destruct t eqn:?
  end.

Ltac case_match_goal :=
  match goal with |- context [match ?x with _ => _ end] => inner_match x end.

Ltac case_match_hyp H :=
  match type of H with context [match ?x with _ => _ end] => inner_match x end.

(** A bound on every element of a literal list. *)
Ltac forall_lia := repeat (apply Forall_cons; split; [lia|]); by apply Forall_nil.

(** Unfold the machine-integer operations and call [lia]. *)
Ltac ulia :=
  unfold sat_add, sat_sub, sat_mul, clampZ, u8_max, u16_max, u32_max, u64_max in *;
  repeat match goal with
  | H : context [if ?b then _ else _] |- _ => destruct b eqn:?
  | |- context [if ?b then _ else _] => destruct b eqn:?
  end; try lia.

(** ** Integers *)

Lemma wrap64_small z : is_u64 z -> wrap64 z = z.
Proof. unfold wrap64, u64_max. intros. apply Z.mod_small. lia. Qed.

Lemma wrap64_range z : is_u64 (wrap64 z).
Proof.
  unfold wrap64, u64_max.
  pose proof (Z.mod_pos_bound z (2 ^ 64) ltac:(lia)). lia.
Qed.

Lemma div_ceil_spec a b :
  0 <= a -> 0 < b -> b * (div_ceil a b - 1) < a <= b * div_ceil a b \/ a = 0 /\ div_ceil a b = 0.
Proof.
  intros Ha Hb. unfold div_ceil.
  pose proof (Z.div_mod a b ltac:(lia)) as E.
  pose proof (Z.mod_pos_bound a b Hb) as R.
  destruct (a mod b =? 0) eqn:D; [|lia].
  apply Z.eqb_eq in D. rewrite D in E.
  destruct (decide (a = 0)) as [->|]; [|lia].
  right. split; [done|]. apply Z.div_0_l. lia.
Qed.

Lemma div_ceil_le a b : 0 <= a -> 0 < b -> a <= b * div_ceil a b.
Proof. intros Ha Hb. destruct (div_ceil_spec a b Ha Hb) as [|[-> ->]]; lia. Qed.

Lemma div_ceil_nonneg a b : 0 <= a -> 0 < b -> 0 <= div_ceil a b.
Proof.
  intros Ha Hb. unfold div_ceil.
  pose proof (Z.div_pos a b Ha Hb). destruct (a mod b =? 0); lia.
Qed.

Lemma clampZ_range x lo hi : lo <= hi -> lo <= clampZ x lo hi <= hi.
Proof. ulia. Qed.

Create HintDb u64.
#[export] Hint Resolve wrap64_small wrap64_range clampZ_range div_ceil_nonneg : u64.
