(* ===== verification/F64.v ===== *)
(** F64: IEEE 754 binary64, the [f64] of the source.

    Values and operations are the axiom-free ones of [SpecFloat] at precision
    53 and exponent bound 1024 (round to nearest, ties to even).  The casts,
    predicates and decimal formatting are those of the Rust standard library. *)

From Stdlib Require Import SpecFloat.
From S2P Require Import Prelude.
Open Scope Z_scope.

Abbreviation f64 := spec_float.

Definition f64_add : f64 -> f64 -> f64 := SFadd 53 1024.

Definition f64_sub : f64 -> f64 -> f64 := SFsub 53 1024.

Definition f64_mul : f64 -> f64 -> f64 := SFmul 53 1024.

Definition f64_div : f64 -> f64 -> f64 := SFdiv 53 1024.

(** [x as f64] for an integer [x]. *)
Definition f64_of_Z (z : Z) : f64 := binary_normalize 53 1024 z 0 false.

(** The literal [a / b], for [a], [b] below [2^53]: both convert exactly and
    division rounds correctly, so it is the nearest double. *)
Definition f64_lit (a b : Z) : f64 := f64_div (f64_of_Z a) (f64_of_Z b).

Definition f64_zero : f64 := f64_of_Z 0.

Definition f64_one : f64 := f64_of_Z 1.

Definition f64_lt (x y : f64) : bool := SFltb x y.

Definition f64_le (x y : f64) : bool := SFleb x y.

Definition f64_eq (x y : f64) : bool := SFeqb x y.

Definition f64_is_finite (x : f64) : bool :=
  match x with S754_zero _ | S754_finite _ _ _ => true | _ => false end.

(** [f64::max]: the other operand when one is NaN. *)
Definition f64_max (x y : f64) : f64 :=
  match x, y with
  | S754_nan, _ => y
  | _, S754_nan => x
  | _, _ => if f64_lt x y then y else x
  end.

(** The integer part of [m * 2^e], toward zero. *)
Definition trunc_abs (m : positive) (e : Z) : Z :=
  if 0 <=? e then Z.pos m * 2 ^ e else Z.pos m / 2 ^ (- e).

(** [x as u64]: toward zero, saturating; NaN is 0. *)
Definition f64_to_u64 (x : f64) : Z :=
  match x with
  | S754_nan | S754_zero _ => 0
  | S754_infinity s => if s then 0 else u64_max
  | S754_finite s m e => if s then 0 else Z.min (trunc_abs m e) u64_max
  end.

Definition f64_floor (x : f64) : f64 :=
  match x with
  | S754_finite s m e =>
      if 0 <=? e then x
      else
        let q := (if s then - Z.pos m else Z.pos m) / 2 ^ (- e) in
        binary_normalize 53 1024 q 0 s
  | _ => x
  end.

(** [f64::ceil]: [- floor (- x)]. *)
Definition f64_ceil (x : f64) : f64 := SFopp (f64_floor (SFopp x)).

(** [f64::round]: to the nearest integer, halves away from zero. *)
Definition f64_round (x : f64) : f64 :=
  match x with
  | S754_finite s m e =>
      if 0 <=? e then x
      else
        let q := (2 * Z.pos m + 2 ^ (- e)) / (2 * 2 ^ (- e)) in
        binary_normalize 53 1024 (if s then - q else q) 0 s
  | _ => x
  end.

(** [f64::total_cmp] on non-NaN values: the usual order with [-0 < +0]; the
    positive NaN is above every other value. *)
Definition f64_total_lt (x y : f64) : bool :=
  match x, y with
  | S754_nan, _ => false
  | _, S754_nan => true
  | S754_zero sx, S754_zero sy => sx && negb sy
  | _, _ => f64_lt x y
  end.

(** *** Decimal formatting, [{:.d}] *)

Definition digit_ascii (d : Z) : Ascii.ascii := Ascii.ascii_of_N (Z.to_N (48 + d)).

(** The decimal digits of [n], most significant first, by [fuel] steps. *)
Fixpoint dec_digits (fuel : nat) (n : Z) (acc : string) : string :=
  match fuel with
  | O => acc
  | S k =>
      let acc := String (digit_ascii (n mod 10)) acc in
      if n <? 10 then acc else dec_digits k (n / 10) acc
  end.

(** [to_string] of a non-negative integer: one step per decimal digit, and
    a number has no more decimal digits than bits. *)
Definition show_Z (n : Z) : string := dec_digits (S (Z.to_nat (Z.log2 n))) n "".

Fixpoint repeat_string (n : nat) (s : string) : string :=
  match n with O => ""%string | S k => (s ++ repeat_string k s)%string end.

(** [n / d] rounded to the nearest integer, ties to even. *)
Definition round_half_even (n d : Z) : Z :=
  let q := n / d in
  let r := n mod d in
  if 2 * r <? d then q
  else if d <? 2 * r then q + 1
  else if Z.even q then q else q + 1.

(** [q] with its last [d] digits after a point. *)
Definition with_point (q : Z) (d : nat) : string :=
  if (d =? 0)%nat then show_Z q
  else
    let p := 10 ^ Z.of_nat d in
    let frac := show_Z (q mod p) in
    (show_Z (q / p) ++ "." ++ repeat_string (d - String.length frac) "0" ++ frac)%string.

(** [format!("{:.d}", x)]. *)
Definition fmt_f64 (d : nat) (x : f64) : string :=
  let sign (s : bool) := if s then "-"%string else ""%string in
  match x with
  | S754_nan => "NaN"
  | S754_infinity s => sign s ++ "inf"
  | S754_zero s => sign s ++ with_point 0 d
  | S754_finite s m e =>
      let scaled := (Z.pos m * 10 ^ Z.of_nat d)%Z in
      let q := (if 0 <=? e then scaled * 2 ^ e else round_half_even scaled (2 ^ (- e)))%Z in
      sign s ++ with_point q d
  end%string.

(** *** Shortest decimal, [{}] *)

(** The double nearest to [a / b], for positive [a] and [b]: at least 64
    quotient bits and a sticky bit, then one rounding. *)
Definition f64_of_ratio (a b : Z) : f64 :=
  let s := Z.max 0 (64 + Z.log2 b - Z.log2 a + 1) in
  let q := (a * 2 ^ s) / b in
  let sticky := if (a * 2 ^ s) mod b =? 0 then 0 else 1 in
  binary_normalize 53 1024 (2 * q + sticky) (- s - 1) false.

(** [q * 10^k] as a ratio of integers. *)
Definition pow10_ratio (q k : Z) : Z * Z :=
  if 0 <=? k then (q * 10 ^ k, 1) else (q, 10 ^ (- k)).

(** The decimal point position of [a / b]: [10^(k-1) <= a/b < 10^k], searched
    from below. *)
Fixpoint point_pos (fuel : nat) (a b k : Z) : Z :=
  match fuel with
  | O => k
  | S f =>
      let (c, d) := pow10_ratio 1 k in
      if a * d <? b * c then k else point_pos f a b (k + 1)
  end.

(** The shortest digit string that reads back as [x = a / b], the nearer one
    when both neighbours do: digits and point position. *)
Fixpoint shortest (fuel : nat) (n : Z) (x : f64) (a b k : Z) : Z * Z :=
  let (c, d) := pow10_ratio 1 (k - n) in
  let q := (a * d) / (b * c) in
  let back q := let (e, f) := pow10_ratio q (k - n) in f64_eq (f64_of_ratio e f) x in
  let below := (0 <? q) && back q in
  let above := back (q + 1) in
  let nearer_up := b * c <? 2 * (a * d - q * (b * c)) in
  if below && (negb above || negb nearer_up) then (q, n)
  else if above then (q + 1, n)
  else match fuel with O => (q, n) | S f => shortest f (n + 1) x a b k end.

(** Place the point of the [n]-digit number [q] at position [k]. *)
Definition place_point (q n k : Z) : string :=
  let ds := show_Z q in
  let k := if Z.of_nat (String.length ds) =? n then k else k + 1 in
  let len := Z.of_nat (String.length ds) in
  if k <=? 0 then ("0." ++ repeat_string (Z.to_nat (- k)) "0" ++ ds)%string
  else if len <=? k then (ds ++ repeat_string (Z.to_nat (k - len)) "0")%string
  else (String.substring 0 (Z.to_nat k) ds ++ "." ++
        String.substring (Z.to_nat k) (Z.to_nat (len - k)) ds)%string.

(** [format!("{}", x)]. *)
Definition display_f64 (x : f64) : string :=
  let sign (s : bool) := if s then "-"%string else ""%string in
  match x with
  | S754_nan => "NaN"
  | S754_infinity s => sign s ++ "inf"
  | S754_zero s => sign s ++ "0"
  | S754_finite s m e =>
      let (a, b) := (if 0 <=? e then (Z.pos m * 2 ^ e, 1) else (Z.pos m, 2 ^ (- e)))%Z in
      let k := point_pos 700 a b (-330)%Z in
      let (q, n) := shortest 17 1%Z (S754_finite false m e) a b k in
      sign s ++ place_point q n k
  end%string.

(** ** Facts *)

Lemma trunc_abs_nonneg m e : 0 <= trunc_abs m e.
Proof.
  unfold trunc_abs. destruct (0 <=? e) eqn:E.
  - apply Z.mul_nonneg_nonneg; [lia|]. apply Z.pow_nonneg. lia.
  - apply Z.div_pos; [lia|]. apply Z.pow_pos_nonneg; lia.
Qed.

Lemma f64_to_u64_range x : is_u64 (f64_to_u64 x).
Proof.
  pose proof trunc_abs_nonneg.
  destruct x as [s|s| |s m e]; cbn; [ulia| |ulia|]; destruct s; try ulia.
  specialize (H m e). unfold u64_max in *. lia.
Qed.

Lemma f64_lt_irrefl x : f64_lt x x = false.
Proof.
  unfold f64_lt, SFltb.
  destruct x as [s|s| |s m e]; [done|by destruct s|done|].
  destruct s; cbn; rewrite Z.compare_refl, Pos.compare_refl; done.
Qed.

#[export] Hint Resolve f64_to_u64_range : u64.

Example fmt_f64_half : fmt_f64 0 (f64_lit 5 2) = "2"%string /\ fmt_f64 1 (f64_lit 15 10) = "1.5"%string.
Proof. by vm_compute. Qed.

Example display_f64_literals :
  map display_f64 [f64_lit 99 100; f64_of_Z 10; f64_lit 1 3; f64_lit 15 1000; f64_of_Z 1500]
  = ["0.99"; "10"; "0.3333333333333333"; "0.015"; "1500"]%string.
Proof. by vm_compute. Qed.
