(* ===== verification/Text.v ===== *)
(** Text: the parts of the Rust standard library's [str] and integer parsing
    that the program's text formats use.

    A byte string is a list of numbers below 256; a [str] is the list of its
    code points. *)

From Stdlib Require Import Ascii.
From S2P Require Import Prelude F64.
Open Scope Z_scope.

(** The code points of an ASCII literal. *)
Definition bytes_of (s : string) : list Z :=
  map (fun c => Z.of_N (N_of_ascii c)) (Stdlib.Strings.String.list_ascii_of_string s).

(** ** [str::from_utf8] *)

Definition is_cont (b : Z) : bool := (128 <=? b) && (b <? 192).

(** The bits of a continuation byte. *)
Definition cont (b : Z) : Z := b - 128.

(** The code point that [bs] begins with, and the bytes after it: no overlong
    form, no surrogate, nothing above U+10FFFF. *)
Definition utf8_next (bs : list Z) : option (Z * list Z) :=
  match bs with
  | [] => None
  | a :: r =>
      if a <? 128 then Some (a, r)
      else
        match r with
        | b :: r =>
            if negb (is_cont b) then None
            else if (194 <=? a) && (a <? 224) then Some ((a - 192) * 64 + cont b, r)
            else
              match r with
              | c :: r =>
                  if negb (is_cont c) then None
                  else if (224 <=? a) && (a <? 240) then
                    let v := (a - 224) * 4096 + cont b * 64 + cont c in
                    if (2048 <=? v) && negb ((55296 <=? v) && (v <? 57344)) then Some (v, r) else None
                  else
                    match r with
                    | d :: r =>
                        if negb (is_cont d) then None
                        else if (240 <=? a) && (a <? 245) then
                          let v := (a - 240) * 262144 + cont b * 4096 + cont c * 64 + cont d in
                          if (65536 <=? v) && (v <? 1114112) then Some (v, r) else None
                        else None
                    | [] => None
                    end
              | [] => None
              end
        | [] => None
        end
  end.

Fixpoint utf8_decode (fuel : nat) (bs : list Z) : option (list Z) :=
  match bs, fuel with
  | [], _ => Some []
  | _, O => None
  | _, S fuel => '(c, r) ← utf8_next bs; cs ← utf8_decode fuel r; Some (c :: cs)
  end.

(** [str::from_utf8]: each step consumes a byte. *)
Definition from_utf8 (bs : list Z) : option (list Z) := utf8_decode (length bs) bs.

(** ** [str] *)

Definition is_ascii_whitespace (c : Z) : bool := bool_decide (c ∈ [32; 9; 10; 12; 13]).

(** [char::is_whitespace]: the White_Space code points. *)
Definition is_whitespace (c : Z) : bool :=
  ((9 <=? c) && (c <=? 13)) || bool_decide (c ∈ [32; 133; 160; 5760; 8232; 8233; 8239; 8287; 12288])
  || ((8192 <=? c) && (c <=? 8202)).

Fixpoint trim_start (s : list Z) : list Z :=
  match s with
  | c :: s' => if is_whitespace c then trim_start s' else s
  | [] => []
  end.

(** [str::trim]. *)
Definition trim (s : list Z) : list Z := rev (trim_start (rev (trim_start s))).

(** [str::split]: the pieces between the characters that [p] accepts. *)
Fixpoint split (p : Z -> bool) (s : list Z) : list (list Z) :=
  match s with
  | [] => [[]]
  | c :: s =>
      if p c then [] :: split p s
      else match split p s with w :: ws => (c :: w) :: ws | [] => [[c]] end
  end.

(** [str::split_ascii_whitespace]. *)
Definition split_ascii_whitespace (s : list Z) : list (list Z) :=
  filter (fun w => w <> []) (split is_ascii_whitespace s).

(** [str::split_once]. *)
Fixpoint split_once (c : Z) (s : list Z) : option (list Z * list Z) :=
  match s with
  | [] => None
  | x :: s => if x =? c then Some ([], s) else '(a, b) ← split_once c s; Some (x :: a, b)
  end.

(** One carriage return at the end of a line that a newline ended. *)
Definition strip_cr (w : list Z) : list Z :=
  match rev w with 13 :: r => rev r | _ => w end.

(** [str::lines]. *)
Fixpoint lines_of (ws : list (list Z)) : list (list Z) :=
  match ws with
  | [] | [[]] => []
  | [w] => [w]
  | w :: ws => strip_cr w :: lines_of ws
  end.

Definition lines (s : list Z) : list (list Z) := lines_of (split (Z.eqb 10) s).

Fixpoint starts_with (p s : list Z) : bool :=
  match p, s with
  | [], _ => true
  | a :: p, b :: s => (a =? b) && starts_with p s
  | _ :: _, [] => false
  end.

(** ** Unsigned integers: [FromStr] *)

Inductive IntError := IntEmpty | InvalidDigit | PosOverflow.

Definition digit (c : Z) : option Z := if (48 <=? c) && (c <=? 57) then Some (c - 48) else None.

Fixpoint parse_digits (max acc : Z) (s : list Z) : result IntError Z :=
  match s with
  | [] => Ok acc
  | c :: s =>
      match digit c with
      | None => Err InvalidDigit
      | Some x => if max <? acc * 10 + x then Err PosOverflow else parse_digits max (acc * 10 + x) s
      end
  end.

(** [parse] into an unsigned type whose greatest value is [max]. *)
Definition parse_uint (max : Z) (s : list Z) : result IntError Z :=
  match s with
  | [] => Err IntEmpty
  | c :: r =>
      if bool_decide (r = []) && ((c =? 43) || (c =? 45)) then Err InvalidDigit
      else parse_digits max 0 (if c =? 43 then r else s)
  end.

(** The text [to_string] gives. *)
Definition show (n : Z) : list Z := bytes_of (show_Z n).

(** ** Facts *)

Lemma bytes_of_app a b : bytes_of (a ++ b) = bytes_of a ++ bytes_of b.
Proof.
  unfold bytes_of. induction a as [|c a IH]; [done|].
  change (String c a +:+ b) with (String c (a +:+ b)). cbn. by rewrite IH.
Qed.

(** The digits of a number as it is read back. *)
Lemma parse_digits_app max acc s s' :
  parse_digits max acc (s ++ s')
  = match parse_digits max acc s with Ok a => parse_digits max a s' | Err e => Err e end.
Proof.
  revert acc. induction s as [|c s IH]; intros acc; cbn; [done|].
  destruct (digit c); [|done]. destruct (_ <? _); [done|apply IH].
Qed.

Lemma digit_of_ascii d : 0 <= d < 10 -> digit (Z.of_N (N_of_ascii (digit_ascii d))) = Some d.
Proof.
  intros D. assert (E : d = 0 \/ d = 1 \/ d = 2 \/ d = 3 \/ d = 4 \/ d = 5 \/ d = 6 \/ d = 7 \/ d = 8 \/ d = 9) by lia.
  repeat destruct E as [->|E]; try subst d; reflexivity.
Qed.

(** With a digit of fuel per digit, the digits of [n] read back as [n]. *)
Lemma parse_dec_digits max fuel n acc :
  0 <= n < 10 ^ Z.of_nat fuel -> (0 < fuel)%nat -> n <= max ->
  parse_digits max 0 (bytes_of (dec_digits fuel n acc)) = parse_digits max n (bytes_of acc).
Proof.
  revert n acc. induction fuel as [|fuel IH]; intros n acc B F M; [lia|]. cbn [dec_digits].
  assert (D : 0 <= n mod 10 < 10) by (apply Z.mod_pos_bound; lia).
  pose proof (Z.div_mod n 10 ltac:(lia)) as E.
  destruct (Z.ltb_spec n 10) as [L|L].
  - cbn [bytes_of Stdlib.Strings.String.list_ascii_of_string map]. fold (bytes_of acc). cbn [parse_digits].
    rewrite digit_of_ascii by exact D. rewrite Z.mod_small by lia.
    destruct (Z.ltb_spec max (0 * 10 + n)); [lia|]. f_equal.
  - rewrite Nat2Z.inj_succ, Z.pow_succ_r in B by lia.
    assert (0 <= n / 10 < 10 ^ Z.of_nat fuel) by (split; [apply Z.div_pos; lia|apply Z.div_lt_upper_bound; lia]).
    rewrite IH; [|done| |].
    + cbn [bytes_of Stdlib.Strings.String.list_ascii_of_string map]. fold (bytes_of acc). cbn [parse_digits].
      rewrite digit_of_ascii by exact D. replace (n / 10 * 10 + n mod 10) with n by lia.
      destruct (Z.ltb_spec max n); [lia|done].
    + destruct fuel; [|lia]. cbn in B. lia.
    + assert (n / 10 <= n) by (apply Z.div_le_upper_bound; lia). lia.
Qed.

Lemma dec_digits_head fuel n acc :
  (0 < fuel)%nat -> exists d r, 0 <= d < 10 /\ dec_digits fuel n acc = String (digit_ascii d) r.
Proof.
  revert n acc. induction fuel as [|fuel IH]; intros n acc F; [lia|]. cbn [dec_digits].
  assert (D : 0 <= n mod 10 < 10) by (apply Z.mod_pos_bound; lia).
  destruct (n <? 10); [by eexists _, _|].
  destruct fuel as [|fuel]; [by eexists _, _|]. apply IH. lia.
Qed.

Lemma parse_uint_digit max c s : 48 <= c -> parse_uint max (c :: s) = parse_digits max 0 (c :: s).
Proof.
  intros C. unfold parse_uint. rewrite (proj2 (Z.eqb_neq c 43)), (proj2 (Z.eqb_neq c 45)) by lia.
  by rewrite andb_false_r.
Qed.

(** Reading back what [to_string] wrote. *)
Lemma parse_show max n : 0 <= n <= max -> parse_uint max (show n) = Ok n.
Proof.
  intros B. unfold show, show_Z.
  destruct (dec_digits_head (S (Z.to_nat (Z.log2 n))) n "" ltac:(lia)) as (d & r & D & E).
  assert (P : parse_digits max 0 (bytes_of (dec_digits (S (Z.to_nat (Z.log2 n))) n "")) = Ok n).
  { rewrite parse_dec_digits; [done| |lia|lia]. split; [lia|].
    rewrite Nat2Z.inj_succ, Z2Nat.id by apply Z.log2_nonneg.
    destruct (decide (n = 0)) as [->|N]; [done|].
    pose proof (Z.log2_spec n ltac:(lia)) as L. pose proof (Z.log2_nonneg n).
    assert (2 ^ Z.succ (Z.log2 n) <= 10 ^ Z.succ (Z.log2 n)) by (apply Z.pow_le_mono_l; lia). lia. }
  rewrite E in *. cbn [bytes_of Stdlib.Strings.String.list_ascii_of_string map] in *.
  rewrite parse_uint_digit; [exact P|]. pose proof (digit_of_ascii d D) as Q. unfold digit in Q.
  destruct (_ && _) eqn:A in Q; [|done]. lia.
Qed.

Lemma parse_digits_nonneg max acc s n : 0 <= acc -> parse_digits max acc s = Ok n -> 0 <= n.
Proof.
  revert acc. induction s as [|c s IH]; intros acc A; cbn; [by intros [= <-]|].
  unfold digit. destruct (_ && _) eqn:D; [|done]. destruct (_ <? _); [done|]. apply IH. lia.
Qed.

Lemma parse_uint_nonneg max s n : parse_uint max s = Ok n -> 0 <= n.
Proof.
  unfold parse_uint. destruct s as [|c r]; [done|]. destruct (_ && _); [done|]. by apply parse_digits_nonneg.
Qed.

(** ASCII bytes are their own code points. *)
Lemma from_utf8_ascii bs : Forall (fun b => 0 <= b < 128) bs -> from_utf8 bs = Some bs.
Proof.
  unfold from_utf8. induction 1 as [|b bs B F IH]; [done|]. cbn [utf8_decode length utf8_next].
  destruct (Z.ltb_spec b 128); [|lia]. cbn [mbind option_bind]. by rewrite IH.
Qed.

Lemma split_word p w : Forall (fun c => p c = false) w -> split p w = [w].
Proof. induction 1 as [|c w C F IH]; [done|]. cbn. by rewrite C, IH. Qed.

Lemma split_word_app p w c s :
  Forall (fun c => p c = false) w -> p c = true -> split p (w ++ c :: s) = w :: split p s.
Proof.
  intros F C. induction F as [|x w X F IH]; cbn; [by rewrite C|]. rewrite X. by rewrite IH.
Qed.

Definition starts_solid (s : list Z) : Prop := match s with c :: _ => is_whitespace c = false | [] => True end.

Lemma trim_start_solid s : starts_solid s -> trim_start s = s.
Proof. destruct s as [|c s]; [done|]. cbn. by intros ->. Qed.

Lemma trim_solid s : starts_solid s -> starts_solid (rev s) -> trim s = s.
Proof. intros A B. unfold trim. by rewrite (trim_start_solid s A), (trim_start_solid _ B), rev_involutive. Qed.

Lemma show_digits n : Forall (fun c => 48 <= c < 58) (show n).
Proof.
  assert (A : forall d, 48 <= Z.of_N (N_of_ascii (digit_ascii (d mod 10))) < 58).
  { intros d. pose proof (Z.mod_pos_bound d 10 ltac:(lia)) as B. pose proof (digit_of_ascii _ B) as D.
    unfold digit in D. destruct (_ && _) eqn:E in D; [lia|done]. }
  unfold show, show_Z.
  assert (G : forall fuel n acc, Forall (fun c => 48 <= c < 58) (bytes_of acc) ->
    Forall (fun c => 48 <= c < 58) (bytes_of (dec_digits fuel n acc))).
  { induction fuel as [|fuel IH]; intros m acc F; cbn [dec_digits]; [done|].
    assert (F' : Forall (fun c => 48 <= c < 58) (bytes_of (String (digit_ascii (m mod 10)) acc)))
      by (apply Forall_cons; split; [apply A|exact F]).
    destruct (m <? 10); [exact F'|by apply IH]. }
  apply G. constructor.
Qed.

Lemma show_nonempty n : show n <> [].
Proof.
  unfold show, show_Z.
  destruct (dec_digits_head (S (Z.to_nat (Z.log2 n))) n "" ltac:(lia)) as (d & r & _ & ->). done.
Qed.
