(* ===== verification/Config.v ===== *)
(** Config: the run's configuration, its defaults and its pure methods
    ([src/src/config/mod.rs]).

    One Module per struct of the source, with the source's field names; a
    [Duration] is a number of nanoseconds, a [usize]/[u64]/[u32]/[u8] a [Z],
    a path its string.  Deserialisation (serde, humantime) is outside the
    model: a configuration is a value of these types.  Its validation is
    Validate. *)

From S2P Require Import Prelude F64.
Open Scope Z_scope.

(** ** Standard-library types *)

Record SocketAddr := { sa_ip : string; sa_port : Z }.

#[export] Instance SocketAddr_eq_dec : EqDecision SocketAddr.
Proof. solve_decision. Defined.

Definition from_secs (s : Z) : Z := s * 1000000000.

Definition from_millis (ms : Z) : Z := ms * 1000000.

(** [Duration::as_secs_f64]. *)
Definition as_secs_f64 (d : Z) : f64 :=
  f64_add (f64_of_Z (d / 1000000000))
          (f64_div (f64_of_Z (d mod 1000000000)) (f64_of_Z 1000000000)).

(** ** Enumerations *)

Inductive Protocol := Resp_ | Resp3 | Memcache | MemcacheBinary | Ping | Dma_.

Inductive EndpointAllocation := Even | KeyShare.

Inductive Routing := Pinned | Routed.

Inductive RequestDistribution := RoundRobin | Greedy.

Inductive KvWriteRule := SetFromMiss | InsertIfAbsent.

Inductive KvKeyFormat := KvHex | KvDecimal.

Inductive AppendPace := Burst | Spread.

Inductive Distribution := Uniform | Zipf | Recency.

Inductive KeyFormat := Hex | Uuid.

Inductive DmaModule := Vdma | DmaLargeObj.

Inductive RespModule := RespModuleNone | LargeObj.

Inductive DmaProvider := EfaDirect | Tcp.

Inductive TimestampMode := Userspace | Software.

Inductive OutputFormat := Clean | Json | Verbose | Quiet.

Inductive ColorMode := Auto | Always | Never.

#[export] Instance Protocol_eq_dec : EqDecision Protocol.
Proof. solve_decision. Defined.

#[export] Instance EndpointAllocation_eq_dec : EqDecision EndpointAllocation.
Proof. solve_decision. Defined.

#[export] Instance Routing_eq_dec : EqDecision Routing.
Proof. solve_decision. Defined.

#[export] Instance KvWriteRule_eq_dec : EqDecision KvWriteRule.
Proof. solve_decision. Defined.

#[export] Instance KvKeyFormat_eq_dec : EqDecision KvKeyFormat.
Proof. solve_decision. Defined.

#[export] Instance AppendPace_eq_dec : EqDecision AppendPace.
Proof. solve_decision. Defined.

#[export] Instance Distribution_eq_dec : EqDecision Distribution.
Proof. solve_decision. Defined.

#[export] Instance KeyFormat_eq_dec : EqDecision KeyFormat.
Proof. solve_decision. Defined.

#[export] Instance DmaModule_eq_dec : EqDecision DmaModule.
Proof. solve_decision. Defined.

#[export] Instance RespModule_eq_dec : EqDecision RespModule.
Proof. solve_decision. Defined.

#[export] Instance TimestampMode_eq_dec : EqDecision TimestampMode.
Proof. solve_decision. Defined.

(** ** Structs *)

Module General.
Record t := {
  duration : Z;
  warmup : Z;
  threads : Z;
  cpu_list : option string;
  ringline_diag : bool;
  recv_ring_size : option Z;
  recv_buffer_size : option Z;
  seed : option Z;
}.
#[export] Instance eta_General : Settable t := fun x =>
  {| duration := duration x;
     warmup := warmup x;
     threads := threads x;
     cpu_list := cpu_list x;
     ringline_diag := ringline_diag x;
     recv_ring_size := recv_ring_size x;
     recv_buffer_size := recv_buffer_size x;
     seed := seed x |}.
End General.
Export (hints) General.

Module Target.
Record t := {
  endpoints : list SocketAddr;
  protocol : Protocol;
  tls : bool;
  tls_hostname : option string;
  tls_verify : bool;
  tls_ca_file : option string;
  tls_cert_file : option string;
  tls_key_file : option string;
  cluster : bool;
  auto_discovery : bool;
}.
#[export] Instance eta_Target : Settable t := fun x =>
  {| endpoints := endpoints x;
     protocol := protocol x;
     tls := tls x;
     tls_hostname := tls_hostname x;
     tls_verify := tls_verify x;
     tls_ca_file := tls_ca_file x;
     tls_cert_file := tls_cert_file x;
     tls_key_file := tls_key_file x;
     cluster := cluster x;
     auto_discovery := auto_discovery x |}.
End Target.
Export (hints) Target.

Module Connection.
Record t := {
  connections : Z;
  pool_size : option Z;
  pipeline_depth : Z;
  batch_size : option Z;
  connect_timeout : Z;
  request_timeout : Z;
  request_distribution : RequestDistribution;
  endpoint_allocation : EndpointAllocation;
}.
#[export] Instance eta_Connection : Settable t := fun x =>
  {| connections := connections x;
     pool_size := pool_size x;
     pipeline_depth := pipeline_depth x;
     batch_size := batch_size x;
     connect_timeout := connect_timeout x;
     request_timeout := request_timeout x;
     request_distribution := request_distribution x;
     endpoint_allocation := endpoint_allocation x |}.
End Connection.
Export (hints) Connection.

Module TraceReplay.
Record t := {
  trace : string;
  key_prefix : string;
  key_format : KvKeyFormat;
}.
#[export] Instance eta_TraceReplay : Settable t := fun x =>
  {| trace := trace x;
     key_prefix := key_prefix x;
     key_format := key_format x |}.
End TraceReplay.
Export (hints) TraceReplay.

Module KvReplay.
Record t := {
  trace : string;
  speedup : f64;
  model_config : option string;
  kv_dtype : option string;
  kv_bytes_per_token : option Z;
  mla : bool;
  tp : Z;
  write_rule : KvWriteRule;
  key_prefix : string;
  key_format : KvKeyFormat;
  requests_out : option string;
}.
#[export] Instance eta_KvReplay : Settable t := fun x =>
  {| trace := trace x;
     speedup := speedup x;
     model_config := model_config x;
     kv_dtype := kv_dtype x;
     kv_bytes_per_token := kv_bytes_per_token x;
     mla := mla x;
     tp := tp x;
     write_rule := write_rule x;
     key_prefix := key_prefix x;
     key_format := key_format x;
     requests_out := requests_out x |}.
End KvReplay.
Export (hints) KvReplay.

Module SloThresholds.
Record t := {
  p50 : option Z;
  p99 : option Z;
  p999 : option Z;
}.
#[export] Instance eta_SloThresholds : Settable t := fun x =>
  {| p50 := p50 x;
     p99 := p99 x;
     p999 := p999 x |}.
End SloThresholds.
Export (hints) SloThresholds.

Module SaturationSearch.
Record t := {
  slo : SloThresholds.t;
  start_rate : Z;
  step_multiplier : f64;
  sample_window : Z;
  drain_window : Z;
  stop_after_failures : Z;
  max_rate : Z;
  min_throughput_ratio : f64;
  confirm_failures : Z;
  floor_improvement_ratio : f64;
  bisect_tolerance : f64;
  max_bisect_steps : Z;
}.
#[export] Instance eta_SaturationSearch : Settable t := fun x =>
  {| slo := slo x;
     start_rate := start_rate x;
     step_multiplier := step_multiplier x;
     sample_window := sample_window x;
     drain_window := drain_window x;
     stop_after_failures := stop_after_failures x;
     max_rate := max_rate x;
     min_throughput_ratio := min_throughput_ratio x;
     confirm_failures := confirm_failures x;
     floor_improvement_ratio := floor_improvement_ratio x;
     bisect_tolerance := bisect_tolerance x;
     max_bisect_steps := max_bisect_steps x |}.
End SaturationSearch.
Export (hints) SaturationSearch.

Module Keyspace.
Record t := {
  length : Z;
  count : Z;
  distribution : Distribution;
  zipf_theta : f64;
  format : KeyFormat;
  hot_generations : Z;
  hot_decay : f64;
  hot_fraction : f64;
}.
#[export] Instance eta_Keyspace : Settable t := fun x =>
  {| length := length x;
     count := count x;
     distribution := distribution x;
     zipf_theta := zipf_theta x;
     format := format x;
     hot_generations := hot_generations x;
     hot_decay := hot_decay x;
     hot_fraction := hot_fraction x |}.
End Keyspace.
Export (hints) Keyspace.

Module Append.
Record t := {
  batch : Z;
  every : Z;
  pace : AppendPace;
  connections : Z;
  pipeline_depth : Z;
}.
#[export] Instance eta_Append : Settable t := fun x =>
  {| batch := batch x;
     every := every x;
     pace := pace x;
     connections := connections x;
     pipeline_depth := pipeline_depth x |}.
End Append.
Export (hints) Append.

Module Commands.
Record t := {
  get : Z;
  set : Z;
  delete : Z;
}.
#[export] Instance eta_Commands : Settable t := fun x =>
  {| get := get x;
     set := set x;
     delete := delete x |}.
End Commands.
Export (hints) Commands.

Module Values.
Record t := {
  length : Z;
}.
#[export] Instance eta_Values : Settable t := fun x =>
  {| length := length x |}.
End Values.
Export (hints) Values.

Module Timestamps.
Record t := {
  enabled : bool;
  mode : TimestampMode;
}.
#[export] Instance eta_Timestamps : Settable t := fun x =>
  {| enabled := enabled x;
     mode := mode x |}.
End Timestamps.
Export (hints) Timestamps.

Module Dma.
Record t := {
  module : DmaModule;
  provider : DmaProvider;
  interfaces : list string;
  buffer_capacity : option Z;
  checksum : bool;
}.
#[export] Instance eta_Dma : Settable t := fun x =>
  {| module := module x;
     provider := provider x;
     interfaces := interfaces x;
     buffer_capacity := buffer_capacity x;
     checksum := checksum x |}.
End Dma.
Export (hints) Dma.

Module Resp.
Record t := {
  module : RespModule;
}.
#[export] Instance eta_Resp : Settable t := fun x =>
  {| module := module x |}.
End Resp.
Export (hints) Resp.

Module Workload.
Record t := {
  rate_limit : option Z;
  prefill_rate_limit : option Z;
  prefill : bool;
  prefill_timeout : Z;
  prefill_settle : Z;
  backfill_on_miss : bool;
  routing : Routing;
  read_values : bool;
  keyspace : Keyspace.t;
  commands : Commands.t;
  values : Values.t;
  saturation_search : option SaturationSearch.t;
  append : option Append.t;
  kv_replay : option KvReplay.t;
  trace_replay : option TraceReplay.t;
}.
#[export] Instance eta_Workload : Settable t := fun x =>
  {| rate_limit := rate_limit x;
     prefill_rate_limit := prefill_rate_limit x;
     prefill := prefill x;
     prefill_timeout := prefill_timeout x;
     prefill_settle := prefill_settle x;
     backfill_on_miss := backfill_on_miss x;
     routing := routing x;
     read_values := read_values x;
     keyspace := keyspace x;
     commands := commands x;
     values := values x;
     saturation_search := saturation_search x;
     append := append x;
     kv_replay := kv_replay x;
     trace_replay := trace_replay x |}.
End Workload.
Export (hints) Workload.

Module Admin.
Record t := {
  listen : option SocketAddr;
  parquet : option string;
  parquet_interval : Z;
  format : OutputFormat;
  color : ColorMode;
}.
#[export] Instance eta_Admin : Settable t := fun x =>
  {| listen := listen x;
     parquet := parquet x;
     parquet_interval := parquet_interval x;
     format := format x;
     color := color x |}.
End Admin.
Export (hints) Admin.

Module Config.
Record t := {
  general : General.t;
  target : Target.t;
  connection : Connection.t;
  workload : Workload.t;
  timestamps : Timestamps.t;
  admin : Admin.t;
  dma : Dma.t;
  resp : Resp.t;
}.
#[export] Instance eta_Config : Settable t := fun x =>
  {| general := general x;
     target := target x;
     connection := connection x;
     workload := workload x;
     timestamps := timestamps x;
     admin := admin x;
     dma := dma x;
     resp := resp x |}.
End Config.
Export (hints) Config.

(** ** Defaults *)

Definition default_duration : Z := from_secs 60.

Definition default_warmup : Z := from_secs 10.

Definition default_tls_verify : bool := true.

Definition default_connections : Z := 1.

Definition default_pipeline_depth : Z := 1.

Definition default_connect_timeout : Z := from_secs 5.

Definition default_request_timeout : Z := from_secs 1.

Definition default_kv_speedup : f64 := f64_one.

Definition default_kv_tp : Z := 1.

Definition default_kv_key_prefix : string := "kv:".

Definition default_start_rate : Z := 1000.

Definition default_step_multiplier : f64 := f64_lit 105 100.

Definition default_sample_window : Z := from_secs 5.

Definition default_drain_window : Z := from_millis 500.

Definition default_stop_after_failures : Z := 3.

Definition default_max_rate : Z := 100000000.

Definition default_min_throughput_ratio : f64 := f64_lit 9 10.

Definition default_confirm_failures : Z := 1.

Definition default_floor_improvement_ratio : f64 := f64_lit 10 100.

Definition default_bisect_tolerance : f64 := f64_lit 5 100.

Definition default_max_bisect_steps : Z := 8.

Definition default_prefill_timeout : Z := from_secs 300.

Definition default_prefill_settle : Z := from_secs 60.

Definition default_hot_generations : Z := 8.

Definition default_hot_decay : f64 := f64_lit 5 10.

Definition default_hot_fraction : f64 := f64_lit 8 10.

Definition default_append_connections : Z := 1.

Definition default_append_pipeline_depth : Z := 32.

Definition default_key_length : Z := 16.

Definition default_key_count : Z := 1000000.

Definition MAX_ZIPF_THETA : f64 := f64_of_Z 10.

Definition default_zipf_theta : f64 := f64_lit 99 100.

Definition default_get_ratio : Z := 80.

Definition default_set_ratio : Z := 20.

Definition default_delete_ratio : Z := 0.

Definition default_value_length : Z := 64.

Definition default_timestamps_enabled : bool := true.

Definition default_parquet_interval : Z := from_secs 1.

(** [num_cpus] is the host's available parallelism. *)
Definition General_default (num_cpus : Z) : General.t :=
  {| General.duration := default_duration; General.warmup := default_warmup;
     General.threads := num_cpus; General.cpu_list := None;
     General.ringline_diag := false; General.recv_ring_size := None;
     General.recv_buffer_size := None; General.seed := None |}.

Definition Connection_default : Connection.t :=
  {| Connection.connections := default_connections; Connection.pool_size := None;
     Connection.pipeline_depth := default_pipeline_depth; Connection.batch_size := None;
     Connection.connect_timeout := default_connect_timeout;
     Connection.request_timeout := default_request_timeout;
     Connection.request_distribution := RoundRobin;
     Connection.endpoint_allocation := Even |}.

Definition Keyspace_default : Keyspace.t :=
  {| Keyspace.length := default_key_length; Keyspace.count := default_key_count;
     Keyspace.distribution := Uniform; Keyspace.zipf_theta := default_zipf_theta;
     Keyspace.format := Hex; Keyspace.hot_generations := default_hot_generations;
     Keyspace.hot_decay := default_hot_decay; Keyspace.hot_fraction := default_hot_fraction |}.

Definition Commands_default : Commands.t :=
  {| Commands.get := default_get_ratio; Commands.set := default_set_ratio;
     Commands.delete := default_delete_ratio |}.

Definition Values_default : Values.t := {| Values.length := default_value_length |}.

Definition Timestamps_default : Timestamps.t :=
  {| Timestamps.enabled := default_timestamps_enabled; Timestamps.mode := Userspace |}.

Definition Dma_default : Dma.t :=
  {| Dma.module := DmaLargeObj; Dma.provider := EfaDirect; Dma.interfaces := [];
     Dma.buffer_capacity := None; Dma.checksum := false |}.

Definition Admin_default : Admin.t :=
  {| Admin.listen := None; Admin.parquet := None;
     Admin.parquet_interval := default_parquet_interval;
     Admin.format := Clean; Admin.color := Auto |}.

(** Deserialising an empty [[workload]] table. *)
Definition Workload_empty : Workload.t :=
  {| Workload.rate_limit := None; Workload.prefill_rate_limit := None;
     Workload.prefill := false; Workload.prefill_timeout := default_prefill_timeout;
     Workload.prefill_settle := default_prefill_settle; Workload.backfill_on_miss := false;
     Workload.routing := Pinned; Workload.read_values := false;
     Workload.keyspace := Keyspace_default; Workload.commands := Commands_default;
     Workload.values := Values_default; Workload.saturation_search := None;
     Workload.append := None; Workload.kv_replay := None; Workload.trace_replay := None |}.

(** [Workload::default()], derived: the durations are zero, where an empty
    [[workload]] table would have the serde defaults. *)
Definition Workload_default : Workload.t :=
  Workload_empty <| Workload.prefill_timeout := 0 |> <| Workload.prefill_settle := 0 |>.

(** A file with only [target.endpoints] and [target.protocol]: the table
    [[workload]] is absent. *)
Definition minimal_config (num_cpus : Z) (endpoints : list SocketAddr) (p : Protocol) : Config.t :=
  {| Config.general := General_default num_cpus;
     Config.target :=
       {| Target.endpoints := endpoints; Target.protocol := p; Target.tls := false;
          Target.tls_hostname := None; Target.tls_verify := default_tls_verify;
          Target.tls_ca_file := None; Target.tls_cert_file := None;
          Target.tls_key_file := None; Target.cluster := false;
          Target.auto_discovery := false |};
     Config.connection := Connection_default; Config.workload := Workload_default;
     Config.timestamps := Timestamps_default; Config.admin := Admin_default;
     Config.dma := Dma_default; Config.resp := {| Resp.module := RespModuleNone |} |}.

(** ** Methods *)

(** [Connection::total_connections]. *)
Definition total_connections (c : Connection.t) : Z :=
  default (Connection.connections c) (Connection.pool_size c).

Definition KvWriteRule_as_str (r : KvWriteRule) : string :=
  match r with SetFromMiss => "set-from-miss" | InsertIfAbsent => "insert-if-absent" end.

Definition KeyFormat_from_u8 (v : Z) : KeyFormat := if v =? 1 then Uuid else Hex.

(** [RespModule::command_names]. *)
Definition command_names (m : RespModule) : option (string * string) :=
  match m with
  | RespModuleNone => None
  | LargeObj => Some ("BLOB.TCP_GET", "BLOB.TCP_SET")%string
  end.

(** [Dma::checksums_writes]. *)
Definition checksums_writes (d : Dma.t) : bool :=
  Dma.checksum d && bool_decide (Dma.module d = Vdma).

(** [Append::spread_rate]: SETs per second that spread a batch over its
    interval; [f64::ceil] then the cast, at least 1. *)
Definition spread_rate (a : Append.t) : Z :=
  let secs := f64_max (as_secs_f64 (Append.every a)) (f64_lit 1 1000000000) in
  Z.max (f64_to_u64 (f64_ceil (f64_div (f64_of_Z (Append.batch a)) secs))) 1.

(** [Config::effective_batch_size]. *)
Definition effective_batch_size (c : Config.t) : Z :=
  let depth := Connection.pipeline_depth (Config.connection c) in
  let unset := match Workload.routing (Config.workload c) with Routed => 1 | Pinned => depth end in
  clampZ (default unset (Connection.batch_size (Config.connection c))) 1 (Z.max depth 1).

(** [VALUE_POOL_SIZE] of the runner: 1 GiB. *)
Definition VALUE_POOL_SIZE : Z := 1024 * 1024 * 1024.
