(* ===== verification/Validate.v ===== *)
(** Validate: [Config::validate] and its parts ([src/src/config/mod.rs]).

    Each check is the source's condition and message, in the source's order;
    the first that fails is the result.  [dma_build] says whether the build
    has the [dma] feature, which the source tests at compile time. *)

From S2P Require Import Prelude F64 Config.
Open Scope Z_scope.

Inductive ConfigError :=
| Io (msg : string)
| Parse (msg : string)
| Validation (msg : string).

Abbreviation checked := (result ConfigError unit).

(** [if bad { return Err(Validation(msg)) }]. *)
Definition refuse_if (bad : bool) (msg : string) : checked :=
  if bad then Err (Validation msg) else Ok ().

Definition dquote : string := String (Ascii.ascii_of_nat 34) "".

Definition quoted (s : string) : string := (dquote ++ s ++ dquote)%string.

Definition Protocol_debug (p : Protocol) : string :=
  match p with
  | Resp_ => "Resp" | Resp3 => "Resp3" | Memcache => "Memcache"
  | MemcacheBinary => "MemcacheBinary" | Ping => "Ping" | Dma_ => "Dma"
  end.

Definition is_resp (p : Protocol) : bool :=
  match p with Resp_ | Resp3 => true | _ => false end.

Definition is_memcache (p : Protocol) : bool :=
  match p with Memcache | MemcacheBinary => true | _ => false end.

Definition is_power_of_two (n : Z) : bool := (0 <? n) && (Z.land n (n - 1) =? 0).

(** [(0.0..=1.0).contains(&x)]. *)
Definition in_unit (x : f64) : bool := f64_le f64_zero x && f64_le x f64_one.

Definition validate_prefill_pace (c : Config.t) : checked :=
  let w := Config.workload c in
  match Workload.prefill_rate_limit w with
  | Some rate =>
      if Workload.prefill w && (0 <? rate) && negb (Workload.prefill_timeout w =? 0) then
        let needed := f64_div (f64_of_Z (Keyspace.count (Workload.keyspace w))) (f64_of_Z rate) in
        let timeout := as_secs_f64 (Workload.prefill_timeout w) in
        refuse_if (f64_lt timeout needed)
          ("prefill of " ++ show_Z (Keyspace.count (Workload.keyspace w)) ++
           " keys at prefill_rate_limit = " ++ show_Z rate ++ " takes about " ++
           fmt_f64 0 needed ++ "s, longer than prefill_timeout (" ++ fmt_f64 0 timeout ++
           "s); raise prefill_timeout or set it to " ++ quoted "0s")
      else Ok ()
  | None => Ok ()
  end.

Definition validate_resp_module (c : Config.t) : checked :=
  match Resp.module (Config.resp c) with
  | RespModuleNone => Ok ()
  | LargeObj =>
      let refuse bad why :=
        refuse_if bad ("resp.module = " ++ quoted "largeobj" ++ " " ++ why) in
      refuse (negb (is_resp (Target.protocol (Config.target c))))
        ("applies to protocol = " ++ quoted "resp" ++ " or " ++ quoted "resp3" ++ " only")%string ;;
      refuse (bool_decide (is_Some (Workload.append (Config.workload c))))
        "does not support [workload.append]"%string ;;
      refuse (bool_decide (is_Some (Workload.kv_replay (Config.workload c))))
        "does not support [workload.kv_replay]"%string
  end.

Definition validate_routed (c : Config.t) : checked :=
  let bad b why := refuse_if b ("routing = " ++ quoted "routed" ++ " " ++ why) in
  let w := Config.workload c in
  bad ((default 0 (Workload.rate_limit w) =? 0) &&
       bool_decide (Workload.saturation_search w = None))
    ("needs workload.rate_limit > 0 or [workload.saturation_search]; " ++
     "closed-loop routing is not supported yet")%string ;;
  bad (negb (is_resp (Target.protocol (Config.target c)) ||
             is_memcache (Target.protocol (Config.target c))))
    "needs a RESP or memcache protocol"%string ;;
  bad (bool_decide (is_Some (Workload.kv_replay w)))
    "does not apply to [workload.kv_replay], which sets its own requests"%string ;;
  bad (bool_decide (is_Some (Workload.trace_replay w)))
    "does not apply to [workload.trace_replay], which sets its own requests"%string ;;
  bad (bool_decide (Connection.endpoint_allocation (Config.connection c) = KeyShare))
    ("cannot be combined with connection.endpoint_allocation = " ++ quoted "key_share" ++
     "; routing already gives each node its key share of the rate")%string.

(** The options a replay cannot be combined with, the first set one
    reported. *)
Fixpoint refuse_options (bad : bool -> string -> checked) (opts : list (bool * string)) : checked :=
  match opts with
  | [] => Ok ()
  | (set, key) :: rest =>
      bad set ("cannot be combined with " ++ key)%string ;; refuse_options bad rest
  end.

Definition validate_kv_replay (c : Config.t) (kv : KvReplay.t) : checked :=
  let bad b msg := refuse_if b ("workload.kv_replay: " ++ msg) in
  (match KvReplay.model_config kv, KvReplay.kv_bytes_per_token kv with
   | Some _, Some _ => bad true "set model_config or kv_bytes_per_token, not both"%string
   | None, None => bad true "one of model_config or kv_bytes_per_token is required"%string
   | None, Some b => bad (b =? 0) "kv_bytes_per_token must be >= 1"%string
   | _, _ => Ok ()
   end) ;;
  bad (bool_decide (is_Some (KvReplay.kv_dtype kv)) &&
       bool_decide (KvReplay.model_config kv = None))
    "kv_dtype applies only with model_config"%string ;;
  bad (KvReplay.mla kv && bool_decide (is_Some (KvReplay.model_config kv)))
    "mla applies only with kv_bytes_per_token; a model_config says it itself"%string ;;
  bad (negb (f64_is_finite (KvReplay.speedup kv)) || f64_lt (KvReplay.speedup kv) f64_zero)
    ("speedup must be finite and >= 0 (0 = closed loop), got " ++
     display_f64 (KvReplay.speedup kv))%string ;;
  bad (negb (KvReplay.tp kv =? 1))
    ("tp must be 1, got " ++ show_Z (KvReplay.tp kv) ++
     ": tensor parallelism needs one connection per rank, " ++
     "which kv_replay does not do yet (cachecannon#214)")%string ;;
  bad (Connection.pipeline_depth (Config.connection c) =? 0)
    "needs connection.pipeline_depth >= 1"%string ;;
  bad (negb (is_resp (Target.protocol (Config.target c))))
    "needs protocol resp or resp3 (it issues EXISTS, GET and SET)"%string ;;
  bad (Target.cluster (Config.target c) || (1 <? Z.of_nat (length (Target.endpoints (Config.target c)))))
    "needs a single endpoint; cluster and multi-endpoint routing are not supported"%string ;;
  let w := Config.workload c in
  refuse_options bad
    [(match Workload.rate_limit w with Some r => (0 <? r)%Z | None => false end, "rate_limit");
     (bool_decide (is_Some (Workload.saturation_search w)), "[workload.saturation_search]");
     (Workload.prefill w, "prefill");
     (Workload.backfill_on_miss w, "backfill_on_miss");
     (Workload.read_values w, "read_values");
     (bool_decide (is_Some (Workload.append w)), "[workload.append]")]%string.

Definition validate_trace_replay (c : Config.t) : checked :=
  let bad b msg := refuse_if b ("workload.trace_replay: " ++ msg) in
  bad (negb (is_resp (Target.protocol (Config.target c)))) "needs protocol resp or resp3"%string ;;
  bad (Target.cluster (Config.target c) || (1 <? Z.of_nat (length (Target.endpoints (Config.target c)))))
    "needs a single endpoint; cluster and multi-endpoint routing are not supported"%string ;;
  let w := Config.workload c in
  refuse_options bad
    [(bool_decide (is_Some (Workload.saturation_search w)), "[workload.saturation_search]");
     (Workload.prefill w, "prefill");
     (Workload.read_values w, "read_values");
     (bool_decide (is_Some (Workload.append w)), "[workload.append]");
     (bool_decide (is_Some (Workload.kv_replay w)), "[workload.kv_replay]")]%string.

(** *** The parts of [validate], in order *)

Definition validate_target (c : Config.t) : checked :=
  let t := Config.target c in
  refuse_if (bool_decide (Target.endpoints t = [])) "endpoints must be specified" ;;
  refuse_if (General.threads (Config.general c) =? 0) "threads must be >= 1" ;;
  (if Target.auto_discovery t then
     refuse_if (Target.cluster t)
       "target.auto_discovery and target.cluster cannot both be set" ;;
     refuse_if (negb (is_memcache (Target.protocol t)))
       ("target.auto_discovery requires protocol memcache or memcache-binary, got " ++
        Protocol_debug (Target.protocol t))
   else Ok ()) ;;
  validate_prefill_pace c.

Definition validate_recv (c : Config.t) : checked :=
  (match General.recv_ring_size (Config.general c) with
   | Some ring_size =>
       refuse_if (ring_size =? 0) "recv_ring_size must be >= 1" ;;
       refuse_if (negb (is_power_of_two ring_size))
         ("recv_ring_size must be a power of two (got " ++ show_Z ring_size ++ ")")
   | None => Ok ()
   end) ;;
  refuse_if (bool_decide (General.recv_buffer_size (Config.general c) = Some 0))
    "recv_buffer_size must be >= 1".

Definition validate_tls (c : Config.t) : checked :=
  let t := Config.target c in
  (match Target.tls_cert_file t, Target.tls_key_file t with
   | Some _, None =>
       refuse_if true "tls_cert_file requires tls_key_file (the client key for mutual TLS)"
   | None, Some _ =>
       refuse_if true "tls_key_file requires tls_cert_file (the client certificate chain)"
   | _, _ => Ok ()
   end) ;;
  refuse_if
    (negb (Target.tls t) &&
     (bool_decide (is_Some (Target.tls_ca_file t)) ||
      bool_decide (is_Some (Target.tls_cert_file t)) ||
      bool_decide (is_Some (Target.tls_key_file t))))
    "tls_ca_file / tls_cert_file / tls_key_file require tls = true".

Definition validate_dma (dma_build : bool) (c : Config.t) : checked :=
  if bool_decide (Target.protocol (Config.target c) = Dma_) then
    if dma_build then
      let depth := Connection.pipeline_depth (Config.connection c) in
      let len := Values.length (Workload.values (Config.workload c)) in
      refuse_if (negb (depth =? 1))
        ("protocol = " ++ quoted "dma" ++ " currently runs one transfer per connection; set " ++
         "connection.pipeline_depth = 1 (got " ++ show_Z depth ++
         ") and raise connections for concurrency") ;;
      refuse_if (bool_decide (is_Some (Workload.append (Config.workload c))))
        ("protocol = " ++ quoted "dma" ++ " does not support [workload.append]") ;;
      (match Dma.buffer_capacity (Config.dma c) with
       | Some capacity =>
           refuse_if (capacity <? len)
             ("dma.buffer_capacity (" ++ show_Z capacity ++
              ") must hold workload.values.length (" ++ show_Z len ++ ")")
       | None => Ok ()
       end)
    else
      refuse_if true
        ("protocol = " ++ quoted "dma" ++ " requires a build with --features dma (needs libfabric)")
  else Ok ().

Definition validate_keyspace (c : Config.t) : checked :=
  let ks := Workload.keyspace (Config.workload c) in
  let conn := Config.connection c in
  refuse_if (total_connections conn =? 0) "connections must be >= 1" ;;
  refuse_if (Values.length (Workload.values (Config.workload c)) =? 0)
    "workload.values.length must be >= 1" ;;
  refuse_if (bool_decide (Keyspace.format ks = Uuid) && negb (Keyspace.length ks =? 36))
    "keyspace.format = uuid requires keyspace.length = 36" ;;
  (if bool_decide (Keyspace.distribution ks = Zipf) then
     let theta := Keyspace.zipf_theta ks in
     refuse_if (negb (f64_is_finite theta) || f64_le theta f64_zero || f64_lt MAX_ZIPF_THETA theta)
       ("keyspace.zipf_theta must be in (0, " ++ display_f64 MAX_ZIPF_THETA ++ "] (got " ++ display_f64 theta ++ ")")
   else Ok ()) ;;
  (if bool_decide (Connection.endpoint_allocation conn = KeyShare) then
     let endpoints := Z.of_nat (length (Target.endpoints (Config.target c))) in
     refuse_if (negb (bool_decide (Keyspace.distribution ks = Zipf)))
       ("connection.endpoint_allocation = " ++ quoted "key_share" ++
        " requires keyspace.distribution = " ++ quoted "zipf") ;;
     refuse_if ((1 <? endpoints) && (total_connections conn <? endpoints))
       ("connection.endpoint_allocation = " ++ quoted "key_share" ++
        " requires connections >= " ++ show_Z endpoints ++
        ", the number of endpoints (validation runs before keys are " ++
        "assigned, so it counts endpoints that may own none)")
   else Ok ()) ;;
  (if bool_decide (Workload.routing (Config.workload c) = Routed) then validate_routed c else Ok ()).

Definition validate_recency (c : Config.t) : checked :=
  let ks := Workload.keyspace (Config.workload c) in
  let is_recency := bool_decide (Keyspace.distribution ks = Recency) in
  (match Workload.append (Config.workload c), is_recency with
   | None, true =>
       refuse_if true
         ("keyspace.distribution = " ++ quoted "recency" ++
          " requires a [workload.append] section " ++
          "(it supplies the batch size the hot window is measured in)")
   | Some _, false =>
       refuse_if true
         ("[workload.append] requires keyspace.distribution = " ++ quoted "recency" ++
          " (the stationary distributions cannot follow a growing keyspace)")
   | _, _ => Ok ()
   end) ;;
  (if is_recency then
     refuse_if (Keyspace.hot_generations ks =? 0) "keyspace.hot_generations must be >= 1" ;;
     refuse_if (negb (f64_is_finite (Keyspace.hot_decay ks)) ||
                f64_le (Keyspace.hot_decay ks) f64_zero || f64_lt f64_one (Keyspace.hot_decay ks))
       ("keyspace.hot_decay must be in (0, 1] (got " ++ display_f64 (Keyspace.hot_decay ks) ++ ")") ;;
     refuse_if (negb (f64_is_finite (Keyspace.hot_fraction ks)) || negb (in_unit (Keyspace.hot_fraction ks)))
       ("keyspace.hot_fraction must be in [0, 1] (got " ++ display_f64 (Keyspace.hot_fraction ks) ++ ")") ;;
     refuse_if (Keyspace.count ks =? 0)
       ("keyspace.count must be >= 1 with distribution = " ++ quoted "recency")
   else Ok ()).

Definition validate_append (c : Config.t) : checked :=
  match Workload.append (Config.workload c) with
  | None => Ok ()
  | Some a =>
      let endpoints := Z.of_nat (length (Target.endpoints (Config.target c))) in
      refuse_if (Append.batch a =? 0) "append.batch must be >= 1" ;;
      refuse_if (Append.every a =? 0) "append.every must be > 0" ;;
      refuse_if (Append.connections a =? 0) "append.connections must be >= 1" ;;
      refuse_if (Append.pipeline_depth a =? 0) "append.pipeline_depth must be >= 1" ;;
      refuse_if (bool_decide (Target.protocol (Config.target c) = Ping))
        ("[workload.append] needs a protocol with SET (resp, resp3, memcache, " ++
         "memcache-binary); ping has none") ;;
      refuse_if ((1 <? endpoints) && (Append.connections a <? endpoints))
        ("append.connections (" ++ show_Z (Append.connections a) ++
         ") must be >= the number of endpoints (" ++ show_Z endpoints ++
         ") so every node's append queue has a writer draining it")
  end.

Definition validate_values (c : Config.t) : checked :=
  let w := Config.workload c in
  refuse_if (Workload.read_values w && bool_decide (Target.protocol (Config.target c) = Ping))
    ("workload.read_values needs a protocol with GET (resp, resp3, memcache, " ++
     "memcache-binary); ping has none") ;;
  refuse_if (Workload.read_values w && bool_decide (Target.protocol (Config.target c) = Dma_))
    ("workload.read_values does not apply to protocol = " ++ quoted "dma" ++
     "; use dma.checksum = true to checksum each value a GET returns") ;;
  refuse_if (VALUE_POOL_SIZE <? Values.length (Workload.values w))
    ("workload.values.length (" ++ show_Z (Values.length (Workload.values w)) ++
     ") exceeds the value pool size (" ++ show_Z VALUE_POOL_SIZE ++ ")") ;;
  refuse_if (bool_decide (Timestamps.mode (Config.timestamps c) = Software))
    ("timestamps.mode = " ++ quoted "software" ++
     " (kernel SO_TIMESTAMPING) was removed: ringline " ++
     "no longer has a kernel receive-timestamp mode. Use " ++ quoted "userspace" ++
     " or omit the key; latency is timed with the userspace clock") ;;
  let cmds := Workload.commands w in
  refuse_if ((Commands.get cmds =? 0) && (Commands.set cmds =? 0) && (Commands.delete cmds =? 0))
    "at least one command ratio (get, set, delete) must be > 0".

Definition validate_saturation (c : Config.t) : checked :=
  match Workload.saturation_search (Config.workload c) with
  | None => Ok ()
  | Some sat =>
      let slo := SaturationSearch.slo sat in
      refuse_if (SaturationSearch.start_rate sat =? 0) "saturation_search.start_rate must be > 0" ;;
      refuse_if (f64_le (SaturationSearch.step_multiplier sat) f64_one)
        "saturation_search.step_multiplier must be > 1.0" ;;
      refuse_if (negb (in_unit (SaturationSearch.min_throughput_ratio sat)))
        "saturation_search.min_throughput_ratio must be between 0.0 and 1.0" ;;
      refuse_if (bool_decide (SloThresholds.p50 slo = None) &&
                 bool_decide (SloThresholds.p99 slo = None) &&
                 bool_decide (SloThresholds.p999 slo = None))
        "saturation_search.slo must have at least one threshold (p50, p99, or p999)"
  end.

(** [Config::validate]. *)
Definition validate (dma_build : bool) (c : Config.t) : checked :=
  validate_target c ;;
  validate_recv c ;;
  validate_tls c ;;
  validate_dma dma_build c ;;
  validate_resp_module c ;;
  validate_keyspace c ;;
  validate_recency c ;;
  validate_append c ;;
  validate_values c ;;
  (match Workload.kv_replay (Config.workload c) with
   | Some kv => validate_kv_replay c kv
   | None => Ok ()
   end) ;;
  (if bool_decide (is_Some (Workload.trace_replay (Config.workload c)))
   then validate_trace_replay c else Ok ()) ;;
  validate_saturation c.

(** ** What a valid configuration is

    Stated without order or messages: one field per requirement. *)

Record replay_compatible (c : Config.t) : Prop := {
  rc_protocol : is_resp (Target.protocol (Config.target c)) = true;
  rc_cluster : Target.cluster (Config.target c) = false;
  rc_endpoint : (length (Target.endpoints (Config.target c)) <= 1)%nat;
  rc_search : Workload.saturation_search (Config.workload c) = None;
  rc_prefill : Workload.prefill (Config.workload c) = false;
  rc_read : Workload.read_values (Config.workload c) = false;
  rc_append : Workload.append (Config.workload c) = None;
}.

Record kv_valid (c : Config.t) (kv : KvReplay.t) : Prop := {
  kv_geometry : match KvReplay.model_config kv, KvReplay.kv_bytes_per_token kv with
                | Some _, None => KvReplay.mla kv = false
                | None, Some b => b <> 0 /\ KvReplay.kv_dtype kv = None
                | _, _ => False
                end;
  kv_speedup : f64_is_finite (KvReplay.speedup kv) = true /\
               f64_lt (KvReplay.speedup kv) f64_zero = false;
  kv_tp : KvReplay.tp kv = 1;
  kv_depth : Connection.pipeline_depth (Config.connection c) <> 0;
  kv_compatible : replay_compatible c;
  kv_rate : forall r, Workload.rate_limit (Config.workload c) = Some r -> r <= 0;
  kv_backfill : Workload.backfill_on_miss (Config.workload c) = false;
}.

Record routed_valid (c : Config.t) : Prop := {
  ro_rate : default 0 (Workload.rate_limit (Config.workload c)) <> 0 \/
            is_Some (Workload.saturation_search (Config.workload c));
  ro_protocol : is_resp (Target.protocol (Config.target c)) = true \/
                is_memcache (Target.protocol (Config.target c)) = true;
  ro_kv : Workload.kv_replay (Config.workload c) = None;
  ro_trace : Workload.trace_replay (Config.workload c) = None;
  ro_alloc : Connection.endpoint_allocation (Config.connection c) = Even;
}.

(** The distribution and the append section agree, and each carries the
    parameters its sampler and its writers need. *)
Record append_valid (c : Config.t) (a : Append.t) : Prop := {
  ap_dist : Keyspace.distribution (Workload.keyspace (Config.workload c)) = Recency;
  ap_generations : Keyspace.hot_generations (Workload.keyspace (Config.workload c)) <> 0;
  ap_decay : f64_is_finite (Keyspace.hot_decay (Workload.keyspace (Config.workload c))) = true /\
             f64_le (Keyspace.hot_decay (Workload.keyspace (Config.workload c))) f64_zero = false /\
             f64_lt f64_one (Keyspace.hot_decay (Workload.keyspace (Config.workload c))) = false;
  ap_fraction : f64_is_finite (Keyspace.hot_fraction (Workload.keyspace (Config.workload c))) = true /\
                in_unit (Keyspace.hot_fraction (Workload.keyspace (Config.workload c))) = true;
  ap_count : Keyspace.count (Workload.keyspace (Config.workload c)) <> 0;
  ap_batch : Append.batch a <> 0;
  ap_every : Append.every a <> 0;
  ap_connections : Append.connections a <> 0;
  ap_depth : Append.pipeline_depth a <> 0;
  ap_protocol : Target.protocol (Config.target c) <> Ping;
  ap_writers : Z.of_nat (length (Target.endpoints (Config.target c))) <= 1 \/
               Z.of_nat (length (Target.endpoints (Config.target c))) <= Append.connections a;
}.

Record saturation_valid (s : SaturationSearch.t) : Prop := {
  sv_start : SaturationSearch.start_rate s <> 0;
  sv_multiplier : f64_le (SaturationSearch.step_multiplier s) f64_one = false;
  sv_ratio : in_unit (SaturationSearch.min_throughput_ratio s) = true;
  sv_slo : is_Some (SloThresholds.p50 (SaturationSearch.slo s)) \/
           is_Some (SloThresholds.p99 (SaturationSearch.slo s)) \/
           is_Some (SloThresholds.p999 (SaturationSearch.slo s));
}.

Record tls_valid (t : Target.t) : Prop := {
  tls_pair : is_Some (Target.tls_cert_file t) <-> is_Some (Target.tls_key_file t);
  tls_needed : Target.tls t = false ->
    Target.tls_ca_file t = None /\ Target.tls_cert_file t = None /\ Target.tls_key_file t = None;
}.

Record dma_valid (c : Config.t) : Prop := {
  dv_depth : Connection.pipeline_depth (Config.connection c) = 1;
  dv_append : Workload.append (Config.workload c) = None;
  dv_capacity : forall cap, Dma.buffer_capacity (Config.dma c) = Some cap ->
    Values.length (Workload.values (Config.workload c)) <= cap;
}.

(** A prefill at [rate] per second fits the timeout, when both are set. *)
Definition pace_fits (w : Workload.t) : Prop :=
  forall rate, Workload.prefill w = true -> Workload.prefill_rate_limit w = Some rate ->
    0 < rate -> Workload.prefill_timeout w <> 0 ->
    f64_lt (as_secs_f64 (Workload.prefill_timeout w))
           (f64_div (f64_of_Z (Keyspace.count (Workload.keyspace w))) (f64_of_Z rate)) = false.

Record valid (dma_build : bool) (c : Config.t) : Prop := {
  v_endpoints : Target.endpoints (Config.target c) <> [];
  v_threads : General.threads (Config.general c) <> 0;
  v_discovery : Target.auto_discovery (Config.target c) = true ->
    Target.cluster (Config.target c) = false /\ is_memcache (Target.protocol (Config.target c)) = true;
  v_pace : pace_fits (Config.workload c);
  v_ring : forall n, General.recv_ring_size (Config.general c) = Some n ->
    n <> 0 /\ is_power_of_two n = true;
  v_buffer : General.recv_buffer_size (Config.general c) <> Some 0;
  v_tls : tls_valid (Config.target c);
  v_dma : Target.protocol (Config.target c) = Dma_ -> dma_build = true /\ dma_valid c;
  v_module : Resp.module (Config.resp c) = LargeObj ->
    is_resp (Target.protocol (Config.target c)) = true /\
    Workload.append (Config.workload c) = None /\ Workload.kv_replay (Config.workload c) = None;
  v_connections : total_connections (Config.connection c) <> 0;
  v_value : Values.length (Workload.values (Config.workload c)) <> 0 /\
            Values.length (Workload.values (Config.workload c)) <= VALUE_POOL_SIZE;
  v_uuid : Keyspace.format (Workload.keyspace (Config.workload c)) = Uuid ->
    Keyspace.length (Workload.keyspace (Config.workload c)) = 36;
  v_zipf : Keyspace.distribution (Workload.keyspace (Config.workload c)) = Zipf ->
    f64_is_finite (Keyspace.zipf_theta (Workload.keyspace (Config.workload c))) = true /\
    f64_le (Keyspace.zipf_theta (Workload.keyspace (Config.workload c))) f64_zero = false /\
    f64_lt MAX_ZIPF_THETA (Keyspace.zipf_theta (Workload.keyspace (Config.workload c))) = false;
  v_share : Connection.endpoint_allocation (Config.connection c) = KeyShare ->
    Keyspace.distribution (Workload.keyspace (Config.workload c)) = Zipf /\
    (Z.of_nat (length (Target.endpoints (Config.target c))) <= 1 \/
     Z.of_nat (length (Target.endpoints (Config.target c))) <= total_connections (Config.connection c));
  v_routed : Workload.routing (Config.workload c) = Routed -> routed_valid c;
  v_recency : Keyspace.distribution (Workload.keyspace (Config.workload c)) = Recency ->
    is_Some (Workload.append (Config.workload c));
  v_append : forall a, Workload.append (Config.workload c) = Some a -> append_valid c a;
  v_read : Workload.read_values (Config.workload c) = true ->
    Target.protocol (Config.target c) <> Ping /\ Target.protocol (Config.target c) <> Dma_;
  v_timestamps : Timestamps.mode (Config.timestamps c) = Userspace;
  v_commands : ~ (Commands.get (Workload.commands (Config.workload c)) = 0 /\
                  Commands.set (Workload.commands (Config.workload c)) = 0 /\
                  Commands.delete (Workload.commands (Config.workload c)) = 0);
  v_kv : forall kv, Workload.kv_replay (Config.workload c) = Some kv -> kv_valid c kv;
  v_trace : is_Some (Workload.trace_replay (Config.workload c)) ->
    replay_compatible c /\ Workload.kv_replay (Config.workload c) = None;
  v_saturation : forall s, Workload.saturation_search (Config.workload c) = Some s ->
    saturation_valid s;
}.

(** ** Proofs *)

Lemma refuse_if_ok b msg : refuse_if b msg = Ok () <-> b = false.
Proof. by destruct b. Qed.

Lemma seq_ok (a b : checked) : (a ;; b) = Ok () <-> a = Ok () /\ b = Ok ().
Proof. destruct a as [[]|]; naive_solver. Qed.

Lemma if_ok (b : bool) (m : checked) : (if b then m else Ok ()) = Ok () <-> (b = true -> m = Ok ()).
Proof. destruct b; naive_solver. Qed.

Lemma some_none {A} (o : option A) : bool_decide (is_Some o) = false <-> o = None.
Proof. rewrite bool_decide_eq_false, <-eq_None_not_Some. done. Qed.

Lemma decide_false (P : Prop) `{Decision P} : bool_decide P = false <-> ~ P.
Proof. apply bool_decide_eq_false. Qed.

Lemma decide_true (P : Prop) `{Decision P} : bool_decide P = true <-> P.
Proof. apply bool_decide_eq_true. Qed.

Lemma is_Some_Some {A} (x : A) : is_Some (Some x) <-> True.
Proof. split; [done|]. by eexists. Qed.

Lemma is_Some_None' {A} : is_Some (@None A) <-> False.
Proof. split; [apply is_Some_None|done]. Qed.

(** Turn a chain of checks into the facts they assert. *)
Ltac checks :=
  rewrite ?refuse_if_ok; repeat (rewrite ?seq_ok, ?if_ok; rewrite ?refuse_if_ok);
  repeat (rewrite ?orb_false_iff, ?andb_false_iff, ?negb_false_iff, ?some_none,
            ?decide_false, ?decide_true, ?Z.eqb_neq, ?Z.eqb_eq, ?Z.ltb_ge,
            ?is_Some_Some, ?is_Some_None').

Lemma validate_recv_ok c :
  validate_recv c = Ok () <->
  (forall n, General.recv_ring_size (Config.general c) = Some n -> n <> 0 /\ is_power_of_two n = true) /\
  General.recv_buffer_size (Config.general c) <> Some 0.
Proof.
  unfold validate_recv. destruct (General.recv_ring_size _); checks; naive_solver.
Qed.

Lemma validate_tls_ok c : validate_tls c = Ok () <-> tls_valid (Config.target c).
Proof.
  unfold validate_tls. set (t := Config.target c).
  transitivity
    ((is_Some (Target.tls_cert_file t) <-> is_Some (Target.tls_key_file t)) /\
     (Target.tls t = false -> Target.tls_ca_file t = None /\
        Target.tls_cert_file t = None /\ Target.tls_key_file t = None)).
  - destruct (Target.tls_cert_file t), (Target.tls_key_file t); checks;
      destruct (Target.tls t); intuition congruence.
  - split; [intros []; by constructor | intros []; done].
Qed.

Lemma validate_dma_ok b c :
  validate_dma b c = Ok () <->
  (Target.protocol (Config.target c) = Dma_ -> b = true /\ dma_valid c).
Proof.
  unfold validate_dma. checks.
  destruct b; [|cbn; naive_solver].
  split; intros H P; specialize (H P).
  - revert H. checks. intros (H1 & H2 & H3). split; [done|]. constructor; [done|done|].
    intros cap E. rewrite E in H3. revert H3. checks. done.
  - destruct H as [_ [H1 H2 H3]]. checks. split_and!; [done..|].
    destruct (Dma.buffer_capacity _) eqn:E; [|done]. checks. by apply H3.
Qed.

Lemma validate_pace_ok c : validate_prefill_pace c = Ok () <-> pace_fits (Config.workload c).
Proof.
  unfold validate_prefill_pace, pace_fits. set (w := Config.workload c).
  destruct (Workload.prefill_rate_limit w) as [rate|]; [|split; [congruence|done]].
  rewrite if_ok, refuse_if_ok, !andb_true_iff, Z.ltb_lt, negb_true_iff, Z.eqb_neq.
  split; [|naive_solver]. intros H r ? [= <-] ??. by apply H.
Qed.

Lemma validate_target_ok c :
  validate_target c = Ok () <->
  Target.endpoints (Config.target c) <> [] /\ General.threads (Config.general c) <> 0 /\
  (Target.auto_discovery (Config.target c) = true ->
     Target.cluster (Config.target c) = false /\
     is_memcache (Target.protocol (Config.target c)) = true) /\
  pace_fits (Config.workload c).
Proof.
  unfold validate_target. rewrite <- validate_pace_ok. checks. tauto.
Qed.

Lemma validate_module_ok c :
  validate_resp_module c = Ok () <->
  (Resp.module (Config.resp c) = LargeObj ->
   is_resp (Target.protocol (Config.target c)) = true /\
   Workload.append (Config.workload c) = None /\ Workload.kv_replay (Config.workload c) = None).
Proof.
  unfold validate_resp_module. destruct (Resp.module _); [split; [done|congruence]|].
  checks. tauto.
Qed.

Lemma validate_routed_ok c : validate_routed c = Ok () <-> routed_valid c.
Proof.
  unfold validate_routed. checks.
  split.
  - intros (H1 & H2 & ? & ? & H3). constructor; try done.
    + destruct H1; [by left|right]. by apply not_eq_None_Some.
    + apply orb_true_iff, H2.
    + destruct (Connection.endpoint_allocation _); congruence.
  - intros [H1 H2 ?? H3]. rewrite H3. split_and!; try done.
    + destruct H1; [by left|right]. by apply not_eq_None_Some.
    + by apply orb_true_iff.
Qed.

Lemma refuse_options_ok msg opts :
  refuse_options (fun b m => refuse_if b (msg m)) opts = Ok () <->
  Forall (fun o => o.1 = false) opts.
Proof.
  induction opts as [|[b k] opts IH]; cbn; [by split|].
  rewrite seq_ok, refuse_if_ok, IH, Forall_cons. done.
Qed.

Lemma one_endpoint c :
  (1 <? Z.of_nat (length (Target.endpoints (Config.target c)))) = false <->
  (length (Target.endpoints (Config.target c)) <= 1)%nat.
Proof. rewrite Z.ltb_ge. lia. Qed.

Lemma validate_trace_ok c :
  validate_trace_replay c = Ok () <->
  replay_compatible c /\ Workload.kv_replay (Config.workload c) = None.
Proof.
  unfold validate_trace_replay.
  rewrite !seq_ok, !refuse_if_ok, refuse_options_ok, negb_false_iff, orb_false_iff, one_endpoint.
  rewrite !Forall_cons; cbn. rewrite !some_none. split.
  - intros (? & [] & ? & ? & ? & ? & ? & _). done.
  - intros [[] ?]. done.
Qed.

Lemma validate_kv_ok c kv : validate_kv_replay c kv = Ok () <-> kv_valid c kv.
Proof.
  unfold validate_kv_replay.
  rewrite !seq_ok, !refuse_if_ok, refuse_options_ok, !orb_false_iff, !andb_false_iff,
    !negb_false_iff, one_endpoint, !some_none, !decide_false, Z.eqb_eq, Z.eqb_neq.
  rewrite !Forall_cons; cbn. rewrite !some_none. split.
  - intros (G & D & M & S & T & P & R & [C E] & L & F1 & F2 & F3 & F4 & F5 & _).
    constructor; try done.
    + destruct (KvReplay.model_config kv), (KvReplay.kv_bytes_per_token kv) as [b|]; try done.
      * by destruct M.
      * apply refuse_if_ok, Z.eqb_neq in G. split; [done|]. by destruct D.
    + intros r Hr. rewrite Hr in L. by apply Z.ltb_ge in L.
  - intros [G [S1 S2] T P [R C E F1 F2 F4 F5] L F3]. split_and!; try done.
    + destruct (KvReplay.model_config kv), (KvReplay.kv_bytes_per_token kv) as [b|]; try done.
      apply refuse_if_ok, Z.eqb_neq. tauto.
    + destruct (KvReplay.model_config kv); [by right|left].
      destruct (KvReplay.kv_bytes_per_token kv); tauto.
    + destruct (KvReplay.model_config kv); [left|by right].
      by destruct (KvReplay.kv_bytes_per_token kv).
    + destruct (Workload.rate_limit _) as [r|]; [|done]. apply Z.ltb_ge. by apply L.
Qed.

Lemma validate_keyspace_ok c :
  validate_keyspace c = Ok () <->
  total_connections (Config.connection c) <> 0 /\
  Values.length (Workload.values (Config.workload c)) <> 0 /\
  (Keyspace.format (Workload.keyspace (Config.workload c)) = Uuid ->
     Keyspace.length (Workload.keyspace (Config.workload c)) = 36) /\
  (Keyspace.distribution (Workload.keyspace (Config.workload c)) = Zipf ->
    f64_is_finite (Keyspace.zipf_theta (Workload.keyspace (Config.workload c))) = true /\
    f64_le (Keyspace.zipf_theta (Workload.keyspace (Config.workload c))) f64_zero = false /\
    f64_lt MAX_ZIPF_THETA (Keyspace.zipf_theta (Workload.keyspace (Config.workload c))) = false) /\
  (Connection.endpoint_allocation (Config.connection c) = KeyShare ->
    Keyspace.distribution (Workload.keyspace (Config.workload c)) = Zipf /\
    (Z.of_nat (length (Target.endpoints (Config.target c))) <= 1 \/
     Z.of_nat (length (Target.endpoints (Config.target c))) <= total_connections (Config.connection c))) /\
  (Workload.routing (Config.workload c) = Routed -> routed_valid c).
Proof.
  unfold validate_keyspace. rewrite <- validate_routed_ok. checks.
  destruct (decide (Keyspace.format (Workload.keyspace (Config.workload c)) = Uuid)); tauto.
Qed.

(** The recency section and the append section are checked one after the
    other; together they are [append_valid]. *)
Lemma validate_append_ok c :
  (validate_recency c = Ok () /\ validate_append c = Ok ()) <->
  (Keyspace.distribution (Workload.keyspace (Config.workload c)) = Recency ->
     is_Some (Workload.append (Config.workload c))) /\
  (forall a, Workload.append (Config.workload c) = Some a -> append_valid c a).
Proof.
  unfold validate_recency, validate_append.
  destruct (Workload.append (Config.workload c)) as [a|] eqn:EA;
    destruct (bool_decide (Keyspace.distribution _ = Recency)) eqn:ED;
    rewrite ?bool_decide_eq_true, ?bool_decide_eq_false in ED; checks; split.
  - intros H. split; [done|]. intros ? [= <-]. constructor; tauto.
  - intros (_ & H). destruct (H a eq_refl). tauto.
  - intros H. exfalso. intuition congruence.
  - intros [_ H]. destruct (H a eq_refl). done.
  - intros H. exfalso. intuition congruence.
  - intros [H _]. exfalso. naive_solver.
  - done.
  - done.
Qed.

Lemma validate_values_ok c :
  validate_values c = Ok () <->
  (Workload.read_values (Config.workload c) = true ->
    Target.protocol (Config.target c) <> Ping /\ Target.protocol (Config.target c) <> Dma_) /\
  Values.length (Workload.values (Config.workload c)) <= VALUE_POOL_SIZE /\
  Timestamps.mode (Config.timestamps c) = Userspace /\
  ~ (Commands.get (Workload.commands (Config.workload c)) = 0 /\
     Commands.set (Workload.commands (Config.workload c)) = 0 /\
     Commands.delete (Workload.commands (Config.workload c)) = 0).
Proof.
  unfold validate_values. checks.
  assert (Timestamps.mode (Config.timestamps c) <> Software <->
          Timestamps.mode (Config.timestamps c) = Userspace) as ->
    by (destruct (Timestamps.mode _); naive_solver).
  destruct (Workload.read_values _);
    destruct (decide (Commands.get (Workload.commands (Config.workload c)) = 0));
    destruct (decide (Commands.set (Workload.commands (Config.workload c)) = 0));
    intuition congruence.
Qed.

Lemma validate_saturation_ok c :
  validate_saturation c = Ok () <->
  (forall s, Workload.saturation_search (Config.workload c) = Some s -> saturation_valid s).
Proof.
  unfold validate_saturation. destruct (Workload.saturation_search _) as [s|]; [|split; [congruence|done]].
  checks. rewrite !not_eq_None_Some. split.
  - intros (? & ? & ? & H) ? [= <-]. constructor; try done. tauto.
  - intros H. destruct (H s eq_refl). tauto.
Qed.

(** The parts of [validate] as the conditions they check. *)
Ltac open_validate c :=
  unfold validate; rewrite !seq_ok;
  assert ((match Workload.kv_replay (Config.workload c) with
           | Some kv => validate_kv_replay c kv | None => Ok () end) = Ok () <->
          (forall kv, Workload.kv_replay (Config.workload c) = Some kv -> kv_valid c kv)) as ->
    by (setoid_rewrite <- validate_kv_ok; destruct (Workload.kv_replay _); naive_solver);
  rewrite if_ok, decide_true, validate_trace_ok, validate_target_ok, validate_recv_ok,
    validate_tls_ok, validate_dma_ok, validate_module_ok, validate_keyspace_ok,
    validate_values_ok, validate_saturation_ok;
  pose proof (validate_append_ok c).

Lemma validate_valid dma_build c : validate dma_build c = Ok () -> valid dma_build c.
Proof.
  open_validate c. intros ([] & [] & ? & ? & ? & [] & R & P & ?).
  destruct (proj1 H (conj R P)). destruct_hyps. constructor; tauto.
Qed.

