(* ===== verification/RateSearch.v ===== *)
(** RateSearch: the rate search of the saturation mode
    ([src/src/saturation.rs], [RateSearch]).

    A geometric climb to the first confirmed SLO failure, then a bisection
    between the last good rate and the failed one.  Each [advance] takes the
    verdict on the current rate and the measured SLO-percentile latency and
    answers the next rate to measure or the knee. *)

From S2P Require Import Prelude F64.
Open Scope Z_scope.

Inductive SearchPhase := Climb | Bisect.

#[export] Instance SearchPhase_eq_dec : EqDecision SearchPhase.
Proof. solve_decision. Defined.

Inductive SearchOutcome :=
| Probe (rate : Z)
| Done (knee : option Z).

Record RateSearch := {
  phase : SearchPhase;
  current_rate : Z;
  last_good : option Z;
  lo : Z;
  hi : Z;
  bisect_steps : Z;
  step_multiplier : f64;
  max_rate : Z;
  bisect_tolerance : f64;
  max_bisect_steps : Z;
  confirm_failures : Z;
  failures_at_rate : Z;
  floor_improvement_ratio : f64;
  last_confirmed_fail : option (Z * f64);
  floor_detected : bool;
}.

#[export] Instance eta_RateSearch : Settable RateSearch := fun x =>
  {| phase := phase x; current_rate := current_rate x; last_good := last_good x;
     lo := lo x; hi := hi x; bisect_steps := bisect_steps x;
     step_multiplier := step_multiplier x; max_rate := max_rate x;
     bisect_tolerance := bisect_tolerance x; max_bisect_steps := max_bisect_steps x;
     confirm_failures := confirm_failures x; failures_at_rate := failures_at_rate x;
     floor_improvement_ratio := floor_improvement_ratio x;
     last_confirmed_fail := last_confirmed_fail x; floor_detected := floor_detected x |}.

(** [RateSearch::new]. *)
Definition new_search (start_rate : Z) (step_multiplier : f64) (max_rate : Z)
    (bisect_tolerance : f64) (max_bisect_steps confirm_failures : Z)
    (floor_improvement_ratio : f64) : RateSearch :=
  {| phase := Climb; current_rate := start_rate; last_good := None; lo := 0; hi := 0;
     bisect_steps := 0; step_multiplier := step_multiplier; max_rate := max_rate;
     bisect_tolerance := bisect_tolerance; max_bisect_steps := max_bisect_steps;
     confirm_failures := confirm_failures; failures_at_rate := 0;
     floor_improvement_ratio := floor_improvement_ratio;
     last_confirmed_fail := None; floor_detected := false |}.

(** [RateSearch::is_climbing]. *)
Definition is_climbing (s : RateSearch) : bool := bool_decide (phase s = Climb).

(** [+= 1] on a [u32] counter. *)
Definition incr32 (n : Z) : Z := (n + 1) mod 2 ^ 32.

(** [RateSearch::bisect_probe]. *)
Definition bisect_probe (s : RateSearch) : RateSearch * SearchOutcome :=
  let mid := wrap64 (lo s + wrap64 (hi s - lo s) / 2) in
  let mid := Z.max (Z.min (Z.max mid (wrap64 (lo s + 1))) (sat_sub (hi s) 1)) 1 in
  (s <| current_rate := mid |>, Probe mid).

(** The latency-floor test of a confirmed failure, while no rate has passed:
    [Some] latency of an earlier failure at twice this rate or more that this
    failure did not improve on by the required ratio. *)
Definition floor_reached (s : RateSearch) (slo_latency_us : f64) : bool :=
  match last_confirmed_fail s with
  | Some (prev_rate, prev_us) =>
      (sat_mul (current_rate s) 2 <=? prev_rate) && f64_lt f64_zero prev_us &&
      f64_lt (f64_div (f64_sub prev_us slo_latency_us) prev_us) (floor_improvement_ratio s)
  | None => false
  end.

(** The failure half of [advance], after confirmation: stop at a latency
    floor, or remember this failure. *)
Definition note_confirmed_failure (s : RateSearch) (slo_latency_us : f64) : RateSearch * bool :=
  if bool_decide (last_good s = None) && f64_lt f64_zero (floor_improvement_ratio s) &&
     f64_is_finite slo_latency_us && f64_lt f64_zero slo_latency_us
  then
    if floor_reached s slo_latency_us then (s <| floor_detected := true |>, true)
    else (s <| last_confirmed_fail := Some (current_rate s, slo_latency_us) |>, false)
  else (s, false).

(** The [SearchPhase::Climb] arm of [advance]. *)
Definition climb_step (s : RateSearch) (passed : bool) : RateSearch * SearchOutcome :=
  if negb passed then
    bisect_probe (s <| lo := default 0 (last_good s) |> <| hi := current_rate s |>
                    <| phase := Bisect |>)
  else
    let next := f64_to_u64 (f64_mul (f64_of_Z (current_rate s)) (step_multiplier s)) in
    if max_rate s <=? next then
      if max_rate s <=? current_rate s then (s, Done (last_good s))
      else (s <| current_rate := max_rate s |>, Probe (max_rate s))
    else
      let next := Z.max next (wrap64 (current_rate s + 1)) in
      (s <| current_rate := next |>, Probe next).

(** The [SearchPhase::Bisect] arm of [advance]. *)
Definition bisect_step (s : RateSearch) (passed : bool) : RateSearch * SearchOutcome :=
  let s := if passed then s <| lo := current_rate s |> else s <| hi := current_rate s |> in
  let s := s <| bisect_steps := incr32 (bisect_steps s) |> in
  let width := if 0 <? hi s
               then f64_div (f64_of_Z (wrap64 (hi s - lo s))) (f64_of_Z (hi s))
               else f64_zero in
  if f64_le width (bisect_tolerance s) || (max_bisect_steps s <=? bisect_steps s) ||
     (sat_sub (hi s) (lo s) <=? 1)
  then (s, Done (if 0 <? lo s then Some (lo s) else last_good s))
  else bisect_probe s.

Definition phase_step (s : RateSearch) (passed : bool) : RateSearch * SearchOutcome :=
  match phase s with Climb => climb_step s passed | Bisect => bisect_step s passed end.

(** [RateSearch::advance]. *)
Definition advance (s : RateSearch) (passed : bool) (slo_latency_us : f64)
    : RateSearch * SearchOutcome :=
  if passed then
    phase_step (s <| failures_at_rate := 0 |> <| last_good := Some (current_rate s) |>
                  <| last_confirmed_fail := None |>) true
  else
    let s := s <| failures_at_rate := incr32 (failures_at_rate s) |> in
    if failures_at_rate s <=? confirm_failures s then (s, Probe (current_rate s))
    else
      let (s, floored) := note_confirmed_failure (s <| failures_at_rate := 0 |>) slo_latency_us in
      if floored then (s, Done None) else phase_step s false.

(** Feed a list of measurements until the search is done; [None] when the
    list ends first. *)
Fixpoint drive (s : RateSearch) (ms : list (bool * f64)) : option (RateSearch * option Z) :=
  match ms with
  | [] => None
  | (passed, lat) :: ms =>
      match advance s passed lat with
      | (s', Done knee) => Some (s', knee)
      | (s', Probe _) => drive s' ms
      end
  end.

(** ** Reachable searches

    [probing cfg s h]: [s] is reached from [new_search] by the measurements
    [h], latest first, each the rate it measured and its verdict. *)
Inductive probing (s0 : RateSearch) : RateSearch -> list (Z * bool) -> Prop :=
| probing_new : probing s0 s0 []
| probing_next s h passed lat s' r :
    probing s0 s h ->
    advance s passed lat = (s', Probe r) ->
    probing s0 s' ((current_rate s, passed) :: h).

(** The highest rate that passed. *)
Fixpoint best_pass (h : list (Z * bool)) : option Z :=
  match h with
  | [] => None
  | (r, true) :: h => match best_pass h with Some b => Some (Z.max r b) | None => Some r end
  | (_, false) :: h => best_pass h
  end.

(** What the search assumes of its configuration: rates ordered and within
    the word, counters that cannot wrap, and a multiplier that does not move
    the top rate down.  The last is decided by evaluation. *)
Record search_config_ok (s : RateSearch) : Prop := {
  sc_new : phase s = Climb /\ last_good s = None /\ bisect_steps s = 0 /\ failures_at_rate s = 0 /\
           lo s = 0 /\ hi s = 0 /\ last_confirmed_fail s = None /\ floor_detected s = false;
  sc_start : 0 < current_rate s <= max_rate s;
  sc_max : max_rate s <= u64_max;
  sc_confirm : 0 <= confirm_failures s < u32_max;
  sc_steps : 0 <= max_bisect_steps s <= u32_max;
  sc_multiplier : max_rate s <=? f64_to_u64 (f64_mul (f64_of_Z (max_rate s)) (step_multiplier s)) = true;
}.

(** ** Example search *)

(** The default search from 1000 requests per second with a top rate of 4000. *)
Definition example_search : RateSearch :=
  new_search 1000 (f64_lit 2 1) 4000 (f64_lit 5 100) 8 1 (f64_lit 10 100).

(** The search and its history after measurements that all ask for more. *)
Fixpoint replay (s : RateSearch) (h : list (Z * bool)) (ms : list (bool * f64))
    : option (RateSearch * list (Z * bool)) :=
  match ms with
  | [] => Some (s, h)
  | (passed, lat) :: ms =>
      match advance s passed lat with
      | (s', Probe _) => replay s' ((current_rate s, passed) :: h) ms
      | (_, Done _) => None
      end
  end.

(** 1000 and 2000 pass, 4000 fails twice, 3000 is next. *)
Definition example_state : RateSearch :=
  match replay example_search [] [(true, f64_one); (true, f64_one); (false, f64_one); (false, f64_one)] with
  | Some (s, _) => s
  | None => example_search
  end.

(** ** Invariant *)

Definition phase_inv (s : RateSearch) : Prop :=
  match phase s with
  | Climb => bisect_steps s = 0 /\ forall b, last_good s = Some b -> 0 < b < current_rate s
  | Bisect =>
      0 <= lo s <= current_rate s /\ current_rate s <= hi s <= max_rate s /\
      lo s = default 0 (last_good s) /\ (forall b, last_good s = Some b -> 0 < b) /\
      0 <= bisect_steps s /\ (bisect_steps s = 0 \/ bisect_steps s < max_bisect_steps s)
  end.

Record good (s : RateSearch) : Prop := {
  g_rate : 0 < current_rate s <= max_rate s;
  g_max : max_rate s <= u64_max;
  g_confirm : 0 <= confirm_failures s < u32_max;
  g_steps : 0 <= max_bisect_steps s <= u32_max;
  g_multiplier :
    max_rate s <= f64_to_u64 (f64_mul (f64_of_Z (max_rate s)) (step_multiplier s));
  g_failures : 0 <= failures_at_rate s <= confirm_failures s;
  g_phase : phase_inv s;
}.

Definition same_config (s s' : RateSearch) : Prop :=
  max_rate s' = max_rate s /\ step_multiplier s' = step_multiplier s /\
  confirm_failures s' = confirm_failures s /\ max_bisect_steps s' = max_bisect_steps s.

(** Rates left to measure. *)
Definition rounds (s : RateSearch) : Z :=
  match phase s with
  | Climb => max_rate s - current_rate s + max_bisect_steps s + 1
  | Bisect => Z.max 0 (max_bisect_steps s - bisect_steps s)
  end.

(** Measurements left: each rate may be measured [confirm_failures + 1] times. *)
Definition budget (s : RateSearch) : Z :=
  (confirm_failures s + 1) * rounds s + (confirm_failures s - failures_at_rate s).

Lemma incr32_small n : 0 <= n < u32_max -> incr32 n = n + 1.
Proof. unfold incr32, u32_max. intros. apply Z.mod_small. lia. Qed.

Lemma bisect_probe_spec s s' out :
  0 <= lo s < hi s -> hi s <= u64_max -> bisect_probe s = (s', out) ->
  exists mid, s' = s <| current_rate := mid |> /\ out = Probe mid /\
              0 < mid /\ lo s <= mid <= hi s.
Proof.
  intros Hlo Hhi. unfold bisect_probe. intros [= <- <-]. eexists. split_and!; [done..|lia| |];
  rewrite (wrap64_small (hi s - lo s)) by lia;
  rewrite (wrap64_small (lo s + 1)) by lia;
  rewrite (wrap64_small (lo s + _)) by (split; [|trans (hi s); [|done]];
    pose proof (Z.div_mod (hi s - lo s) 2); pose proof (Z.mod_pos_bound (hi s - lo s) 2); lia);
  unfold sat_sub;
  pose proof (Z.div_mod (hi s - lo s) 2); pose proof (Z.mod_pos_bound (hi s - lo s) 2); lia.
Qed.

(** A pass while climbing: the next rate is strictly higher, or the top rate
    has passed. *)
Lemma climb_pass s s' out :
  0 < current_rate s <= max_rate s -> max_rate s <= u64_max ->
  max_rate s <= f64_to_u64 (f64_mul (f64_of_Z (max_rate s)) (step_multiplier s)) ->
  climb_step s true = (s', out) ->
  (s' = s /\ out = Done (last_good s)) \/
  (exists r, s' = s <| current_rate := r |> /\ out = Probe r /\ current_rate s < r <= max_rate s).
Proof.
  intros Hc Hm Hx. unfold climb_step; cbn.
  destruct (max_rate s <=? f64_to_u64 _) eqn:E.
  - destruct (max_rate s <=? current_rate s) eqn:E2; intros [= <- <-]; [by left|right].
    eexists. split_and!; [done..| |]; lia.
  - intros [= <- <-]. right. eexists. split_and!; [done..| |].
    + assert (current_rate s <> max_rate s) by (intros X; rewrite X in E; lia).
      rewrite wrap64_small by lia. lia.
    + assert (current_rate s <> max_rate s) by (intros X; rewrite X in E; lia).
      rewrite wrap64_small by lia. lia.
Qed.

(** The state after the verdict is recorded and before the phase step. *)
Definition verdict (s : RateSearch) (passed : bool) (lcf : option (Z * f64)) : RateSearch :=
  s <| failures_at_rate := 0 |> <| last_confirmed_fail := lcf |>
    <| last_good := if passed then Some (current_rate s) else last_good s |>.

Definition knee_after (s : RateSearch) (passed : bool) : option Z :=
  if passed then Some (current_rate s) else last_good s.

(** [advance] is one of: measure again, stop at the floor, or take the phase
    step on the recorded verdict. *)
Lemma advance_cases s passed lat s' out :
  good s -> advance s passed lat = (s', out) ->
  (passed = false /\ out = Probe (current_rate s) /\
     s' = s <| failures_at_rate := failures_at_rate s + 1 |> /\
     failures_at_rate s + 1 <= confirm_failures s) \/
  (passed = false /\ out = Done None /\ last_good s = None) \/
  (exists lcf, phase_step (verdict s passed lcf) passed = (s', out)).
Proof.
  intros G. destruct (g_confirm _ G), (g_failures _ G). unfold advance. destruct passed.
  - intros <-. right. right. by exists None.
  - cbn. rewrite incr32_small by lia. destruct (_ <=? _) eqn:E.
    + intros [= <- <-]. left. split_and!; [done..|lia].
    + unfold note_confirmed_failure; cbn.
      destruct (bool_decide (last_good s = None)) eqn:EL; cbn; [|intros <-; right; right; by exists (last_confirmed_fail s)].
      apply bool_decide_eq_true in EL.
      destruct (_ && _); [|intros <-; right; right; by exists (last_confirmed_fail s)].
      destruct (floor_reached _ _).
      * intros [= <- <-]. right. by left.
      * intros <-. right. right. by exists (Some (current_rate s, lat)).
Qed.

(** One measurement that asks for another: the invariant holds again, the
    configuration is kept, the answer is the new current rate and the budget
    went down. *)
Lemma advance_probe s passed lat s' r :
  good s -> advance s passed lat = (s', Probe r) ->
  good s' /\ same_config s s' /\ r = current_rate s' /\
  last_good s' = knee_after s passed /\ budget s' < budget s.
Proof.
  intros G H. destruct (advance_cases _ _ _ _ _ G H) as [(-> & [= ->] & -> & F)|[(_ & ? & _)|[lcf P]]].
  - destruct G. split_and!; [constructor; cbn; try done; lia|done|done|done|].
    unfold budget, rounds; cbn. destruct (phase s); lia.
  - done.
  - destruct G as [R M C S X F PI]. unfold phase_step in P; cbn in P.
    unfold phase_inv in PI. destruct (phase s) eqn:EP.
    + destruct PI as [B L]. destruct passed.
      * destruct (climb_pass (verdict s true lcf) _ _ R M X P) as [[_ ?]|(q & -> & [= ->] & Q)]; [done|].
        cbn in Q. split_and!; [|done..|].
        -- constructor; cbn; try done; try lia. unfold phase_inv; cbn. rewrite EP.
           split; [done|]. intros b [= <-]. lia.
        -- unfold budget, rounds; cbn. rewrite EP. nia.
      * unfold climb_step in P; cbn in P.
        apply bisect_probe_spec in P as (mid & -> & [= ->] & Q1 & Q2); cbn in *;
          [|destruct (last_good s) as [b|]; cbn; [specialize (L b eq_refl)|]; lia|lia].
        assert (0 <= default 0 (last_good s))
          by (destruct (last_good s) as [b|]; cbn; [specialize (L b eq_refl)|]; lia).
        split_and!; [|done..|].
        -- constructor; cbn; try done; try lia. unfold phase_inv; cbn.
           split_and!; try lia. intros b Hb. specialize (L b Hb). lia.
        -- unfold budget, rounds; cbn. rewrite EP, B. nia.
    + destruct PI as (B1 & B2 & B3 & B4 & B5 & B6). unfold bisect_step in P; cbn in P.
      destruct (_ || _ || _) eqn:ET; [done|].
      apply orb_false_iff in ET as [ET1 ET2]. apply orb_false_iff in ET1 as [_ ET1].
      assert (incr32 (bisect_steps s) = bisect_steps s + 1 \/ max_bisect_steps s = 0) as [EI|EI]
        by (destruct (decide (max_bisect_steps s = 0)); [by right|left; apply incr32_small; lia]).
      2: { destruct passed; cbn in ET1; unfold incr32 in ET1;
           pose proof (Z.mod_pos_bound (bisect_steps s + 1) (2 ^ 32)); lia. }
      unfold sat_sub in ET2.
      apply bisect_probe_spec in P as (mid & -> & [= ->] & Q1 & Q2);
        [|destruct passed; cbn in *; lia|destruct passed; cbn in *; lia].
      split_and!; [|by destruct passed..|].
      * constructor; destruct passed; cbn in *; try done; try lia; unfold phase_inv; cbn; rewrite EP.
        all: split_and!; try lia; try done; intros b [= <-]; lia.
      * unfold budget, rounds; destruct passed; cbn in *; rewrite EP, EI; nia.
Qed.

(** When the search ends, the knee is the last verdict's. *)
Lemma advance_done s passed lat s' k :
  good s -> advance s passed lat = (s', Done k) -> k = knee_after s passed.
Proof.
  intros G H. destruct (advance_cases _ _ _ _ _ G H) as [(_ & ? & _)|[(-> & [= ->] & EN)|[lcf P]]];
    [done|by unfold knee_after; rewrite EN|].
  destruct G as [R M C S X F PI]. unfold phase_step in P; cbn in P.
  unfold phase_inv in PI. destruct (phase s) eqn:EP.
  - destruct passed.
    + by destruct (climb_pass (verdict s true lcf) _ _ R M X P) as [[_ [= ->]]|(q & _ & ? & _)].
    + by unfold climb_step, bisect_probe in P; cbn in P.
  - destruct PI as (B1 & B2 & B3 & B4 & B5 & B6). unfold bisect_step in P; cbn in P.
    destruct (_ || _ || _); [|done]. destruct passed; cbn in P.
    + rewrite (proj2 (Z.ltb_lt 0 (current_rate s))) in P by lia. by injection P as _ <-.
    + injection P as _ <-. unfold knee_after. rewrite B3 in *. clear B3.
      destruct (last_good s) as [b|]; cbn; [|done].
      specialize (B4 b eq_refl). by rewrite (proj2 (Z.ltb_lt 0 b)) by lia.
Qed.

Lemma config_good s : search_config_ok s -> good s.
Proof.
  intros [(P & L & B & F & _) R M C S X]. constructor; try done; try lia.
  unfold phase_inv. rewrite P, B, L. done.
Qed.

(** In every reachable search the invariant holds and [last_good] is the
    highest rate that has passed. *)
Lemma probing_good s0 s h :
  search_config_ok s0 -> probing s0 s h ->
  good s /\ last_good s = best_pass h.
Proof.
  intros C. induction 1 as [|s h passed lat s' r _ [G L] A].
  - split; [by apply config_good|]. by destruct (sc_new _ C) as (_ & -> & _).
  - destruct (advance_probe _ _ _ _ _ G A) as (G' & _ & _ & -> & _). split; [done|].
    cbn. unfold knee_after. rewrite <- L. destruct passed; [|done].
    destruct (last_good s) as [b|] eqn:E; [|done].
    assert (b <= current_rate s); [|by rewrite Z.max_l].
    destruct G as [_ _ _ _ _ _ PI]. unfold phase_inv in PI. rewrite E in PI.
    destruct (phase s); cbn in PI; [destruct PI as [_ PI]; specialize (PI b eq_refl)|]; lia.
Qed.

(** When a reachable search ends, the knee is the best rate of its history. *)
Lemma done_best s0 s h passed lat s' knee :
  search_config_ok s0 -> probing s0 s h ->
  advance s passed lat = (s', Done knee) ->
  knee = best_pass ((current_rate s, passed) :: h).
Proof.
  intros C P A. destruct (probing_good _ _ _ C P) as [G L].
  rewrite (advance_done _ _ _ _ _ G A). cbn. unfold knee_after. rewrite <- L.
  destruct passed; [|done]. destruct (last_good s) as [b|] eqn:E; [|done].
  assert (b <= current_rate s); [|by rewrite Z.max_l].
  destruct G as [_ _ _ _ _ _ PI]. unfold phase_inv in PI. rewrite E in PI.
  destruct (phase s); cbn in PI; [destruct PI as [_ PI]; specialize (PI b eq_refl)|]; lia.
Qed.

Lemma budget_nonneg s : good s -> 0 <= budget s.
Proof. intros []. unfold budget, rounds, phase_inv in *. destruct (phase s); nia. Qed.

Lemma drive_terminates s ms :
  good s -> budget s < Z.of_nat (length ms) -> is_Some (drive s ms).
Proof.
  revert s. induction ms as [|[p l] ms IH]; intros s G B; cbn in *.
  - exfalso. apply budget_nonneg in G. lia.
  - destruct (advance s p l) as [s' [r|k]] eqn:A; [|by eexists].
    destruct (advance_probe _ _ _ _ _ G A) as (G' & _ & _ & _ & D). apply IH; [done|lia].
Qed.

(** ** Properties *)

(** C10: the search reports the highest rate that ever passed: when it ends,
    the knee is the maximum over every measurement it made, the last one
    included, and [None] exactly when none passed. *)
Theorem knee_is_best s0 s h passed lat s' knee :
  search_config_ok s0 -> probing s0 s h ->
  advance s passed lat = (s', Done knee) ->
  knee = best_pass ((current_rate s, passed) :: h).
Proof. apply done_best. Qed.

(** The search ends whatever it measures: any list of more measurements
    than [(confirm_failures + 1) * (max_rate - start_rate + max_bisect_steps + 1)
    + confirm_failures] reaches [Done]. *)
Theorem search_terminates s0 ms :
  search_config_ok s0 ->
  (confirm_failures s0 + 1) * (max_rate s0 - current_rate s0 + max_bisect_steps s0 + 1)
    + confirm_failures s0 < Z.of_nat (length ms) ->
  is_Some (drive s0 ms).
Proof.
  intros C B. apply drive_terminates; [by apply config_good|].
  destruct C as [(P & _ & _ & F & _) _ _ _ _ _]. unfold budget, rounds. rewrite P, F. lia.
Qed.

(** Every rate the search asks for is between 1 and [max_rate], and while
    bisecting between the last good rate and the failed one. *)
Theorem probes_in_range s0 s h passed lat s' r :
  search_config_ok s0 -> probing s0 s h ->
  advance s passed lat = (s', Probe r) ->
  0 < r <= max_rate s0 /\ r = current_rate s' /\
  (phase s' = Bisect -> lo s' <= r <= hi s' /\ lo s' = default 0 (last_good s')).
Proof.
  intros C P A. destruct (probing_good _ _ _ C P) as [G _].
  destruct (advance_probe _ _ _ _ _ G A) as (G' & _ & -> & _ & _).
  assert (max_rate s' = max_rate s0) as E.
  { assert (probing s0 s' ((current_rate s, passed) :: h)) as P' by (by eapply probing_next).
    clear -P' C. induction P' as [|? ? ? ? ? ? P' IH A]; [done|].
    destruct (probing_good _ _ _ C P') as [G _].
    destruct (advance_probe _ _ _ _ _ G A) as (_ & [-> _] & _). done. }
  destruct G' as [R _ _ _ _ _ PI]. rewrite <- E. split_and!; [lia|lia|done|].
  intros B. unfold phase_inv in PI. rewrite B in PI. lia.
Qed.

(** One transient failure does not cap the search: a failure is acted on
    (phase, bounds and rate change, or the search ends) only after
    [confirm_failures] earlier failures in a row at the same rate. *)
Theorem failures_are_confirmed s0 s h lat s' out :
  search_config_ok s0 -> probing s0 s h ->
  advance s false lat = (s', out) ->
  failures_at_rate s < confirm_failures s ->
  out = Probe (current_rate s) /\ phase s' = phase s /\ lo s' = lo s /\ hi s' = hi s /\
  current_rate s' = current_rate s /\ last_good s' = last_good s /\
  failures_at_rate s' = failures_at_rate s + 1.
Proof.
  intros C P A F. destruct (probing_good _ _ _ C P) as [G _]. destruct (g_confirm _ G), (g_failures _ G).
  unfold advance in A. cbn in A. rewrite incr32_small in A by lia.
  rewrite (proj2 (Z.leb_le _ _)) in A by lia. by injection A as <- <-.
Qed.

(** *** Witnesses *)

Lemma example_search_ok : search_config_ok example_search.
Proof. constructor; cbn; try (by vm_compute); unfold u64_max, u32_max; lia. Qed.

Lemma replay_probing s0 s h ms s' h' :
  probing s0 s h -> replay s h ms = Some (s', h') -> probing s0 s' h'.
Proof.
  revert s h. induction ms as [|[p l] ms IH]; intros s h P; cbn; [by intros [= <- <-]|].
  destruct (advance s p l) as [s1 [r|k]] eqn:A; [|done]. apply IH. by eapply probing_next.
Qed.

Lemma example_probing :
  probing example_search example_state [(4000, false); (4000, false); (2000, true); (1000, true)].
Proof.
  apply (replay_probing _ _ _ [(true, f64_one); (true, f64_one); (false, f64_one); (false, f64_one)] _ _
           (probing_new _)). by vm_compute.
Qed.

Lemma knee_is_best_witness :
  exists s h, probing example_search s h /\ (advance s true f64_one).2 = Done (Some 4000) /\
    Some 4000 = best_pass ((current_rate s, true) :: h).
Proof.
  pose (s := match replay example_search [] [(true, f64_one); (true, f64_one)] with
             | Some (s, _) => s | None => example_search end).
  assert (probing example_search s [(2000, true); (1000, true)]) as P.
  { apply (replay_probing _ _ _ [(true, f64_one); (true, f64_one)] _ _ (probing_new _)). by vm_compute. }
  exists s, [(2000, true); (1000, true)]. split; [exact P|]. split; [by vm_compute|].
  refine (knee_is_best example_search s _ true f64_one (advance s true f64_one).1 (Some 4000)
            example_search_ok P _). by vm_compute.
Defined.

Lemma search_terminates_witness :
  is_Some (drive example_search (repeat (false, f64_one) (2 * 3009 + 2)%nat)).
Proof.
  apply search_terminates; [exact example_search_ok|]. rewrite repeat_length. cbn. lia.
Defined.

Lemma probes_in_range_witness : 0 < 3500 <= 4000.
Proof.
  refine (proj1 (probes_in_range example_search example_state _ true f64_one
            (advance example_state true f64_one).1 3500 example_search_ok example_probing _)).
  by vm_compute.
Defined.

Lemma failures_are_confirmed_witness :
  (advance example_state false f64_one).2 = Probe 3000.
Proof.
  refine (proj1 (failures_are_confirmed example_search example_state _ f64_one
            (advance example_state false f64_one).1 _ example_search_ok example_probing _ _));
    by vm_compute.
Defined.
