(* ===== verification/Keys.v ===== *)
(** Keys: how a numeric key id is written, routed and queued, and how a
    connection's random stream is seeded ([src/src/worker.rs]).

    The slot hash ([resp_proto::hash_slot]) and the consistent-hash ring
    ([ketama::Ring]) are third-party code: the class [Hashing] holds them and
    [HashingLaws] states their documented ranges.  A vector index out of
    bounds panics in the source; here it is [None]. *)

From Stdlib Require Import Ascii.
From S2P Require Import Prelude F64 Config.
Open Scope Z_scope.

(** ** Key text *)

(** [HEX], the bytes of [0123456789abcdef]. *)
Definition HEX : list Z := [48; 49; 50; 51; 52; 53; 54; 55; 56; 57; 97; 98; 99; 100; 101; 102].

(** [HEX[(n & 0xf) as usize]]. *)
Definition hex_char (n : Z) : Z := nth (Z.to_nat (Z.land n 15)) HEX 0.

Definition is_dash (i : nat) : bool := bool_decide (i = 8 \/ i = 13 \/ i = 18 \/ i = 23)%nat.

(** The loop of the UUID form from index [i - 1] down to 0, last byte first. *)
Fixpoint uuid_rev (i : nat) (n : Z) : list Z :=
  match i with
  | O => []
  | S i => if is_dash i then 45 :: uuid_rev i n else hex_char n :: uuid_rev i (Z.shiftr n 4)
  end.

(** The loop of the hexadecimal form over [len] bytes, last byte first. *)
Fixpoint hex_rev (len : nat) (n : Z) : list Z :=
  match len with
  | O => []
  | S len => hex_char n :: hex_rev len (Z.shiftr n 4)
  end.

(** [write_key]: the [len] bytes of key [id]; [fmt] is the run's [KEY_FORMAT]. *)
Definition write_key (fmt : KeyFormat) (len : nat) (id : Z) : list Z :=
  if bool_decide (fmt = Uuid) && bool_decide (len = 36)%nat
  then rev (uuid_rev 36 id)
  else rev (hex_rev len id).

(** Hexadecimal digits in a key of [len] bytes. *)
Definition key_digits (fmt : KeyFormat) (len : nat) : Z :=
  if bool_decide (fmt = Uuid) && bool_decide (len = 36)%nat then 32 else Z.of_nat len.

(** The number a key's text spells, dashes skipped: the reference decoder. *)
Definition unhex (c : Z) : Z := if c <=? 57 then c - 48 else c - 87.

Fixpoint decode_rev (bs : list Z) : Z :=
  match bs with
  | [] => 0
  | c :: bs => if c =? 45 then decode_rev bs else unhex c + 16 * decode_rev bs
  end.

Definition read_key (bs : list Z) : Z := decode_rev (rev bs).

(** ** Routing *)

(** [SocketAddr]'s [Display]: an IPv6 address is bracketed. *)
Definition socket_to_string (a : SocketAddr) : string :=
  if existsb (Ascii.eqb ":"%char) (String.list_ascii_of_string (sa_ip a))
  then ("[" ++ sa_ip a ++ "]:" ++ show_Z (sa_port a))%string
  else (sa_ip a ++ ":" ++ show_Z (sa_port a))%string.

Class Hashing := {
  ring : Type;
  hash_slot : list Z -> Z;
  ring_build : list string -> ring;
  ring_route : ring -> list Z -> Z;
}.

(** A slot is below 16384; a ring routes to one of the nodes it was built on. *)
Class HashingLaws `{Hashing} := {
  hash_slot_range k : 0 <= hash_slot k < 16384;
  ring_route_range ids k :
    ids <> [] -> 0 <= ring_route (ring_build ids) k < Z.of_nat (length ids);
}.

(** [route_partition]. *)
Definition route_partition `{Hashing} (slot_table : option (list Z)) (r : ring)
    (num_endpoints : Z) (key : list Z) : option Z :=
  match slot_table with
  | Some table => table !! Z.to_nat (hash_slot key)
  | None => if num_endpoints <=? 1 then Some 0 else Some (ring_route r key)
  end.

(** [max_routing_attempts]. *)
Definition max_routing_attempts (num_endpoints : Z) : Z := Z.max (sat_mul num_endpoints 64) 64.

(** ** Per-endpoint key queues: [PrefillQueues] *)

Abbreviation PrefillQueues := (list (list Z)).

Definition pq_new (num : Z) : PrefillQueues := replicate (Z.to_nat (Z.max num 1)) [].

Definition pq_push_back (qs : PrefillQueues) (endpoint_idx key_id : Z) : option PrefillQueues :=
  q ← qs !! Z.to_nat endpoint_idx; Some (<[Z.to_nat endpoint_idx := q ++ [key_id]]> qs).

Definition pq_push_front (qs : PrefillQueues) (endpoint_idx key_id : Z) : option PrefillQueues :=
  q ← qs !! Z.to_nat endpoint_idx; Some (<[Z.to_nat endpoint_idx := key_id :: q]> qs).

(** [pop_front]: the queues afterwards and the key, if there was one. *)
Definition pq_pop_front (qs : PrefillQueues) (endpoint_idx : Z)
    : option (PrefillQueues * option Z) :=
  q ← qs !! Z.to_nat endpoint_idx;
  match q with
  | [] => Some (qs, None)
  | k :: q => Some (<[Z.to_nat endpoint_idx := q]> qs, Some k)
  end.

Definition pq_is_empty (qs : PrefillQueues) (endpoint_idx : Z) : option bool :=
  q ← qs !! Z.to_nat endpoint_idx; Some (bool_decide (q = [])).

(** ** Partitions of the keyspace *)

(** [0..key_count]. *)
Definition key_ids (key_count : Z) : list Z := seqZ 0 key_count.

(** The ring the partitions are computed with; an empty endpoint list gets the
    placeholder node. *)
Definition partition_ring `{Hashing} (endpoints : list SocketAddr) : ring :=
  match endpoints with
  | [] => ring_build ["_"%string]
  | _ => ring_build (map socket_to_string endpoints)
  end.

(** The loop of [build_prefill_queues] over [ids]. *)
Fixpoint fill_prefill `{Hashing} (fmt : KeyFormat) (key_len : nat) (r : ring)
    (slot_table : option (list Z)) (n : Z) (qs : PrefillQueues) (ids : list Z)
    : option PrefillQueues :=
  match ids with
  | [] => Some qs
  | key_id :: ids =>
      ep ← route_partition slot_table r n (write_key fmt key_len key_id);
      qs ← pq_push_back qs ep key_id;
      fill_prefill fmt key_len r slot_table n qs ids
  end.

Definition build_prefill_queues `{Hashing} (fmt : KeyFormat) (key_count : Z) (key_len : nat)
    (endpoints : list SocketAddr) (slot_table : option (list Z)) : option PrefillQueues :=
  let n := Z.max (Z.of_nat (length endpoints)) 1 in
  fill_prefill fmt key_len (partition_ring endpoints) slot_table n (pq_new n) (key_ids key_count).

(** The loop of [build_endpoint_keys]: ids are stored as [u32]. *)
Fixpoint fill_buckets `{Hashing} (fmt : KeyFormat) (key_len : nat) (r : ring)
    (slot_table : option (list Z)) (n : Z) (buckets : list (list Z)) (ids : list Z)
    : option (list (list Z)) :=
  match ids with
  | [] => Some buckets
  | key_id :: ids =>
      ep ← route_partition slot_table r n (write_key fmt key_len key_id);
      b ← buckets !! Z.to_nat ep;
      fill_buckets fmt key_len r slot_table n
        (<[Z.to_nat ep := b ++ [key_id mod 2 ^ 32]]> buckets) ids
  end.

Definition build_endpoint_keys `{Hashing} (fmt : KeyFormat) (key_count : Z) (key_len : nat)
    (endpoints : list SocketAddr) (slot_table : option (list Z)) : option (list (list Z)) :=
  let n := Z.of_nat (length endpoints) in
  if n <=? 1 then Some []
  else fill_buckets fmt key_len (ring_build (map socket_to_string endpoints)) slot_table n
         (replicate (Z.to_nat n) []) (key_ids key_count).

(** [requeue_drained_prefill]: route each key again and append it to its
    owner's queue. *)
Fixpoint requeue_drained_prefill `{Hashing} (fmt : KeyFormat) (key_len : nat) (r : ring)
    (slot_table : option (list Z)) (n : Z) (qs : PrefillQueues) (drained : list Z)
    : option PrefillQueues :=
  match drained with
  | [] => Some qs
  | key_id :: drained =>
      routed ← route_partition slot_table r n (write_key fmt key_len key_id);
      qs ← pq_push_back qs routed key_id;
      requeue_drained_prefill fmt key_len r slot_table n qs drained
  end.

(** A slot table as the topology code builds it: an endpoint for every slot. *)
Definition table_ok (n : Z) (slot_table : option (list Z)) : Prop :=
  match slot_table with
  | Some t => length t = Z.to_nat 16384 /\ Forall (fun e => 0 <= e < n) t
  | None => True
  end.

(** The endpoint that owns a key. *)
Definition owner `{Hashing} (fmt : KeyFormat) (key_len : nat) (r : ring)
    (slot_table : option (list Z)) (n : Z) (key_id : Z) : Z :=
  default 0 (route_partition slot_table r n (write_key fmt key_len key_id)).

(** Everything routing a key reads. *)
Record RouteEnv `{Hashing} := {
  re_format : KeyFormat;
  re_key_len : nat;
  re_ring : ring;
  re_slots : option (list Z);
  re_endpoints : Z;
}.

(** [write_key] followed by [route_key]. *)
Definition route_id `{Hashing} (env : RouteEnv) (key_id : Z) : option Z :=
  route_partition (re_slots env) (re_ring env) (re_endpoints env)
    (write_key (re_format env) (re_key_len env) key_id).

(** A ring and slot table that know every endpoint. *)
Definition env_ok `{Hashing} (env : RouteEnv) : Prop :=
  0 < re_endpoints env /\ table_ok (re_endpoints env) (re_slots env) /\
  forall k, 0 <= ring_route (re_ring env) k < re_endpoints env.

(** ** Connection shares and seeds *)

(** [connection_share]: this worker's connections and the index of its first. *)
Definition connection_share (total num_threads worker_id : Z) : Z * Z :=
  let num_threads := Z.max num_threads 1 in
  let base := total / num_threads in
  let rem := total mod num_threads in
  let mine := if worker_id <? rem then base + 1 else base in
  let start := if worker_id <? rem then worker_id * (base + 1)
               else rem * (base + 1) + (worker_id - rem) * base in
  (mine, start).

Inductive SeedRole := SeedReader | SeedAppend | SeedDispatcher.

Definition seed_role_index (r : SeedRole) : Z :=
  match r with SeedReader => 0 | SeedAppend => 1 | SeedDispatcher => 2 end.

(** [splitmix64] on 64-bit words. *)
Definition xorshift (k z : Z) : Z := Z.lxor z (Z.shiftr z k).

Definition splitmix64 (x : Z) : Z :=
  let z := wrap64 (x + 0x9E3779B97F4A7C15) in
  let z := wrap64 (xorshift 30 z * 0xBF58476D1CE4E5B9) in
  let z := wrap64 (xorshift 27 z * 0x94D049BB133111EB) in
  xorshift 31 z.

Definition connection_seed (run_seed : Z) (role : SeedRole) (worker_id i : Z) : Z :=
  let position :=
    Z.lxor (Z.lxor (wrap64 (Z.shiftl (seed_role_index role) 62))
                   (wrap64 (Z.shiftl worker_id 32))) i in
  splitmix64 (Z.lxor run_seed (splitmix64 position)).

(** A table for examples: hash a key to its last byte and spread the slots
    over the nodes. *)
Definition example_hashing : Hashing :=
  {| ring := list string; hash_slot := fun k => Z.land (default 0 (last k)) 15;
     ring_build := id;
     ring_route := fun r k => Z.land (default 0 (last k)) 15 mod Z.of_nat (length r) |}.

(** ** Key text lemmas *)

Lemma hex_char_spec n : unhex (hex_char n) = n mod 16 /\ (hex_char n =? 45) = false.
Proof.
  unfold hex_char. replace (Z.land n 15) with (n mod 16) by (symmetry; apply (Z.land_ones n 4); lia).
  pose proof (Z.mod_pos_bound n 16 ltac:(lia)) as R. generalize dependent (n mod 16). intros d R.
  assert (d = 0 \/ d = 1 \/ d = 2 \/ d = 3 \/ d = 4 \/ d = 5 \/ d = 6 \/ d = 7 \/ d = 8 \/ d = 9 \/
          d = 10 \/ d = 11 \/ d = 12 \/ d = 13 \/ d = 14 \/ d = 15) as D by lia.
  repeat destruct D as [->|D]; try by split. by subst d.
Qed.

Lemma shiftr4 n : Z.shiftr n 4 = n / 16.
Proof. by rewrite Z.shiftr_div_pow2. Qed.

Lemma mod_step n d : 0 <= d -> n mod 16 + 16 * (n / 16 mod 16 ^ d) = n mod 16 ^ (d + 1).
Proof.
  intros Hd. rewrite Z.add_1_r, Z.pow_succ_r by lia.
  rewrite Z.rem_mul_r; lia.
Qed.

Lemma decode_hex_rev len n : decode_rev (hex_rev len n) = n mod 16 ^ Z.of_nat len.
Proof.
  revert n. induction len as [|len IH]; intros n; cbn [hex_rev decode_rev].
  - by rewrite Z.mod_1_r.
  - destruct (hex_char_spec n) as [E1 E2]. rewrite E2, E1, IH, shiftr4, mod_step by lia.
    do 2 f_equal. lia.
Qed.

Fixpoint uuid_digits (i : nat) : Z :=
  match i with O => 0 | S i => if is_dash i then uuid_digits i else uuid_digits i + 1 end.

Lemma uuid_digits_nonneg i : 0 <= uuid_digits i.
Proof. induction i as [|i]; cbn; [lia|]. destruct (is_dash i); lia. Qed.

Lemma decode_uuid_rev i n : decode_rev (uuid_rev i n) = n mod 16 ^ uuid_digits i.
Proof.
  revert n. induction i as [|i IH]; intros n; cbn [uuid_rev uuid_digits].
  - by rewrite Z.mod_1_r.
  - destruct (is_dash i); [apply IH|]. cbn [decode_rev].
    destruct (hex_char_spec n) as [E1 E2].
    by rewrite E2, E1, IH, shiftr4, mod_step by apply uuid_digits_nonneg.
Qed.

Lemma read_write_key fmt len id :
  read_key (write_key fmt len id) = id mod 16 ^ key_digits fmt len.
Proof.
  unfold read_key, write_key, key_digits. destruct (_ && _); rewrite rev_involutive.
  - apply decode_uuid_rev.
  - apply decode_hex_rev.
Qed.

Lemma uuid_rev_length i n : length (uuid_rev i n) = i.
Proof. revert n. induction i as [|i IH]; intros n; cbn; [done|]. destruct (is_dash i); cbn; by rewrite IH. Qed.

Lemma hex_rev_length i n : length (hex_rev i n) = i.
Proof. revert n. induction i as [|i IH]; intros n; cbn; [done|]. by rewrite IH. Qed.

Lemma write_key_length fmt len id : length (write_key fmt len id) = len.
Proof.
  unfold write_key. destruct (_ && _) eqn:E; rewrite length_rev.
  - apply andb_true_iff in E as [_ E]. apply bool_decide_eq_true in E. by rewrite uuid_rev_length.
  - apply hex_rev_length.
Qed.

(** ** Partition lemmas *)

(** Appending each id of [ids] to the list its owner selects is one filter per
    owner. *)
Definition scatter_step (own : Z -> Z) (k : Z) (qs : list (list Z)) : list (list Z) :=
  imap (fun e q => if bool_decide (own k = Z.of_nat e) then q ++ [k] else q) qs.

Lemma insert_scatter own k (qs : list (list Z)) q :
  0 <= own k -> qs !! Z.to_nat (own k) = Some q ->
  <[Z.to_nat (own k) := q ++ [k]]> qs = scatter_step own k qs.
Proof.
  intros Ho Hq. apply list_eq. intros j. unfold scatter_step. rewrite list_lookup_imap.
  destruct (decide (j = Z.to_nat (own k))) as [->|Hj].
  - rewrite list_lookup_insert_eq by (by eapply lookup_lt_Some). rewrite Hq. cbn.
    by rewrite bool_decide_true by lia.
  - rewrite list_lookup_insert_ne by done. destruct (qs !! j); cbn; [|done].
    by rewrite bool_decide_false by lia.
Qed.

Definition scatter (own : Z -> Z) (ids : list Z) (qs : list (list Z)) : list (list Z) :=
  imap (fun e q => q ++ filter (fun k => own k = Z.of_nat e) ids) qs.

Lemma scatter_cons own k ids qs :
  scatter own ids (scatter_step own k qs) = scatter own (k :: ids) qs.
Proof.
  unfold scatter, scatter_step. apply list_eq. intros j. rewrite !list_lookup_imap.
  destruct (qs !! j) as [q|]; cbn [fmap option_fmap option_map]; [|done]. rewrite filter_cons.
  destruct (decide (own k = Z.of_nat j)).
  - by rewrite bool_decide_true, <- app_assoc by done.
  - by rewrite bool_decide_false by done.
Qed.

Lemma scatter_nil own qs : scatter own [] qs = qs.
Proof.
  unfold scatter. apply list_eq. intros j. rewrite list_lookup_imap.
  destruct (qs !! j); cbn; [|done]. by rewrite app_nil_r.
Qed.

(** *** Queue contents *)

Lemma concat_insert {A} (ls : list (list A)) i l l' :
  ls !! i = Some l -> Permutation (concat (<[i := l']> ls) ++ l) (l' ++ concat ls).
Proof.
  revert i. induction ls as [|x ls IH]; intros [|i] E; [done|done| |].
  - cbn in E. injection E as ->. change (<[0%nat:=l']> (l :: ls)) with (l' :: ls). cbn.
    rewrite <- app_assoc. apply Permutation_app_head, Permutation_app_comm.
  - change (<[S i:=l']> (x :: ls)) with (x :: <[i:=l']> ls). cbn.
    rewrite <- app_assoc, (IH i E), !app_assoc. apply Permutation_app_tail, Permutation_app_comm.
Qed.

Lemma concat_push_back (qs : PrefillQueues) e q k :
  qs !! e = Some q -> Permutation (concat (<[e := q ++ [k]]> qs)) (k :: concat qs).
Proof.
  intros E. apply (Permutation_app_inv_r q). etrans; [by apply concat_insert|].
  rewrite <- app_assoc. cbn. etrans; [apply Permutation_app_comm|]. done.
Qed.

Lemma concat_pop (qs : PrefillQueues) e q k :
  qs !! e = Some (k :: q) -> Permutation (concat qs) (k :: concat (<[e := q]> qs)).
Proof.
  intros E. apply (Permutation_app_inv_r q).
  etrans; [apply Permutation_app_comm|]. etrans; [symmetry; by apply (concat_insert qs e (k :: q) q)|].
  etrans; [apply Permutation_app_comm|]. cbn. constructor. apply Permutation_app_comm.
Qed.

Lemma concat_prepend (qs : PrefillQueues) e q l :
  qs !! e = Some q -> Permutation (concat (<[e := l ++ q]> qs)) (l ++ concat qs).
Proof.
  intros E. apply (Permutation_app_inv_r q). etrans; [by apply concat_insert|].
  rewrite <- !app_assoc. apply Permutation_app_head, Permutation_app_comm.
Qed.

Section partition.
Context `{HashingLaws}.
Variables (fmt : KeyFormat) (key_len : nat) (r : ring) (slot_table : option (list Z)) (n : Z).
Hypothesis (table_good : table_ok n slot_table) (n_pos : 0 < n).
Hypothesis ring_good : forall k, 0 <= ring_route r k < n.

Local Abbreviation own := (owner fmt key_len r slot_table n).

Lemma route_owner k :
  route_partition slot_table r n (write_key fmt key_len k) = Some (own k) /\ 0 <= own k < n.
Proof.
  unfold owner, route_partition. destruct slot_table as [t|]; cbn in table_good.
  - destruct table_good as [L F]. pose proof (hash_slot_range (write_key fmt key_len k)) as R.
    destruct (lookup_lt_is_Some_2 t (Z.to_nat (hash_slot (write_key fmt key_len k)))) as [e E]; [lia|].
    rewrite E. split; [done|]. cbn. by eapply Forall_lookup_1 in F.
  - destruct (n <=? 1) eqn:E; cbn; [split; [done|lia]|]. split; [done|apply ring_good].
Qed.

Lemma fill_prefill_scatter ids qs :
  length qs = Z.to_nat n ->
  fill_prefill fmt key_len r slot_table n qs ids = Some (scatter own ids qs).
Proof.
  revert qs. induction ids as [|k ids IH]; intros qs L; cbn [fill_prefill].
  - by rewrite scatter_nil.
  - destruct (route_owner k) as [E R]. rewrite E; cbn [mbind option_bind].
    unfold pq_push_back. destruct (lookup_lt_is_Some_2 qs (Z.to_nat (own k))) as [q Q]; [lia|].
    rewrite Q; cbn [mbind option_bind]. rewrite insert_scatter by (done || lia).
    rewrite IH, scatter_cons; [done|]. unfold scatter_step. by rewrite length_imap.
Qed.

Lemma requeue_is_fill qs ids :
  requeue_drained_prefill fmt key_len r slot_table n qs ids =
  fill_prefill fmt key_len r slot_table n qs ids.
Proof. revert qs. induction ids as [|k ids IH]; intros qs; cbn; [done|]. by repeat case_match_goal. Qed.

(** Requeueing keys by their owners loses none. *)
Lemma requeue_conserves fl qs :
  Z.of_nat (length qs) = n ->
  exists qs', requeue_drained_prefill fmt key_len r slot_table n qs fl = Some qs' /\
              Permutation (concat qs') (concat qs ++ fl) /\ Z.of_nat (length qs') = n.
Proof.
  revert qs. induction fl as [|k fl IH]; intros qs L; cbn [requeue_drained_prefill].
  { exists qs. by rewrite app_nil_r. }
  destruct (route_owner k) as [-> R]. cbn [mbind option_bind]. unfold pq_push_back.
  destruct (lookup_lt_is_Some_2 qs (Z.to_nat (own k))) as [q Eq]; [lia|]. rewrite Eq. cbn [mbind option_bind].
  edestruct IH as (qs' & -> & P & L'); [by rewrite length_insert|]. exists qs'. split_and!; [done| |done].
  rewrite P, (concat_push_back _ _ _ _ Eq). cbn. apply Permutation_middle.
Qed.

Lemma fill_buckets_scatter ids bs :
  length bs = Z.to_nat n -> Forall (fun k => 0 <= k < 2 ^ 32) ids ->
  fill_buckets fmt key_len r slot_table n bs ids = Some (scatter own ids bs).
Proof.
  revert bs. induction ids as [|k ids IH]; intros bs L F; cbn [fill_buckets].
  - by rewrite scatter_nil.
  - apply Forall_cons in F as [Fk F]. destruct (route_owner k) as [E R]. rewrite E; cbn [mbind option_bind].
    destruct (lookup_lt_is_Some_2 bs (Z.to_nat (own k))) as [b B]; [lia|].
    rewrite B; cbn [mbind option_bind]. rewrite Z.mod_small by lia.
    rewrite insert_scatter by (done || lia).
    rewrite IH, scatter_cons; [done| |done]. unfold scatter_step. by rewrite length_imap.
Qed.

(** Scattering over every owner loses and repeats nothing. *)
Lemma scatter_concat m ids :
  (forall k, k ∈ ids -> 0 <= own k < Z.of_nat m) ->
  Permutation (concat (scatter own ids (replicate m []))) ids.
Proof.
  intros R. assert (scatter own ids (replicate m []) =
    map (fun e => filter (fun k => own k = Z.of_nat e) ids) (seq 0 m)) as ->.
  { apply list_eq. intros j. unfold scatter. rewrite list_lookup_imap, list_lookup_fmap.
    destruct (decide (j < m)%nat).
    - rewrite lookup_replicate_2, lookup_seq_lt by done. done.
    - rewrite (lookup_ge_None_2 (replicate m [])) by (rewrite length_replicate; lia).
      by rewrite (lookup_ge_None_2 (seq 0 m)) by (rewrite length_seq; lia). }
  revert R. induction m as [|m IH] in ids |- *; intros R.
  - cbn. destruct ids as [|k ids]; [done|]. specialize (R k ltac:(left)). lia.
  - rewrite seq_S, map_app, concat_app. cbn [map concat]. rewrite app_nil_r, Nat.add_0_l.
    etrans; [|apply (filter_app_complement (fun k => own k <> Z.of_nat m) ids)].
    apply Permutation_app.
    + transitivity (concat (map (fun e => filter (fun k => own k = Z.of_nat e)
        (filter (fun k => own k <> Z.of_nat m) ids)) (seq 0 m))).
      * apply reflexive_eq. f_equal. apply map_ext_in. intros e He. apply in_seq in He.
        rewrite list_filter_filter. apply list_filter_iff. intros k. lia.
      * apply IH. intros k [Hk Hin]%list_elem_of_filter. specialize (R k Hin). lia.
    + apply reflexive_eq. apply list_filter_iff. intros k. lia.
Qed.

End partition.

Lemma route_id_ok `{HashingLaws} env k :
  env_ok env -> exists e, route_id env k = Some e /\ 0 <= e < re_endpoints env.
Proof.
  intros (P & T & R). unfold route_id.
  destruct (route_owner (re_format env) (re_key_len env) (re_ring env) (re_slots env)
              (re_endpoints env) T P R k) as [-> ?]. eauto.
Qed.

Lemma partition_ring_range `{HashingLaws} endpoints k :
  0 <= ring_route (partition_ring endpoints) k < Z.max (Z.of_nat (length endpoints)) 1.
Proof.
  destruct endpoints as [|a l]; unfold partition_ring.
  - apply (ring_route_range ["_"%string] k). done.
  - pose proof (ring_route_range (map socket_to_string (a :: l)) k) as R.
    rewrite length_map in R. cbn [length] in *. specialize (R ltac:(done)). lia.
Qed.

(** The prefill queues: one per endpoint, together the keyspace. *)
Lemma prefill_queues_built `{HashingLaws} fmt key_count key_len endpoints slot_table :
  let n := Z.max (Z.of_nat (length endpoints)) 1 in
  table_ok n slot_table ->
  exists qs,
    build_prefill_queues fmt key_count key_len endpoints slot_table = Some qs /\
    qs = scatter (owner fmt key_len (partition_ring endpoints) slot_table n) (key_ids key_count) (pq_new n) /\
    length qs = Z.to_nat n /\ Permutation (concat qs) (key_ids key_count).
Proof.
  intros n T. pose proof (partition_ring_range endpoints) as RR. fold n in RR.
  assert (0 < n) as Hn by lia. unfold build_prefill_queues. fold n. eexists. split; [|split; [done|]].
  - apply fill_prefill_scatter; try done. unfold pq_new. rewrite length_replicate. lia.
  - unfold pq_new. replace (Z.max n 1) with n by lia. split.
    + unfold scatter. by rewrite length_imap, length_replicate.
    + apply scatter_concat. intros k _. rewrite Z2Nat.id by lia. by apply route_owner.
Qed.

Lemma key_ids_elem k count : k ∈ key_ids count <-> 0 <= k < count.
Proof. unfold key_ids. rewrite elem_of_seqZ. lia. Qed.

(** ** Seeds: every step of the mix is injective on 64-bit words *)

Lemma lxor_u64 a b : is_u64 a -> is_u64 b -> is_u64 (Z.lxor a b).
Proof.
  unfold u64_max. intros Ha Hb. split; [apply Z.lxor_nonneg; lia|].
  assert (Z.lxor a b < 2 ^ 64); [|lia].
  destruct (decide (Z.lxor a b = 0)) as [->|N]; [lia|].
  assert (0 <= Z.lxor a b) by (apply Z.lxor_nonneg; lia).
  apply Z.log2_lt_pow2; [lia|].
  pose proof (Z.log2_lxor a b ltac:(lia) ltac:(lia)).
  assert (forall x, 0 <= x <= 2 ^ 64 - 1 -> Z.log2 x < 64) as L.
  { intros x Hx. destruct (decide (x = 0)) as [->|]; [by vm_compute|]. apply Z.log2_lt_pow2; lia. }
  pose proof (L a Ha). pose proof (L b Hb). lia.
Qed.

Lemma shiftr_u64 z k : is_u64 z -> 0 <= k -> is_u64 (Z.shiftr z k).
Proof.
  intros Hz Hk. rewrite Z.shiftr_div_pow2 by done.
  pose proof (Z.pow_pos_nonneg 2 k ltac:(lia) Hk).
  split; [apply Z.div_pos; lia|].
  transitivity z; [|lia]. apply Z.div_le_upper_bound; nia.
Qed.

Lemma xorshift_u64 k z : 0 <= k -> is_u64 z -> is_u64 (xorshift k z).
Proof. intros. apply lxor_u64; [done|]. by apply shiftr_u64. Qed.

Lemma shiftr_big z k : is_u64 z -> 64 <= k -> Z.shiftr z k = 0.
Proof.
  unfold u64_max. intros Hz Hk. apply Z.shiftr_eq_0; [lia|].
  destruct (decide (z = 0)) as [->|]; [cbn; lia|].
  pose proof (Z.log2_lt_pow2 z 64 ltac:(lia)). lia.
Qed.

(** An xorshift by at least 22 bits is undone by two more xors. *)
Lemma xorshift_inv k z :
  22 <= k -> is_u64 z ->
  Z.lxor (xorshift k z) (Z.lxor (Z.shiftr (xorshift k z) k) (Z.shiftr (xorshift k z) (k + k))) = z.
Proof.
  intros Hk Hz. unfold xorshift. rewrite !Z.shiftr_lxor, !Z.shiftr_shiftr by lia.
  rewrite (shiftr_big z (k + (k + k))) by (done || lia).
  rewrite Z.lxor_0_r, <- !Z.lxor_assoc.
  rewrite (Z.lxor_assoc z (Z.shiftr z k) (Z.shiftr z k)), Z.lxor_nilpotent, Z.lxor_0_r.
  by rewrite Z.lxor_assoc, Z.lxor_nilpotent, Z.lxor_0_r.
Qed.

Lemma xorshift_inj k a b :
  22 <= k -> is_u64 a -> is_u64 b -> xorshift k a = xorshift k b -> a = b.
Proof.
  intros Hk Ha Hb E. rewrite <- (xorshift_inv k a Hk Ha), <- (xorshift_inv k b Hk Hb). by rewrite E.
Qed.

Lemma wrap64_add_inj c a b : is_u64 a -> is_u64 b -> wrap64 (a + c) = wrap64 (b + c) -> a = b.
Proof.
  intros Ha Hb E. rewrite <- (wrap64_small a Ha), <- (wrap64_small b Hb).
  replace a with (a + c - c) by lia. replace b with (b + c - c) by lia.
  unfold wrap64 in *. by rewrite Zminus_mod, E, <- Zminus_mod.
Qed.

Lemma wrap64_mul_inj c inv a b :
  wrap64 (c * inv) = 1 -> is_u64 a -> is_u64 b -> wrap64 (a * c) = wrap64 (b * c) -> a = b.
Proof.
  intros Hi Ha Hb E.
  assert (forall x, is_u64 x -> wrap64 (wrap64 (x * c) * inv) = x) as R.
  { intros x Hx. unfold wrap64 in *. rewrite Z.mul_mod_idemp_l by lia.
    rewrite <- Z.mul_assoc, <- Z.mul_mod_idemp_r, Hi, Z.mul_1_r by lia. by apply wrap64_small. }
  by rewrite <- (R a Ha), <- (R b Hb), E.
Qed.

Lemma splitmix64_inj a b : is_u64 a -> is_u64 b -> splitmix64 a = splitmix64 b -> a = b.
Proof.
  intros Ha Hb E. unfold splitmix64 in E. cbv zeta in E.
  apply xorshift_inj in E; [|lia|apply wrap64_range..].
  apply (wrap64_mul_inj _ 0x319642b2d24d8ec3) in E; [|by vm_compute|apply xorshift_u64; [lia|apply wrap64_range]..].
  apply xorshift_inj in E; [|lia|apply wrap64_range..].
  apply (wrap64_mul_inj _ 0x96de1b173f119089) in E; [|by vm_compute|apply xorshift_u64; [lia|apply wrap64_range]..].
  apply xorshift_inj in E; [|lia|apply wrap64_range..].
  by apply wrap64_add_inj in E.
Qed.

Lemma splitmix64_u64 x : is_u64 (splitmix64 x).
Proof. apply xorshift_u64; [lia|apply wrap64_range]. Qed.

Lemma land_shiftl_low a b k : 0 <= k -> 0 <= b < 2 ^ k -> Z.land (Z.shiftl a k) b = 0.
Proof.
  intros Hk Hb. apply Z.bits_inj'. intros n Hn. rewrite Z.land_spec, Z.bits_0.
  destruct (decide (n < k)); [by rewrite Z.shiftl_spec_low|].
  destruct (decide (b = 0)) as [->|]; [by rewrite Z.bits_0, andb_false_r|].
  rewrite (Z.bits_above_log2 b n), andb_false_r; [done|lia|].
  pose proof (Z.log2_lt_pow2 b k ltac:(lia)). lia.
Qed.

(** The position word is a positional code of role, worker and index. *)
Lemma position_code role w i :
  0 <= w < 2 ^ 30 -> 0 <= i < 2 ^ 32 ->
  Z.lxor (Z.lxor (wrap64 (Z.shiftl (seed_role_index role) 62)) (wrap64 (Z.shiftl w 32))) i =
  seed_role_index role * 2 ^ 62 + w * 2 ^ 32 + i.
Proof.
  intros Hw Hi.
  assert (wrap64 (Z.shiftl (seed_role_index role) 62) = Z.shiftl (seed_role_index role) 62) as ->
    by (destruct role; by vm_compute).
  rewrite (wrap64_small (Z.shiftl w 32)) by (rewrite Z.shiftl_mul_pow2 by lia; unfold u64_max; lia).
  rewrite <- (Z.add_nocarry_lxor (Z.shiftl (seed_role_index role) 62) (Z.shiftl w 32)).
  2: { apply land_shiftl_low; [lia|]. rewrite Z.shiftl_mul_pow2 by lia. lia. }
  replace (Z.shiftl (seed_role_index role) 62 + Z.shiftl w 32)
    with (Z.shiftl (seed_role_index role * 2 ^ 30 + w) 32).
  2: { rewrite !Z.shiftl_mul_pow2 by lia. lia. }
  rewrite <- Z.add_nocarry_lxor by (by apply land_shiftl_low).
  rewrite Z.shiftl_mul_pow2 by lia. lia.
Qed.

(** ** Properties *)

(** A written key has exactly the requested length and spells its id:
    decoding its hexadecimal digits, dashes skipped, gives the id modulo
    16 to the number of digits, so two ids below that bound never share a
    key. *)
Theorem write_key_faithful fmt len id1 id2 :
  length (write_key fmt len id1) = len /\
  read_key (write_key fmt len id1) = id1 mod 16 ^ key_digits fmt len /\
  (0 <= id1 < 16 ^ key_digits fmt len -> 0 <= id2 < 16 ^ key_digits fmt len ->
   write_key fmt len id1 = write_key fmt len id2 -> id1 = id2).
Proof.
  split_and!; [apply write_key_length|apply read_write_key|].
  intros H1 H2 E. pose proof (read_write_key fmt len id1) as R1.
  rewrite E, read_write_key, !Z.mod_small in R1 by done. done.
Qed.

(** The prefill queues partition the keyspace: every id of the keyspace
    is in exactly one queue, that of the endpoint its key routes to, in
    increasing order; no lookup is out of bounds. *)
Theorem prefill_partition `{HashingLaws} fmt key_count key_len endpoints slot_table :
  let n := Z.max (Z.of_nat (length endpoints)) 1 in
  table_ok n slot_table ->
  exists qs,
    build_prefill_queues fmt key_count key_len endpoints slot_table = Some qs /\
    Permutation (concat qs) (key_ids key_count) /\
    forall e, (e < Z.to_nat n)%nat ->
      qs !! e = Some (filter (fun k => owner fmt key_len (partition_ring endpoints) slot_table n k
                                       = Z.of_nat e) (key_ids key_count)).
Proof.
  intros n T. destruct (prefill_queues_built fmt key_count key_len endpoints slot_table T)
    as (qs & E & Es & _ & P).
  exists qs. split; [exact E|]. split; [exact P|]. intros e He. rewrite Es. unfold scatter, pq_new. fold n.
  replace (Z.max n 1) with n by lia. by rewrite list_lookup_imap, lookup_replicate_2 by lia.
Qed.

(** Steady-state key selection uses the partition prefill wrote: with at
    least two endpoints and at most 2^32 keys, the per-endpoint key lists are
    the prefill queues. *)
Theorem endpoint_keys_match_prefill `{HashingLaws} fmt key_count key_len endpoints slot_table :
  (2 <= length endpoints)%nat -> key_count <= 2 ^ 32 ->
  table_ok (Z.of_nat (length endpoints)) slot_table ->
  build_endpoint_keys fmt key_count key_len endpoints slot_table =
  build_prefill_queues fmt key_count key_len endpoints slot_table.
Proof.
  intros L C T. unfold build_endpoint_keys, build_prefill_queues.
  replace (Z.max (Z.of_nat (length endpoints)) 1) with (Z.of_nat (length endpoints)) by lia.
  rewrite (proj2 (Z.leb_gt _ _)) by lia.
  assert (ring_build (map socket_to_string endpoints) = partition_ring endpoints) as ->
    by (destruct endpoints; [cbn in L; lia|done]).
  assert (forall k, 0 <= ring_route (partition_ring endpoints) k < Z.of_nat (length endpoints)) as RR.
  { intros k. pose proof (partition_ring_range endpoints k). lia. }
  unfold pq_new. replace (Z.max (Z.of_nat (length endpoints)) 1) with (Z.of_nat (length endpoints)) by lia.
  rewrite fill_buckets_scatter, fill_prefill_scatter; try done; try lia.
  - by rewrite length_replicate.
  - by rewrite length_replicate.
  - apply Forall_forall. intros k Hk%key_ids_elem. lia.
Qed.

(** [connection_share] splits the connections into consecutive slices, one
    per worker: the first starts at 0, each starts where the one before ends,
    the last ends at the total, and two workers' shares differ by at most one. *)
Theorem connection_share_slices total threads w :
  0 <= total -> 0 < threads -> 0 <= w < threads ->
  let (mine, start) := connection_share total threads w in
  let (mine', start') := connection_share total threads (w + 1) in
  (w = 0 -> start = 0) /\ start' = start + mine /\
  (w = threads - 1 -> start + mine = total) /\
  total / threads <= mine <= total / threads + 1 /\ 0 <= start.
Proof.
  intros Ht Hn Hw. unfold connection_share. rewrite Z.max_l by lia.
  pose proof (Z.div_mod total threads ltac:(lia)) as E.
  pose proof (Z.mod_pos_bound total threads Hn) as R.
  pose proof (Z.div_pos total threads Ht Hn) as D.
  set (b := total / threads) in *. set (m := total mod threads) in *. clearbody b m.
  destruct (w <? m) eqn:E1, (w + 1 <? m) eqn:E2; split_and!; try nia.
Qed.

(** No two connections of a run, and no connection under two run seeds,
    draw the same random stream: the seed is injective in the role, worker and
    index together, and in the run seed. *)
Theorem connection_seed_injective seed1 seed2 role1 role2 w1 w2 i1 i2 :
  is_u64 seed1 -> is_u64 seed2 ->
  0 <= w1 < 2 ^ 30 -> 0 <= w2 < 2 ^ 30 -> 0 <= i1 < 2 ^ 32 -> 0 <= i2 < 2 ^ 32 ->
  connection_seed seed1 role1 w1 i1 = connection_seed seed2 role2 w2 i2 ->
  (seed1 = seed2 -> role1 = role2 /\ w1 = w2 /\ i1 = i2) /\
  (role1 = role2 -> w1 = w2 -> i1 = i2 -> seed1 = seed2).
Proof.
  intros S1 S2 W1 W2 I1 I2. unfold connection_seed. cbv zeta. rewrite !position_code by done.
  intros E. apply splitmix64_inj in E; [|apply lxor_u64; [done|apply splitmix64_u64]..].
  assert (forall r w i, 0 <= w < 2 ^ 30 -> 0 <= i < 2 ^ 32 ->
    is_u64 (seed_role_index r * 2 ^ 62 + w * 2 ^ 32 + i)) as U
    by (intros r w i; unfold u64_max; destruct r; cbn [seed_role_index]; lia).
  split.
  - intros ->. assert (forall a b, Z.lxor seed2 a = Z.lxor seed2 b -> a = b) as X.
    { intros a b Hab. rewrite <- (Z.lxor_0_l a), <- (Z.lxor_0_l b), <- (Z.lxor_nilpotent seed2).
      by rewrite !Z.lxor_assoc, Hab. }
    apply X, splitmix64_inj in E; [|by apply U..].
    assert (role1 = role2) as -> by (destruct role1, role2; cbn [seed_role_index] in E; try done; lia).
    split_and!; [done|lia..].
  - intros -> -> ->. assert (forall a b c, Z.lxor a c = Z.lxor b c -> a = b) as X.
    { intros a b c Hab. rewrite <- (Z.lxor_0_r a), <- (Z.lxor_0_r b), <- (Z.lxor_nilpotent c).
      by rewrite <- !Z.lxor_assoc, Hab. }
    by apply X in E.
Qed.

(** *** Witnesses *)

Lemma example_hashing_laws : @HashingLaws example_hashing.
Proof.
  assert (forall x, 0 <= Z.land x 15 < 16) as L.
  { intros x. change 15 with (Z.ones 4). rewrite Z.land_ones by lia. apply Z.mod_pos_bound. lia. }
  constructor.
  - intros k. cbn. pose proof (L (default 0 (last k))). lia.
  - intros ids k Hids. cbn. apply Z.mod_pos_bound. destruct ids; [done|]. cbn. lia.
Qed.

Definition example_nodes : list SocketAddr :=
  [{| sa_ip := "10.0.0.1"; sa_port := 6379 |}; {| sa_ip := "10.0.0.2"; sa_port := 6379 |}].

Lemma write_key_faithful_witness :
  write_key Hex 4 0x2af = [48; 50; 97; 102] /\ read_key (write_key Uuid 36 0x2af) = 0x2af /\
  write_key Hex 4 1 <> write_key Hex 4 2.
Proof.
  split_and!; [by vm_compute| |].
  - exact (proj1 (proj2 (write_key_faithful Uuid 36 0x2af 0))).
  - intros E. assert (1 = 2) as X; [|discriminate X].
    by apply (proj2 (proj2 (write_key_faithful Hex 4 1 2))).
Defined.

Lemma prefill_partition_witness :
  exists qs, @build_prefill_queues example_hashing Hex 20 4 example_nodes None = Some qs /\
             Permutation (concat qs) (key_ids 20).
Proof.
  destruct (@prefill_partition example_hashing example_hashing_laws Hex 20 4%nat example_nodes None I)
    as (qs & E & P & _).
  by exists qs.
Defined.

Lemma endpoint_keys_match_prefill_witness :
  @build_endpoint_keys example_hashing Hex 4 4 example_nodes None =
  @build_prefill_queues example_hashing Hex 4 4 example_nodes None /\
  @build_endpoint_keys example_hashing Hex 4 4 example_nodes None = Some [[0; 2]; [1; 3]].
Proof.
  split; [|by vm_compute].
  apply (@endpoint_keys_match_prefill example_hashing example_hashing_laws); [cbn; lia|lia|exact I].
Defined.

Lemma connection_share_slices_witness :
  connection_share 10 4 0 = (3, 0) /\ connection_share 10 4 1 = (3, 3) /\ (3 = 0 + 3 :> Z).
Proof.
  split_and!; [by vm_compute..|].
  exact (proj1 (proj2 (connection_share_slices 10 4 0 ltac:(lia) ltac:(lia) ltac:(lia)))).
Defined.

Lemma connection_seed_injective_witness :
  connection_seed 7 SeedReader 0 1 <> connection_seed 7 SeedReader 1 0.
Proof.
  intros E.
  assert (SeedReader = SeedReader /\ 0 = 1 /\ 1 = 0) as (_ & X & _); [|discriminate X].
  apply (connection_seed_injective 7 7 SeedReader SeedReader 0 1 1 0); try (unfold u64_max; lia); done.
Defined.
