(* ===== verification/Limiter.v ===== *)
(** Limiter: the per-worker rate limiters and the prefill pacer
    ([src/src/limiters.rs]).

    The token bucket itself is the third-party [ratelimit::Ratelimiter]: the
    class [Ratelimiter] holds its operations, each at an explicit instant
    [now] (in nanoseconds), and [RatelimiterLaws] what its documentation
    promises.  A limiter counts in 1/[SUB] of a request. *)

From Stdlib Require Import SpecFloat.
From S2P Require Import Prelude F64 Config.
Open Scope Z_scope.

(** ** The token bucket *)

Inductive TryWait :=
| Taken
| Insufficient (wait : Z)
| ExceedsCapacity
| OtherTryWaitError.

(** [rl_held now b] is what the bucket holds at [now], refilled and capped. *)
Class Ratelimiter := {
  bucket : Type;
  rl_build (now rate period max_tokens initial_available : Z) : option bucket;
  rl_rate : bucket -> Z;
  rl_period : bucket -> Z;
  rl_max_tokens : bucket -> Z;
  rl_dropped : bucket -> Z;
  rl_held : Z -> bucket -> Z;
  rl_set_max_tokens : Z -> bucket -> bucket;
  rl_set_rate_per : Z -> Z -> bucket -> bucket;
  rl_try_wait_n : Z -> Z -> bucket -> bucket * TryWait;
}.

(** The parameters two states of a bucket share. *)
Definition same_params `{Ratelimiter} (b b' : bucket) : Prop :=
  rl_rate b' = rl_rate b /\ rl_period b' = rl_period b /\ rl_max_tokens b' = rl_max_tokens b.

Class RatelimiterLaws `{Ratelimiter} := {
  rl_build_ok now rate period cap init :
    0 < cap -> 0 <= init <= cap -> 0 < period -> 0 <= rate ->
    exists b, rl_build now rate period cap init = Some b /\
      rl_rate b = rate /\ rl_period b = period /\ rl_max_tokens b = cap /\ rl_held now b = init;
  rl_held_range now b : 0 <= rl_max_tokens b -> 0 <= rl_held now b <= rl_max_tokens b;
  (** A claim within the holding is paid in full; one that is not takes
      nothing; a rate of 0 is unlimited. *)
  rl_take_ok now n b :
    rl_rate b <> 0 -> 0 < n <= rl_held now b ->
    exists b', rl_try_wait_n now n b = (b', Taken) /\ same_params b b' /\
               rl_held now b' = rl_held now b - n;
  rl_take_short now n b :
    rl_rate b <> 0 -> rl_held now b < n <= rl_max_tokens b ->
    exists b' d, rl_try_wait_n now n b = (b', Insufficient d) /\ 0 < d /\ same_params b b' /\
                 rl_held now b' = rl_held now b;
  rl_take_exceeds now n b :
    rl_rate b <> 0 -> rl_max_tokens b < n ->
    exists b', rl_try_wait_n now n b = (b', ExceedsCapacity) /\ same_params b b' /\
               rl_held now b' = rl_held now b;
  (** Changing the cap keeps the rate; a lower cap cuts the holding; a higher
      one, right after a take, leaves it. *)
  rl_set_max_params m b :
    rl_rate (rl_set_max_tokens m b) = rl_rate b /\
    rl_period (rl_set_max_tokens m b) = rl_period b /\
    rl_max_tokens (rl_set_max_tokens m b) = m;
  rl_set_max_lower now m b :
    0 <= m <= rl_max_tokens b -> rl_held now (rl_set_max_tokens m b) = Z.min m (rl_held now b);
  rl_set_max_raise now n m b b' r :
    rl_rate b <> 0 -> 0 < n -> rl_try_wait_n now n b = (b', r) -> 0 <= rl_max_tokens b' <= m ->
    rl_held now (rl_set_max_tokens m b') = rl_held now b';
  rl_set_rate_params rate period b :
    rl_rate (rl_set_rate_per rate period b) = rate /\
    rl_period (rl_set_rate_per rate period b) = period /\
    rl_max_tokens (rl_set_rate_per rate period b) = rl_max_tokens b;
}.

(** ** [WorkerLimiter] *)

Definition SUB : Z := 1024.

Section worker_limiter.
Context `{Ratelimiter}.

Record WorkerLimiter := { inner : bucket; claim : Z; start : Z }.

#[export] Instance eta_WorkerLimiter : Settable WorkerLimiter := fun x =>
  {| inner := inner x; claim := claim x; start := start x |}.

(** [WorkerLimiter::build]; [None] where the source's [expect] panics. *)
Definition limiter_build (now rate period burst stagger claim : Z) (start : option Z)
    : option WorkerLimiter :=
  let cap := sat_add (sat_mul burst SUB) stagger in
  b ← rl_build now (sat_mul rate SUB) period cap (Z.min (default cap start) cap);
  Some {| inner := b; claim := sat_mul (Z.max claim 1) SUB; start := Z.min (default cap start) cap |}.

(** [WorkerLimiter::restart]. *)
Definition limiter_restart (now : Z) (w : WorkerLimiter) : WorkerLimiter :=
  let cap := rl_max_tokens (inner w) in
  let b := rl_set_max_tokens (sat_add (start w) 1) (inner w) in
  let (b, _) := rl_try_wait_n now 1 b in
  w <| inner := rl_set_max_tokens cap b |>.

(** [WorkerLimiter::paced]. *)
Definition limiter_paced (now rate claim : Z) : option WorkerLimiter :=
  let claim := Z.max claim 1 in
  let hold := wrap64 (Z.max (rate / 100) claim + claim) in
  limiter_build now rate (from_secs 1) hold 0 1 (Some 0).

Definition limiter_per_second (now rate burst : Z) : option WorkerLimiter :=
  limiter_build now rate (from_secs 1) burst 0 1 None.

(** [WorkerLimiter::try_wait_n]: a claim of [n] requests. *)
Definition limiter_try_wait_n (now n : Z) (w : WorkerLimiter) : WorkerLimiter * TryWait :=
  let (b, r) := rl_try_wait_n now (sat_mul n SUB) (inner w) in (w <| inner := b |>, r).

Definition limiter_try_wait (now : Z) (w : WorkerLimiter) : WorkerLimiter * TryWait :=
  limiter_try_wait_n now 1 w.

(** [WorkerLimiter::try_take]: [Err] is how long to wait. *)
Definition limiter_try_take (now : Z) (w : WorkerLimiter) : WorkerLimiter * result Z () :=
  let (w, r) := limiter_try_wait now w in
  match r with
  | Taken => (w, Ok ())
  | Insufficient wait => (w, Err wait)
  | _ => (w, Err (from_millis 1))
  end.

Definition limiter_max_tokens (w : WorkerLimiter) : Z := rl_max_tokens (inner w) / SUB.

(** [WorkerLimiter::slip_ns]. *)
Definition slip_ns (now : Z) (w : WorkerLimiter) : Z :=
  let rate := rl_rate (inner w) in
  if rate =? 0 then 0
  else
    let behind := sat_sub (rl_held now (inner w)) (claim w) in
    Z.min (behind * rl_period (inner w) / rate) u64_max.

Definition limiter_dropped (w : WorkerLimiter) : Z := rl_dropped (inner w) / SUB.

Definition rate_per_second (w : WorkerLimiter) : f64 :=
  f64_div (f64_div (f64_of_Z (rl_rate (inner w))) (f64_of_Z SUB))
          (as_secs_f64 (rl_period (inner w))).

Definition limiter_set_rate_per (rate period : Z) (w : WorkerLimiter) : WorkerLimiter :=
  w <| inner := rl_set_rate_per (sat_mul rate SUB) period (inner w) |>.

(** ** [PrefillPacer] *)

Record PrefillPacer := { limiter : WorkerLimiter; waiting : Z; max_sleep : Z }.

#[export] Instance eta_PrefillPacer : Settable PrefillPacer := fun x =>
  {| limiter := limiter x; waiting := waiting x; max_sleep := max_sleep x |}.

(** [Duration::from_secs_f64] of a non-negative finite number: the nearest
    nanosecond; panics otherwise. *)
Definition duration_from_secs_f64 (x : f64) : option Z :=
  match x with
  | S754_zero _ => Some 0
  | S754_finite false m e =>
      Some (if 0 <=? e then Z.pos m * 2 ^ e * 1000000000
            else round_half_even (Z.pos m * 1000000000) (2 ^ (- e)))
  | _ => None
  end.

(** [Duration::MAX] and [Duration::saturating_mul]. *)
Definition duration_max : Z := u64_max * 1000000000 + 999999999.

Definition duration_sat_mul (d n : Z) : Z := Z.min (d * n) duration_max.

Definition pacer_new (now rate claim : Z) : option PrefillPacer :=
  w ← limiter_paced now rate claim;
  let hold := f64_div (f64_of_Z (limiter_max_tokens w)) (f64_of_Z (Z.max rate 1)) in
  ms ← duration_from_secs_f64 (f64_div hold (f64_of_Z 2));
  Some {| limiter := w; waiting := 0; max_sleep := ms |}.

(** [PrefillPacer::try_take]: [Err sleep] is a [Refused], which holds a place
    in [waiting] until it is dropped. *)
Definition pacer_try_take (now : Z) (p : PrefillPacer) : PrefillPacer * result Z () :=
  let (w, r) := limiter_try_take now (limiter p) in
  let p := p <| limiter := w |> in
  match r with
  | Ok _ => (p, Ok ())
  | Err wait =>
      let n := wrap64 (waiting p + 1) in
      let sleep := Z.min (duration_sat_mul wait (Z.min n u32_max)) (Z.max (max_sleep p) wait) in
      (p <| waiting := n |>, Err sleep)
  end.

(** [Refused::drop]. *)
Definition refused_drop (p : PrefillPacer) : PrefillPacer := p <| waiting := wrap64 (waiting p - 1) |>.

Definition pacer_restart (now : Z) (p : PrefillPacer) : PrefillPacer :=
  p <| limiter := limiter_restart now (limiter p) |>.

(** ** [WorkerLimiters] *)

Record WorkerLimiters := {
  limiters : list (option WorkerLimiter);
  weights : list Z;
  total_weight : Z;
  rate : Z;
}.

#[export] Instance eta_WorkerLimiters : Settable WorkerLimiters := fun x =>
  {| limiters := limiters x; weights := weights x; total_weight := total_weight x;
     rate := rate x |}.

(** [share_ceil]. *)
Definition share_ceil (rate weight total_weight : Z) : Z :=
  wrap64 (div_ceil (rate * weight) (Z.max total_weight 1)).

Fixpoint sum_weights (ws : list Z) : Z :=
  match ws with [] => 0 | w :: ws => wrap64 (w + sum_weights ws) end.

(** The [map] of [WorkerLimiters::new] over the workers' weights, [index]
    counting the workers that have connections. *)
Fixpoint build_limiters (now rate total_weight active claim index : Z) (ws : list Z)
    : option (list (option WorkerLimiter)) :=
  match ws with
  | [] => Some []
  | w :: ws =>
      if w =? 0 then
        rest ← build_limiters now rate total_weight active claim index ws;
        Some (None :: rest)
      else
        let burst := Z.max (share_ceil rate w total_weight) claim in
        let stagger := wrap64 (wrap64 (index * claim) * SUB) / active in
        l ← limiter_build now (sat_mul rate w) (from_secs total_weight) burst stagger claim
              (Some stagger);
        rest ← build_limiters now rate total_weight active claim (index + 1) ws;
        Some (Some l :: rest)
  end.

Definition limiters_new (now rate : Z) (connections : list Z) (claim : Z) : option WorkerLimiters :=
  let total := Z.max (sum_weights connections) 1 in
  let active := Z.max (Z.of_nat (length (filter (fun w => 0 < w) connections))) 1 in
  ls ← build_limiters now rate total active (Z.max claim 1) 0 connections;
  Some {| limiters := ls; weights := connections; total_weight := total; rate := rate |}.

Definition limiters_restart (now : Z) (l : WorkerLimiters) : WorkerLimiters :=
  l <| limiters := map (fmap (limiter_restart now)) (limiters l) |>.

(** [WorkerLimiters::worker]. *)
Definition limiters_worker (l : WorkerLimiters) (id : nat) : option WorkerLimiter :=
  mjoin (limiters l !! id).

Fixpoint set_rates (rate period : Z) (ls : list (option WorkerLimiter)) (ws : list Z)
    : list (option WorkerLimiter) :=
  match ls, ws with
  | rl :: ls, w :: ws =>
      fmap (limiter_set_rate_per (sat_mul rate w) period) rl :: set_rates rate period ls ws
  | ls, _ => ls
  end.

Definition limiters_set_rate (new_rate : Z) (l : WorkerLimiters) : WorkerLimiters :=
  l <| limiters := set_rates new_rate (from_secs (total_weight l)) (limiters l) (weights l) |>
    <| rate := new_rate |>.

Definition limiters_dropped (l : WorkerLimiters) : Z :=
  fold_right (fun rl acc => wrap64 (match rl with Some w => limiter_dropped w | None => 0 end + acc))
    0 (limiters l).

End worker_limiter.

(** ** A concrete bucket, for examples

    It refills at each take and whenever it is read, from the time since its
    last take. *)

Record SimpleBucket := {
  sb_rate : Z; sb_period : Z; sb_max : Z; sb_avail : Z; sb_last : Z; sb_dropped : Z;
}.

Definition sb_held (now : Z) (b : SimpleBucket) : Z :=
  Z.max 0 (Z.min (sb_max b) (Z.max 0 (sb_avail b) +
    Z.max 0 (if sb_period b =? 0 then 0 else sb_rate b * Z.max 0 (now - sb_last b) / sb_period b))).

Definition sb_try_wait_n (now n : Z) (b : SimpleBucket) : SimpleBucket * TryWait :=
  let held := sb_held now b in
  let set v := {| sb_rate := sb_rate b; sb_period := sb_period b; sb_max := sb_max b;
                  sb_avail := v; sb_last := Z.max now (sb_last b); sb_dropped := sb_dropped b |} in
  if sb_rate b =? 0 then (b, Taken)
  else if sb_max b <? n then (set held, ExceedsCapacity)
  else if held <? n then (set held, Insufficient 1)
  else (set (held - n), Taken).

Definition simple_ratelimiter : Ratelimiter :=
  {| bucket := SimpleBucket;
     rl_build now rate period cap init :=
       Some {| sb_rate := rate; sb_period := period; sb_max := cap; sb_avail := init;
               sb_last := now; sb_dropped := 0 |};
     rl_rate := sb_rate; rl_period := sb_period; rl_max_tokens := sb_max; rl_dropped := sb_dropped;
     rl_held := sb_held;
     rl_set_max_tokens m b :=
       {| sb_rate := sb_rate b; sb_period := sb_period b; sb_max := m; sb_avail := sb_avail b;
          sb_last := sb_last b; sb_dropped := sb_dropped b |};
     rl_set_rate_per rate period b :=
       {| sb_rate := rate; sb_period := period; sb_max := sb_max b; sb_avail := sb_avail b;
          sb_last := sb_last b; sb_dropped := sb_dropped b |};
     rl_try_wait_n := sb_try_wait_n |}.

Lemma simple_ratelimiter_laws : @RatelimiterLaws simple_ratelimiter.
Proof.
  constructor; cbn; unfold same_params, sb_try_wait_n, sb_held; cbn.
  - intros. eexists. split_and!; [done..|]. cbn.
    replace (Z.max 0 (now - now)) with 0 by lia. rewrite Z.mul_0_r.
    destruct (_ =? 0); rewrite ?Zdiv_0_l; lia.
  - intros. lia.
  - intros now n b R Hn. rewrite (proj2 (Z.eqb_neq _ _)) by done.
    rewrite !(proj2 (Z.ltb_ge _ _)) by lia. eexists. split_and!; [done..|]. cbn.
    replace (Z.max 0 (now - Z.max now (sb_last b))) with 0 by lia. rewrite Z.mul_0_r.
    destruct (_ =? 0); rewrite ?Zdiv_0_l; lia.
  - intros now n b R Hn. rewrite (proj2 (Z.eqb_neq _ _)) by done.
    rewrite (proj2 (Z.ltb_ge (sb_max b) n)) by lia. rewrite (proj2 (Z.ltb_lt _ n)) by lia.
    eexists _, 1. split_and!; [done|lia|done..|]. cbn.
    replace (Z.max 0 (now - Z.max now (sb_last b))) with 0 by lia. rewrite Z.mul_0_r.
    destruct (_ =? 0); rewrite ?Zdiv_0_l; lia.
  - intros now n b R Hn. rewrite (proj2 (Z.eqb_neq _ _)) by done.
    rewrite (proj2 (Z.ltb_lt (sb_max b) n)) by lia. eexists. split_and!; [done..|]. cbn.
    replace (Z.max 0 (now - Z.max now (sb_last b))) with 0 by lia. rewrite Z.mul_0_r.
    destruct (_ =? 0); rewrite ?Zdiv_0_l; lia.
  - done.
  - intros. lia.
  - intros now n m b b' r R Hn E Hm. rewrite (proj2 (Z.eqb_neq _ _)) in E by done.
    assert (sb_avail b' <= sb_max b' /\ sb_last b' = Z.max now (sb_last b)) as (V1 & V2).
    { destruct (sb_max b <? n); [|destruct (_ <? n)]; injection E as <- _; cbn in *;
        (split; [|done]); destruct (sb_period b =? 0); lia. }
    rewrite V2. replace (Z.max 0 (now - Z.max now (sb_last b))) with 0 by lia. rewrite Z.mul_0_r.
    clear E. destruct (sb_period b' =? 0); rewrite ?Zdiv_0_l; lia.
  - done.
Qed.

(** ** Lemmas *)

Fixpoint sumZ (l : list Z) : Z := match l with [] => 0 | x :: l => x + sumZ l end.

Lemma sumZ_nonneg l : Forall (Z.le 0) l -> 0 <= sumZ l.
Proof. induction 1; cbn; lia. Qed.

Lemma sum_weights_exact l : Forall (Z.le 0) l -> sumZ l <= u64_max -> sum_weights l = sumZ l.
Proof.
  induction 1 as [|w l Hw Hl IH]; cbn; intros B; [done|].
  pose proof (sumZ_nonneg l Hl). rewrite IH by lia. apply wrap64_small. lia.
Qed.

Section laws.
Context `{RatelimiterLaws}.

(** A bucket that starts below its cap: the take [restart] makes under the
    narrowed cap leaves [start], or one unit less than it held. *)
Lemma restart_bucket now w :
  rl_rate (inner w) <> 0 -> 0 <= start w < rl_max_tokens (inner w) ->
  rl_max_tokens (inner w) <= u64_max ->
  let w' := limiter_restart now w in
  same_params (inner w) (inner w') /\ claim w' = claim w /\ start w' = start w /\
  rl_held now (inner w') = Z.max 0 (Z.min (rl_held now (inner w)) (start w + 1) - 1).
Proof.
  intros R S U. unfold limiter_restart. cbv zeta.
  assert (sat_add (start w) 1 = start w + 1) as -> by ulia.
  destruct (rl_set_max_params (start w + 1) (inner w)) as (P1 & P2 & P3).
  pose proof (rl_set_max_lower now (start w + 1) (inner w) ltac:(lia)) as HL.
  pose proof (rl_held_range now (inner w) ltac:(lia)) as HR.
  set (b := rl_set_max_tokens (start w + 1) (inner w)) in *.
  assert (rl_rate b <> 0) as Rb by by rewrite P1.
  assert (exists b' r, rl_try_wait_n now 1 b = (b', r) /\ same_params b b' /\
    rl_held now b' = Z.max 0 (rl_held now b - 1)) as (b' & r & E & (Q1 & Q2 & Q3) & Q4).
  { destruct (decide (1 <= rl_held now b)).
    - destruct (rl_take_ok now 1 b Rb) as (b' & E & Q & Q4); [lia|].
      exists b', Taken. split_and!; [done|done|lia].
    - destruct (rl_take_short now 1 b Rb) as (b' & d & E & _ & Q & Q4); [lia|].
      exists b', (Insufficient d). split_and!; [done|done|lia]. }
  rewrite E. cbn. destruct (rl_set_max_params (rl_max_tokens (inner w)) b') as (T1 & T2 & T3).
  split_and!; [unfold same_params; split_and!; congruence|done|done|].
  rewrite (rl_set_max_raise now 1 _ _ _ _ Rb ltac:(lia) E) by lia. lia.
Qed.

(** Everything [limiter_build] sets, when its cap does not saturate. *)
Lemma build_spec now rate period burst stagger claim st :
  0 < burst -> 0 <= stagger -> burst * SUB + stagger <= u64_max ->
  0 <= rate -> rate * SUB <= u64_max -> 0 < period ->
  0 < claim -> claim * SUB <= u64_max ->
  (forall s, st = Some s -> 0 <= s) ->
  let cap := burst * SUB + stagger in
  let s := Z.min (default cap st) cap in
  exists w, limiter_build now rate period burst stagger claim st = Some w /\
    rl_rate (inner w) = rate * SUB /\ rl_period (inner w) = period /\
    rl_max_tokens (inner w) = cap /\ rl_held now (inner w) = s /\
    Limiter.claim w = claim * SUB /\ start w = s.
Proof.
  intros Hb Hs Hc Hr Hr' Hp Hcl Hcl' Hst cap s. unfold SUB in *. unfold limiter_build, SUB.
  assert (sat_add (sat_mul burst 1024) stagger = cap) as -> by (subst cap; ulia).
  assert (sat_mul rate 1024 = rate * 1024) as -> by ulia.
  assert (sat_mul (Z.max claim 1) 1024 = claim * 1024) as -> by ulia.
  fold s.
  assert (0 <= s <= cap) as Rs.
  { subst s. destruct st as [x|]; cbn; [pose proof (Hst x eq_refl)|]; lia. }
  destruct (rl_build_ok now (rate * 1024) period cap s) as (b & -> & B1 & B2 & B3 & B4); try lia.
  cbn. eexists. split; [done|]. cbn. split_and!; done.
Qed.


(** What each worker gets: no limiter without connections, else its share. *)
Record limiter_ok (now rate total active claim idx w : Z) (x : WorkerLimiter) : Prop := {
  lo_rate : rl_rate (inner x) = rate * w * SUB;
  lo_period : rl_period (inner x) = from_secs total;
  lo_cap : rl_max_tokens (inner x) = Z.max (div_ceil (rate * w) total) claim * SUB + start x;
  lo_start : start x = idx * claim * SUB / active;
  lo_held : rl_held now (inner x) = start x;
  lo_claim : Limiter.claim x = claim * SUB;
  lo_stagger : 0 <= start x < Limiter.claim x;
}.

Fixpoint built (now rate total active claim idx : Z) (ws : list Z)
    (ls : list (option WorkerLimiter)) : Prop :=
  match ws, ls with
  | [], [] => True
  | w :: ws, o :: ls =>
      if w =? 0 then o = None /\ built now rate total active claim idx ws ls
      else (exists x, o = Some x /\ limiter_ok now rate total active claim idx w x) /\
           built now rate total active claim (idx + 1) ws ls
  | _, _ => False
  end.

Definition limiter_rate (o : option WorkerLimiter) : Z :=
  match o with Some x => rl_rate (inner x) | None => 0 end.

Definition positive (ws : list Z) : list Z := filter (fun w => 0 < w) ws.

Lemma div_ceil_mono_bound a b c : 0 <= a -> 0 < b -> a <= b * c -> div_ceil a b <= c.
Proof.
  intros Ha Hb Hc. destruct (div_ceil_spec a b Ha Hb) as [|[-> ->]]; nia.
Qed.

Lemma build_limiters_spec now rate total active claim idx ws :
  Forall (Z.le 0) ws -> 0 <= rate -> 0 < claim -> 0 <= idx ->
  idx + Z.of_nat (length (positive ws)) <= active ->
  0 < total -> (forall w, w ∈ ws -> w <= total) -> total <= u64_max ->
  (rate * total + claim * (active + 1)) * SUB <= u64_max ->
  exists ls, build_limiters now rate total active claim idx ws = Some ls /\
             built now rate total active claim idx ws ls /\
             sumZ (map limiter_rate ls) = rate * sumZ ws * SUB.
Proof.
  intros F Hr Hc. revert idx. induction F as [|w ws Hw F IH]; intros idx Hi Ha Ht Hle Ht64 B.
  - exists []. cbn. split_and!; [done|done|lia].
  - cbn [build_limiters]. unfold positive in Ha. rewrite filter_cons in Ha.
    assert (w <= total) as Hwt by (apply Hle; left).
    assert (forall w, w ∈ ws -> w <= total) as Hle' by (intros v Hv; apply Hle; by right).
    destruct (w =? 0) eqn:E.
    + apply Z.eqb_eq in E as ->. rewrite decide_False in Ha by lia.
      destruct (IH idx) as (ls & -> & Bu & Su); try done.
      cbn. eexists. split_and!; [done| |].
      * cbn. by split.
      * cbn. lia.
    + apply Z.eqb_neq in E. rewrite decide_True in Ha by lia. cbn [length] in Ha.
      assert (0 <= rate * w <= rate * total) as Hrw by nia.
      assert (share_ceil rate w total = div_ceil (rate * w) total) as ES.
      { unfold share_ceil. rewrite Z.max_l by lia. apply wrap64_small.
        pose proof (div_ceil_nonneg (rate * w) total ltac:(lia) Ht).
        pose proof (div_ceil_mono_bound (rate * w) total rate ltac:(lia) Ht ltac:(lia)).
        unfold SUB in B. nia. }
      pose proof (div_ceil_nonneg (rate * w) total ltac:(lia) Ht) as D0.
      pose proof (div_ceil_mono_bound (rate * w) total (rate * total) ltac:(lia) Ht ltac:(nia)) as D1.
      assert (0 <= idx * claim * SUB <= claim * active * SUB) as HI by (unfold SUB; nia).
      assert (wrap64 (wrap64 (idx * claim) * SUB) = idx * claim * SUB) as ->.
      { unfold SUB in *. rewrite (wrap64_small (idx * claim)) by nia. apply wrap64_small. nia. }
      assert (0 <= idx * claim * SUB / active < claim * SUB) as HS.
      { split; [apply Z.div_pos; lia|]. apply Z.div_lt_upper_bound; unfold SUB; nia. }
      rewrite ES. assert (sat_mul rate w = rate * w) as -> by (unfold SUB in *; ulia).
      destruct (build_spec now (rate * w) (from_secs total) (Z.max (div_ceil (rate * w) total) claim)
        (idx * claim * SUB / active) claim (Some (idx * claim * SUB / active)))
        as (x & -> & X1 & X2 & X3 & X4 & X5 & X6); try (unfold SUB, from_secs in *; nia).
      { intros s [= <-]. lia. }
      cbn [default] in *. unfold default, id in X4, X6. rewrite Z.min_l in X4, X6 by (unfold SUB in *; lia).
      destruct (IH (idx + 1)) as (ls & -> & Bu & Su); try done; try lia.
      { unfold positive. lia. }
      cbn [mbind option_bind]. eexists. split_and!; [done| |].
      * cbn. rewrite (proj2 (Z.eqb_neq _ _)) by done. split; [|done]. exists x. split; [done|].
        constructor; congruence || lia.
      * cbn. lia.
Qed.

End laws.

(** ** The pacer as a sequence of takes and drops *)

Inductive PacerEvent := PacerTake (now : Z) | PacerDrop.

(** Run a sequence of events; [out] is the number of [Refused] alive.  A drop
    needs one. *)
Fixpoint pacer_run `{Ratelimiter} (p : PrefillPacer) (out : nat) (es : list PacerEvent)
    : option (PrefillPacer * nat) :=
  match es with
  | [] => Some (p, out)
  | PacerTake now :: es =>
      let (p, r) := pacer_try_take now p in pacer_run p (if is_ok r then out else S out) es
  | PacerDrop :: es =>
      match out with O => None | S out => pacer_run (refused_drop p) out es end
  end.

Lemma pacer_take_waiting `{Ratelimiter} now p :
  let (p', r) := pacer_try_take now p in
  waiting p' = (if is_ok r then waiting p else wrap64 (waiting p + 1)) /\ max_sleep p' = max_sleep p.
Proof.
  unfold pacer_try_take. destruct (limiter_try_take now (limiter p)) as [w [u|d]]; by cbn.
Qed.

Lemma pacer_run_waiting `{Ratelimiter} p out es p' out' :
  waiting p = Z.of_nat out -> Z.of_nat (out + length es) <= u64_max ->
  pacer_run p out es = Some (p', out') -> waiting p' = Z.of_nat out'.
Proof.
  revert p out. induction es as [|[now|] es IH]; intros p out W B E; cbn [length pacer_run] in *.
  - by injection E as <- <-.
  - pose proof (pacer_take_waiting now p) as T. destruct (pacer_try_take now p) as [q r].
    destruct T as [T _]. apply (IH q) in E; [done| |].
    + destruct (is_ok r); rewrite T; [done|]. rewrite W, wrap64_small; lia.
    + destruct (is_ok r); lia.
  - destruct out as [|out]; [done|]. apply (IH (refused_drop p)) in E; [done| |lia].
    cbn. rewrite W, wrap64_small; lia.
Qed.

Lemma limiters_new_built `{RatelimiterLaws} now rate conns claim :
  Forall (Z.le 0) conns -> 0 <= rate -> 0 < sumZ conns <= u64_max ->
  (rate * sumZ conns + Z.max claim 1 * (Z.of_nat (length conns) + 2)) * SUB <= u64_max ->
  exists l, limiters_new now rate conns claim = Some l /\
    built now rate (sumZ conns) (Z.max 1 (Z.of_nat (length (positive conns)))) (Z.max claim 1) 0
          conns (limiters l) /\
    sumZ (map limiter_rate (limiters l)) = rate * SUB * sumZ conns /\
    total_weight l = sumZ conns.
Proof.
  intros F R [T0 T1] B. unfold limiters_new. rewrite sum_weights_exact by done.
  rewrite !Z.max_l by lia. fold (positive conns). rewrite (Z.max_comm _ 1).
  assert (length (positive conns) <= length conns)%nat as L by apply length_filter.
  assert (forall w, w ∈ conns -> w <= sumZ conns) as Hle.
  { clear -F. induction F as [|w ws Hw F IH]; intros v Hv; [by apply elem_of_nil in Hv|].
    pose proof (sumZ_nonneg ws F). cbn. apply elem_of_cons in Hv as [->|Hv]; [lia|].
    specialize (IH v Hv). lia. }
  destruct (build_limiters_spec now rate (sumZ conns) (Z.max 1 (Z.of_nat (length (positive conns))))
              (Z.max claim 1) 0 conns) as (ls & -> & Bu & Su); try done; try lia.
  { unfold SUB in *. nia. }
  cbn. eexists. split_and!; [done|done| |done]. cbn. rewrite Su. lia.
Qed.

(** ** Properties *)

(** [WorkerLimiters::new] splits the rate exactly: every worker with
    connections gets a limiter minting its weight's share, the shares add up
    to the total rate (each is per [total] seconds), a worker without
    connections gets none; every limiter opens holding only its stagger, less
    than one claim, and its cap always funds a whole claim. *)
Theorem worker_shares `{RatelimiterLaws} now rate conns claim :
  Forall (Z.le 0) conns -> 0 <= rate -> 0 < sumZ conns <= u64_max ->
  (rate * sumZ conns + Z.max claim 1 * (Z.of_nat (length conns) + 2)) * SUB <= u64_max ->
  exists l, limiters_new now rate conns claim = Some l /\
    built now rate (sumZ conns) (Z.max 1 (Z.of_nat (length (positive conns)))) (Z.max claim 1) 0
          conns (limiters l) /\
    sumZ (map limiter_rate (limiters l)) = rate * SUB * sumZ conns /\
    total_weight l = sumZ conns.
Proof. apply limiters_new_built. Qed.

(** [restart] opens the run without a burst: a limiter with at least its
    stagger accrued holds exactly its stagger afterwards, and never more; its
    rate, period and cap are unchanged and its slip is zero. *)
Theorem restart_resets `{RatelimiterLaws} now now0 rate total active claim idx w x :
  limiter_ok now0 rate total active claim idx w x ->
  0 < rate * w -> 0 < claim -> rl_max_tokens (inner x) <= u64_max ->
  let x' := limiter_restart now x in
  rl_rate (inner x') = rl_rate (inner x) /\ rl_period (inner x') = rl_period (inner x) /\
  rl_max_tokens (inner x') = rl_max_tokens (inner x) /\
  rl_held now (inner x') <= start x /\
  (start x < rl_held now (inner x) -> rl_held now (inner x') = start x) /\
  slip_ns now x' = 0.
Proof.
  intros [LR LP LC LS LH LCl LSt] Hr Hc U x'.
  assert (rl_rate (inner x) <> 0) as Rn by (rewrite LR; unfold SUB; lia).
  assert (start x < rl_max_tokens (inner x)) as Sc by (rewrite LC; unfold SUB; lia).
  destruct (restart_bucket now x Rn ltac:(lia) U) as ((P1 & P2 & P3) & Q1 & Q2 & Q3).
  fold x' in P1, P2, P3, Q1, Q2, Q3. split_and!; [done..|lia|lia|].
  unfold slip_ns. rewrite P1, (proj2 (Z.eqb_neq _ _)) by done.
  assert (sat_sub (rl_held now (inner x')) (Limiter.claim x') = 0) as ->
    by (rewrite Q1; unfold sat_sub; lia).
  rewrite Z.mul_0_l, Zdiv_0_l. unfold u64_max. lia.
Qed.

Lemma set_rates_sum `{RatelimiterLaws} r period now rate total active claim idx ws ls :
  Forall (Z.le 0) ws -> 0 <= r -> r * sumZ ws * SUB <= u64_max ->
  built now rate total active claim idx ws ls ->
  sumZ (map limiter_rate (set_rates r period ls ws)) = r * sumZ ws * SUB /\
  map (fmap (fun x => rl_max_tokens (inner x))) (set_rates r period ls ws) =
  map (fmap (fun x => rl_max_tokens (inner x))) ls.
Proof.
  intros F R. revert ls idx. induction F as [|w ws Hw F IH]; intros ls idx B Bu; destruct ls as [|o ls]; try done.
  - cbn. split; [lia|done].
  - pose proof (sumZ_nonneg ws F). cbn [sumZ] in B. cbn [built] in Bu. cbn [set_rates map sumZ].
    assert (exists idx', built now rate total active claim idx' ws ls) as [idx' Bu'].
    { destruct (w =? 0); destruct Bu; eauto. }
    destruct (IH ls idx' ltac:(unfold SUB in *; nia) Bu') as [S1 S2]. rewrite S1, S2.
    destruct (w =? 0) eqn:E.
    + destruct Bu as [-> _]. split; [|done]. cbn. lia.
    + destruct Bu as [(x & -> & _) _].
      destruct (rl_set_rate_params (sat_mul (sat_mul r w) SUB) period (inner x)) as (P1 & P2 & P3).
      cbn. rewrite P1, P3. split; [|done]. unfold SUB in *. unfold sat_mul, u64_max in *. nia.
Qed.

(** [set_rate] re-splits the new total exactly and leaves every cap as it
    was built. *)
Theorem set_rate_resplits `{RatelimiterLaws} now rate total active claim r l :
  Forall (Z.le 0) (weights l) -> 0 <= r -> r * sumZ (weights l) * SUB <= u64_max ->
  built now rate total active claim 0 (weights l) (limiters l) ->
  let l' := limiters_set_rate r l in
  sumZ (map limiter_rate (limiters l')) = r * SUB * sumZ (weights l) /\
  map (fmap (fun x => rl_max_tokens (inner x))) (limiters l') =
  map (fmap (fun x => rl_max_tokens (inner x))) (limiters l) /\
  Limiter.rate l' = r.
Proof.
  intros F R B Bu l'. unfold l', limiters_set_rate; cbn.
  destruct (set_rates_sum r (from_secs (total_weight l)) _ _ _ _ _ _ _ _ F R B Bu) as [-> ->].
  split_and!; [lia|done|done].
Qed.

(** A connection the prefill pacer turns away sleeps at least until the
    next token and at most the longer of that and half the hold; the count of
    waiting connections is always the number of refusals still held. *)
Theorem pacer_refusals `{RatelimiterLaws} p out es p' out' now wait :
  waiting p = Z.of_nat out -> Z.of_nat (out + length es) < u64_max ->
  pacer_run p out es = Some (p', out') ->
  snd (limiter_try_take now (limiter p')) = Err wait -> 0 <= wait <= duration_max ->
  waiting p' = Z.of_nat out' /\
  exists q sleep, pacer_try_take now p' = (q, Err sleep) /\
    wait <= sleep <= Z.max (max_sleep p') wait /\ waiting q = Z.of_nat (S out').
Proof.
  intros W B E T Hw. assert (waiting p' = Z.of_nat out') as W' by (eapply pacer_run_waiting; eauto; lia).
  split; [done|].
  assert (forall out p, pacer_run p out es = Some (p', out') -> (out' <= out + length es)%nat) as L.
  { clear. induction es as [|[now|] es IH]; intros out p E; cbn [pacer_run length] in *.
    - injection E as <- <-. lia.
    - destruct (pacer_try_take now p) as [q r]. apply IH in E. destruct (is_ok r); lia.
    - destruct out as [|out]; [done|]. apply IH in E. lia. }
  apply L in E. unfold pacer_try_take. destruct (limiter_try_take now (limiter p')) as [x r].
  cbn in T. subst r. eexists _, _. split_and!; [done| | |].
  - cbn. rewrite W', wrap64_small by lia. unfold duration_sat_mul, u32_max. nia.
  - cbn. lia.
  - cbn. rewrite W', wrap64_small by lia. lia.
Qed.

(** *** Witnesses *)

Definition example_limiters : @WorkerLimiters simple_ratelimiter :=
  match @limiters_new simple_ratelimiter 0 1000 [4; 0; 3; 3] 32 with
  | Some l => l
  | None => {| limiters := []; weights := []; total_weight := 1; rate := 0 |}
  end.

Lemma worker_shares_witness :
  exists l, @limiters_new simple_ratelimiter 0 1000 [4; 0; 3; 3] 32 = Some l /\
    sumZ (map limiter_rate (limiters l)) = 1000 * 1024 * 10 /\
    map (fmap (@start simple_ratelimiter)) (limiters example_limiters) = [Some 0; None; Some 10922; Some 21845].
Proof.
  destruct (@worker_shares simple_ratelimiter simple_ratelimiter_laws 0 1000 [4; 0; 3; 3] 32)
    as (l & E & _ & S & _).
  - forall_lia.
  - lia.
  - cbn. unfold u64_max. lia.
  - vm_compute. discriminate.
  - exists l. split; [exact E|]. split; [exact S|]. by vm_compute.
Defined.

Definition example_limiter : @WorkerLimiter simple_ratelimiter :=
  default (@Build_WorkerLimiter simple_ratelimiter (Build_SimpleBucket 0 0 0 0 0 0) 0 0)
    (limiters_worker example_limiters 2).

Lemma restart_resets_witness :
  @rl_held simple_ratelimiter 5000000000 (inner example_limiter) = 318122 /\
  @rl_held simple_ratelimiter 5000000000 (inner (limiter_restart 5000000000 example_limiter)) = 10922.
Proof.
  split; [by vm_compute|].
  assert (@limiter_ok simple_ratelimiter 0 1000 10 3 32 1 3 example_limiter) as L
    by (constructor; vm_compute; done).
  destruct (@restart_resets simple_ratelimiter simple_ratelimiter_laws 5000000000 0 1000 10 3 32 1 3
    example_limiter L ltac:(lia) ltac:(lia)) as (_ & _ & _ & _ & E & _); [by vm_compute|].
  rewrite E; by vm_compute.
Defined.

Lemma set_rate_resplits_witness :
  exists l, @limiters_new simple_ratelimiter 0 1000 [4; 0; 3; 3] 32 = Some l /\
    sumZ (map limiter_rate (limiters (limiters_set_rate 80000 l))) = 80000 * 1024 * 10.
Proof.
  destruct (@limiters_new_built simple_ratelimiter simple_ratelimiter_laws 0 1000 [4; 0; 3; 3] 32)
    as (l & E & B & _ & _); [forall_lia|lia|cbn; unfold u64_max; lia|by vm_compute|].
  exists l. split; [exact E|].
  assert (weights l = [4; 0; 3; 3]) as W.
  { unfold limiters_new in E. destruct (build_limiters _ _ _ _ _ _ _) as [ls|] in E; [|discriminate E].
    injection E as <-. reflexivity. }
  pose proof (@set_rate_resplits simple_ratelimiter simple_ratelimiter_laws 0 1000 10 3 32 80000 l) as T.
  rewrite W in T. refine (proj1 (T _ _ _ B)); [forall_lia|lia|by vm_compute].
Defined.

Definition example_pacer : @PrefillPacer simple_ratelimiter :=
  match @pacer_new simple_ratelimiter 0 10 10 with
  | Some p => p
  | None => {| limiter := example_limiter; waiting := 0; max_sleep := 0 |}
  end.

Lemma pacer_run_take `{Ratelimiter} now p out b :
  is_ok (snd (pacer_try_take now p)) = b ->
  pacer_run p out [PacerTake now] = Some (fst (pacer_try_take now p), if b then out else S out).
Proof. intros <-. cbn. by destruct (pacer_try_take now p). Qed.

Lemma pacer_refusals_witness :
  exists q sleep, pacer_try_take 0 (fst (pacer_try_take 0 example_pacer)) = (q, Err sleep) /\
    waiting q = 2.
Proof.
  assert (is_ok (snd (pacer_try_take 0 example_pacer)) = false) as R by by vm_compute.
  assert (snd (limiter_try_take 0 (limiter (fst (pacer_try_take 0 example_pacer)))) = Err 1) as T
    by by vm_compute.
  assert (waiting example_pacer = 0) as W by by vm_compute.
  destruct (@pacer_refusals simple_ratelimiter simple_ratelimiter_laws example_pacer 0 [PacerTake 0]
    (fst (pacer_try_take 0 example_pacer)) 1 0 1 W ltac:(cbn; unfold u64_max; lia)
    (pacer_run_take _ _ _ _ R) T ltac:(unfold duration_max, u64_max; lia)) as (_ & q & s & E & _ & C).
  exists q, s. split; [exact E|exact C].
Defined.
