(* ===== verification/Dispatch.v ===== *)
(** Dispatch: the worker-local token dispatcher between a worker's rate
    limiter and its connection tasks ([src/src/worker.rs], [TokenSlot],
    [TokenDispatcher], [run_dispatcher]).

    The dispatcher and every task of a worker run on one thread, so its
    operations are sequential state changes.  An [Rc<TokenSlot>] is an index
    into the store [slots]; a [Waker] is the task it wakes, and waking appends
    the task to the log [woken].  The token bucket is Limiter's. *)

From S2P Require Import Prelude Config Limiter.
Open Scope Z_scope.

Abbreviation Task := nat (only parsing).

Definition IDLE_SLEEP_MIN : Z := 100 * 1000.

Definition IDLE_SLEEP_MAX : Z := from_millis 50.

Record TokenSlot := { want : Z; granted : Z; done_ : bool; waker : option Task }.

#[export] Instance eta_TokenSlot : Settable TokenSlot := fun x =>
  {| want := want x; granted := granted x; done_ := done_ x; waker := waker x |}.

Record TokenDispatcher := {
  slots : list TokenSlot;
  queue : list nat;
  closed : bool;
  idle : option Task;
  woken : list Task;
}.

#[export] Instance eta_TokenDispatcher : Settable TokenDispatcher := fun x =>
  {| slots := slots x; queue := queue x; closed := closed x; idle := idle x; woken := woken x |}.

Definition new_dispatcher : TokenDispatcher :=
  {| slots := []; queue := []; closed := false; idle := None; woken := [] |}.

Definition wake (t : option Task) (log : list Task) : list Task :=
  match t with Some t => log ++ [t] | None => log end.

(** [TokenSlot::complete]. *)
Definition complete (i : nat) (n : Z) (d : TokenDispatcher) : TokenDispatcher :=
  match slots d !! i with
  | Some s =>
      d <| slots := <[i := s <| granted := n |> <| done_ := true |> <| waker := None |>]> (slots d) |>
        <| woken := wake (waker s) (woken d) |>
  | None => d
  end.

(** [TokenDispatcher::acquire] up to its await: [None] when it returns 0 at
    once, else the slot it waits on. *)
Definition acquire (n : Z) (d : TokenDispatcher) : TokenDispatcher * option nat :=
  if closed d then (d, None)
  else
    let i := length (slots d) in
    (d <| slots := slots d ++ [{| want := n; granted := 0; done_ := false; waker := None |}] |>
       <| queue := queue d ++ [i] |>
       <| idle := None |>
       <| woken := wake (idle d) (woken d) |>, Some i).

(** [TokenWait::poll] by task [t], then [slot.granted.get()] when it is ready:
    [Some] grant, or [None] for pending. *)
Definition poll_wait (i : nat) (t : Task) (d : TokenDispatcher) : TokenDispatcher * option Z :=
  match slots d !! i with
  | Some s =>
      if done_ s then (d, Some (granted s))
      else (d <| slots := <[i := s <| waker := Some t |>]> (slots d) |>, None)
  | None => (d, None)
  end.

(** What a claim for [n] asks the limiter for. *)
Definition clamped_want `{Ratelimiter} (rl : WorkerLimiter) (n : Z) : Z :=
  Z.max (Z.min n (limiter_max_tokens rl)) 1.

(** The loop of [TokenDispatcher::dispatch] over the queue [q]; [now k] is the
    instant of its [k]-th take.  The last component is the time to wait before
    trying again, [None] when the queue is empty. *)
Fixpoint dispatch_loop `{Ratelimiter} (now : nat -> Z) (k : nat) (rl : WorkerLimiter)
    (d : TokenDispatcher) (q : list nat) : WorkerLimiter * TokenDispatcher * option Z :=
  match q with
  | [] => (rl, d <| queue := [] |>, None)
  | i :: q' =>
      let n := clamped_want rl (match slots d !! i with Some s => want s | None => 0 end) in
      let (rl, r) := limiter_try_wait_n (now k) n rl in
      match r with
      | Taken => dispatch_loop now (S k) rl (complete i n d) q'
      | Insufficient w => (rl, d <| queue := q |>, Some w)
      | ExceedsCapacity => dispatch_loop now (S k) rl (complete i 0 d) q'
      | OtherTryWaitError => (rl, d <| queue := q |>, Some IDLE_SLEEP_MIN)
      end
  end.

Definition dispatch `{Ratelimiter} (now : nat -> Z) (rl : WorkerLimiter) (d : TokenDispatcher)
    : WorkerLimiter * TokenDispatcher * option Z := dispatch_loop now 0 rl d (queue d).

(** [TokenDispatcher::claim_pending] polled by task [t]. *)
Definition claim_pending (t : Task) (d : TokenDispatcher) : TokenDispatcher * bool :=
  match queue d with
  | _ :: _ => (d, true)
  | [] => (d <| idle := Some t |>, false)
  end.

(** [TokenDispatcher::drain]. *)
Definition drain (d : TokenDispatcher) : TokenDispatcher :=
  foldl (fun d i => complete i 0 d) (d <| closed := true |> <| queue := [] |>) (queue d).

(** [take_token]: the grant carried from [acquire] first, then the limiter. *)
Definition take_token `{Ratelimiter} (now : Z) (carried : Z) (rl : WorkerLimiter)
    : Z * WorkerLimiter * bool :=
  if 0 <? carried then (carried - 1, rl, true)
  else
    let (rl, r) := limiter_try_wait now rl in
    (carried, rl, match r with Taken => true | _ => false end).

(** What [run_dispatcher] does next: return, sleep, or idle until a claim or
    the backstop. *)
Inductive NextWait := Stopped | Nap (d : Z) | Idle.

(** One iteration of [run_dispatcher]'s loop up to its wait. *)
Definition run_dispatcher_step `{Ratelimiter} (should_stop : bool) (now : nat -> Z)
    (rl : WorkerLimiter) (d : TokenDispatcher) : WorkerLimiter * TokenDispatcher * NextWait :=
  if should_stop then (rl, drain d, Stopped)
  else
    match dispatch now rl d with
    | (rl, d, Some nap) => (rl, d, Nap (clampZ nap 1000 IDLE_SLEEP_MAX))
    | (rl, d, None) => (rl, d, Idle)
    end.

(** ** Reachable states *)

Inductive step `{Ratelimiter} : TokenDispatcher * WorkerLimiter -> TokenDispatcher * WorkerLimiter -> Prop :=
| step_acquire n d rl : step (d, rl) (fst (acquire n d), rl)
| step_poll i t d rl : step (d, rl) (fst (poll_wait i t d), rl)
| step_claim_pending t d rl : step (d, rl) (fst (claim_pending t d), rl)
| step_idle_done d rl : step (d, rl) (d <| idle := None |>, rl)
| step_run should_stop now d rl rl' d' w :
    run_dispatcher_step should_stop now rl d = (rl', d', w) -> step (d, rl) (d', rl').

Definition reachable `{Ratelimiter} (d : TokenDispatcher) : Prop :=
  exists rl0 rl, rtc step (new_dispatcher, rl0) (d, rl).

Record wf (d : TokenDispatcher) : Prop := {
  wf_nodup : NoDup (queue d);
  wf_queued i : i ∈ queue d <-> exists s, slots d !! i = Some s /\ done_ s = false;
  wf_ungranted i s : slots d !! i = Some s -> done_ s = false -> granted s = 0;
  wf_woken i s : slots d !! i = Some s -> done_ s = true -> waker s = None;
  wf_closed : closed d = true -> queue d = [];
}.

(** The effect on slot [i] of being finished with grant [n]. *)
Definition finished (s : TokenSlot) (n : Z) : TokenSlot :=
  s <| granted := n |> <| done_ := true |> <| waker := None |>.

(** ** Lemmas *)

Lemma complete_frame i n d :
  queue (complete i n d) = queue d /\ closed (complete i n d) = closed d /\
  idle (complete i n d) = idle d /\ length (slots (complete i n d)) = length (slots d).
Proof. unfold complete. destruct (slots d !! i); cbn; [by rewrite length_insert|done]. Qed.

Lemma complete_lookup i n d j :
  slots (complete i n d) !! j =
  if decide (i = j) then (fun s => finished s n) <$> slots d !! j else slots d !! j.
Proof.
  unfold complete. destruct (slots d !! i) as [s|] eqn:E; cbn.
  - case_decide; subst.
    + rewrite list_lookup_insert_eq by (by eapply lookup_lt_Some). by rewrite E.
    + by rewrite list_lookup_insert_ne.
  - case_decide; [by subst; rewrite E|done].
Qed.

Lemma complete_woken i n d t : t ∈ woken d -> t ∈ woken (complete i n d).
Proof.
  unfold complete. destruct (slots d !! i) as [s|]; cbn; [|done].
  destruct (waker s); cbn; [|done]. intros. apply elem_of_app. by left.
Qed.

Lemma complete_wakes i n d s t :
  slots d !! i = Some s -> waker s = Some t -> t ∈ woken (complete i n d).
Proof. unfold complete. intros -> E. cbn. rewrite E. apply elem_of_app. right. by left. Qed.

(** How [d'] comes from [d] by finishing the slots [ids] with grants [ns]. *)
Inductive finishes : list nat -> list Z -> TokenDispatcher -> TokenDispatcher -> Prop :=
| finishes_nil d : finishes [] [] d d
| finishes_cons i n ids ns d d' :
    finishes ids ns (complete i n d) d' -> finishes (i :: ids) (n :: ns) d d'.

Lemma finishes_frame ids ns d d' :
  finishes ids ns d d' ->
  queue d' = queue d /\ closed d' = closed d /\ idle d' = idle d /\
  length (slots d') = length (slots d) /\ (forall t, t ∈ woken d -> t ∈ woken d').
Proof.
  induction 1 as [d|i n ids ns d d' _ (Q & C & I & L & W)]; [done|].
  destruct (complete_frame i n d) as (Q' & C' & I' & L').
  rewrite Q, C, I, L. split_and!; [done..|]. intros t Ht. by apply W, complete_woken.
Qed.

Lemma finishes_other ids ns d d' j :
  finishes ids ns d d' -> j ∉ ids -> slots d' !! j = slots d !! j.
Proof.
  induction 1 as [d|i n ids ns d d' _ IH]; [done|]. intros Hj.
  rewrite IH by (intros ?; apply Hj; by right). rewrite complete_lookup, decide_False; [done|].
  intros ->. apply Hj. by left.
Qed.

(** A slot finished once ends with that grant, and its waker was woken. *)
Lemma finishes_slot ids ns d d' k i n s :
  finishes ids ns d d' -> NoDup ids -> ids !! k = Some i -> ns !! k = Some n ->
  slots d !! i = Some s ->
  slots d' !! i = Some (finished s n) /\ (forall t, waker s = Some t -> t ∈ woken d').
Proof.
  intros F. revert k s. induction F as [d|j m ids ns d d' F IH]; intros k s N Hi Hn Hs; [done|].
  apply NoDup_cons in N as [Nj N]. destruct k as [|k]; cbn in Hi, Hn.
  - injection Hi as ->. injection Hn as ->. split.
    + rewrite (finishes_other _ _ _ _ i F) by done. by rewrite complete_lookup, decide_True, Hs.
    + intros t Ht. apply (finishes_frame _ _ _ _ F). by eapply complete_wakes.
  - apply (IH k s N Hi Hn). rewrite complete_lookup, decide_False; [done|].
    intros ->. apply Nj. by eapply list_elem_of_lookup_2.
Qed.

Lemma dispatch_loop_finishes `{Ratelimiter} now k rl d q rl' d' w :
  dispatch_loop now k rl d q = (rl', d', w) ->
  exists ids ns rest d1, q = ids ++ rest /\ length ns = length ids /\ finishes ids ns d d1 /\
    d' = d1 <| queue := rest |> /\ (w = None <-> rest = []).
Proof.
  revert k rl d. induction q as [|i q IH]; intros k rl d E; cbn in E.
  - injection E as <- <- <-. exists [], [], [], d. split_and!; [done..|constructor|done|done].
  - destruct (limiter_try_wait_n _ _ rl) as [rl1 [|v| |]].
    + apply IH in E as (ids & ns & rest & d1 & -> & L & F & -> & W).
      eexists (i :: ids), (_ :: ns), rest, d1. split_and!; [done|cbn; lia|by constructor|done|done].
    + injection E as <- <- <-. exists [], [], (i :: q), d. split_and!; [done..|constructor|done|done].
    + apply IH in E as (ids & ns & rest & d1 & -> & L & F & -> & W).
      eexists (i :: ids), (_ :: ns), rest, d1. split_and!; [done|cbn; lia|by constructor|done|done].
    + injection E as <- <- <-. exists [], [], (i :: q), d. split_and!; [done..|constructor|done|done].
Qed.

Lemma drain_finishes d :
  finishes (queue d) (replicate (length (queue d)) 0) (d <| closed := true |> <| queue := [] |>) (drain d).
Proof.
  unfold drain. generalize (d <| closed := true |> <| queue := [] |>). generalize (queue d).
  induction l as [|i q IH]; intros e; cbn; [constructor|]. constructor. apply IH.
Qed.

(** Finishing a prefix of the queue keeps the state well formed. *)
Lemma finishes_wf ids ns rest d d1 :
  wf d -> queue d = ids ++ rest -> length ns = length ids -> finishes ids ns d d1 ->
  wf (d1 <| queue := rest |>).
Proof.
  intros [N Q U W C] E L F. rewrite E in N. apply NoDup_app in N as (N1 & N2 & N3).
  destruct (finishes_frame _ _ _ _ F) as (FQ & FC & _ & FL & _).
  assert (forall i s, slots d1 !! i = Some s -> i ∈ ids -> done_ s = true /\ waker s = None) as Fin.
  { intros i s Hs Hi. apply list_elem_of_lookup in Hi as [k Hk].
    assert (is_Some (ns !! k)) as [n Hn] by (apply lookup_lt_is_Some; rewrite L; by eapply lookup_lt_Some).
    destruct (slots d !! i) as [s0|] eqn:E0.
    - destruct (finishes_slot _ _ _ _ _ _ _ _ F N1 Hk Hn E0) as [R _]. rewrite R in Hs. by injection Hs as <-.
    - apply lookup_ge_None in E0. apply lookup_lt_Some in Hs. lia. }
  assert (forall i, i ∉ ids -> slots d1 !! i = slots d !! i) as Oth by (intros i; by eapply finishes_other).
  constructor; cbn.
  - done.
  - intros i. split.
    + intros Hi. assert (i ∉ ids) as Ni by (intros ?; by eapply N2).
      rewrite Oth by done. apply Q. rewrite E. apply elem_of_app. by right.
    + intros (s & Hs & Hd). destruct (decide (i ∈ ids)) as [Hi|Hi].
      * destruct (Fin i s Hs Hi). congruence.
      * rewrite Oth in Hs by done. assert (i ∈ queue d) as X by (apply Q; by exists s).
        rewrite E in X. apply elem_of_app in X as [?|?]; done.
  - intros i s Hs Hd. destruct (decide (i ∈ ids)) as [Hi|Hi].
    + destruct (Fin i s Hs Hi). congruence.
    + rewrite Oth in Hs by done. by eapply U.
  - intros i s Hs Hd. destruct (decide (i ∈ ids)) as [Hi|Hi]; [by eapply Fin|].
    rewrite Oth in Hs by done. by eapply W.
  - rewrite FC. intros Hc. specialize (C Hc). rewrite E in C. by apply app_eq_nil in C as [_ ->].
Qed.

Lemma wf_new : wf new_dispatcher.
Proof.
  constructor; cbn; try done; [constructor|].
  intros i. split; [by intros ?%elem_of_nil|]. by intros (s & ? & _).
Qed.

Lemma wf_set_idle d t : wf d -> wf (d <| idle := t |>).
Proof. by intros []. Qed.

Lemma wf_acquire n d : wf d -> wf (fst (acquire n d)).
Proof.
  intros G. unfold acquire. destruct (closed d) eqn:Ec; [exact G|]. destruct G as [N Q U W C]. cbn.
  assert (length (slots d) ∉ queue d) as Fresh.
  { intros (s & Hs & _)%Q. apply lookup_lt_Some in Hs. lia. }
  set (s0 := {| want := n; granted := 0; done_ := false; waker := None |}).
  assert (forall i s, (slots d ++ [s0]) !! i = Some s ->
    slots d !! i = Some s \/ i = length (slots d) /\ s = s0) as L.
  { intros i s Hs. apply lookup_app_Some in Hs as [?|[Hi Hs]]; [by left|right].
    apply list_lookup_singleton_Some in Hs as [? <-]. split; [lia|done]. }
  constructor; cbn.
  - apply NoDup_app. split_and!; [done| |apply NoDup_singleton].
    intros x Hx Hx'. apply list_elem_of_singleton in Hx'. by subst.
  - intros i. rewrite elem_of_app, list_elem_of_singleton, Q. split.
    + intros [(s & Hs & Hd)| ->].
      * exists s. split; [by apply lookup_app_l_Some|done].
      * exists s0. split; [by apply list_lookup_middle|done].
    + intros (s & Hs & Hd). apply L in Hs as [Hs|[-> _]]; [left; by exists s|by right].
  - intros i s Hs Hd. apply L in Hs as [Hs|[_ ->]]; [by eapply U|done].
  - intros i s Hs Hd. apply L in Hs as [Hs|[_ ->]]; [by eapply W|done].
  - congruence.
Qed.

Lemma wf_poll i t d : wf d -> wf (fst (poll_wait i t d)).
Proof.
  intros G. unfold poll_wait. destruct (slots d !! i) as [s|] eqn:E; [|exact G].
  destruct (done_ s) eqn:Ed; [exact G|]. destruct G as [N Q U W C]. cbn.
  assert (forall j s', <[i := s <| waker := Some t |>]> (slots d) !! j = Some s' ->
    exists s0, slots d !! j = Some s0 /\ done_ s' = done_ s0 /\ granted s' = granted s0 /\
               (done_ s0 = true -> waker s' = waker s0)) as L.
  { intros j s' Hs. apply list_lookup_insert_Some in Hs as [(<- & <- & _)|[? Hs]].
    - exists s. split_and!; [done..|congruence].
    - by exists s'. }
  constructor; cbn; try done.
  - intros j. rewrite Q. split; intros (s' & Hs & Hd).
    + destruct (decide (i = j)) as [<-|Hj].
      * eexists. rewrite list_lookup_insert_eq by (by eapply lookup_lt_Some). done.
      * exists s'. by rewrite list_lookup_insert_ne.
    + apply L in Hs as (s0 & H0 & D0 & _). exists s0. split; [done|congruence].
  - intros j s' Hs Hd. apply L in Hs as (s0 & H0 & D0 & -> & _). apply (U j); [done|congruence].
  - intros j s' Hs Hd. apply L in Hs as (s0 & H0 & D0 & _ & Wk). rewrite Wk by congruence.
    apply (W j); [done|congruence].
Qed.

Lemma wf_claim_pending t d : wf d -> wf (fst (claim_pending t d)).
Proof. intros G. unfold claim_pending. destruct (queue d); [by apply wf_set_idle|done]. Qed.

Lemma wf_dispatch `{Ratelimiter} now rl d rl' d' w :
  wf d -> dispatch now rl d = (rl', d', w) -> wf d'.
Proof.
  intros G E. apply dispatch_loop_finishes in E as (ids & ns & rest & d1 & Eq & L & F & -> & _).
  by eapply finishes_wf.
Qed.

(** Draining is finishing the whole queue with nothing, on a closed
    dispatcher. *)
Lemma wf_drain d : wf d -> wf (drain d) /\ queue (drain d) = [] /\ closed (drain d) = true.
Proof.
  intros G. pose proof (drain_finishes d) as F.
  destruct (finishes_frame _ _ _ _ F) as (Q & C & _). cbn in Q, C.
  split_and!; [|done|done].
  assert (exists d1, finishes (queue d) (replicate (length (queue d)) 0) d d1 /\
    slots d1 = slots (drain d)) as (d1 & F1 & S1).
  { assert (forall ids ns e e' d0, finishes ids ns e e' -> slots d0 = slots e ->
      exists d1, finishes ids ns d0 d1 /\ slots d1 = slots e') as X.
    { clear. intros ids ns e e' d0 F. revert d0. induction F as [e|i n ids ns e e' F IH]; intros d0 E.
      - exists d0. split; [constructor|done].
      - destruct (IH (complete i n d0)) as (d1 & F1 & E1).
        + unfold complete. rewrite E. by destruct (slots e !! i).
        + exists d1. split; [by constructor|done]. }
    by apply (X _ _ _ _ d F). }
  apply (finishes_wf _ _ [] _ _ G) in F1; [|by rewrite app_nil_r|by rewrite length_replicate].
  destruct F1 as [N Q1 U W _]. cbn in *. rewrite S1 in *. constructor; rewrite ?Q; done.
Qed.

Lemma wf_step `{Ratelimiter} d rl d' rl' : step (d, rl) (d', rl') -> wf d -> wf d'.
Proof.
  intros S G. inversion S; subst.
  - by apply wf_acquire.
  - by apply wf_poll.
  - by apply wf_claim_pending.
  - by apply wf_set_idle.
  - unfold run_dispatcher_step in *. destruct should_stop; [simplify_eq; by apply wf_drain|].
    destruct (dispatch now rl d) as [[rl1 d1] [nap|]] eqn:E; simplify_eq; by eapply wf_dispatch.
Qed.

Lemma wf_reachable `{Ratelimiter} d : reachable d -> wf d.
Proof.
  intros (rl0 & rl & R). remember (new_dispatcher, rl0) as x eqn:Ex. remember (d, rl) as y eqn:Ey.
  assert (forall x y, rtc step x y -> wf (fst x) -> wf (fst y)) as P.
  { clear. induction 1 as [|[d rl] [d1 rl1] z S _ IH]; [done|]. intros G. apply IH. by eapply wf_step. }
  specialize (P x y R). subst. apply P, wf_new.
Qed.

(** Tokens a dispatch takes: with one clock reading, the bucket goes down by
    what the finished claims were granted. *)
Lemma dispatch_loop_spend `{RatelimiterLaws} now k rl d q rl' d' w :
  rl_rate (inner rl) <> 0 -> 0 <= rl_max_tokens (inner rl) <= u64_max ->
  NoDup q -> (forall i, i ∈ q -> is_Some (slots d !! i)) ->
  dispatch_loop (fun _ => now) k rl d q = (rl', d', w) ->
  exists ids ns rest d1, q = ids ++ rest /\ length ns = length ids /\ finishes ids ns d d1 /\
    d' = d1 <| queue := rest |> /\ (w = None <-> rest = []) /\
    rl_held now (inner rl') = rl_held now (inner rl) - SUB * sumZ ns /\
    Forall (Z.le 0) ns /\
    (forall k i n s, ids !! k = Some i -> ns !! k = Some n -> slots d !! i = Some s ->
       n = clamped_want rl (want s) \/ n = 0 /\ rl_max_tokens (inner rl) < SUB) /\
    same_params (inner rl) (inner rl').
Proof.
  intros R M. revert k rl d R M. induction q as [|i q IH]; intros k rl d R M N S E; cbn in E.
  - injection E as <- <- <-. exists [], [], [], d. cbn. split_and!; try done; try constructor; lia.
  - apply NoDup_cons in N as [Ni N].
    destruct (S i ltac:(left)) as [s Hs]. rewrite Hs in E.
    set (n := clamped_want rl (want s)) in *.
    assert (0 < n) as Hn by (unfold n, clamped_want; lia).
    assert (n * SUB <= rl_max_tokens (inner rl) \/ n = 1) as Hcap.
    { unfold n, clamped_want, limiter_max_tokens.
      pose proof (Z.div_mod (rl_max_tokens (inner rl)) SUB ltac:(done)).
      pose proof (Z.mod_pos_bound (rl_max_tokens (inner rl)) SUB ltac:(done)).
      unfold SUB in *. lia. }
    assert (sat_mul n SUB = n * SUB) as Esat by (unfold SUB in *; ulia).
    unfold limiter_try_wait_n in E. rewrite Esat in E.
    pose proof (rl_held_range now (inner rl) ltac:(lia)) as HR.
    assert (forall x b' d'', i ∉ q -> same_params (inner rl) b' ->
      dispatch_loop (fun _ => now) (Datatypes.S k) (rl <| inner := b' |>) (complete i x d) q = (rl', d', w) ->
      rl_held now b' = rl_held now (inner rl) - SUB * x -> 0 <= x ->
      (x = n \/ x = 0 /\ rl_max_tokens (inner rl) < SUB) -> d'' = d' ->
      exists ids ns rest d1, i :: q = ids ++ rest /\ length ns = length ids /\ finishes ids ns d d1 /\
        d' = d1 <| queue := rest |> /\ (w = None <-> rest = []) /\
        rl_held now (inner rl') = rl_held now (inner rl) - SUB * sumZ ns /\
        Forall (Z.le 0) ns /\
        (forall k i n s, ids !! k = Some i -> ns !! k = Some n -> slots d !! i = Some s ->
           n = clamped_want rl (want s) \/ n = 0 /\ rl_max_tokens (inner rl) < SUB) /\
        same_params (inner rl) (inner rl')) as Next.
    { intros x b' d'' Nq (P1 & P2 & P3) E' Hb Hx Hxn ->.
      apply IH in E' as (ids & ns & rest & d1 & -> & L & F & -> & W & Hh & Fn & Hg & (T1 & T2 & T3)); cbn in *.
      - exists (i :: ids), (x :: ns), rest, d1. split_and!; try done.
        + cbn. lia.
        + by constructor.
        + cbn [sumZ]. lia.
        + by constructor.
        + intros [|k'] j m s' Hj Hm Hs'; cbn in Hj, Hm.
          * injection Hj as <-. injection Hm as <-. rewrite Hs in Hs'. injection Hs' as <-.
            destruct Hxn as [->|]; [by left|by right].
          * assert (j <> i) as Hji.
            { intros ->. apply Nq, elem_of_app. left. by eapply list_elem_of_lookup_2. }
            destruct (Hg k' j m s' Hj Hm) as [Y|Y].
            -- by rewrite complete_lookup, decide_False.
            -- left. rewrite Y. unfold clamped_want, limiter_max_tokens; cbn. by rewrite P3.
            -- right. lia.
        + unfold same_params in *; cbn in *; split_and!; congruence.
      - congruence.
      - lia.
      - done.
      - intros j Hj. rewrite complete_lookup. specialize (S j ltac:(by right)).
        case_decide; [by apply fmap_is_Some|done]. }
    destruct (decide (n * SUB <= rl_held now (inner rl))) as [Hf|Hf].
    + destruct (rl_take_ok now (n * SUB) (inner rl) R) as (b' & Eb & P & Hb); [unfold SUB in *; lia|].
      rewrite Eb in E. apply (Next n b' d'); [done|done|exact E|lia|lia|by left|done].
    + destruct (decide (n * SUB <= rl_max_tokens (inner rl))) as [Hc|Hc].
      * destruct (rl_take_short now (n * SUB) (inner rl) R) as (b' & v & Eb & Hv & P & Hb); [lia|].
        rewrite Eb in E. injection E as <- <- <-. exists [], [], (i :: q), d.
        cbn. split_and!; try done; try constructor; try lia.
      * destruct (rl_take_exceeds now (n * SUB) (inner rl) R) as (b' & Eb & P & Hb); [lia|].
        rewrite Eb in E. apply (Next 0 b' d'); [done|done|exact E|lia|lia| |done].
        right. split; [done|]. unfold SUB in *. lia.
Qed.

(** ** Properties *)


(** One dispatch funds claims first come, first served, and outright: it
    finishes a prefix of the queue, each claim with the whole of what it asked
    for clamped to what the limiter can hold (or with nothing when the bucket
    cannot hold one request), wakes whoever waits on it, leaves the rest queued
    in order and untouched, spends exactly the granted tokens, and reports no
    wait just when the queue is empty. *)
Theorem dispatch_funds_prefix `{RatelimiterLaws} now rl d rl' d' w :
  reachable d -> rl_rate (inner rl) <> 0 -> 0 <= rl_max_tokens (inner rl) <= u64_max ->
  dispatch (fun _ => now) rl d = (rl', d', w) ->
  exists ids ns, queue d = ids ++ queue d' /\ length ns = length ids /\
    (forall k i n s, ids !! k = Some i -> ns !! k = Some n -> slots d !! i = Some s ->
       (n = clamped_want rl (want s) \/ n = 0 /\ rl_max_tokens (inner rl) < SUB) /\
       slots d' !! i = Some (finished s n) /\ (forall t, waker s = Some t -> t ∈ woken d')) /\
    (forall i, i ∉ ids -> slots d' !! i = slots d !! i) /\
    rl_held now (inner rl') = rl_held now (inner rl) - SUB * sumZ ns /\
    (w = None <-> queue d' = []).
Proof.
  intros R%wf_reachable Hr Hm E. pose proof (wf_nodup _ R) as N.
  apply dispatch_loop_spend in E as (ids & ns & rest & d1 & Eq & L & F & -> & W & Hh & _ & Hg & _); [|done..|].
  - exists ids, ns. cbn. split_and!; [done|done| |by intros i; eapply finishes_other|done|done].
    intros k i n s Hi Hn Hs. rewrite Eq in N. apply NoDup_app in N as (N & _).
    split; [by eapply Hg|]. by eapply finishes_slot.
  - intros i (s & Hs & _)%(wf_queued _ R). by exists s.
Qed.

(** When the run stops, the dispatcher's next iteration releases every
    waiter: all slots are finished, whoever waited is woken, the queue is empty,
    and it stays closed. *)
Theorem stop_releases_all `{Ratelimiter} now rl d rl' d' w :
  reachable d -> run_dispatcher_step true now rl d = (rl', d', w) ->
  w = Stopped /\ rl' = rl /\ queue d' = [] /\ closed d' = true /\
  (forall i s, slots d' !! i = Some s -> done_ s = true) /\
  (forall i s t, slots d !! i = Some s -> waker s = Some t -> t ∈ woken d') /\
  (forall i s, slots d !! i = Some s -> done_ s = true -> slots d' !! i = Some s).
Proof.
  intros G%wf_reachable [= <- <- <-]. destruct (wf_drain d G) as (G' & Q & C).
  pose proof (drain_finishes d) as F. split_and!; [done..| | |].
  - intros i s Hs. destruct (done_ s) eqn:E; [done|].
    assert (i ∈ queue (drain d)) as X by (apply (wf_queued _ G'); by exists s).
    rewrite Q in X. by apply elem_of_nil in X.
  - intros i s t Hs Ht. destruct (done_ s) eqn:E.
    + rewrite (wf_woken _ G i s Hs E) in Ht. done.
    + assert (i ∈ queue d) as X by (apply (wf_queued _ G); by exists s).
      apply list_elem_of_lookup in X as [k Hk].
      destruct (finishes_slot _ _ _ _ k i 0 s F (wf_nodup _ G) Hk) as [_ X]; [|done|by apply X].
      rewrite lookup_replicate_2; [done|]. by eapply lookup_lt_Some.
  - intros i s Hs Hd. rewrite (finishes_other _ _ _ _ i F); [done|].
    intros (s' & Hs' & Hd')%(wf_queued _ G). congruence.
Qed.

(** *** Witnesses *)

(** Three connections claim 2, 3 and 1 requests; the first two wait. *)
Definition example_dispatcher : TokenDispatcher :=
  let d := fst (acquire 2 new_dispatcher) in
  let d := fst (acquire 3 d) in
  let d := fst (acquire 1 d) in
  let d := fst (poll_wait 0 7 d) in
  fst (poll_wait 1 8 d).

Lemma example_dispatcher_reachable : @reachable simple_ratelimiter example_dispatcher.
Proof.
  exists (@Build_WorkerLimiter simple_ratelimiter (Build_SimpleBucket 0 0 0 0 0 0) 0 0).
  eexists. unfold example_dispatcher.
  eapply rtc_l; [apply (step_acquire 2)|]. eapply rtc_l; [apply (step_acquire 3)|].
  eapply rtc_l; [apply (step_acquire 1)|]. eapply rtc_l; [apply (step_poll 0 7)|].
  eapply rtc_l; [apply (step_poll 1 8)|]. apply rtc_refl.
Qed.

(** A bucket holding 5 requests. *)
Definition five_requests : @WorkerLimiter simple_ratelimiter :=
  @Build_WorkerLimiter simple_ratelimiter
    (Build_SimpleBucket (10 * 1024) 1000000000 (8 * 1024) (5 * 1024) 0 0) 1024 0.


Lemma dispatch_funds_prefix_witness :
  exists rl' d' w ids, dispatch (fun _ => 0) five_requests example_dispatcher = (rl', d', w) /\
    queue example_dispatcher = ids ++ queue d'.
Proof.
  destruct (dispatch (fun _ => 0) five_requests example_dispatcher) as [[rl' d'] w] eqn:E.
  destruct (@dispatch_funds_prefix simple_ratelimiter simple_ratelimiter_laws 0 five_requests
    example_dispatcher _ _ _ example_dispatcher_reachable ltac:(by vm_compute)
    ltac:(by vm_compute) E) as (ids & ns & Eq & _).
  exists rl', d', w, ids. split; [reflexivity|exact Eq].
Defined.

Lemma stop_releases_all_witness :
  queue (drain example_dispatcher) = [] /\ woken (drain example_dispatcher) = [7; 8]%nat.
Proof.
  split; [|by vm_compute].
  exact (proj1 (proj2 (proj2 (@stop_releases_all simple_ratelimiter (fun _ => 0) five_requests
    example_dispatcher _ _ _ example_dispatcher_reachable eq_refl)))).
Defined.

(** The example funds the first two claims and leaves the third queued. *)
Lemma example_dispatch :
  let d := snd (fst (dispatch (fun _ => 0) five_requests example_dispatcher)) in
  queue d = [2]%nat /\ woken d = [7; 8]%nat /\ map granted (slots d) = [2; 3; 0].
Proof. by vm_compute. Qed.
