(* ===== verification/Metrics.v ===== *)
(** Metrics: the program's counters and histograms, and the sharded counters
    behind them ([src/src/metrics.rs], [src/src/sharded_counter.rs]).

    The other components write to a log of [metric] events; [counters_exact]
    shows that reading a sharded counter gives the sum of the log's events on
    it, whichever worker's shard each one went to. *)

From S2P Require Import Prelude.
Open Scope Z_scope.

(** ** Names *)

Inductive GroupName :=
| REQUEST | CACHE | CONNECTION | BYTES | OPS | APPEND | KV | TRACE | CLUSTER.

Inductive Counter :=
| REQUESTS_SENT | REQUESTS_SEND_FAILED | ROUTED_QUEUE_DROPPED | RESPONSES_RECEIVED
| REQUEST_ERRORS | REQUEST_TIMEOUTS
| CACHE_HITS | CACHE_MISSES
| BYTES_TX | BYTES_RX | VALUES_READ_BYTES
| GET_COUNT | SET_COUNT | DELETE_COUNT | BACKFILL_SET_COUNT
| CONNECTIONS_FAILED | DISCONNECTS_EOF | DISCONNECTS_RECV_ERROR | DISCONNECTS_SEND_ERROR
| DISCONNECTS_CLOSED_EVENT | DISCONNECTS_ERROR_EVENT | DISCONNECTS_CONNECT_FAILED
| DISCONNECTS_TIMEOUT
| APPEND_SET_COUNT | APPEND_SET_ERRORS
| KV_REQUESTS | KV_REQUESTS_FAILED | KV_INPUT_TOKENS | KV_CACHED_TOKENS | KV_NEW_TOKENS
| KV_FULL_HITS | KV_CHUNK0_MISSES | KV_NO_FULL_CHUNK | KV_GET_NIL | KV_EXISTS_COUNT
| KV_LOOKUPS | KV_LOADS | KV_STORES | KV_LOADS_WITH_CACHED | KV_TRACE_READ_WAITS
| TRACE_ROWS | TRACE_ROWS_FAILED | TRACE_ROWS_SKIPPED | TRACE_GETS | TRACE_SETS | TRACE_DELS
| TRACE_READ_WAITS
| CLUSTER_REDIRECTS.

#[export] Instance Counter_eq_dec : EqDecision Counter.
Proof. solve_decision. Defined.

#[export] Instance GroupName_eq_dec : EqDecision GroupName.
Proof. solve_decision. Defined.

Inductive Histogram :=
| RESPONSE_LATENCY | GET_LATENCY | SET_LATENCY | DELETE_LATENCY | GET_TTFB | ROUTED_QUEUE_WAIT
| BACKFILL_SET_LATENCY | SCHEDULE_SLIP | PERCEIVED_LATENCY | APPEND_SET_LATENCY
| KV_LOOKUP_TIME | KV_LOAD_TIME | KV_STORE_TIME | KV_LOAD_TIME_PER_1K_TOKENS | KV_SCHEDULE_LAG.

#[export] Instance Histogram_eq_dec : EqDecision Histogram.
Proof. solve_decision. Defined.

(** Each counter's group and slot: the [Counter::new(&GROUP, slot)] of its
    static. *)
Definition request_slot (c : Counter) : option nat :=
  match c with
  | REQUESTS_SENT => Some 0 | RESPONSES_RECEIVED => Some 1 | REQUEST_ERRORS => Some 2
  | REQUEST_TIMEOUTS => Some 3 | REQUESTS_SEND_FAILED => Some 4 | ROUTED_QUEUE_DROPPED => Some 5
  | _ => None
  end%nat.

Definition cache_bytes_ops_slot (c : Counter) : option (GroupName * nat) :=
  match c with
  | CACHE_HITS => Some (CACHE, 0) | CACHE_MISSES => Some (CACHE, 1)
  | BYTES_TX => Some (BYTES, 0) | BYTES_RX => Some (BYTES, 1) | VALUES_READ_BYTES => Some (BYTES, 2)
  | GET_COUNT => Some (OPS, 0) | SET_COUNT => Some (OPS, 1) | DELETE_COUNT => Some (OPS, 2)
  | BACKFILL_SET_COUNT => Some (OPS, 3)
  | _ => None
  end%nat.

Definition connection_slot (c : Counter) : option nat :=
  match c with
  | CONNECTIONS_FAILED => Some 1 | DISCONNECTS_EOF => Some 2 | DISCONNECTS_RECV_ERROR => Some 3
  | DISCONNECTS_SEND_ERROR => Some 4 | DISCONNECTS_CLOSED_EVENT => Some 5
  | DISCONNECTS_ERROR_EVENT => Some 6 | DISCONNECTS_CONNECT_FAILED => Some 7
  | DISCONNECTS_TIMEOUT => Some 8
  | _ => None
  end%nat.

Definition append_slot (c : Counter) : option nat :=
  match c with APPEND_SET_COUNT => Some 0 | APPEND_SET_ERRORS => Some 1 | _ => None end%nat.

Definition kv_slot (c : Counter) : option nat :=
  match c with
  | KV_REQUESTS => Some 0 | KV_REQUESTS_FAILED => Some 1 | KV_INPUT_TOKENS => Some 2
  | KV_CACHED_TOKENS => Some 3 | KV_NEW_TOKENS => Some 4 | KV_FULL_HITS => Some 5
  | KV_CHUNK0_MISSES => Some 6 | KV_NO_FULL_CHUNK => Some 7 | KV_GET_NIL => Some 8
  | KV_EXISTS_COUNT => Some 9 | KV_LOOKUPS => Some 10 | KV_LOADS => Some 11 | KV_STORES => Some 12
  | KV_LOADS_WITH_CACHED => Some 13 | KV_TRACE_READ_WAITS => Some 14
  | _ => None
  end%nat.

Definition trace_slot (c : Counter) : option nat :=
  match c with
  | TRACE_ROWS => Some 0 | TRACE_ROWS_FAILED => Some 1 | TRACE_ROWS_SKIPPED => Some 2
  | TRACE_GETS => Some 3 | TRACE_SETS => Some 4 | TRACE_DELS => Some 5 | TRACE_READ_WAITS => Some 6
  | _ => None
  end%nat.

Definition slot_of (c : Counter) : GroupName * nat :=
  match request_slot c, cache_bytes_ops_slot c, connection_slot c, append_slot c with
  | Some s, _, _, _ => (REQUEST, s)
  | _, Some gs, _, _ => gs
  | _, _, Some s, _ => (CONNECTION, s)
  | _, _, _, Some s => (APPEND, s)
  | None, None, None, None =>
      match kv_slot c, trace_slot c with
      | Some s, _ => (KV, s)
      | None, Some s => (TRACE, s)
      | None, None => (CLUSTER, 0%nat)
      end
  end.

(** ** Sharded storage *)

Definition SLOTS : nat := 16.

Definition NUM_SHARDS : nat := 256.

(** [CounterGroup]: shard, then slot. *)
Abbreviation CounterGroup := (list (list Z)).

Definition new_group : CounterGroup := replicate NUM_SHARDS (replicate SLOTS 0).

(** [set_thread_shard]: the shard a worker's thread writes to. *)
Definition thread_shard (id : nat) : nat := (id mod NUM_SHARDS)%nat.

(** [CounterGroup::add] on the thread of shard [shard]. *)
Definition group_add (shard slot : nat) (v : Z) (g : CounterGroup) : CounterGroup :=
  alter (alter (fun x => wrap64 (x + v)) slot) shard g.

(** [CounterGroup::value]. *)
Definition group_value (slot : nat) (g : CounterGroup) : Z :=
  foldr (fun s acc => wrap64 (default 0 (s !! slot) + acc)) 0 g.

(** All the groups, and a counter's operations on them. *)
Definition Counters := GroupName -> CounterGroup.

Definition no_counters : Counters := fun _ => new_group.

Definition counter_add (worker : nat) (c : Counter) (v : Z) (cs : Counters) : Counters :=
  fun g => if decide (g = fst (slot_of c))
           then group_add (thread_shard worker) (snd (slot_of c)) v (cs g) else cs g.

Definition counter_value (c : Counter) (cs : Counters) : Z :=
  group_value (snd (slot_of c)) (cs (fst (slot_of c))).

(** ** The log *)

Inductive metric :=
| Count (c : Counter) (n : Z)
| Sample (h : Histogram) (v : Z).

(** What a log adds to a counter. *)
Fixpoint counted (c : Counter) (log : list metric) : Z :=
  match log with
  | [] => 0
  | Count c' n :: log => (if decide (c' = c) then n else 0) + counted c log
  | Sample _ _ :: log => counted c log
  end.

(** The samples of a histogram, in order. *)
Fixpoint samples (h : Histogram) (log : list metric) : list Z :=
  match log with
  | [] => []
  | Sample h' v :: log => (if decide (h' = h) then [v] else []) ++ samples h log
  | Count _ _ :: log => samples h log
  end.

(** Apply a log in which each event carries the worker that wrote it. *)
Fixpoint apply_log (log : list (nat * metric)) (cs : Counters) : Counters :=
  match log with
  | [] => cs
  | (w, Count c n) :: log => apply_log log (counter_add w c n cs)
  | (_, Sample _ _) :: log => apply_log log cs
  end.

(** ** Schedule slip *)

(** [metrics::slip_ns]. *)
Definition backlog_slip_ns (available rate : Z) : Z :=
  if rate =? 0 then 0 else sat_mul available 1000000000 / rate.

(** The worker's slip, its publish tick and the process-wide gauge:
    [set_worker_slip_ns]. *)
Record SlipState := { slip : Z; publish_tick : Z; current_slip_ns : Z }.

Definition new_slip : SlipState := {| slip := 0; publish_tick := u8_max; current_slip_ns := 0 |}.

(** [slip_ns as i64]. *)
Definition as_i64 (x : Z) : Z := if x <? 2 ^ 63 then x else x - 2 ^ 64.

Definition set_worker_slip_ns (slip_ns : Z) (s : SlipState) : SlipState :=
  let tick := (publish_tick s + 1) mod 2 ^ 8 in
  {| slip := slip_ns; publish_tick := tick;
     current_slip_ns := if tick =? 0 then as_i64 slip_ns else current_slip_ns s |}.

(** ** Lemmas *)

Lemma counted_app c l1 l2 : counted c (l1 ++ l2) = counted c l1 + counted c l2.
Proof. induction l1 as [|[c' n|h v] l1 IH]; cbn; rewrite ?IH; lia. Qed.

Lemma samples_app h l1 l2 : samples h (l1 ++ l2) = samples h l1 ++ samples h l2.
Proof. induction l1 as [|[c' n|h' v] l1 IH]; cbn; rewrite ?IH, ?app_assoc; done. Qed.

Lemma counted_same c n log : counted c (Count c n :: log) = n + counted c log.
Proof. cbn. by rewrite decide_True. Qed.

Lemma counted_other c c' n log : c' <> c -> counted c (Count c' n :: log) = counted c log.
Proof. intros. cbn. by rewrite decide_False. Qed.

Lemma samples_same h v log : samples h (Sample h v :: log) = v :: samples h log.
Proof. cbn. by rewrite decide_True. Qed.

Lemma slot_of_inj c1 c2 : slot_of c1 = slot_of c2 -> c1 = c2.
Proof. destruct c1, c2; intros E; (reflexivity || discriminate E). Qed.

Lemma slot_of_bound c : (snd (slot_of c) < SLOTS)%nat.
Proof. destruct c; cbn; unfold SLOTS; lia. Qed.

Definition well_sized (g : CounterGroup) : Prop :=
  length g = NUM_SHARDS /\ Forall (fun s => length s = SLOTS) g.

Lemma group_add_sized shard slot v g : well_sized g -> well_sized (group_add shard slot v g).
Proof.
  intros [L F]. split; unfold group_add; [by rewrite length_alter|].
  apply Forall_alter; [done|]. intros s _ Hs. by rewrite length_alter.
Qed.

Lemma wrap64_wrap64 a : wrap64 (wrap64 a) = wrap64 a.
Proof. apply wrap64_small, wrap64_range. Qed.

Lemma wrap64_add_l a b : wrap64 (wrap64 a + b) = wrap64 (a + b).
Proof. unfold wrap64. apply Z.add_mod_idemp_l. lia. Qed.

Lemma wrap64_add_r a b : wrap64 (a + wrap64 b) = wrap64 (a + b).
Proof. unfold wrap64. apply Z.add_mod_idemp_r. lia. Qed.

Lemma group_value_wrap slot g : wrap64 (group_value slot g) = group_value slot g.
Proof. destruct g; cbn; [done|]. unfold wrap64. rewrite Z.mod_mod; lia. Qed.

Lemma group_value_add shard slot v g :
  (shard < length g)%nat -> Forall (fun s => length s = SLOTS) g -> (slot < SLOTS)%nat ->
  group_value slot (group_add shard slot v g) = wrap64 (group_value slot g + v).
Proof.
  revert shard. induction g as [|s g IH]; intros shard L F Hs; cbn in L; [lia|].
  apply Forall_cons in F as [Fs F]. destruct shard as [|shard]; cbn.
  - rewrite list_lookup_alter, decide_True by done.
    destruct (lookup_lt_is_Some_2 s slot) as [x Hx]; [lia|]. rewrite Hx; cbn.
    rewrite !wrap64_add_l. f_equal. lia.
  - fold (group_add shard slot v g). fold (group_value slot (group_add shard slot v g)).
    rewrite IH by (done || lia). fold (group_value slot g).
    rewrite wrap64_add_l, wrap64_add_r. f_equal. lia.
Qed.

Lemma group_value_other shard slot slot' v g :
  slot <> slot' -> group_value slot (group_add shard slot' v g) = group_value slot g.
Proof.
  intros Hs. revert shard. induction g as [|s g IH]; intros shard; [done|]. destruct shard as [|shard]; cbn.
  - by rewrite list_lookup_alter, decide_False.
  - fold (group_add shard slot' v g). fold (group_value slot (group_add shard slot' v g)). by rewrite IH.
Qed.

Lemma counter_add_sized w c v cs : (forall g, well_sized (cs g)) -> forall g, well_sized (counter_add w c v cs g).
Proof. intros S g. unfold counter_add. case_decide; [by apply group_add_sized|done]. Qed.

Lemma counter_add_value w c c' v cs :
  (forall g, well_sized (cs g)) ->
  counter_value c (counter_add w c' v cs) =
  if decide (c' = c) then wrap64 (counter_value c cs + v) else counter_value c cs.
Proof.
  intros S. unfold counter_value, counter_add. case_decide as E1; case_decide as E2; subst.
  - destruct (S (fst (slot_of c))) as [L F]. apply group_value_add; [|done|apply slot_of_bound].
    rewrite L. unfold thread_shard. apply Nat.mod_upper_bound. done.
  - apply group_value_other. intros E3. apply E2, slot_of_inj.
    destruct (slot_of c), (slot_of c'); cbn in *; congruence.
  - done.
  - done.
Qed.

Lemma no_counters_sized g : well_sized (no_counters g).
Proof.
  split; [apply length_replicate|]. apply Forall_replicate. apply length_replicate.
Qed.

Lemma no_counters_value c : counter_value c no_counters = 0.
Proof. destruct c; by vm_compute. Qed.

(** ** Properties *)

(** A sharded counter is exact: after any sequence of events from any
    workers, reading a counter gives the sum of the log's amounts on that
    counter modulo 2^64, whichever shards they were written to, and no other
    counter's events show in it. *)
Theorem counters_exact log c :
  counter_value c (apply_log log no_counters) = wrap64 (counted c (map snd log)).
Proof.
  assert (forall cs, (forall g, well_sized (cs g)) ->
    counter_value c (apply_log log cs) = wrap64 (counter_value c cs + counted c (map snd log))) as G.
  { induction log as [|[w [c' n|h v]] log IH]; intros cs S; cbn [apply_log map counted snd].
    - rewrite Z.add_0_r. unfold counter_value. by rewrite group_value_wrap.
    - rewrite IH by (by apply counter_add_sized). rewrite counter_add_value by done.
      case_decide; [rewrite wrap64_add_l|]; f_equal; lia.
    - by apply IH. }
  rewrite G by apply no_counters_sized. by rewrite no_counters_value.
Qed.
