(* ===== verification/InFlight.v ===== *)
(** InFlight: the requests in flight on one connection and the deadline on
    their replies ([src/src/worker.rs], [InFlight], [recv_with_timeout],
    [note_discarded], [note_failed_fire], [requeue_newest]).

    An [Instant] is a number of nanoseconds; a running [SleepFuture] is the
    instant it completes at.  [try_sleep] can fail when the timer pool is
    exhausted: that is the argument [arm_ok]. *)

From Stdlib Require Import Sorting.Sorted.
From S2P Require Import Prelude Config Keys Metrics.
Open Scope Z_scope.

Inductive DisconnectReason :=
| Eof | RecvError | SendError | ClosedEvent | ErrorEvent | ConnectFailed | Timeout.

(** [record_disconnect_reason]. *)
Definition disconnect_counter (r : DisconnectReason) : Counter :=
  match r with
  | Eof => DISCONNECTS_EOF
  | RecvError => DISCONNECTS_RECV_ERROR
  | SendError => DISCONNECTS_SEND_ERROR
  | ClosedEvent => DISCONNECTS_CLOSED_EVENT
  | ErrorEvent => DISCONNECTS_ERROR_EVENT
  | ConnectFailed => DISCONNECTS_CONNECT_FAILED
  | Timeout => DISCONNECTS_TIMEOUT
  end.

Record InFlight := {
  fired : list Z;
  queued : list Z;
  track_queued : bool;
  timeout : Z;
  timer : option Z;
}.

#[export] Instance eta_InFlight : Settable InFlight := fun x =>
  {| fired := fired x; queued := queued x; track_queued := track_queued x;
     timeout := timeout x; timer := timer x |}.

Definition new_inflight (timeout : Z) : InFlight :=
  {| fired := []; queued := []; track_queued := false; timeout := timeout; timer := None |}.

Definition tracking_queued (x : InFlight) : InFlight :=
  x <| track_queued := true |> <| queued := [] |>.

Definition push_queued (fired_at queued_ns : Z) (x : InFlight) : InFlight :=
  let x := x <| fired := fired x ++ [fired_at] |> in
  if track_queued x then x <| queued := queued x ++ [queued_ns] |> else x.

Definition push (fired_at : Z) (x : InFlight) : InFlight := push_queued fired_at 0 x.

(** [InFlight::pop]: the oldest request's queue wait, 0 when not tracked. *)
Definition pop (x : InFlight) : InFlight * Z :=
  (x <| fired := tail (fired x) |> <| queued := tail (queued x) |>, default 0 (head (queued x))).

Definition forget_newest (n : nat) (x : InFlight) : InFlight :=
  let keep := (length (fired x) - n)%nat in
  x <| fired := take keep (fired x) |> <| queued := take keep (queued x) |>.

(** [InFlight::remaining]; a duration subtraction saturates at zero. *)
Definition remaining (now : Z) (x : InFlight) : option Z :=
  if timeout x =? 0 then None
  else match fired x with
       | [] => None
       | oldest :: _ => Some (sat_sub (timeout x) (sat_sub now oldest))
       end.

(** [InFlight::arm]. *)
Definition arm (now after : Z) (arm_ok : bool) (x : InFlight) : InFlight * bool :=
  if arm_ok then (x <| timer := Some (now + after) |>, true) else (x, false).

(** [note_discarded]: the connection's queue, its log and how many were
    discarded. *)
Definition note_discarded (before after : nat) (count_failed : bool) (x : InFlight)
    : InFlight * list metric * nat :=
  let discarded := (before - after)%nat in
  (forget_newest discarded x,
   if count_failed then [Count REQUESTS_SEND_FAILED (Z.of_nat discarded)] else [],
   discarded).

Definition note_failed_fire (before after : nat) (count_failed : bool) (x : InFlight)
    : InFlight * list metric * nat :=
  let '(x, log, discarded) := note_discarded before after count_failed x in
  (x, (if count_failed then [Count REQUESTS_SEND_FAILED 1] else []) ++ log, discarded).

(** [requeue_newest]: pop [n] keys off the back of [in_flight], each pushed to
    the front of [endpoint]'s queue. *)
Fixpoint requeue_newest (n : nat) (endpoint : Z) (qs : PrefillQueues) (in_flight : list Z)
    : option (PrefillQueues * list Z) :=
  match n with
  | O => Some (qs, in_flight)
  | S n =>
      match last in_flight with
      | None => requeue_newest n endpoint qs in_flight
      | Some key_id =>
          qs ← pq_push_front qs endpoint key_id;
          requeue_newest n endpoint qs (removelast in_flight)
      end
  end.

(** ** [recv_with_timeout] *)

Inductive RecvStart := Unbounded | Bounded | StartFailed.

(** Before the wait: is the recv bounded, and is its timer armed? *)
Definition recv_start (now : Z) (arm_ok : bool) (x : InFlight) : InFlight * RecvStart :=
  match remaining now x with
  | None => (x, Unbounded)
  | Some rest =>
      match timer x with
      | Some _ => (x, Bounded)
      | None => let (x, ok) := arm now rest arm_ok x in (x, if ok then Bounded else StartFailed)
      end
  end.

(** What one poll of a bounded recv returns. *)
Inductive RecvPoll := Ready | Pending | Expired | TimerLost.

(** The loop of the poll function, [fuel] rounds; two are enough, since a
    timer just re-armed is pending. *)
Fixpoint poll_loop (fuel : nat) (now : Z) (arm_ok : bool) (x : InFlight) : InFlight * RecvPoll :=
  match fuel with
  | O => (x, Pending)
  | S fuel =>
      match timer x with
      | None => (x, TimerLost)
      | Some at_ =>
          if now <? at_ then (x, Pending)
          else
            let x := x <| timer := None |> in
            match remaining now x with
            | Some rest =>
                if negb (rest =? 0)
                then let (x, _) := arm now rest arm_ok x in poll_loop fuel now arm_ok x
                else (x, Expired)
            | None => (x, Expired)
            end
      end
  end.

Definition recv_poll (now : Z) (ready arm_ok : bool) (x : InFlight) : InFlight * RecvPoll :=
  if ready then (x, Ready) else poll_loop 2 now arm_ok x.

(** The outcome of an expired or lost recv: the reason and what is counted. *)
Definition recv_failed (p : RecvPoll) (x : InFlight) : option (DisconnectReason * list metric) :=
  match p with
  | Expired =>
      let n := Z.of_nat (length (fired x)) in
      Some (Timeout, [Count REQUEST_TIMEOUTS n; Count REQUEST_ERRORS n])
  | TimerLost => Some (RecvError, [])
  | _ => None
  end.

(** ** Reachable states

    [c] is the latest clock reading; the clock does not run back. *)
Inductive inflight_reach (t : Z) : Z -> InFlight -> Prop :=
| ir_new c : inflight_reach t c (new_inflight t)
| ir_track c x : inflight_reach t c x -> fired x = [] -> inflight_reach t c (tracking_queued x)
| ir_push c now q x :
    inflight_reach t c x -> c <= now -> inflight_reach t now (push_queued now q x)
| ir_pop c x : inflight_reach t c x -> inflight_reach t c (fst (pop x))
| ir_forget c n x : inflight_reach t c x -> inflight_reach t c (forget_newest n x)
| ir_start c now arm_ok x :
    inflight_reach t c x -> c <= now -> inflight_reach t now (fst (recv_start now arm_ok x))
| ir_poll c now ready arm_ok x :
    inflight_reach t c x -> c <= now ->
    inflight_reach t now (fst (recv_poll now ready arm_ok x)).

(** The timer completes no later than any request's deadline, or has been due
    since it was set. *)
Record deadline_inv (t c : Z) (x : InFlight) : Prop := {
  di_timeout : timeout x = t;
  di_sorted : StronglySorted Z.le (fired x);
  di_past : Forall (fun f => f <= c) (fired x);
  di_last at_ : timer x = Some at_ -> at_ <= c + t;
  di_timer at_ : timer x = Some at_ -> Forall (fun f => at_ <= Z.max c (f + t)) (fired x);
}.

(** ** Lemmas *)

Lemma Forall_tail {A} (P : A -> Prop) l : Forall P l -> Forall P (tail l).
Proof. destruct 1; by cbn. Qed.

Lemma sorted_take n l : StronglySorted Z.le l -> StronglySorted Z.le (take n l).
Proof.
  intros S. revert n. induction S as [|a l S IH F]; intros [|n]; cbn; constructor; [done|].
  by apply Forall_take.
Qed.

Lemma sorted_snoc l x : StronglySorted Z.le l -> Forall (fun y => y <= x) l -> StronglySorted Z.le (l ++ [x]).
Proof.
  induction 1 as [|a l S IH F]; cbn; intros B; [by repeat constructor|].
  apply Forall_cons in B as [Ba B]. constructor; [by apply IH|]. apply Forall_app. split; [done|].
  by apply Forall_singleton.
Qed.

Lemma inv_clock t c c' x : deadline_inv t c x -> c <= c' -> deadline_inv t c' x.
Proof.
  intros [T S P L Ti] Hc. constructor; [done|done| | |].
  - eapply Forall_impl; [exact P|]. cbn. lia.
  - intros at_ E. specialize (L at_ E). lia.
  - intros at_ E. eapply Forall_impl; [exact (Ti at_ E)|]. cbn. lia.
Qed.

Lemma remaining_some t c x rest :
  deadline_inv t c x -> 0 <= t -> remaining c x = Some rest ->
  exists oldest fs, fired x = oldest :: fs /\ rest = Z.max 0 (oldest + t - c).
Proof.
  intros [T S P _ _] Ht. unfold remaining. rewrite T. destruct (t =? 0); [done|].
  destruct (fired x) as [|oldest fs] eqn:E; [done|]. intros [= <-].
  apply Forall_cons in P as [P _]. exists oldest, fs. split; [done|]. unfold sat_sub. lia.
Qed.

(** Arming for the oldest request's remaining time keeps the invariant. *)
Lemma arm_inv t c x rest arm_ok :
  deadline_inv t c x -> 0 <= t -> remaining c x = Some rest ->
  deadline_inv t c (fst (arm c rest arm_ok x)).
Proof.
  intros I Ht R. destruct (remaining_some _ _ _ _ I Ht R) as (o & fs & Ef & ->).
  destruct I as [T S P L Ti]. unfold arm. destruct arm_ok; cbn; [|by constructor].
  constructor; cbn; try done; intros at_ [= <-]; rewrite Ef in *; apply Forall_cons in P as [Po P]; [lia|].
  constructor; [lia|]. inversion S as [|? ? _ F]; subst. eapply Forall_impl; [exact F|]. cbn. lia.
Qed.

Lemma inv_no_timer t c x : deadline_inv t c x -> deadline_inv t c (x <| timer := None |>).
Proof. intros [T S P L Ti]. by constructor. Qed.

Lemma poll_loop_inv fuel t c arm_ok x :
  deadline_inv t c x -> 0 <= t -> deadline_inv t c (fst (poll_loop fuel c arm_ok x)).
Proof.
  revert x. induction fuel as [|fuel IH]; intros x I Ht; cbn; [done|].
  destruct (timer x) as [at_|]; [|done]. destruct (c <? at_); [done|].
  pose proof (inv_no_timer _ _ _ I) as I'.
  destruct (remaining c (x <| timer := None |>)) as [rest|] eqn:R; [|done].
  destruct (negb (rest =? 0)); [|done].
  pose proof (arm_inv _ _ _ _ arm_ok I' Ht R) as I''.
  destruct (arm c rest arm_ok _) as [y ok]. by apply IH.
Qed.

Lemma inflight_reach_inv t c x : 0 <= t -> inflight_reach t c x -> deadline_inv t c x.
Proof.
  intros Ht. induction 1 as [c|c x _ I E|c now q x _ I Hc|c x _ I|c n x _ I|c now ok x _ I Hc|c now r ok x _ I Hc].
  - by repeat constructor.
  - destruct I. by constructor.
  - apply (inv_clock _ _ now) in I as [T S P L Ti]; [|done].
    assert (deadline_inv t now (x <| fired := fired x ++ [now] |>)) as J.
    { constructor; cbn; [done|by apply sorted_snoc| |done|].
      - apply Forall_app. split; [done|]. apply Forall_singleton. lia.
      - intros at_ E. apply Forall_app. split; [by apply Ti|]. apply Forall_singleton.
        specialize (L at_ E). lia. }
    unfold push_queued. cbn. destruct (track_queued x); [|done]. destruct J. by constructor.
  - destruct I as [T S P L Ti]. constructor; cbn; [done| | |done|].
    + inversion S as [E|a l Sl Fl E]; cbn; [constructor|done].
    + by apply Forall_tail.
    + intros at_ E. by apply Forall_tail, Ti.
  - destruct I as [T S P L Ti]. constructor; cbn; [done|by apply sorted_take|by apply Forall_take|done|].
    intros at_ E. by apply Forall_take, Ti.
  - apply (inv_clock _ _ now) in I; [|done]. unfold recv_start.
    destruct (remaining now x) as [rest|] eqn:R; [|done]. destruct (timer x); [done|].
    pose proof (arm_inv _ _ _ _ ok I Ht R) as J. by destruct (arm now rest ok x).
  - apply (inv_clock _ _ now) in I; [|done]. unfold recv_poll. destruct r; [done|].
    by apply poll_loop_inv.
Qed.

(** The [n] newest in-flight keys end up at the front of the queue, in their
    order. *)
Lemma requeue_newest_spec n endpoint qs in_flight q :
  qs !! Z.to_nat endpoint = Some q ->
  requeue_newest n endpoint qs in_flight =
  Some (<[Z.to_nat endpoint := drop (length in_flight - n) in_flight ++ q]> qs,
        take (length in_flight - n) in_flight).
Proof.
  revert qs in_flight q. induction n as [|n IH]; intros qs fl q Hq; cbn [requeue_newest].
  - rewrite Nat.sub_0_r, drop_all, take_ge by done. cbn. by rewrite list_insert_id.
  - destruct fl as [|k fl _] using rev_ind.
    + cbn. rewrite (IH _ _ q) by done. done.
    + rewrite last_snoc. unfold pq_push_front. rewrite Hq. cbn [mbind option_bind].
      rewrite removelast_last, (IH _ _ (k :: q)).
      2: { rewrite list_lookup_insert_eq; [done|]. by eapply lookup_lt_Some. }
      rewrite list_insert_insert_eq, length_app. cbn [length].
      replace (length fl + 1 - S n)%nat with (length fl - n)%nat by lia.
      rewrite take_app_le, drop_app_le by lia. by rewrite <- app_assoc.
Qed.

Lemma forget_newest_all n x :
  length (fired (forget_newest n x)) = (length (fired x) - n)%nat.
Proof. cbn. rewrite length_take. lia. Qed.

(** ** Properties *)

(** C35: the request timeout is exact: while a reply is awaited, a poll at or
    past the oldest request's deadline reports the timeout, counts every
    request in flight as a timeout and an error, and an earlier poll never
    does; and an earlier poll leaves a timer running, unless the timer pool is
    exhausted. *)
Theorem recv_deadline_exact t c now arm_ok x oldest rest at_ :
  0 < t -> inflight_reach t c x -> c <= now -> fired x = oldest :: rest -> timer x = Some at_ ->
  let (x', p) := recv_poll now false arm_ok x in
  fired x' = fired x /\
  (oldest + t <= now ->
     p = Expired /\
     recv_failed p x' = Some (Timeout, [Count REQUEST_TIMEOUTS (Z.of_nat (length (fired x)));
                                        Count REQUEST_ERRORS (Z.of_nat (length (fired x)))])) /\
  (now < oldest + t ->
     (p = Pending /\ is_Some (timer x')) \/ (p = TimerLost /\ arm_ok = false)).
Proof.
  intros Ht R%inflight_reach_inv Hc Ef Et; [|lia]. apply (inv_clock _ _ now) in R; [|done].
  pose proof (di_timer _ _ _ R at_ Et) as D. rewrite Ef in D. apply Forall_cons in D as [D _].
  unfold recv_poll. cbn [poll_loop]. rewrite Et.
  destruct (now <? at_) eqn:E; [split_and!; [done|lia|intros _; left; by rewrite Et]|].
  pose proof (inv_no_timer _ _ _ R) as R'.
  assert (remaining now (x <| timer := None |>) = Some (Z.max 0 (oldest + t - now))) as Er.
  { unfold remaining. cbn. rewrite Ef, (di_timeout _ _ _ R), (proj2 (Z.eqb_neq _ _)) by lia.
    pose proof (di_past _ _ _ R) as P. rewrite Ef in P. apply Forall_cons in P as [P _].
    f_equal. unfold sat_sub. lia. }
  rewrite Er. destruct (decide (oldest + t <= now)).
  - replace (Z.max 0 (oldest + t - now)) with 0 by lia. cbn. rewrite Ef. split_and!; [done|done|lia].
  - rewrite (proj2 (Z.eqb_neq _ _)) by lia. cbn [negb]. destruct arm_ok; cbn.
    + rewrite (proj2 (Z.ltb_lt _ _)) by lia. split_and!; [done|lia|intros _; by left].
    + split_and!; [done|lia|intros _; by right].
Qed.

(** *** Witness *)

(** Two requests, fired at 100 and 150, under a timeout of 1000. *)
Definition example_inflight : InFlight :=
  fst (recv_start 160 true (push 150 (push 100 (new_inflight 1000)))).

Lemma recv_deadline_exact_witness :
  snd (recv_poll 1099 false true example_inflight) = Pending /\
  snd (recv_poll 1100 false true example_inflight) = Expired.
Proof.
  split; [by vm_compute|].
  assert (inflight_reach 1000 160 example_inflight) as R.
  { apply (ir_start 1000 150); [|lia]. apply (ir_push 1000 100 150); [|lia].
    apply (ir_push 1000 0 100); [|lia]. apply ir_new. }
  pose proof (recv_deadline_exact 1000 160 1100 true example_inflight 100 [150] 1100
    ltac:(lia) R ltac:(lia) eq_refl eq_refl) as T.
  destruct (recv_poll 1100 false true example_inflight) as [x' p].
  exact (proj1 (proj1 (proj2 T) ltac:(lia))).
Defined.
