(* ===== verification/KeyDist.v ===== *)
(** KeyDist: steady-state key-id sampling ([src/src/keydist.rs]).

    The generator and the distributions are third-party (rand, rand_distr):
    the class [Rng] holds their draws and [RngLaws] the documented ranges.  An
    empty range, a failed assertion and a vector index out of bounds panic in
    the source; here they are [None]. *)

From S2P Require Import Prelude F64 Config.
Open Scope Z_scope.

(** [random_range lo hi] draws from [lo..hi]; [zipf] is [rand_distr::Zipf],
    [alias] a [WeightedAliasIndex], [powf] the libm power. *)
Class Rng := {
  rng : Type;
  random_range : Z -> Z -> rng -> rng * Z;
  random_f64 : rng -> rng * f64;
  zipf_draw : Z -> f64 -> rng -> rng * f64;
  alias_draw : list f64 -> rng -> rng * Z;
  powf : f64 -> f64 -> f64;
}.

Class RngLaws `{Rng} := {
  random_range_in lo hi g : lo < hi -> lo <= snd (random_range lo hi g) < hi;
  alias_draw_in ws g : ws <> [] -> 0 <= snd (alias_draw ws g) < Z.of_nat (length ws);
}.

(** A draw from [lo..hi]; an empty range panics. *)
Definition range_draw `{Rng} (lo hi : Z) (g : rng) : option (rng * Z) :=
  if lo <? hi then Some (random_range lo hi g) else None.

(** ** [Recency] *)

Record Recency := {
  head_ : Z;
  batch : Z;
  generations : Z;
  hot_fraction : f64;
  cdf : list f64;
}.

(** The weight loop of [Recency::new]: cumulative sums, their last, in order. *)
Fixpoint cdf_loop (n : nat) (decay acc w : f64) : list f64 * f64 :=
  match n with
  | O => ([], acc)
  | S n =>
      let acc := f64_add acc w in
      let (cs, last) := cdf_loop n decay acc (f64_mul w decay) in (acc :: cs, last)
  end.

Definition recency_new (initial_head batch generations : Z) (decay hot_fraction : f64)
    : option Recency :=
  if (1 <=? batch) && (1 <=? generations) &&
     (f64_is_finite decay && f64_lt f64_zero decay && f64_le decay f64_one) &&
     (f64_is_finite hot_fraction && f64_le f64_zero hot_fraction && f64_le hot_fraction f64_one)
  then
    let (cs, acc) := cdf_loop (Z.to_nat generations) decay f64_zero f64_one in
    Some {| head_ := initial_head; batch := batch; generations := generations;
            hot_fraction := hot_fraction; cdf := map (fun c => f64_div c acc) cs |}
  else None.

(** [partition_point(|c| *c <= u)]: how many leading entries are at most [u]. *)
Fixpoint partition_point (u : f64) (cs : list f64) : Z :=
  match cs with
  | [] => 0
  | c :: cs => if f64_le c u then 1 + partition_point u cs else 0
  end.

Definition sample_generation `{Rng} (r : Recency) (g : rng) : rng * Z :=
  let (g, u) := random_f64 g in (g, Z.min (partition_point u (cdf r)) (generations r - 1)).

(** [Recency::sample]. *)
Definition recency_sample `{Rng} (r : Recency) (g : rng) : option (rng * Z) :=
  let head := head_ r in
  if head =? 0 then Some (g, 0)
  else
    let hot_span := sat_mul (generations r) (batch r) in
    let body_hi := sat_sub head hot_span in
    let (g, u) := random_f64 g in
    if f64_lt u (hot_fraction r) then
      let (g, a) := sample_generation r g in
      let hi := sat_sub head (wrap64 (a * batch r)) in
      let lo := sat_sub head (wrap64 ((a + 1) * batch r)) in
      if lo <? hi then range_draw lo hi g else range_draw 0 head g
    else if body_hi =? 0 then range_draw 0 head g
    else range_draw 0 body_hi g.

(** ** [EndpointZipf] and [Zipfian] *)

Record EndpointZipf := {
  keys : list (list Z);
  tables : list (option (list f64));
  shares : list f64;
}.

Definition zipf_weights `{Rng} (theta : f64) (ids : list Z) : list f64 :=
  map (fun id => powf (f64_add (f64_of_Z id) f64_one) (SpecFloat.SFopp theta)) ids.

Definition f64_sum (l : list f64) : f64 := foldl f64_add f64_zero l.

(** [EndpointZipf::new]. *)
Definition endpoint_zipf_new `{Rng} (ks : list (list Z)) (theta : f64) : EndpointZipf :=
  let raw := map (fun ids => match ids with
                             | [] => f64_zero
                             | _ => f64_sum (zipf_weights theta ids) end) ks in
  let total := f64_sum raw in
  {| keys := ks;
     tables := map (fun ids => match ids with [] => None | _ => Some (zipf_weights theta ids) end) ks;
     shares := map (fun s => f64_div s total) raw |}.

(** [EndpointZipf::sample]: the inner [None] is an endpoint without keys. *)
Definition endpoint_sample `{Rng} (z : EndpointZipf) (ep : nat) (g : rng)
    : option (rng * option Z) :=
  table ← tables z !! ep;
  match table with
  | None => Some (g, None)
  | Some ws =>
      let (g, i) := alias_draw ws g in
      ids ← keys z !! ep; k ← ids !! Z.to_nat i; Some (g, Some k)
  end.

Record Zipfian := { zn : Z; theta : f64; by_endpoint : option EndpointZipf }.

(** [Zipfian::new]: the assertion, and [ZipfDist::new]'s own refusal of a
    negative or non-finite exponent. *)
Definition zipfian_new (n : Z) (theta : f64) : option Zipfian :=
  if (1 <=? n) && f64_le f64_zero theta
  then Some {| zn := n; theta := theta; by_endpoint := None |} else None.

Definition zipfian_sample `{Rng} (z : Zipfian) (g : rng) : rng * Z :=
  let (g, x) := zipf_draw (zn z) (theta z) g in
  let rank := f64_to_u64 x in
  (g, Z.min (sat_sub rank 1) (wrap64 (zn z - 1))).

(** ** [KeyDist] *)

Inductive KeyDist :=
| KUniform (n : Z)
| KZipf (z : Zipfian)
| KRecency (r : Recency).

(** [KeyDist::from_workload]; [None] where a constructor's assertion fails. *)
Definition from_workload (w : Workload.t) : option KeyDist :=
  let ks := Workload.keyspace w in
  match Keyspace.distribution ks with
  | Uniform => Some (KUniform (Keyspace.count ks))
  | Zipf => z ← zipfian_new (Keyspace.count ks) (Keyspace.zipf_theta ks); Some (KZipf z)
  | Recency =>
      a ← Workload.append w;
      r ← recency_new (Keyspace.count ks) (Append.batch a) (Keyspace.hot_generations ks)
            (Keyspace.hot_decay ks) (Keyspace.hot_fraction ks);
      Some (KRecency r)
  end.

(** [KeyDist::sample]. *)
Definition sample `{Rng} (d : KeyDist) (g : rng) : option (rng * Z) :=
  match d with
  | KUniform n => range_draw 0 n g
  | KZipf z => Some (zipfian_sample z g)
  | KRecency r => recency_sample r g
  end.

Definition dist_len (d : KeyDist) : Z :=
  match d with KUniform n => n | KZipf z => zn z | KRecency r => head_ r end.

Definition with_endpoint_keys `{Rng} (d : KeyDist) (endpoint_keys : list (list Z)) : KeyDist :=
  match d with
  | KZipf z =>
      if (1 <? length endpoint_keys)%nat
      then KZipf {| zn := zn z; theta := theta z;
                    by_endpoint := Some (endpoint_zipf_new endpoint_keys (theta z)) |}
      else d
  | _ => d
  end.

Definition endpoint_sampler (d : KeyDist) : option EndpointZipf :=
  match d with KZipf z => by_endpoint z | _ => None end.

(** A sampler as [from_workload] builds it, with its recency head in range. *)
Definition dist_ok (d : KeyDist) : Prop :=
  match d with
  | KUniform n => 0 < n <= u64_max
  | KZipf z => 0 < zn z <= u64_max
  | KRecency r => 0 < head_ r <= u64_max /\ 1 <= batch r /\ 1 <= generations r /\
                  generations r * batch r <= u64_max
  end.

(** ** Lemmas *)

Lemma range_draw_ok `{RngLaws} lo hi g :
  lo < hi -> exists g' k, range_draw lo hi g = Some (g', k) /\ lo <= k < hi.
Proof.
  intros L. unfold range_draw. rewrite (proj2 (Z.ltb_lt _ _)) by done.
  pose proof (random_range_in lo hi g L). destruct (random_range lo hi g) as [g' k]. eauto.
Qed.

Lemma zipf_weights_length `{Rng} th ids : length (zipf_weights th ids) = length ids.
Proof. apply length_map. Qed.

Lemma partition_point_nonneg u cs : 0 <= partition_point u cs.
Proof. induction cs as [|c cs IH]; cbn; [lia|]. destruct (f64_le c u); lia. Qed.

Lemma sample_generation_range `{Rng} r g :
  1 <= generations r -> 0 <= snd (sample_generation r g) < generations r.
Proof.
  intros G. unfold sample_generation. destruct (random_f64 g) as [g' u]. cbn.
  pose proof (partition_point_nonneg u (cdf r)). lia.
Qed.

(** A recency draw: where the id comes from, by the two random numbers. *)
Lemma recency_sample_cases `{RngLaws} r g :
  0 < head_ r <= u64_max -> 1 <= batch r -> 1 <= generations r ->
  generations r * batch r <= u64_max ->
  exists g' k, recency_sample r g = Some (g', k) /\ 0 <= k < head_ r /\
    (f64_lt (snd (random_f64 g)) (hot_fraction r) = true ->
       let a := snd (sample_generation r (fst (random_f64 g))) in
       a * batch r < head_ r -> head_ r - (a + 1) * batch r <= k < head_ r - a * batch r) /\
    (f64_lt (snd (random_f64 g)) (hot_fraction r) = false ->
       generations r * batch r < head_ r -> k < head_ r - generations r * batch r).
Proof.
  intros Hh Hb Hg Hs. unfold recency_sample. rewrite (proj2 (Z.eqb_neq _ _)) by lia.
  assert (sat_mul (generations r) (batch r) = generations r * batch r) as -> by ulia.
  destruct (random_f64 g) as [g1 u] eqn:Eu. cbn [fst snd].
  pose proof (sample_generation_range r g1 Hg) as A.
  destruct (f64_lt u (hot_fraction r)).
  - destruct (sample_generation r g1) as [g2 a]. cbn [snd] in *.
    assert (0 <= a * batch r /\ (a + 1) * batch r <= generations r * batch r) as [A1 A2] by nia.
    rewrite !wrap64_small by nia. unfold sat_sub.
    destruct (Z.max (head_ r - (a + 1) * batch r) 0 <? Z.max (head_ r - a * batch r) 0) eqn:E.
    + destruct (range_draw_ok (Z.max (head_ r - (a + 1) * batch r) 0) (Z.max (head_ r - a * batch r) 0) g2)
        as (g' & k & -> & R); [lia|]. exists g', k. split_and!; [done|lia|lia|lia|done].
    + destruct (range_draw_ok 0 (head_ r) g2) as (g' & k & -> & R); [lia|].
      exists g', k. split_and!; [done|lia|lia|nia|done].
  - unfold sat_sub. destruct (Z.max (head_ r - generations r * batch r) 0 =? 0) eqn:E.
    + destruct (range_draw_ok 0 (head_ r) g1) as (g' & k & -> & R); [lia|].
      exists g', k. split_and!; [done|lia|lia|done|lia].
    + destruct (range_draw_ok 0 (Z.max (head_ r - generations r * batch r) 0) g1) as (g' & k & -> & R); [lia|].
      exists g', k. split_and!; [done|lia|lia|done|lia].
Qed.

Lemma sample_in_len `{RngLaws} d g :
  dist_ok d -> exists g' k, sample d g = Some (g', k) /\ 0 <= k < dist_len d.
Proof.
  intros D. destruct d as [n|z|r]; cbn in *.
  - apply range_draw_ok; lia.
  - unfold zipfian_sample. destruct (zipf_draw (zn z) (theta z) g) as [g' x].
    eexists _, _. split; [done|]. rewrite wrap64_small by lia.
    unfold sat_sub. lia.
  - destruct (recency_sample_cases r g) as (g' & k & -> & R & _); [lia..|]. eauto.
Qed.

Lemma sample_total `{RngLaws} d g : dist_ok d -> exists g' k, sample d g = Some (g', k).
Proof. intros D. destruct (sample_in_len d g D) as (g' & k & E & _). eauto. Qed.

(** ** Properties *)

(** Every draw is a key of the keyspace: the sampler never panics and the
    id it returns is below its length, for every distribution. *)
Theorem sample_in_keyspace `{RngLaws} d g :
  dist_ok d -> exists g' k, sample d g = Some (g', k) /\ 0 <= k < dist_len d.
Proof. apply sample_in_len. Qed.

(** A recency read lands where its age says: a hot draw of generation [a]
    returns an id of the [a]-th newest batch when that batch lies in the
    keyspace, and a cold draw returns an id older than the hot window when
    there is one. *)
Theorem recency_targets_generation `{RngLaws} r g :
  dist_ok (KRecency r) ->
  exists g' k, recency_sample r g = Some (g', k) /\
    (f64_lt (snd (random_f64 g)) (hot_fraction r) = true ->
       let a := snd (sample_generation r (fst (random_f64 g))) in
       0 <= a < generations r /\
       ((a + 1) * batch r <= head_ r -> head_ r - (a + 1) * batch r <= k < head_ r - a * batch r)) /\
    (f64_lt (snd (random_f64 g)) (hot_fraction r) = false ->
       generations r * batch r < head_ r -> 0 <= k < head_ r - generations r * batch r).
Proof.
  intros (Hh & Hb & Hg & Hs).
  destruct (recency_sample_cases r g) as (g' & k & E & R & Hot & Cold); [done..|].
  exists g', k. split_and!; [done| |].
  - intros F a. split; [by apply sample_generation_range|]. intros Ha. apply Hot; [done|].
    fold a. nia.
  - intros F Hl. specialize (Cold F Hl). lia.
Qed.

(** A connection's zipf draw is a key of its endpoint: the sampler of a
    partition returns one of the endpoint's own ids, and none exactly when the
    endpoint owns no keys. *)
Theorem endpoint_sample_owned `{RngLaws} ks th ep ids g :
  ks !! ep = Some ids ->
  exists g' o, endpoint_sample (endpoint_zipf_new ks th) ep g = Some (g', o) /\
    (o = None <-> ids = []) /\ (forall k, o = Some k -> k ∈ ids).
Proof.
  intros E. unfold endpoint_sample, endpoint_zipf_new; cbn. rewrite list_lookup_fmap, E; cbn.
  destruct ids as [|i ids]; [eexists _, _; split_and!; done|].
  pose proof (alias_draw_in (zipf_weights th (i :: ids)) g ltac:(done)) as R.
  rewrite zipf_weights_length in R.
  destruct (alias_draw (zipf_weights th (i :: ids)) g) as [g' j]. cbn [snd] in R.
  destruct (lookup_lt_is_Some_2 (i :: ids) (Z.to_nat j)) as [k K]; [lia|].
  rewrite K. cbn [mbind option_bind]. eexists _, _. split_and!; [done|done|].
  intros ? [= <-]. by eapply list_elem_of_lookup_2.
Qed.

(** *** Witnesses *)

(** A generator that counts: a draw from [lo..hi] is the counter modulo the
    range, a float draw the counter over 8. *)
Definition counting_rng : Rng :=
  {| rng := Z;
     random_range lo hi g := (g + 1, lo + g mod (hi - lo));
     random_f64 g := (g + 1, f64_of_ratio (g mod 8) 8);
     zipf_draw n th g := (g + 1, f64_of_Z (1 + g mod n));
     alias_draw ws g := (g + 1, g mod Z.of_nat (length ws));
     powf x y := f64_one |}.

Lemma counting_rng_laws : @RngLaws counting_rng.
Proof.
  constructor; cbn.
  - intros lo hi g L. pose proof (Z.mod_pos_bound g (hi - lo) ltac:(lia)). lia.
  - intros ws g W. apply Z.mod_pos_bound. destruct ws; cbn; [done|lia].
Qed.

(** The head at 100 ids in batches of 10, the three newest batches hot. *)
Definition example_recency : Recency :=
  {| head_ := 100; batch := 10; generations := 3; hot_fraction := f64_lit 9 10;
     cdf := [f64_lit 5 10; f64_lit 75 100; f64_one] |}.

Lemma example_recency_ok : dist_ok (KRecency example_recency).
Proof. cbn. unfold u64_max. lia. Qed.

Lemma sample_in_keyspace_witness :
  exists g' k, @sample counting_rng (KRecency example_recency) 3 = Some (g', k) /\ 0 <= k < 100.
Proof. exact (@sample_in_keyspace counting_rng counting_rng_laws (KRecency example_recency) 3 example_recency_ok). Defined.

Lemma recency_targets_generation_witness :
  exists g' k, @recency_sample counting_rng example_recency 3 = Some (g', k) /\ 80 <= k < 90.
Proof.
  destruct (@recency_targets_generation counting_rng counting_rng_laws example_recency 3 example_recency_ok)
    as (g' & k & E & Hot & _).
  exists g', k. split; [exact E|].
  destruct (Hot ltac:(by vm_compute)) as [_ R]. apply R. by vm_compute.
Defined.

Lemma endpoint_sample_owned_witness :
  exists g' o, @endpoint_sample counting_rng (@endpoint_zipf_new counting_rng [[1; 4]; []; [2]] f64_one) 1 0 = Some (g', o) /\
    o = None.
Proof.
  destruct (@endpoint_sample_owned counting_rng counting_rng_laws [[1; 4]; []; [2]] f64_one 1 [] 0 eq_refl)
    as (g' & o & E & N & _).
  exists g', o. split; [exact E|by apply N].
Defined.
