(* ===== verification/Routed.v ===== *)
(** Routed: the per-node request queues of routed dispatch and the tasks that
    wait on them ([src/src/worker.rs], [NodeQueue], [WaitSlot], [NodeWait],
    [RoutedQueues], [run_routed_dispatcher]).

    Everything here is worker-local and runs on one thread.  An
    [Rc<WaitSlot>] is an index into the store [wslots]; a [NodeWait] future is
    an index into [waits].  Waking a task appends it to [rwoken]. *)

From S2P Require Import Prelude F64 Config Keys KeyDist Limiter Dispatch Metrics.
Open Scope Z_scope.

Definition ROUTED_QUEUE_PIPELINES : Z := 16.

Definition ROUTED_MINT_BATCH : nat := 1024.

Record RoutedRequest := { key_id : Z; funded_at : Z }.

Record NodeQueue := {
  requests : list RoutedRequest;
  cap : Z;
  waiters : list nat;
  waiters_cap : Z;
}.

#[export] Instance eta_NodeQueue : Settable NodeQueue := fun x =>
  {| requests := requests x; cap := cap x; waiters := waiters x; waiters_cap := waiters_cap x |}.

Record WaitSlot := { live : bool; wtask : Task }.

#[export] Instance eta_WaitSlot : Settable WaitSlot := fun x => {| live := live x; wtask := wtask x |}.

(** [NodeWait]: the node and the entry it registered, if any. *)
Record NodeWait := { wnode : nat; wslot : option nat }.

#[export] Instance eta_NodeWait : Settable NodeWait := fun x => {| wnode := wnode x; wslot := wslot x |}.

Record RoutedQueues := {
  nodes : list NodeQueue;
  rclosed : bool;
  wslots : list WaitSlot;
  rwoken : list Task;
}.

#[export] Instance eta_RoutedQueues : Settable RoutedQueues := fun x =>
  {| nodes := nodes x; rclosed := rclosed x; wslots := wslots x; rwoken := rwoken x |}.

(** [RoutedQueues::new]. *)
Definition routed_new (connections : list Z) (pipeline_depth : Z) : RoutedQueues :=
  {| nodes := map (fun c =>
       {| requests := []; cap := sat_mul (sat_mul c pipeline_depth) ROUTED_QUEUE_PIPELINES;
          waiters := []; waiters_cap := sat_add (sat_mul c 2) 16 |}) connections;
     rclosed := false; wslots := []; rwoken := [] |}.

Definition is_live (ws : list WaitSlot) (i : nat) : bool :=
  match ws !! i with Some s => live s | None => false end.

Definition kill (i : nat) (ws : list WaitSlot) : list WaitSlot :=
  alter (fun s => s <| live := false |>) i ws.

(** The [while let] of [push]: drop entries from the front until a live one
    has been killed and its task woken. *)
Fixpoint wake_first (ws : list WaitSlot) (log : list Task) (q : list nat)
    : list WaitSlot * list Task * list nat :=
  match q with
  | [] => (ws, log, [])
  | i :: q =>
      if is_live ws i
      then (kill i ws, log ++ match ws !! i with Some s => [wtask s] | None => [] end, q)
      else wake_first ws log q
  end.

(** [RoutedQueues::push]; [None] for a node out of bounds. *)
Definition routed_push (node : nat) (request : RoutedRequest) (r : RoutedQueues)
    : option (RoutedQueues * bool) :=
  q ← nodes r !! node;
  if cap q <=? Z.of_nat (length (requests q)) then Some (r, false)
  else
    let '(ws, log, rest) := wake_first (wslots r) (rwoken r) (waiters q) in
    Some (r <| nodes := <[node := q <| requests := requests q ++ [request] |>
                                    <| waiters := rest |>]> (nodes r) |>
            <| wslots := ws |> <| rwoken := log |>, true).

(** [RoutedQueues::pop]. *)
Definition routed_pop (node : nat) (r : RoutedQueues) : option (RoutedQueues * option RoutedRequest) :=
  q ← nodes r !! node;
  match requests q with
  | [] => Some (r, None)
  | x :: xs => Some (r <| nodes := <[node := q <| requests := xs |>]> (nodes r) |>, Some x)
  end.

(** The end of [NodeWait::poll]: compact the node's list to its live entries
    when it is full, then add a new entry for task [t]. *)
Definition register (t : Task) (w : NodeWait) (q : NodeQueue) (r : RoutedQueues)
    : RoutedQueues * NodeWait :=
  let kept := if waiters_cap q <=? Z.of_nat (length (waiters q))
              then filter (fun j => is_live (wslots r) j = true) (waiters q) else waiters q in
  let i := length (wslots r) in
  (r <| wslots := wslots r ++ [{| live := true; wtask := t |}] |>
     <| nodes := <[wnode w := q <| waiters := kept ++ [i] |>]> (nodes r) |>,
   w <| wslot := Some i |>).

(** [NodeWait::poll] by task [t]: [true] when ready. *)
Definition wait_poll (t : Task) (w : NodeWait) (r : RoutedQueues)
    : option (RoutedQueues * NodeWait * bool) :=
  q ← nodes r !! wnode w;
  if rclosed r || negb (bool_decide (length (requests q) = 0%nat)) then
    let ws := match wslot w with Some i => kill i (wslots r) | None => wslots r end in
    Some (r <| wslots := ws |>, w <| wslot := None |>, true)
  else
    match wslot w with
    | Some i =>
        if is_live (wslots r) i
        then Some (r <| wslots := alter (fun s => s <| wtask := t |>) i (wslots r) |>, w, false)
        else Some (register t w q r, false)
    | None => Some (register t w q r, false)
    end.

(** [NodeWait::drop]. *)
Definition wait_drop (w : NodeWait) (r : RoutedQueues) : RoutedQueues :=
  match wslot w with Some i => r <| wslots := kill i (wslots r) |> | None => r end.

(** The inner loop of [close] over one node's waiters. *)
Fixpoint wake_all (ws : list WaitSlot) (log : list Task) (q : list nat)
    : list WaitSlot * list Task :=
  match q with
  | [] => (ws, log)
  | i :: q =>
      if is_live ws i
      then wake_all (kill i ws) (log ++ match ws !! i with Some s => [wtask s] | None => [] end) q
      else wake_all ws log q
  end.

(** [RoutedQueues::close]. *)
Definition routed_close (r : RoutedQueues) : RoutedQueues :=
  let '(ws, log) := foldl (fun '(ws, log) q => wake_all ws log (waiters q))
                      (wslots r, rwoken r) (nodes r) in
  r <| rclosed := true |> <| nodes := map (fun q => q <| waiters := [] |>) (nodes r) |>
    <| wslots := ws |> <| rwoken := log |>.

(** ** The routed dispatcher *)

Record MintState `{Ratelimiter} `{Rng} := {
  m_limiter : WorkerLimiter;
  m_queues : RoutedQueues;
  m_rng : rng;
  m_slip : SlipState;
  m_log : list metric;
}.

#[export] Instance eta_MintState `{Ratelimiter} `{Rng} : Settable MintState := fun x =>
  {| m_limiter := m_limiter x; m_queues := m_queues x; m_rng := m_rng x; m_slip := m_slip x;
     m_log := m_log x |}.

(** The funding loop of [run_routed_dispatcher], [n] requests at most; the
    [k]-th take is at [now k].  [Some nap] when the limiter ran dry. *)
Fixpoint mint `{Ratelimiter} `{Rng} `{Hashing} (env : RouteEnv) (dist : KeyDist) (slip : Z)
    (now : nat -> Z) (funded_at : Z) (n k : nat) (s : MintState) : option (MintState * option Z) :=
  match n with
  | O => Some (s, None)
  | S n =>
      let (rl, r) := limiter_try_wait (now k) (m_limiter s) in
      let s := s <| m_limiter := rl |> in
      match r with
      | Taken =>
          '(g, key) ← sample dist (m_rng s);
          node ← (if 1 <? re_endpoints env then route_id env key else Some 0);
          '(r, pushed) ← routed_push (Z.to_nat node) {| key_id := key; funded_at := funded_at |} (m_queues s);
          let log := m_log s ++ [Sample SCHEDULE_SLIP slip] ++
                     (if pushed : bool then [] else [Count ROUTED_QUEUE_DROPPED 1]) in
          mint env dist slip now funded_at n (S k)
            (s <| m_rng := g |> <| m_queues := r |> <| m_log := log |>)
      | Insufficient d => Some (s, Some d)
      | _ => Some (s, Some IDLE_SLEEP_MIN)
      end
  end.

(** What the dispatcher does after an iteration. *)
Inductive RoutedWait := RStopped | RSleep (d : Z) | RYield.

(** One iteration of [run_routed_dispatcher]: [stop], and [serving] for Warmup
    or Running. *)
Definition routed_dispatcher_step `{Ratelimiter} `{Rng} `{Hashing} (env : RouteEnv)
    (dist : KeyDist) (stop serving : bool) (now : nat -> Z) (s : MintState)
    : option (MintState * RoutedWait) :=
  if stop then
    Some (s <| m_queues := routed_close (m_queues s) |>, RStopped)
  else if negb serving then Some (s, RSleep (from_millis 1))
  else
    let slip := slip_ns (now 0%nat) (m_limiter s) in
    let s := s <| m_slip := set_worker_slip_ns slip (m_slip s) |> in
    '(s, nap) ← mint env dist slip now (now 0%nat) ROUTED_MINT_BATCH 0 s;
    Some (s, match nap with Some d => RSleep (clampZ d 1000 IDLE_SLEEP_MAX) | None => RYield end).

(** Requests queued over all nodes. *)
Definition total_queued (r : RoutedQueues) : Z :=
  sumZ (map (fun q => Z.of_nat (length (requests q))) (nodes r)).

(** ** Reachable systems: the queues and the futures of the connection tasks;
    a returned or dropped future is [None]. *)
Record System := { queues : RoutedQueues; waits : list (option NodeWait) }.

Inductive rstep : System -> System -> Prop :=
| rs_wait r fs node : (node < length (nodes r))%nat ->
    rstep {| queues := r; waits := fs |} {| queues := r; waits := fs ++ [Some {| wnode := node; wslot := None |}] |}
| rs_poll r fs f w t r' w' ready : fs !! f = Some (Some w) -> wait_poll t w r = Some (r', w', ready) ->
    rstep {| queues := r; waits := fs |}
          {| queues := r'; waits := <[f := if ready then None else Some w']> fs |}
| rs_drop r fs f w : fs !! f = Some (Some w) ->
    rstep {| queues := r; waits := fs |} {| queues := wait_drop w r; waits := <[f := None]> fs |}
| rs_push r fs node x r' b : routed_push node x r = Some (r', b) ->
    rstep {| queues := r; waits := fs |} {| queues := r'; waits := fs |}
| rs_pop r fs node r' x : routed_pop node r = Some (r', x) ->
    rstep {| queues := r; waits := fs |} {| queues := r'; waits := fs |}
| rs_close r fs : rstep {| queues := r; waits := fs |} {| queues := routed_close r; waits := fs |}.

Definition rreachable (connections : list Z) (pipeline_depth : Z) (s : System) : Prop :=
  rtc rstep {| queues := routed_new connections pipeline_depth; waits := [] |} s.

(** A live entry belongs to exactly one pending future, which waits on the
    node whose list holds the entry; every queue is within its bound. *)
Record rinv (s : System) : Prop := {
  ri_entry n q i : nodes (queues s) !! n = Some q -> i ∈ waiters q -> (i < length (wslots (queues s)))%nat;
  ri_nodup n q : nodes (queues s) !! n = Some q -> NoDup (waiters q);
  ri_slot f w i : waits s !! f = Some (Some w) -> wslot w = Some i -> (i < length (wslots (queues s)))%nat;
  ri_registered f w i q : waits s !! f = Some (Some w) -> wslot w = Some i ->
    is_live (wslots (queues s)) i = true -> nodes (queues s) !! wnode w = Some q -> i ∈ waiters q;
  ri_owned n q i : nodes (queues s) !! n = Some q -> i ∈ waiters q ->
    is_live (wslots (queues s)) i = true ->
    exists f w, waits s !! f = Some (Some w) /\ wslot w = Some i /\ wnode w = n;
  ri_unique f1 w1 f2 w2 i : waits s !! f1 = Some (Some w1) -> waits s !! f2 = Some (Some w2) ->
    wslot w1 = Some i -> wslot w2 = Some i -> f1 = f2;
  ri_cap n q : nodes (queues s) !! n = Some q -> Z.of_nat (length (requests q)) <= Z.max 0 (cap q);
  ri_closed n q : rclosed (queues s) = true -> nodes (queues s) !! n = Some q -> waiters q = [];
}.

(** ** Lemmas *)

Lemma is_live_kill i j ws : is_live (kill i ws) j = if decide (i = j) then false else is_live ws j.
Proof.
  unfold is_live, kill. rewrite list_lookup_alter. case_decide; [|done]. subst.
  by destruct (ws !! j).
Qed.

Lemma is_live_retask i j t ws :
  is_live (alter (fun s => s <| wtask := t |>) i ws) j = is_live ws j.
Proof.
  unfold is_live. rewrite list_lookup_alter. case_decide; [|done]. subst. by destruct (ws !! j).
Qed.

Lemma is_live_lt ws i : is_live ws i = true -> (i < length ws)%nat.
Proof. unfold is_live. destruct (ws !! i) eqn:E; [|done]. intros _. by eapply lookup_lt_Some. Qed.

Lemma is_live_snoc ws s i : (i < length ws)%nat -> is_live (ws ++ [s]) i = is_live ws i.
Proof. intros. unfold is_live. by rewrite lookup_app_l. Qed.

Lemma wake_first_spec ws log q ws' log' rest :
  wake_first ws log q = (ws', log', rest) ->
  exists dead, (forall j, j ∈ dead -> is_live ws j = false) /\
    ((q = dead /\ rest = [] /\ ws' = ws /\ log' = log) \/
     (exists i s, q = dead ++ i :: rest /\ ws !! i = Some s /\ live s = true /\
        ws' = kill i ws /\ log' = log ++ [wtask s])).
Proof.
  induction q as [|i q IH]; cbn; intros E.
  - injection E as <- <- <-. exists []. split; [by intros j ?%elem_of_nil|by left].
  - destruct (is_live ws i) eqn:L.
    + injection E as <- <- <-. exists []. split; [by intros j ?%elem_of_nil|right].
      unfold is_live in L. destruct (ws !! i) as [s|] eqn:Es; [|done]. by exists i, s.
    + destruct (IH E) as (dead & D & C). exists (i :: dead). split.
      * intros j [->|Hj]%elem_of_cons; [done|by apply D].
      * destruct C as [(-> & -> & -> & ->)|(k & s & -> & C)]; [by left|right]. by exists k, s.
Qed.

Lemma wake_all_spec q ws log ws' log' :
  wake_all ws log q = (ws', log') ->
  length ws' = length ws /\ (forall j, is_live ws' j = is_live ws j && negb (bool_decide (j ∈ q))) /\
  (forall t, t ∈ log -> t ∈ log') /\
  (forall i s, i ∈ q -> ws !! i = Some s -> live s = true -> wtask s ∈ log').
Proof.
  revert ws log. induction q as [|i q IH]; intros ws log; cbn.
  - intros [= <- <-]. split_and!; [done| |done|by intros i s ?%elem_of_nil].
    intros j. by rewrite bool_decide_false, andb_true_r by by intros ?%elem_of_nil.
  - destruct (is_live ws i) eqn:L; intros E; apply IH in E as (Hl & Hv & Hlog & Hw).
    + split_and!.
      * rewrite Hl. unfold kill. by rewrite length_alter.
      * intros j. rewrite Hv, is_live_kill. case_decide as D.
        -- subst. rewrite (bool_decide_true (j ∈ j :: q)) by by left. by rewrite andb_false_r.
        -- f_equal. f_equal. apply bool_decide_ext. rewrite elem_of_cons. naive_solver.
      * intros t Ht. apply Hlog, elem_of_app. by left.
      * intros k s Hk Hs Hlive. destruct (decide (k = i)) as [->|Hne].
        -- apply Hlog, elem_of_app. right. rewrite Hs. by left.
        -- apply elem_of_cons in Hk as [->|Hk]; [done|]. apply (Hw k); [done| |done].
           unfold kill. by rewrite list_lookup_alter_ne.
    + split_and!; [done| |done|].
      * intros j. rewrite Hv. destruct (decide (j = i)) as [->|Hne]; [by rewrite L|].
        f_equal. f_equal. apply bool_decide_ext. rewrite elem_of_cons. naive_solver.
      * intros k s [->|Hk]%elem_of_cons Hs Hlive; [|by apply (Hw k)].
        unfold is_live in L. rewrite Hs in L. congruence.
Qed.

Lemma close_spec ns ws log ws' log' :
  foldl (fun '(ws, log) q => wake_all ws log (waiters q)) (ws, log) ns = (ws', log') ->
  length ws' = length ws /\
  (forall j, is_live ws' j = true <-> is_live ws j = true /\ forall n q, ns !! n = Some q -> j ∉ waiters q) /\
  (forall t, t ∈ log -> t ∈ log') /\
  (forall n q i s, ns !! n = Some q -> i ∈ waiters q -> ws !! i = Some s -> live s = true ->
     (forall m q', ns !! m = Some q' -> i ∈ waiters q' -> m = n) -> wtask s ∈ log').
Proof.
  revert ws log. induction ns as [|q ns IH]; intros ws log; cbn.
  - intros [= <- <-]. split_and!; [done| |done|done]. intros j. split; [done|by intros []].
  - destruct (wake_all ws log (waiters q)) as [ws1 log1] eqn:E1. intros E.
    apply IH in E as (Hl & Hv & Hlog & Hw). pose proof (wake_all_spec _ _ _ _ _ E1) as (Kl & Kv & Klog & Kw).
    split_and!.
    + congruence.
    + intros j. rewrite Hv, Kv, andb_true_iff, negb_true_iff, bool_decide_eq_false. split.
      * intros [[L N] F]. split; [done|]. intros [|n] q' Hq; cbn in Hq; [by injection Hq as <-|by apply (F n)].
      * intros [L F]. split; [split; [done|by apply (F 0%nat)]|]. intros n q' Hq. by apply (F (S n)).
    + intros t Ht. by apply Hlog, Klog.
    + intros [|n] q' i s Hq Hi Hs Hlive U; cbn in Hq.
      * injection Hq as ->. by apply Hlog, (Kw i).
      * assert (i ∉ waiters q) as Ni by (intros Hiq; by specialize (U 0%nat q eq_refl Hiq)).
        assert (exists s', ws1 !! i = Some s' /\ wtask s' = wtask s /\ live s' = true) as (s' & Hs' & <- & Hl').
        { clear -E1 Ni Hs Hlive. revert ws log E1 Hs. induction (waiters q) as [|k l IHl]; intros ws log E1 Hs; cbn in E1.
          - injection E1 as <- <-. by exists s.
          - apply not_elem_of_cons in Ni as [Nk Nl]. destruct (is_live ws k).
            + apply (IHl Nl _ _ E1). unfold kill. by rewrite list_lookup_alter_ne.
            + by apply (IHl Nl _ _ E1). }
        apply (Hw n q' i s'); try done. intros m q'' Hq'' Hi''. specialize (U (S m) q'' Hq'' Hi''). lia.
Qed.

Lemma node_update_inv (ns : list NodeQueue) n q' m q :
  <[n := q']> ns !! m = Some q -> (m = n /\ q = q') \/ (m <> n /\ ns !! m = Some q).
Proof. intros [(<- & <- & _)|[? ?]]%list_lookup_insert_Some; [by left|by right]. Qed.

(** *** The invariant is kept by every step *)

Lemma rinv_new connections depth : rinv {| queues := routed_new connections depth; waits := [] |}.
Proof.
  assert (forall n q, nodes (routed_new connections depth) !! n = Some q ->
    waiters q = [] /\ requests q = []) as N.
  { cbn. intros n q Hq. apply list_lookup_fmap_Some in Hq as (c & -> & _). done. }
  constructor; cbn; try done.
  - intros n q i Hq. rewrite (proj1 (N n q Hq)). by intros ?%elem_of_nil.
  - intros n q Hq. rewrite (proj1 (N n q Hq)). constructor.
  - intros n q Hq. rewrite (proj2 (N n q Hq)). cbn. lia.
Qed.

Lemma rinv_wait r fs node :
  rinv {| queues := r; waits := fs |} ->
  rinv {| queues := r; waits := fs ++ [Some {| wnode := node; wslot := None |}] |}.
Proof.
  intros [E N S R O U C Cl]; cbn in *.
  assert (forall f w i, (fs ++ [Some {| wnode := node; wslot := None |}]) !! f = Some (Some w) ->
    wslot w = Some i -> fs !! f = Some (Some w)) as L.
  { intros f w i Hf Hi. apply lookup_app_Some in Hf as [?|[_ Hf]]; [done|].
    apply list_lookup_singleton_Some in Hf as [_ [= <-]]. done. }
  constructor; cbn; try done.
  - eauto.
  - eauto.
  - intros n q i Hq Hi Hl. destruct (O n q i Hq Hi Hl) as (f & w & Hf & ?).
    exists f, w. split; [by apply lookup_app_l_Some|done].
  - intros f1 w1 f2 w2 i H1 H2 S1 S2. eauto.
Qed.

(** Retiring the future [f], whose entry is killed. *)
Lemma rinv_retire r fs f w ws :
  rinv {| queues := r; waits := fs |} -> fs !! f = Some (Some w) ->
  ws = match wslot w with Some i => kill i (wslots r) | None => wslots r end ->
  rinv {| queues := r <| wslots := ws |>; waits := <[f := None]> fs |}.
Proof.
  intros [E N S R O U C Cl] Hf Ew; cbn in *.
  assert (length ws = length (wslots r)) as Lw.
  { subst ws. destruct (wslot w); [|done]. unfold kill. by rewrite length_alter. }
  assert (forall i, is_live ws i = true -> is_live (wslots r) i = true /\ wslot w <> Some i) as Lv.
  { intros i. subst ws. destruct (wslot w) as [k|]; [|done]. rewrite is_live_kill.
    case_decide; [done|]. intros. split; [done|congruence]. }
  assert (forall f' w', <[f := None]> fs !! f' = Some (Some w') -> f' <> f /\ fs !! f' = Some (Some w')) as Lf.
  { intros f' w' [(<- & ? & _)|[? ?]]%list_lookup_insert_Some; done. }
  constructor; cbn; try done.
  - intros n q i Hq Hi. rewrite Lw. by eapply E.
  - intros f' w' i [_ H']%Lf Hi. rewrite Lw. by eapply S.
  - intros f' w' i q [_ H']%Lf Hi [Hl _]%Lv Hq. by eapply R.
  - intros n q i Hq Hi [Hl Hn]%Lv. destruct (O n q i Hq Hi Hl) as (f' & w' & Hf' & Hs & Hw).
    exists f', w'. split; [|done]. rewrite list_lookup_insert_ne; [done|]. congruence.
  - intros f1 w1 f2 w2 i [_ H1]%Lf [_ H2]%Lf. by eapply U.
Qed.

(** Changing one node's request list within its bound. *)
Lemma rinv_requests r fs n q xs :
  rinv {| queues := r; waits := fs |} -> nodes r !! n = Some q ->
  Z.of_nat (length xs) <= Z.max 0 (cap q) ->
  rinv {| queues := r <| nodes := <[n := q <| requests := xs |>]> (nodes r) |>; waits := fs |}.
Proof.
  intros [E N S R O U C Cl] Hq Hc; cbn in *.
  assert (forall m q', <[n := q <| requests := xs |>]> (nodes r) !! m = Some q' ->
    exists q0, nodes r !! m = Some q0 /\ waiters q' = waiters q0) as L.
  { intros m q' [[-> ->]|[_ ?]]%node_update_inv; [by exists q|by exists q']. }
  constructor; cbn; try done.
  - intros m q' i (q0 & H0 & ->)%L. by eapply E.
  - intros m q' (q0 & H0 & ->)%L. by eapply N.
  - intros f w i q' Hf Hi Hl (q0 & H0 & ->)%L. by eapply R.
  - intros m q' i (q0 & H0 & ->)%L. by eapply O.
  - intros m q' [[-> ->]|[_ ?]]%node_update_inv; cbn; [done|by eapply C].
  - intros m q' Hr (q0 & H0 & ->)%L. by eapply Cl.
Qed.

(** Dropping dead entries and the first live one from a node's list. *)
Lemma rinv_wake r fs n q rest ws log log' :
  rinv {| queues := r; waits := fs |} -> nodes r !! n = Some q ->
  wake_first (wslots r) log (waiters q) = (ws, log', rest) ->
  rinv {| queues := r <| nodes := <[n := q <| waiters := rest |>]> (nodes r) |>
                     <| wslots := ws |> <| rwoken := log' |>; waits := fs |}.
Proof.
  intros [E N S R O U C Cl] Hq Ew; cbn in *.
  destruct (wake_first_spec _ _ _ _ _ _ Ew) as (dead & D & K).
  assert (exists mid, waiters q = dead ++ mid ++ rest /\ length ws = length (wslots r) /\
    (forall j, is_live ws j = true -> is_live (wslots r) j = true /\ j ∉ mid)) as (mid & Eq & Lw & Lv).
  { destruct K as [(-> & -> & -> & _)|(i & s & -> & Hs & Hl & -> & _)].
    - exists []. rewrite app_nil_r. split_and!; [done|done|]. intros j Hj. split; [done|by intros ?%elem_of_nil].
    - exists [i]. split_and!; [done|unfold kill; by rewrite length_alter|].
      intros j. rewrite is_live_kill. case_decide; [done|]. intros Hj.
      split; [done|]. intros ->%list_elem_of_singleton. done. }
  assert (forall i, i ∈ rest -> i ∈ waiters q) as Sub
    by (intros i Hi; rewrite Eq, !elem_of_app; by right; right).
  constructor; cbn; try done.
  - intros m q' i [[-> ->]|[_ Hm]]%node_update_inv; cbn; rewrite Lw; [intros ?%Sub|]; by eapply E.
  - intros m q' [[-> ->]|[_ Hm]]%node_update_inv; cbn; [|by eapply N].
    specialize (N n q Hq). rewrite Eq in N. apply NoDup_app in N as (_ & _ & N).
    by apply NoDup_app in N as (_ & _ & N).
  - intros f w i Hf Hi. rewrite Lw. by eapply S.
  - intros f w i q' Hf Hi [Hl Hm]%Lv [[<- ->]|[_ Hn]]%node_update_inv; cbn; [|by eapply R].
    pose proof (R f w i q Hf Hi Hl Hq) as X. rewrite Eq, !elem_of_app in X.
    destruct X as [X|[X|X]]; [|done|done]. rewrite (D i X) in Hl. done.
  - intros m q' i [[-> ->]|[_ Hm]]%node_update_inv; cbn.
    + intros Hi%Sub [Hl _]%Lv. by eapply O.
    + intros Hi [Hl _]%Lv. by eapply O.
  - intros m q' [[-> ->]|[_ Hm]]%node_update_inv; cbn; by eapply C.
  - intros m q' Hr [[-> ->]|[_ Hm]]%node_update_inv; cbn; [|by eapply Cl].
    specialize (Cl n q Hr Hq). rewrite Eq in Cl. by apply app_eq_nil in Cl as [_ [_ ->]%app_eq_nil].
Qed.

(** A new entry for a future without a live one. *)
Lemma rinv_register t r fs f w q r' w' :
  rinv {| queues := r; waits := fs |} -> fs !! f = Some (Some w) -> nodes r !! wnode w = Some q ->
  rclosed r = false -> (forall i, wslot w = Some i -> is_live (wslots r) i = false) ->
  register t w q r = (r', w') -> rinv {| queues := r'; waits := <[f := Some w']> fs |}.
Proof.
  intros [E N S R O U C Cl] Hf Hq Hcl Hdead [= <- <-]; cbn in *.
  set (kept := if _ <=? _ then _ else _). set (new := length (wslots r)).
  assert (forall i, i ∈ kept -> i ∈ waiters q) as Sub.
  { intros i. subst kept. case_match; [|done]. by intros [_ ?]%list_elem_of_filter. }
  assert (forall i, i ∈ waiters q -> is_live (wslots r) i = true -> i ∈ kept) as Keep.
  { intros i Hi Hl. subst kept. case_match; [|done]. by apply list_elem_of_filter. }
  assert (NoDup kept) as Nk by (subst kept; case_match; [apply NoDup_filter|]; by eapply N).
  assert (forall i, (i < new)%nat -> is_live (wslots r ++ [{| live := true; wtask := t |}]) i = is_live (wslots r) i)
    as Lold by (intros; by apply is_live_snoc).
  assert (forall f' w', <[f := Some (w <| wslot := Some new |>)]> fs !! f' = Some (Some w') ->
    (f' = f /\ w' = w <| wslot := Some new |>) \/ (f' <> f /\ fs !! f' = Some (Some w'))) as Lf.
  { intros f' w' [(<- & [= <-] & _)|[? ?]]%list_lookup_insert_Some; [by left|by right]. }
  constructor; cbn; try done.
  - intros m q' i [[-> ->]|[_ Hm]]%node_update_inv; cbn; rewrite length_app; cbn.
    + intros [Hi%Sub|Hi%list_elem_of_singleton]%elem_of_app; [specialize (E _ _ i Hq Hi); lia|subst i; unfold new; lia].
    + intros Hi. specialize (E _ _ i Hm Hi). lia.
  - intros m q' [[-> ->]|[_ Hm]]%node_update_inv; cbn; [|by eapply N].
    apply NoDup_app. split_and!; [done| |apply NoDup_singleton].
    intros i Hi%Sub Hn%list_elem_of_singleton. specialize (E _ _ i Hq Hi). subst i. unfold new in *. lia.
  - intros f' w' i [[-> ->]|[_ H']]%Lf; cbn; rewrite length_app; cbn.
    + intros [= <-]. unfold new. lia.
    + intros Hi. specialize (S _ _ i H' Hi). lia.
  - intros f' w' i q' [[-> ->]|[Hne H']]%Lf; cbn.
    + intros [= <-] _. rewrite list_lookup_insert_eq by (by eapply lookup_lt_Some).
      intros [= <-]. cbn. apply elem_of_app. right. by left.
    + intros Hi Hl. rewrite Lold in Hl by (by eapply S).
      intros [[Hw ->]|[_ Hn]]%node_update_inv; cbn; [|by eapply R].
      apply elem_of_app. left. apply Keep; [|done]. eapply R; [done|done|done|by rewrite Hw].
  - intros m q' i Hm Hi Hl.
    assert ((i = new /\ m = wnode w) \/ ((i < new)%nat /\ exists q0, nodes r !! m = Some q0 /\ i ∈ waiters q0))
      as [[-> ->]|(Hlt & q0 & H0 & Hi0)].
    { apply node_update_inv in Hm as [[-> ->]|[Hne Hm]]; cbn in Hi.
      - apply elem_of_app in Hi as [Hi%Sub|Hi%list_elem_of_singleton]; [right|by left].
        split; [by eapply E|]. by exists q.
      - right. split; [by eapply E|]. by exists q'. }
    + exists f, (w <| wslot := Some new |>). split_and!; [|done|done].
      rewrite list_lookup_insert_eq; [done|]. by eapply lookup_lt_Some.
    + rewrite Lold in Hl by done. destruct (O m q0 i H0 Hi0 Hl) as (f' & w' & Hf' & Hs & Hw).
      exists f', w'. split; [|done]. rewrite list_lookup_insert_ne; [done|]. intros ->.
      rewrite Hf' in Hf. injection Hf as ->. rewrite (Hdead i Hs) in Hl. done.
  - intros f1 w1 f2 w2 i [[-> ->]|[N1 H1]]%Lf [[-> ->]|[N2 H2]]%Lf; cbn; try done.
    + intros [= <-] Hi. specialize (S _ _ _ H2 Hi). unfold new in *. lia.
    + intros Hi [= <-]. specialize (S _ _ _ H1 Hi). unfold new in *. lia.
    + by eapply U.
  - intros m q' [[-> ->]|[_ Hm]]%node_update_inv; cbn; by eapply C.
  - congruence.
Qed.

Lemma rinv_retask r fs i t :
  rinv {| queues := r; waits := fs |} ->
  rinv {| queues := r <| wslots := alter (fun s => s <| wtask := t |>) i (wslots r) |>; waits := fs |}.
Proof.
  intros [E N S R O U C Cl]; cbn in *. constructor; cbn; try done.
  - intros n q j Hq Hj. rewrite length_alter. by eapply E.
  - intros f w j Hf Hj. rewrite length_alter. by eapply S.
  - intros f w j q Hf Hj. rewrite is_live_retask. by eapply R.
  - intros n q j Hq Hj. rewrite is_live_retask. by eapply O.
Qed.

Lemma rinv_close r fs :
  rinv {| queues := r; waits := fs |} -> rinv {| queues := routed_close r; waits := fs |}.
Proof.
  intros [E N S R O U C Cl]; cbn in *. unfold routed_close.
  destruct (foldl _ _ _) as [ws log] eqn:F.
  destruct (close_spec _ _ _ _ _ F) as (Lw & Lv & _).
  assert (forall m q', map (fun q => q <| waiters := [] |>) (nodes r) !! m = Some q' ->
    waiters q' = [] /\ exists q, nodes r !! m = Some q /\ requests q' = requests q /\ cap q' = cap q) as L.
  { intros m q' Hm. apply list_lookup_fmap_Some in Hm as (q & -> & Hq). split; [done|]. by exists q. }
  constructor; cbn.
  - intros n q i [-> _]%L. by intros ?%elem_of_nil.
  - intros n q [-> _]%L. constructor.
  - intros f w i Hf Hi. rewrite Lw. by eapply S.
  - intros f w i q Hf Hi [Hl Hn]%Lv (_ & q0 & H0 & _)%L. destruct (Hn _ q0 H0). by eapply R.
  - intros n q i [-> _]%L. by intros ?%elem_of_nil.
  - done.
  - intros n q (_ & q0 & H0 & -> & ->)%L. by eapply C.
  - by intros n q _ [-> _]%L.
Qed.

Lemma rinv_step s s' : rstep s s' -> rinv s -> rinv s'.
Proof.
  intros T I. destruct T as [r fs node _|r fs f w t r' w' ready Hf Hp|r fs f w Hf|r fs node x r' b Hp|r fs node r' x Hp|r fs].
  - by apply rinv_wait.
  - unfold wait_poll in Hp. destruct (nodes r !! wnode w) as [q|] eqn:Hq; [|done]; cbn in Hp.
    destruct (rclosed r || _) eqn:Hc; [injection Hp as <- <- <-; by eapply rinv_retire|].
    apply orb_false_iff in Hc as [Hc _].
    assert (forall r' w', register t w q r = (r', w') ->
      (forall i, wslot w = Some i -> is_live (wslots r) i = false) ->
      rinv {| queues := r'; waits := <[f := Some w']> fs |}) as Reg
      by (intros ? ? Hr Hd; eapply rinv_register; done).
    destruct (wslot w) as [i|] eqn:Hs; [destruct (is_live (wslots r) i) eqn:Hl|];
      injection Hp as <- <- <- || (destruct (register t w q r) as [r1 w1] eqn:Er; injection Hp as <- <- <-).
    + rewrite list_insert_id by done. by apply rinv_retask.
    + apply (Reg _ _ eq_refl). by intros ? [= <-].
    + by apply (Reg _ _ eq_refl).
  - unfold wait_drop. destruct (wslot w) as [i|] eqn:Hs.
    + eapply rinv_retire; [done|done|by rewrite Hs].
    + pose proof (rinv_retire r fs f w (wslots r) I Hf ltac:(by rewrite Hs)) as X. by destruct r.
  - unfold routed_push in Hp. destruct (nodes r !! node) as [q|] eqn:Hq; [|done]; cbn in Hp.
    destruct (cap q <=? Z.of_nat (length (requests q))) eqn:Hc; [by injection Hp as <- _|].
    destruct (wake_first (wslots r) (rwoken r) (waiters q)) as [[ws log] rest] eqn:Ew.
    injection Hp as <- <-. pose proof (rinv_wake _ _ _ _ _ _ _ _ I Hq Ew) as J.
    apply (rinv_requests _ _ node (q <| waiters := rest |>) (requests q ++ [x])) in J; cbn.
    + cbn in J. by rewrite list_insert_insert_eq in J.
    + apply list_lookup_insert_eq. by eapply lookup_lt_Some.
    + rewrite length_app. cbn. lia.
  - unfold routed_pop in Hp. destruct (nodes r !! node) as [q|] eqn:Hq; [|done]; cbn in Hp.
    destruct (requests q) as [|y ys] eqn:Hr; injection Hp as <- <-; [done|].
    apply rinv_requests; [done|done|]. pose proof (ri_cap _ I _ _ Hq) as C. cbn in C. rewrite Hr in C. cbn in C. lia.
  - by apply rinv_close.
Qed.

Lemma rinv_reachable connections depth s : rreachable connections depth s -> rinv s.
Proof.
  intros R. assert (forall x y, rtc rstep x y -> rinv x -> rinv y) as P.
  { induction 1 as [|x y z T _ IH]; [done|]. intros I. by eapply IH, rinv_step. }
  eapply P; [exact R|apply rinv_new].
Qed.

Lemma sumZ_insert {A} (f : A -> Z) l n x y :
  l !! n = Some x -> sumZ (map f (<[n := y]> l)) = sumZ (map f l) - f x + f y.
Proof.
  revert n. induction l as [|a l IH]; intros [|n] E; [done|done| |].
  - cbn in E. injection E as ->. cbn. lia.
  - change (<[S n:=y]> (a :: l)) with (a :: <[n:=y]> l). cbn [map sumZ]. rewrite (IH n E). lia.
Qed.

(** A push adds one request to its node, or changes nothing when full. *)
Lemma routed_push_spec node x r :
  (node < length (nodes r))%nat ->
  exists r' b, routed_push node x r = Some (r', b) /\
    total_queued r' = total_queued r + (if b then 1 else 0) /\ length (nodes r') = length (nodes r) /\
    rclosed r' = rclosed r /\
    (forall n q, nodes r !! n = Some q ->
       exists q', nodes r' !! n = Some q' /\
         requests q' = requests q ++ (if (b && bool_decide (n = node)) then [x] else [])) /\
    (b = false -> r' = r).
Proof.
  intros L. destruct (lookup_lt_is_Some_2 _ _ L) as [q Hq]. unfold routed_push. rewrite Hq.
  cbn [mbind option_bind]. destruct (cap q <=? _).
  - exists r, false. split_and!; [done|lia|done|done| |done].
    intros n q' Hn. exists q'. by rewrite app_nil_r.
  - destruct (wake_first _ _ _) as [[ws log] rest]. eexists _, true. split_and!; [done| | |done| |done].
    + unfold total_queued. cbn. rewrite (sumZ_insert _ _ _ q) by done. cbn. rewrite length_app. cbn. lia.
    + cbn. by rewrite length_insert.
    + cbn. intros n q' Hn. destruct (decide (n = node)) as [->|Hne].
      * rewrite list_lookup_insert_eq by done. rewrite bool_decide_true by done.
        rewrite Hq in Hn. injection Hn as <-. eexists. by split.
      * rewrite list_lookup_insert_ne by done. rewrite bool_decide_false by done.
        exists q'. by rewrite app_nil_r.
Qed.

(** Every request the loop funds is queued or counted as dropped. *)
Lemma mint_spec `{RatelimiterLaws} `{RngLaws} `{HashingLaws} env dist slip now fa n k s :
  rl_rate (inner (m_limiter s)) <> 0 -> SUB <= rl_max_tokens (inner (m_limiter s)) ->
  dist_ok dist -> env_ok env -> Z.of_nat (length (nodes (m_queues s))) = re_endpoints env ->
  exists s' nap funded dropped, mint env dist slip (fun _ => now) fa n k s = Some (s', nap) /\
    (funded <= n)%nat /\ (nap = None <-> funded = n) /\
    rl_held now (inner (m_limiter s')) = rl_held now (inner (m_limiter s)) - Z.of_nat funded * SUB /\
    total_queued (m_queues s') + Z.of_nat dropped = total_queued (m_queues s) + Z.of_nat funded /\
    counted ROUTED_QUEUE_DROPPED (m_log s') = counted ROUTED_QUEUE_DROPPED (m_log s) + Z.of_nat dropped /\
    samples SCHEDULE_SLIP (m_log s') = samples SCHEDULE_SLIP (m_log s) ++ replicate funded slip.
Proof.
  intros Hr Hm Hd He Hn. revert k s Hr Hm Hn. induction n as [|n IH]; intros k s Hr Hm Hn; cbn [mint].
  - exists s, None, 0%nat, 0%nat. cbn. rewrite app_nil_r. split_and!; try done; lia.
  - unfold limiter_try_wait, limiter_try_wait_n. assert (sat_mul 1 SUB = SUB) as -> by done.
    pose proof (rl_held_range now (inner (m_limiter s)) ltac:(unfold SUB in *; lia)) as HR.
    destruct (decide (SUB <= rl_held now (inner (m_limiter s)))) as [Hf|Hf].
    + destruct (rl_take_ok now SUB (inner (m_limiter s)) Hr) as (b & -> & (P1 & P2 & P3) & Hb); [unfold SUB in *; lia|].
      set (s0 := s <| m_limiter := _ |>).
      change (m_rng s0) with (m_rng s). change (m_queues s0) with (m_queues s).
      change (m_log s0) with (m_log s).
      destruct (sample_total dist (m_rng s) Hd) as (g & key & ->). cbn [mbind option_bind].
      assert (exists node, (if 1 <? re_endpoints env then route_id env key else Some 0) = Some node /\
        0 <= node < re_endpoints env) as (node & -> & Rn).
      { destruct (1 <? re_endpoints env); [by apply route_id_ok|]. exists 0. destruct He. split; [done|lia]. }
      cbn [mbind option_bind].
      destruct (routed_push_spec (Z.to_nat node) {| key_id := key; funded_at := fa |} (m_queues s))
        as (r & pushed & -> & Tq & Ln & _); [lia|]. cbn [mbind option_bind].
      match goal with |- context [mint _ _ _ _ _ _ _ ?st] => set (s1 := st) end.
      destruct (IH (Datatypes.S k) s1) as (s' & nap & fu & dr & -> & Lf & Nf & Hh & Ht & Hc & Hs); subst s1; cbn in *.
      * congruence.
      * lia.
      * congruence.
      * exists s', nap, (Datatypes.S fu), (if pushed then dr else Datatypes.S dr).
        split_and!; [done|lia|rewrite Nf; lia|lia|destruct pushed; lia| |].
        -- rewrite Hc, counted_app. destruct pushed; cbn [app counted]; [lia|].
           rewrite decide_True by done. lia.
        -- rewrite Hs, samples_app. cbn [app]. rewrite samples_same. by destruct pushed; cbn; rewrite <- app_assoc.
    + destruct (rl_take_short now SUB (inner (m_limiter s)) Hr) as (b & d & -> & _ & _ & Hb); [lia|].
      eexists _, (Some d), 0%nat, 0%nat. cbn. rewrite app_nil_r.
      split_and!; [done|lia|split; [done|lia]|cbn; lia|cbn; lia|cbn; lia|done].
Qed.

(** ** Properties *)

(** C30: a push wakes a task that is really waiting: when it succeeds and the
    node has a live entry, exactly the longest-waiting live one is woken, and
    it belongs to a pending wait on that node; entries whose wait returned or
    was dropped never absorb the wake. *)
Theorem push_wakes_longest_waiting connections depth s node x r' :
  rreachable connections depth s -> routed_push node x (queues s) = Some (r', true) ->
  exists q dead rest, nodes (queues s) !! node = Some q /\
    (forall j, j ∈ dead -> is_live (wslots (queues s)) j = false) /\
    ((waiters q = dead /\ rwoken r' = rwoken (queues s)) \/
     (exists i f w e, waiters q = dead ++ i :: rest /\
        wslots (queues s) !! i = Some e /\ live e = true /\
        rwoken r' = rwoken (queues s) ++ [wtask e] /\ is_live (wslots r') i = false /\
        waits s !! f = Some (Some w) /\ wslot w = Some i /\ wnode w = node)).
Proof.
  intros R%rinv_reachable E. unfold routed_push in E.
  destruct (nodes (queues s) !! node) as [q|] eqn:Hq; [|done]; cbn in E.
  destruct (cap q <=? _); [done|].
  destruct (wake_first _ _ _) as [[ws log] rest] eqn:Ew. injection E as <-.
  destruct (wake_first_spec _ _ _ _ _ _ Ew) as (dead & D & K).
  exists q, dead, rest. split_and!; [done|done|].
  destruct K as [(-> & _ & _ & ->)|(i & e & Eq & Hs & Hl & -> & ->)]; [by left|right].
  assert (is_live (wslots (queues s)) i = true) as Li by (unfold is_live; by rewrite Hs).
  assert (i ∈ waiters q) as Hi by (rewrite Eq; apply elem_of_app; right; by left).
  destruct (ri_owned _ R node q i Hq Hi Li) as (f & w & Hf & Hw & Hn).
  exists i, f, w, e. split_and!; try done. cbn. by rewrite is_live_kill, decide_True.
Qed.

(** No routed wait is lost: in every reachable system a wait that is
    pending has either a live entry in its node's list, so the next push or
    close can wake it, or an entry a push or close has already woken; after the
    dispatcher closes no entry is live, and a poll then returns at once. *)
Theorem routed_wait_registered connections depth s f w i q :
  rreachable connections depth s -> waits s !! f = Some (Some w) -> wslot w = Some i ->
  nodes (queues s) !! wnode w = Some q ->
  (is_live (wslots (queues s)) i = true -> i ∈ waiters q /\ NoDup (waiters q)) /\
  (rclosed (queues s) = true -> is_live (wslots (queues s)) i = false) /\
  (rclosed (queues s) = true \/ requests q <> [] ->
     forall t, exists r' w', wait_poll t w (queues s) = Some (r', w', true)).
Proof.
  intros R%rinv_reachable Hf Hi Hq. split_and!.
  - intros Hl. split; [by eapply (ri_registered _ R)|by eapply (ri_nodup _ R)].
  - intros Hc. destruct (is_live (wslots (queues s)) i) eqn:Hl; [|done].
    pose proof (ri_registered _ R f w i q Hf Hi Hl Hq) as X.
    rewrite (ri_closed _ R _ _ Hc Hq) in X. by apply elem_of_nil in X.
  - intros Hr t. unfold wait_poll. rewrite Hq. cbn [mbind option_bind].
    assert (rclosed (queues s) || negb (bool_decide (length (requests q) = 0%nat)) = true) as ->; [|eauto].
    destruct Hr as [->|Hr]; [done|]. rewrite bool_decide_false; [by rewrite orb_true_r|].
    by intros ?%nil_length_inv.
Qed.

(** The queues are bounded and first in, first out: in every reachable
    system a node holds at most its cap, a push on a full node changes nothing,
    a push on any other appends, and a pop takes the oldest request. *)
Theorem routed_queue_fifo connections depth s node q x :
  rreachable connections depth s -> nodes (queues s) !! node = Some q ->
  Z.of_nat (length (requests q)) <= Z.max 0 (cap q) /\
  (cap q <= Z.of_nat (length (requests q)) -> routed_push node x (queues s) = Some (queues s, false)) /\
  (Z.of_nat (length (requests q)) < cap q ->
     exists r' q', routed_push node x (queues s) = Some (r', true) /\ nodes r' !! node = Some q' /\
       requests q' = requests q ++ [x]) /\
  (forall y ys, requests q = y :: ys ->
     exists r' q', routed_pop node (queues s) = Some (r', Some y) /\ nodes r' !! node = Some q' /\
       requests q' = ys).
Proof.
  intros R%rinv_reachable Hq. split_and!; [by eapply (ri_cap _ R)| | |].
  - intros Hc. unfold routed_push. rewrite Hq. cbn [mbind option_bind].
    by rewrite (proj2 (Z.leb_le _ _)).
  - intros Hc. unfold routed_push. rewrite Hq. cbn [mbind option_bind].
    rewrite (proj2 (Z.leb_gt _ _)) by done. destruct (wake_first _ _ _) as [[ws log] rest].
    eexists _, _. split_and!; [done| |]; cbn.
    + apply list_lookup_insert_eq. by eapply lookup_lt_Some.
    + done.
  - intros y ys Hr. unfold routed_pop. rewrite Hq. cbn [mbind option_bind]. rewrite Hr.
    eexists _, _. split_and!; [done| |]; cbn.
    + apply list_lookup_insert_eq. by eapply lookup_lt_Some.
    + done.
Qed.

(** The routed dispatcher spends one token per request and loses none: in
    an iteration every token it takes funds a request that is then queued for
    its key's node or counted in routed_queue_dropped, with one schedule-slip
    sample each; it sleeps when the limiter ran dry and otherwise has funded a
    full batch. *)
Theorem routed_mint_conserves `{RatelimiterLaws} `{RngLaws} `{HashingLaws} env dist now s :
  rl_rate (inner (m_limiter s)) <> 0 -> SUB <= rl_max_tokens (inner (m_limiter s)) ->
  dist_ok dist -> env_ok env -> Z.of_nat (length (nodes (m_queues s))) = re_endpoints env ->
  exists s' wait funded dropped,
    routed_dispatcher_step env dist false true (fun _ => now) s = Some (s', wait) /\
    (funded <= ROUTED_MINT_BATCH)%nat /\ (wait = RYield <-> funded = ROUTED_MINT_BATCH) /\
    rl_held now (inner (m_limiter s')) = rl_held now (inner (m_limiter s)) - Z.of_nat funded * SUB /\
    total_queued (m_queues s') + Z.of_nat dropped = total_queued (m_queues s) + Z.of_nat funded /\
    counted ROUTED_QUEUE_DROPPED (m_log s') = counted ROUTED_QUEUE_DROPPED (m_log s) + Z.of_nat dropped /\
    length (samples SCHEDULE_SLIP (m_log s')) = (length (samples SCHEDULE_SLIP (m_log s)) + funded)%nat.
Proof.
  intros Hr Hm Hd He Hn. unfold routed_dispatcher_step.
  set (s1 := s <| m_slip := set_worker_slip_ns (slip_ns now (m_limiter s)) (m_slip s) |>).
  destruct (mint_spec env dist (slip_ns now (m_limiter s)) now now ROUTED_MINT_BATCH 0 s1 Hr Hm Hd He Hn)
    as (s' & nap & fu & dr & -> & L & N & Hh & Ht & Hc & Hs).
  cbn [mbind option_bind negb]. eexists _, _, fu, dr. split_and!; [done|done| |done|done|done|].
  - destruct nap as [d|]; split; intros E.
    + discriminate E.
    + apply N in E. discriminate E.
    + by apply N.
    + done.
  - by rewrite Hs, length_app, length_replicate.
Qed.

(** *** Witnesses *)

(** Two nodes, one connection each, depth 1; a wait on node 0, polled by task
    5, and another by task 6 that was then dropped. *)
Definition example_queues : RoutedQueues := routed_new [1; 1] 1.

Definition example_system : System :=
  let r1 := match wait_poll 5 {| wnode := 0; wslot := None |} example_queues with
            | Some (r, _, _) => r | None => example_queues end in
  let r2 := match wait_poll 6 {| wnode := 0; wslot := None |} r1 with
            | Some (r, _, _) => r | None => example_queues end in
  {| queues := wait_drop {| wnode := 0; wslot := Some 1%nat |} r2;
     waits := [Some {| wnode := 0; wslot := Some 0%nat |}; None] |}.

Lemma example_system_reachable : rreachable [1; 1] 1 example_system.
Proof.
  unfold rreachable. eapply rtc_l; [apply (rs_wait _ _ 0); cbn; lia|].
  eapply rtc_l; [eapply (rs_poll _ _ 0 _ 5); [reflexivity|vm_compute; reflexivity]|].
  eapply rtc_l; [apply (rs_wait _ _ 0); cbn; lia|].
  eapply rtc_l; [eapply (rs_poll _ _ 1 _ 6); [reflexivity|vm_compute; reflexivity]|].
  eapply rtc_l; [eapply (rs_drop _ _ 1); reflexivity|].
  vm_compute. apply rtc_refl.
Qed.

Definition example_request : RoutedRequest := {| key_id := 9; funded_at := 100 |}.

Definition example_pushed : RoutedQueues :=
  match routed_push 0 example_request (queues example_system) with
  | Some (r, _) => r | None => example_queues end.

Lemma push_wakes_longest_waiting_witness :
  rwoken example_pushed = [5%nat] /\
  exists q, nodes (queues example_system) !! 0%nat = Some q /\ waiters q = [0; 1]%nat.
Proof.
  split; [by vm_compute|].
  destruct (push_wakes_longest_waiting [1; 1] 1 example_system 0 example_request example_pushed
    example_system_reachable ltac:(by vm_compute)) as (q & dead & rest & E & _).
  exists q. split; [exact E|]. vm_compute in E. injection E as <-. reflexivity.
Defined.

Lemma routed_wait_registered_witness : 0%nat ∈ [0; 1]%nat.
Proof.
  destruct (routed_wait_registered [1; 1] 1 example_system 0 {| wnode := 0; wslot := Some 0%nat |} 0
    {| requests := []; cap := 16; waiters := [0; 1]%nat; waiters_cap := 18 |} example_system_reachable
    ltac:(by vm_compute) ltac:(by vm_compute) ltac:(by vm_compute)) as [R _].
  apply R. by vm_compute.
Defined.

Lemma routed_queue_fifo_witness :
  exists r' q', routed_push 0 example_request (queues example_system) = Some (r', true) /\
    nodes r' !! 0%nat = Some q' /\ requests q' = [example_request].
Proof.
  destruct (routed_queue_fifo [1; 1] 1 example_system 0
    {| requests := []; cap := 16; waiters := [0; 1]%nat; waiters_cap := 18 |} example_request
    example_system_reachable ltac:(by vm_compute)) as (_ & _ & P & _).
  apply P. by vm_compute.
Defined.

Definition example_env : @RouteEnv example_hashing :=
  {| re_format := Hex; re_key_len := 8%nat; re_ring := ["a"; "b"]%string : @ring example_hashing;
     re_slots := None; re_endpoints := 2 |}.

Definition example_mint : @MintState simple_ratelimiter counting_rng :=
  {| m_limiter := five_requests; m_queues := example_queues; m_rng := 0 : @rng counting_rng;
     m_slip := new_slip; m_log := [] |}.

Lemma example_env_ok : @env_ok example_hashing example_env.
Proof.
  split; [by vm_compute|]. split; [exact I|]. intros k.
  exact (@ring_route_range example_hashing example_hashing_laws ["a"; "b"]%string k ltac:(done)).
Qed.

Lemma routed_mint_conserves_witness :
  exists s' wait funded dropped,
    @routed_dispatcher_step simple_ratelimiter counting_rng example_hashing example_env (KUniform 10)
      false true (fun _ => 0) example_mint = Some (s', wait) /\
    total_queued (m_queues s') + Z.of_nat dropped = Z.of_nat funded.
Proof.
  destruct (@routed_mint_conserves simple_ratelimiter simple_ratelimiter_laws counting_rng counting_rng_laws
    example_hashing example_hashing_laws example_env (KUniform 10) 0 example_mint)
    as (s' & w & fu & dr & E & _ & _ & _ & T & _);
    [by vm_compute|by vm_compute|cbn; unfold u64_max; lia|exact example_env_ok|by vm_compute|].
  exists s', w, fu, dr. split; [exact E|exact T].
Defined.
