(* ===== verification/Reply.v ===== *)
(** Reply: how a completed operation becomes a [RequestResult], what is
    recorded for it, and cluster redirects ([src/src/client/mod.rs],
    [src/src/worker.rs]).

    The protocol clients are third-party (ringline-redis, ringline-memcache):
    their completed operations are data here.  Parsing a socket address is the
    standard library's [FromStr]: the class [AddrParse], with the law that it
    reads back what [Display] writes. *)

From Stdlib Require Import Ascii.
From S2P Require Import Prelude F64 Config Keys Metrics.
Open Scope Z_scope.

(** ** Request results *)

Inductive RequestType := Get | Set_ | PingT | Delete | Other.

#[export] Instance RequestType_eq_dec : EqDecision RequestType.
Proof. solve_decision. Defined.

Inductive RedirectKind := Moved | Ask.

#[export] Instance RedirectKind_eq_dec : EqDecision RedirectKind.
Proof. solve_decision. Defined.

Record Redirect := { kind : RedirectKind; slot : Z; address : string }.

Record RequestResult := {
  id : Z;
  success : bool;
  is_error_response : bool;
  latency_ns : Z;
  ttfb_ns : option Z;
  request_type : RequestType;
  hit : option bool;
  rkey_id : option Z;
  backfill : bool;
  prefill : bool;
  append : bool;
  redirect : option Redirect;
}.

(** ** User-data markers *)

Definition BACKFILL_MARKER : Z := Z.shiftl 1 63.

Definition PREFILL_MARKER : Z := Z.shiftl 1 62.

Definition APPEND_MARKER : Z := Z.shiftl 1 61.

(** [!(BACKFILL | PREFILL | APPEND)] on 64 bits. *)
Definition USER_DATA_ID_MASK : Z :=
  Z.lxor u64_max (Z.lor (Z.lor BACKFILL_MARKER PREFILL_MARKER) APPEND_MARKER).

Definition has_marker (ud m : Z) : bool := negb (Z.land ud m =? 0).

Definition id_of (ud : Z) : Z := Z.land ud USER_DATA_ID_MASK.

(** ** Redirects *)

Class AddrParse := { parse_addr : string -> option SocketAddr }.

(** [addr_canonical]: an address as the standard library displays it. *)
Class AddrParseLaws `{AddrParse} := {
  addr_canonical : SocketAddr -> Prop;
  parse_addr_display a : addr_canonical a -> parse_addr (socket_to_string a) = Some a;
}.

(** [str::strip_prefix]. *)
Fixpoint strip_prefix (p s : string) : option string :=
  match p, s with
  | EmptyString, s => Some s
  | String a p, String b s => if Ascii.eqb a b then strip_prefix p s else None
  | String _ _, EmptyString => None
  end.

(** [splitn(2, ' ')]: the text before the first space, and the rest. *)
Fixpoint split_space (s : string) : string * option string :=
  match s with
  | EmptyString => (EmptyString, None)
  | String c s =>
      if Ascii.eqb c " " then (EmptyString, Some s)
      else let (a, b) := split_space s in (String c a, b)
  end.

Definition digit_val (c : ascii) : option Z :=
  let n := Z.of_N (N_of_ascii c) in
  if (48 <=? n) && (n <=? 57) then Some (n - 48) else None.

Fixpoint parse_digits (acc : Z) (s : string) : option Z :=
  match s with
  | EmptyString => Some acc
  | String c s =>
      d ← digit_val c;
      let acc := acc * 10 + d in
      if u16_max <? acc then None else parse_digits acc s
  end.

(** [str::parse::<u16>]: digits, after an optional plus sign. *)
Definition parse_u16 (s : string) : option Z :=
  match s with
  | EmptyString => None
  | String "+" EmptyString => None
  | String "+" s => parse_digits 0 s
  | s => parse_digits 0 s
  end.

(** [parse_resp_redirect]. *)
Definition parse_resp_redirect (msg : string) : option Redirect :=
  '(k, rest) ← match strip_prefix "MOVED " msg with
               | Some rest => Some (Moved, rest)
               | None => rest ← strip_prefix "ASK " msg; Some (Ask, rest)
               end;
  let (s, addr) := split_space rest in
  n ← parse_u16 s; a ← addr; Some {| kind := k; slot := n; address := a |}.

(** [endpoints.iter().position(|a| *a == addr)]. *)
Fixpoint position (addr : SocketAddr) (l : list SocketAddr) : option Z :=
  match l with
  | [] => None
  | a :: l => if decide (a = addr) then Some 0 else Z.succ <$> position addr l
  end.

(** [check_resp_redirect_parsed]: the slot table afterwards; [None] when the
    slot is outside the table, which panics. *)
Definition check_resp_redirect_parsed `{AddrParse} (r : Redirect) (endpoints : list SocketAddr)
    (slot_table : option (list Z)) : option (option (list Z) * list metric) :=
  let log := [Count CLUSTER_REDIRECTS 1] in
  if bool_decide (kind r <> Moved) then Some (slot_table, log)
  else
    match parse_addr (address r), slot_table with
    | Some addr, Some table =>
        match position addr endpoints with
        | Some idx =>
            if slot r <? Z.of_nat (length table)
            then Some (Some (<[Z.to_nat (slot r) := idx mod 2 ^ 16]> table), log)
            else None
        | None => Some (slot_table, log)
        end
    | _, _ => Some (slot_table, log)
    end.

(** ** Completed operations *)

Inductive OpKind := OpGet | OpSet | OpDel.

Record RespMeta := {
  mkind : OpKind;
  msuccess : bool;
  value_len : option Z;
  user_data : Z;
  mlatency_ns : Z;
  error : option string;
}.

(** [map_respmeta]. *)
Definition map_respmeta (m : RespMeta) : RequestResult :=
  let ud := user_data m in
  let '(bf, pf, ap, key) :=
    match mkind m with
    | OpGet => (false, false, false, Some (id_of ud))
    | OpSet =>
        let pf := has_marker ud PREFILL_MARKER in
        let ap := has_marker ud APPEND_MARKER in
        (has_marker ud BACKFILL_MARKER, pf, ap, if pf || ap then Some (id_of ud) else None)
    | OpDel => (false, false, false, None)
    end in
  {| id := 0; success := msuccess m; is_error_response := negb (msuccess m);
     latency_ns := mlatency_ns m; ttfb_ns := None;
     request_type := match mkind m with OpGet => Get | OpSet => Set_ | OpDel => Delete end;
     hit := match mkind m with
            | OpGet => if msuccess m then Some (bool_decide (is_Some (value_len m))) else None
            | _ => None
            end;
     rkey_id := key; backfill := bf; prefill := pf; append := ap;
     redirect := error m ≫= parse_resp_redirect |}.

(** [ringline_redis::Error]: a server error carries its message. *)
Inductive RedisError := RedisMsg (msg : string) | RedisClosed | RedisOther.

(** [ringline_redis::CompletedOp]; a GET hit carries its value's bytes. *)
Inductive CompletedOp :=
| CGet (result : result RedisError (option (list Z))) (user_data latency_ns : Z)
| CSet (result : result RedisError ()) (user_data latency_ns : Z)
| CDel (result : result RedisError ()) (user_data latency_ns : Z).

Definition err_of {A} (r : result RedisError A) : option RedisError :=
  match r with Err e => Some e | Ok _ => None end.

(** [ValueReader]: the fold of the CRCs of the values read; [crc32c] is
    third-party. *)
Definition rotate_left32 (x : Z) : Z := Z.lor (Z.shiftl x 1 mod 2 ^ 32) (Z.shiftr x 31).

Definition reader_read (crc32c : list Z -> Z) (value : list Z) (digest : Z) : Z * list metric :=
  (Z.lxor (rotate_left32 digest) (crc32c value),
   [Count VALUES_READ_BYTES (Z.of_nat (length value))]).

(** [map_resp_op]: the result, the reader's digest afterwards and what the
    reader counted. *)
Definition map_resp_op (crc32c : list Z -> Z) (op : CompletedOp) (digest : Z)
    : RequestResult * Z * list metric :=
  let '(ty, ok, ht, ud, lat, err, value) :=
    match op with
    | CGet r ud lat =>
        match r with
        | Ok (Some v) => (Get, true, Some true, ud, lat, None, Some v)
        | Ok None => (Get, true, Some false, ud, lat, None, None)
        | Err e => (Get, false, None, ud, lat, Some e, None)
        end
    | CSet r ud lat => (Set_, is_ok r, None, ud, lat, err_of r, None)
    | CDel r ud lat => (Delete, is_ok r, None, ud, lat, err_of r, None)
    end in
  let '(bf, pf, ap, key) :=
    match ty with
    | Get => (false, false, false, Some (id_of ud))
    | Set_ =>
        let pf := has_marker ud PREFILL_MARKER in
        let ap := has_marker ud APPEND_MARKER in
        (has_marker ud BACKFILL_MARKER, pf, ap, if pf || ap then Some (id_of ud) else None)
    | _ => (false, false, false, None)
    end in
  let '(digest, log) := match value with
                        | Some v => reader_read crc32c v digest
                        | None => (digest, [])
                        end in
  ({| id := 0; success := ok; is_error_response := negb ok; latency_ns := lat; ttfb_ns := None;
      request_type := ty; hit := ht; rkey_id := key; backfill := bf; prefill := pf; append := ap;
      redirect := match err with Some (RedisMsg msg) => parse_resp_redirect msg | _ => None end |},
   digest, log).

(** [ringline_memcache::CompletedOp]: a GET's result is an error, a miss or a
    hit. *)
Inductive McOp :=
| McGet (result : result () bool) (user_data latency_ns : Z)
| McSet (ok : bool) (user_data latency_ns : Z)
| McDelete (ok : bool) (user_data latency_ns : Z).

(** [map_memcache_op]. *)
Definition map_memcache_op (op : McOp) : RequestResult :=
  let mk ok lat ty ht key bf pf ap :=
    {| id := 0; success := ok; is_error_response := negb ok; latency_ns := lat; ttfb_ns := None;
       request_type := ty; hit := ht; rkey_id := key; backfill := bf; prefill := pf; append := ap;
       redirect := None |} in
  match op with
  | McGet r ud lat =>
      match r with
      | Ok h => mk true lat Get (Some h) (Some (id_of ud)) false false false
      | Err _ => mk false lat Get None (Some (id_of ud)) false false false
      end
  | McSet ok ud lat =>
      let pf := has_marker ud PREFILL_MARKER in
      let ap := has_marker ud APPEND_MARKER in
      mk ok lat Set_ None (if pf || ap then Some (id_of ud) else None)
         (has_marker ud BACKFILL_MARKER) pf ap
  | McDelete ok ud lat => mk ok lat Delete None None false false false
  end.

(** ** What is recorded *)

(** [record_counters]. *)
Definition record_counters (r : RequestResult) : list metric :=
  [Count RESPONSES_RECEIVED 1] ++
  (if bool_decide (is_Some (redirect r)) then []
   else if is_error_response r then [Count REQUEST_ERRORS 1] else []) ++
  match hit r with
  | Some true => [Count CACHE_HITS 1]
  | Some false => [Count CACHE_MISSES 1]
  | None => []
  end ++
  match request_type r with
  | Get => [Count GET_COUNT 1]
  | Set_ => [Count SET_COUNT 1]
  | Delete => [Count DELETE_COUNT 1]
  | PingT | Other => []
  end.

(** [perceived_ns]. *)
Definition perceived_ns (latency_ns : Z) (slip_tracked : bool) (slip : Z) : Z :=
  if slip_tracked then sat_add latency_ns slip else latency_ns.

Definition latency_histogram (t : RequestType) : option Histogram :=
  match t with
  | Get => Some GET_LATENCY
  | Set_ => Some SET_LATENCY
  | Delete => Some DELETE_LATENCY
  | PingT | Other => None
  end.

(** The [on_result] callback of the RESP and memcache clients
    ([make_resp_callback], [make_memcache_callback]). *)
Definition on_result (routed slip_tracked : bool) (slip : Z) (command : RequestType)
    (latency_ns : Z) (ttfb_ns : option Z) (tx_bytes rx_bytes : Z) : list metric :=
  match command, ttfb_ns with Get, Some ttfb => [Sample GET_TTFB ttfb] | _, _ => [] end ++
  (if routed then []
   else match latency_histogram command with Some h => [Sample h latency_ns] | None => [] end ++
        [Sample RESPONSE_LATENCY latency_ns;
         Sample PERCEIVED_LATENCY (perceived_ns latency_ns slip_tracked slip)]) ++
  [Count BYTES_TX tx_bytes; Count BYTES_RX rx_bytes].

Definition make_resp_callback := on_result.

Definition make_memcache_callback := on_result.

(** [make_ping_callback]. *)
Definition make_ping_callback (slip_tracked : bool) (slip : Z) (success : bool) (latency_ns : Z)
    : list metric :=
  [Count RESPONSES_RECEIVED 1; Count GET_COUNT 1] ++
  (if success then [] else [Count REQUEST_ERRORS 1]) ++
  [Sample RESPONSE_LATENCY latency_ns; Sample GET_LATENCY latency_ns;
   Sample PERCEIVED_LATENCY (perceived_ns latency_ns slip_tracked slip)].

(** [record_routed_latency]. *)
Definition record_routed_latency (r : RequestResult) (queued_ns slip : Z) : list metric :=
  let latency := sat_add (latency_ns r) queued_ns in
  match latency_histogram (request_type r) with Some h => [Sample h latency] | None => [] end ++
  [Sample RESPONSE_LATENCY latency; Sample PERCEIVED_LATENCY (sat_add latency slip)].

(** ** Lemmas *)

Lemma id_of_small k : 0 <= k < 2 ^ 61 -> id_of k = k.
Proof.
  intros Hk. unfold id_of. change USER_DATA_ID_MASK with (Z.ones 61).
  rewrite Z.land_ones by lia. apply Z.mod_small. lia.
Qed.

Lemma id_of_marked k m :
  0 <= k < 2 ^ 61 -> m = BACKFILL_MARKER \/ m = PREFILL_MARKER \/ m = APPEND_MARKER ->
  id_of (Z.lor k m) = k.
Proof.
  intros Hk Hm. unfold id_of. rewrite Z.land_lor_distr_l.
  assert (Z.land m USER_DATA_ID_MASK = 0) as -> by (by destruct Hm as [->|[->| ->]]).
  rewrite Z.lor_0_r. by apply id_of_small.
Qed.

Lemma low_land_marker k s : 0 <= k < 2 ^ s -> 0 <= s -> Z.land k (Z.shiftl 1 s) = 0.
Proof. intros Hk Hs. rewrite Z.land_comm. by apply land_shiftl_low. Qed.

Lemma has_marker_lor k m m' :
  0 <= k < 2 ^ 61 -> m' = BACKFILL_MARKER \/ m' = PREFILL_MARKER \/ m' = APPEND_MARKER ->
  has_marker (Z.lor k m) m' = has_marker m m'.
Proof.
  intros Hk Hm. unfold has_marker. rewrite Z.land_lor_distr_l.
  assert (Z.land k m' = 0) as ->; [|by rewrite Z.lor_0_l].
  destruct Hm as [->|[->| ->]]; apply low_land_marker; lia.
Qed.

Lemma position_spec addr l i :
  position addr l = Some i -> 0 <= i < Z.of_nat (length l) /\ l !! Z.to_nat i = Some addr.
Proof.
  revert i. induction l as [|a l IH]; intros i; cbn; [done|]. case_decide as D.
  - intros [= <-]. split; [lia|]. by subst.
  - destruct (position addr l) as [j|]; [|done]. cbn. intros [= <-].
    destruct (IH j eq_refl) as [? E]. split; [lia|].
    replace (Z.to_nat (Z.succ j)) with (S (Z.to_nat j)) by lia. done.
Qed.

(** A redirect within the slot table keeps the table valid. *)
Lemma redirect_ok `{AddrParse} rd endpoints st :
  table_ok (Z.of_nat (length endpoints)) st -> Z.of_nat (length endpoints) <= 2 ^ 16 ->
  slot rd < 16384 ->
  exists st', check_resp_redirect_parsed rd endpoints st = Some (st', [Count CLUSTER_REDIRECTS 1]) /\
              table_ok (Z.of_nat (length endpoints)) st'.
Proof.
  intros T N Hs. unfold check_resp_redirect_parsed. destruct (bool_decide _); [eauto|].
  destruct (parse_addr (address rd)) as [a|], st as [table|]; eauto.
  destruct (position a endpoints) as [i|] eqn:E; [|eauto]. destruct (position_spec _ _ _ E) as [Hi _].
  destruct T as [L F]. rewrite (proj2 (Z.ltb_lt _ _)) by lia. rewrite Z.mod_small by lia.
  eexists. split; [done|]. split; [by rewrite length_insert|]. by apply Forall_insert.
Qed.

(** ** Properties *)

(** A reply is matched to the key and role it was sent for: whatever the
    client reports, a SET sent with a marked user-data word is recognised as
    exactly that kind of write and carries its key id, an unmarked SET as none
    of them, and a GET carries its key id; for RESP and memcache alike. *)
Theorem user_data_roundtrip k m ok lat vlen err :
  0 <= k < 2 ^ 61 ->
  m = BACKFILL_MARKER \/ m = PREFILL_MARKER \/ m = APPEND_MARKER ->
  let meta kd ud := {| mkind := kd; msuccess := ok; value_len := vlen; user_data := ud;
                       mlatency_ns := lat; error := err |} in
  let is_write r := backfill r = bool_decide (m = BACKFILL_MARKER) /\
                    prefill r = bool_decide (m = PREFILL_MARKER) /\
                    append r = bool_decide (m = APPEND_MARKER) /\
                    (m <> BACKFILL_MARKER -> rkey_id r = Some k) in
  is_write (map_respmeta (meta OpSet (Z.lor k m))) /\
  is_write (map_memcache_op (McSet ok (Z.lor k m) lat)) /\
  rkey_id (map_respmeta (meta OpGet k)) = Some k /\
  (forall h, rkey_id (map_memcache_op (McGet (Ok h) k lat)) = Some k) /\
  backfill (map_respmeta (meta OpSet 0)) = false /\ prefill (map_respmeta (meta OpSet 0)) = false /\
  append (map_respmeta (meta OpSet 0)) = false.
Proof.
  intros Hk Hm meta is_write.
  assert (is_write (map_respmeta (meta OpSet (Z.lor k m)))) as W.
  { unfold is_write, meta, map_respmeta; cbn. rewrite !has_marker_lor, id_of_marked by tauto.
    destruct Hm as [->|[->| ->]]; split_and!; done. }
  split; [exact W|]. split; [exact W|].
  split_and!; [|intros h|done..]; cbn; by rewrite id_of_small.
Qed.

(** The two RESP receive paths agree: the zero-copy path on a reply's
    header and the assembling path on the same reply give the same result, for
    every operation and outcome. *)
Theorem receive_paths_agree crc digest op :
  fst (fst (map_resp_op crc op digest)) =
  map_respmeta
    match op with
    | CGet r ud lat =>
        {| mkind := OpGet; msuccess := is_ok r;
           value_len := match r with Ok (Some v) => Some (Z.of_nat (length v)) | _ => None end;
           user_data := ud; mlatency_ns := lat;
           error := match r with Err (RedisMsg msg) => Some msg | _ => None end |}
    | CSet r ud lat =>
        {| mkind := OpSet; msuccess := is_ok r; value_len := None; user_data := ud;
           mlatency_ns := lat; error := match r with Err (RedisMsg msg) => Some msg | _ => None end |}
    | CDel r ud lat =>
        {| mkind := OpDel; msuccess := is_ok r; value_len := None; user_data := ud;
           mlatency_ns := lat; error := match r with Err (RedisMsg msg) => Some msg | _ => None end |}
    end.
Proof.
  destruct op as [r ud lat|r ud lat|r ud lat]; unfold map_resp_op, map_respmeta; cbn.
  - destruct r as [[v|]|[msg| |]]; reflexivity.
  - destruct r as [u|[msg| |]]; reflexivity.
  - destruct r as [u|[msg| |]]; reflexivity.
Qed.

(** A MOVED redirect for a slot of the table to a known node repoints that
    slot and no other, and the table stays a valid slot table; one to an
    unknown node, or an ASK, changes nothing.  Each counts one redirect. *)
Theorem redirect_updates_slot `{AddrParseLaws} endpoints table s addr k :
  table_ok (Z.of_nat (length endpoints)) (Some table) -> Z.of_nat (length endpoints) <= 2 ^ 16 ->
  0 <= s < 16384 -> addr_canonical addr ->
  exists table', check_resp_redirect_parsed {| kind := k; slot := s; address := socket_to_string addr |}
      endpoints (Some table) = Some (Some table', [Count CLUSTER_REDIRECTS 1]) /\
    table_ok (Z.of_nat (length endpoints)) (Some table') /\
    (forall j, j <> Z.to_nat s -> table' !! j = table !! j) /\
    (k = Moved -> addr ∈ endpoints ->
       exists i, table' !! Z.to_nat s = Some (Z.of_nat i) /\ endpoints !! i = Some addr) /\
    (k = Ask \/ addr ∉ endpoints -> table' = table).
Proof.
  intros [L F] N Hs Ha. unfold check_resp_redirect_parsed; cbn. rewrite parse_addr_display by done.
  destruct k; cbn.
  - destruct (position addr endpoints) as [i|] eqn:E.
    + destruct (position_spec _ _ _ E) as [Hi Ei]. rewrite (proj2 (Z.ltb_lt _ _)) by lia.
      rewrite Z.mod_small by lia. eexists. split; [done|split; [|split_and!]].
      * split; [by rewrite length_insert|]. apply Forall_insert; [done|lia].
      * intros j Hj. by rewrite list_lookup_insert_ne.
      * intros _ _. exists (Z.to_nat i). rewrite Z2Nat.id by lia. split; [|done].
        apply list_lookup_insert_eq. lia.
      * intros [?|Hn]; [done|]. exfalso. apply Hn. by eapply list_elem_of_lookup_2.
    + exists table. split; [done|split; [done|split_and!; [done| |done]]]. intros _ Hin. exfalso.
      clear -E Hin. induction endpoints as [|a l IH]; cbn in *; [by apply elem_of_nil in Hin|].
      case_decide; [done|]. apply elem_of_cons in Hin as [->|Hin]; [done|].
      destruct (position addr l); [done|]. by apply IH.
  - exists table. split; [done|split; [done|by split_and!]].
Qed.

(** A MOVED reply is trusted: the slot is parsed as any 16-bit number and
    not checked against the table, so a reply naming a slot of 16384 or more
    and a known node indexes past the table and aborts the run. *)
Theorem redirect_slot_unchecked `{AddrParseLaws} endpoints table s addr :
  length table = Z.to_nat 16384 -> addr ∈ endpoints -> 16384 <= s <= u16_max ->
  addr_canonical addr ->
  check_resp_redirect_parsed {| kind := Moved; slot := s; address := socket_to_string addr |}
    endpoints (Some table) = None.
Proof.
  intros L Hin Hs Ha. unfold check_resp_redirect_parsed; cbn. rewrite parse_addr_display by done.
  destruct (position addr endpoints) as [i|] eqn:E.
  - by rewrite (proj2 (Z.ltb_ge _ _)) by lia.
  - exfalso. clear -E Hin. induction endpoints as [|a l IH]; cbn in *; [by apply elem_of_nil in Hin|].
    case_decide; [done|]. apply elem_of_cons in Hin as [->|Hin]; [done|].
    destruct (position addr l); [done|]. by apply IH.
Qed.

(** *** Witnesses *)

(** A parser that knows the two example nodes' addresses by their text. *)
Definition example_parse : AddrParse :=
  {| parse_addr s := find (fun a => bool_decide (socket_to_string a = s)) example_nodes |}.

Lemma user_data_roundtrip_witness :
  rkey_id (map_memcache_op (McSet true (Z.lor 77 PREFILL_MARKER) 5)) = Some 77.
Proof.
  pose proof (user_data_roundtrip 77 PREFILL_MARKER true 5 None None ltac:(lia) ltac:(tauto)) as T.
  destruct T as (_ & (_ & _ & _ & E) & _). apply E. by vm_compute.
Defined.

Lemma example_parse_display a :
  a ∈ example_nodes -> @parse_addr example_parse (socket_to_string a) = Some a.
Proof.
  unfold example_nodes. intros [->|[->|[]%elem_of_nil]%elem_of_cons]%elem_of_cons; by vm_compute.
Qed.

Definition example_parse_laws : @AddrParseLaws example_parse :=
  @Build_AddrParseLaws example_parse (fun a => a ∈ example_nodes) example_parse_display.

Definition example_node_b : SocketAddr := {| sa_ip := "10.0.0.2"; sa_port := 6379 |}.

Definition example_table : list Z := replicate (Z.to_nat 16384) 0.

Lemma redirect_updates_slot_witness :
  exists table', @check_resp_redirect_parsed example_parse
      {| kind := Moved; slot := 100; address := "10.0.0.2:6379" |} example_nodes (Some example_table) =
      Some (Some table', [Count CLUSTER_REDIRECTS 1]) /\ table_ok 2 (Some table').
Proof.
  destruct (@redirect_updates_slot example_parse example_parse_laws example_nodes example_table 100
    example_node_b Moved) as (t & E & T & _).
  - split; [apply length_replicate|]. apply Forall_replicate. cbn. lia.
  - cbn. lia.
  - lia.
  - right. left.
  - exists t. split; [exact E|exact T].
Defined.

Lemma redirect_slot_unchecked_witness :
  parse_resp_redirect "MOVED 16384 10.0.0.2:6379" =
    Some {| kind := Moved; slot := 16384; address := "10.0.0.2:6379" |} /\
  @check_resp_redirect_parsed example_parse
    {| kind := Moved; slot := 16384; address := "10.0.0.2:6379" |} example_nodes (Some example_table) = None.
Proof.
  split; [by vm_compute|].
  apply (@redirect_slot_unchecked example_parse example_parse_laws example_nodes example_table 16384
    example_node_b); [apply length_replicate|right; left|unfold u16_max; lia|right; left].
Defined.
