(* ===== verification/Workload.v ===== *)
(** Workload: the fire/recv loop of a cache connection
    ([src/src/worker.rs], [drive_resp_workload], [drive_memcache_workload]).

    One iteration of the loop is [iterate], which fills the pipeline for the
    current phase, flushes, and says what the connection waits for; a reply is
    handled by [on_reply], and a failed receive by [on_disconnect].  The
    protocol client is third-party: the class [Client], whose [pending] are
    its requests in flight, oldest first, and whose [unflushed] counts those
    not yet handed to the network.  The two protocols share the loop's shape;
    [Flavor] selects the places where they differ.  A panic is [None]. *)

From S2P Require Import Prelude F64 Config Keys KeyDist Limiter Dispatch Metrics InFlight Reply Routed.
Open Scope Z_scope.

Definition ZC_VALUE_THRESHOLD : Z := 4096.

Definition BACKFILL_QUEUE_CAP : nat := 1024.

(** ** The protocol client *)

(** A request given to the client: a key, and for a SET the value's window in
    the pool, copied or by guard. *)
Inductive Fire :=
| FireGet (key : list Z) (ud : Z)
| FireDel (key : list Z) (ud : Z)
| FireSet (key : list Z) (offset len ud : Z)
| FireSetWithGuard (key : list Z) (offset len ud : Z).

Class Client := {
  client : Type;
  pending : client -> list Fire;
  unflushed : client -> nat;
  is_alive : client -> bool;
  recv_ready : client -> bool;
  fire : Fire -> client -> client * bool;
  flush : client -> client * bool;
  take_reply : client -> client;
}.

(** A failed fire or flush discards every request buffered since the last
    flush; replies come in order. *)
Class ClientLaws `{Client} := {
  unflushed_le c : (unflushed c <= length (pending c))%nat;
  fire_ok f c c' : fire f c = (c', true) ->
    pending c' = pending c ++ [f] /\ (unflushed c' <= S (unflushed c))%nat;
  fire_err f c c' : fire f c = (c', false) ->
    pending c' = take (length (pending c) - unflushed c) (pending c) /\ unflushed c' = 0%nat;
  flush_ok c c' : flush c = (c', true) -> pending c' = pending c /\ unflushed c' = 0%nat;
  flush_err c c' : flush c = (c', false) ->
    pending c' = take (length (pending c) - unflushed c) (pending c) /\ unflushed c' = 0%nat;
  take_reply_tail c : pending (take_reply c) = tail (pending c);
  take_reply_flushed c : unflushed c = 0%nat -> unflushed (take_reply c) = 0%nat;
}.

(** A client's pending count. *)
Definition pending_count `{Client} (c : client) : nat := length (pending c).

(** ** Configuration and state of a connection *)

Inductive Flavor := Resp | Memcache.

Record Env `{Hashing} := {
  flavor : Flavor;
  key_format : KeyFormat;
  key_len : nat;
  hash_ring : ring;
  num_endpoints : Z;
  endpoint_idx : Z;
  pipeline_depth : nat;
  batch_size : Z;
  get_ratio : Z;
  delete_ratio : Z;
  value_len_ : Z;
  pool_len : Z;
  backfill_on_miss : bool;
  key_dist : KeyDist;
  endpoint_keys : list (list Z);
  endpoints : list SocketAddr;
}.

Record Conn `{Ratelimiter} `{Rng} `{Client} := {
  cl : client;
  g : rng;
  prefill_queues : PrefillQueues;
  limiter_ : option WorkerLimiter;
  pacer : option PrefillPacer;
  refused : option Z;
  routed : option RoutedQueues;
  slot_table : option (list Z);
  inflight : InFlight;
  prefill_in_flight : list Z;
  backfill_queue : list Z;
  carried_tokens : Z;
  slip_state : SlipState;
  prefill_confirmed : Z;
  log : list metric;
}.

#[export] Instance eta_Conn `{Ratelimiter} `{Rng} `{Client} : Settable Conn := fun x =>
  {| cl := cl x; g := g x; prefill_queues := prefill_queues x; limiter_ := limiter_ x;
     pacer := pacer x; refused := refused x; routed := routed x; slot_table := slot_table x;
     inflight := inflight x; prefill_in_flight := prefill_in_flight x;
     backfill_queue := backfill_queue x; carried_tokens := carried_tokens x;
     slip_state := slip_state x; prefill_confirmed := prefill_confirmed x; log := log x |}.

Inductive Phase := Connect | Precheck | Prefill | Warmup | Running | Stop.

#[export] Instance Phase_eq_dec : EqDecision Phase.
Proof. solve_decision. Defined.

Section workload.
Context `{Ratelimiter} `{Rng} `{Hashing} `{Client} `{AddrParse}.
Variable env : Env.

Definition note (ms : list metric) (s : Conn) : Conn := s <| log := log s ++ ms |>.

Definition write (key_id : Z) : list Z := write_key (key_format env) (key_len env) key_id.

Definition route (s : Conn) (key_id : Z) : option Z :=
  route_partition (slot_table s) (hash_ring env) (num_endpoints env) (write key_id).

Definition multi_endpoint : bool := 1 <? num_endpoints env.

(** [value_offset]: where in the pool the next value starts. *)
Definition value_offset (r : rng) : option (rng * Z) :=
  range_draw 0 (wrap64 (pool_len env - value_len_ env) + 1) r.

(** The SET of a key: the guard's offset and length are stored as [u32]; the
    copying path slices the pool. *)
Definition set_fire (key_id ud : Z) (r : rng) : option (rng * Fire) :=
  '(r, offset) ← value_offset r;
  let guarded := FireSetWithGuard (write key_id) (offset mod 2 ^ 32) (value_len_ env mod 2 ^ 32) ud in
  match flavor env with
  | Memcache => Some (r, guarded)
  | Resp =>
      if ZC_VALUE_THRESHOLD <=? value_len_ env then Some (r, guarded)
      else if offset + value_len_ env <=? pool_len env
           then Some (r, FireSet (write key_id) offset (value_len_ env) ud) else None
  end.

(** A fire and the accounting of its failure: the requests discarded. *)
Definition do_fire (f : Fire) (s : Conn) : Conn * bool * nat :=
  let before := pending_count (cl s) in
  let (c, ok) := fire f (cl s) in
  if ok then (s <| cl := c |>, true, 0%nat)
  else
    let '(x, ms, discarded) := note_failed_fire before (pending_count c) true (inflight s) in
    (note ms (s <| cl := c |> <| inflight := x |>), false, discarded).

(** *** Prefill *)

(** The prefill fill loop; [fc] is [fired_count].  [now] reads the clock for
    the pacer, [fired_at] stamps the batch. *)
Fixpoint fill_prefill_loop (fuel : nat) (now : nat -> Z) (fired_at : Z) (s : Conn) (fc : Z)
    : option (Conn * Z) :=
  match fuel with
  | O => None
  | S fuel =>
      if negb (pending_count (cl s) <? pipeline_depth env)%nat then Some (s, fc)
      else
        '(qs, popped) ← pq_pop_front (prefill_queues s) (endpoint_idx env);
        match popped with
        | None => Some (s, fc)
        | Some key_id =>
            let s := s <| prefill_queues := qs |> in
            routed_to ← (if multi_endpoint then route s key_id else Some (endpoint_idx env));
            if negb (routed_to =? endpoint_idx env) then
              qs ← pq_push_back (prefill_queues s) routed_to key_id;
              fill_prefill_loop fuel now fired_at (s <| prefill_queues := qs |>) fc
            else
              let (p, verdict) :=
                match pacer s with
                | Some p => let (p, r) := pacer_try_take (now fuel) p in (Some p, r)
                | None => (None, Ok ())
                end in
              let s := s <| pacer := p |> in
              match verdict with
              | Err sleep =>
                  qs ← pq_push_front (prefill_queues s) (endpoint_idx env) key_id;
                  Some (s <| prefill_queues := qs |> <| refused := Some sleep |>, fc)
              | Ok _ =>
                  '(r, f) ← set_fire key_id (Z.lor key_id PREFILL_MARKER) (g s);
                  let '(s, ok, discarded) := do_fire f (s <| g := r |>) in
                  if ok then
                    fill_prefill_loop fuel now fired_at
                      (s <| prefill_in_flight := prefill_in_flight s ++ [key_id] |>
                         <| inflight := push fired_at (inflight s) |>) (fc + 1)
                  else
                    qs ← pq_push_front (prefill_queues s) (endpoint_idx env) key_id;
                    '(qs, fl) ← requeue_newest discarded (endpoint_idx env) qs (prefill_in_flight s);
                    Some (s <| prefill_queues := qs |> <| prefill_in_flight := fl |>,
                          wrap64 (fc - Z.of_nat discarded))
              end
        end
  end.

(** *** Warmup and Running *)

(** The command a roll of [0..100] chooses. *)
Definition choose_fire (key_id : Z) (r : rng) : option (rng * Fire) :=
  '(r, roll) ← range_draw 0 100 r;
  if roll <? get_ratio env then Some (r, FireGet (write key_id) key_id)
  else if roll <? get_ratio env + delete_ratio env then Some (r, FireDel (write key_id) 0)
  else set_fire key_id 0 r.

(** A backfill key for a routed connection, with a token of its own. *)
Definition take_backfill (now : Z) (s : Conn) : Conn * option Z :=
  match backfill_queue s, limiter_ s with
  | _ :: _, Some rl =>
      let (rl, r) := limiter_try_wait now rl in
      let s := s <| limiter_ := Some rl |> in
      match r with
      | Taken => (s <| backfill_queue := removelast (backfill_queue s) |>, last (backfill_queue s))
      | _ => (s, None)
      end
  | _, _ => (s, None)
  end.

(** The routed fill loop: the last component is [send_failed]. *)
Fixpoint fill_routed_loop (fuel : nat) (now : nat -> Z) (fired_at : Z) (s : Conn) (fc : Z)
    : option (Conn * Z * bool) :=
  match fuel with
  | O => None
  | S fuel =>
      if negb (pending_count (cl s) <? pipeline_depth env)%nat then Some (s, fc, false)
      else
        let (s, key) := take_backfill (now fuel) s in
        match key with
        | Some key_id =>
            '(r, f) ← set_fire key_id (Z.lor key_id BACKFILL_MARKER) (g s);
            let '(s, ok, discarded) := do_fire f (s <| g := r |>) in
            if ok then
              fill_routed_loop fuel now fired_at
                (s <| inflight := push_queued fired_at 0 (inflight s) |>) (fc + 1)
            else Some (s <| backfill_queue := backfill_queue s ++ [key_id] |>,
                       wrap64 (fc - Z.of_nat discarded), true)
        | None =>
            q ← routed s;
            '(q, popped) ← routed_pop (Z.to_nat (endpoint_idx env)) q;
            match popped with
            | None => Some (s, fc, false)
            | Some request =>
                let s := s <| routed := Some q |> in
                let queued_ns := sat_sub fired_at (Routed.funded_at request) in
                '(r, f) ← choose_fire (Routed.key_id request) (g s);
                let '(s, ok, discarded) := do_fire f (s <| g := r |>) in
                if ok then
                  fill_routed_loop fuel now fired_at
                    (note [Sample ROUTED_QUEUE_WAIT queued_ns]
                      (s <| inflight := push_queued fired_at queued_ns (inflight s) |>)) (fc + 1)
                else Some (s, wrap64 (fc - Z.of_nat discarded), true)
            end
        end
  end.

(** Draw from the global distribution until a key routes here, [n] tries. *)
Fixpoint reject_pick (n : nat) (s : Conn) : option (Conn * option Z) :=
  match n with
  | O => Some (s, None)
  | S n =>
      '(r, candidate) ← sample (key_dist env) (g s);
      let s := s <| g := r |> in
      routed_to ← (match flavor env with
                   | Resp => route s candidate
                   | Memcache => if multi_endpoint then route s candidate else Some (endpoint_idx env)
                   end);
      if routed_to =? endpoint_idx env then Some (s, Some candidate) else reject_pick n s
  end.

Definition routing_tries : nat := Z.to_nat (max_routing_attempts (num_endpoints env)).

(** The key of the next request; [None] inside ends the fill. *)
Definition pick_key (s : Conn) : option (Conn * option Z) :=
  match flavor env with
  | Memcache => reject_pick routing_tries s
  | Resp =>
      if negb multi_endpoint then
        '(r, k) ← sample (key_dist env) (g s); Some (s <| g := r |>, Some k)
      else
        match key_dist env with
        | KUniform _ =>
            bucket ← endpoint_keys env !! Z.to_nat (endpoint_idx env);
            match bucket with
            | [] => Some (s, None)
            | _ =>
                '(r, i) ← range_draw 0 (Z.of_nat (length bucket)) (g s);
                k ← bucket !! Z.to_nat i; Some (s <| g := r |>, Some k)
            end
        | d =>
            match endpoint_sampler d with
            | Some z => '(r, k) ← endpoint_sample z (Z.to_nat (endpoint_idx env)) (g s);
                        Some (s <| g := r |>, k)
            | None => reject_pick routing_tries s
            end
        end
  end.

(** The tokens for this batch: what [acquire] granted, a batch from the
    limiter, or a batch outright without one.  The last component is
    [starved]. *)
Definition token_budget (now : Z) (s : Conn) : Conn * Z * bool :=
  match limiter_ s with
  | None => (s, batch_size env, false)
  | Some rl =>
      if 0 <? carried_tokens s then (s <| carried_tokens := 0 |>, carried_tokens s, false)
      else
        let n := Z.min (batch_size env) (limiter_max_tokens rl) in
        if 0 <? n then
          let (rl, r) := limiter_try_wait_n now n rl in
          let s := s <| limiter_ := Some rl |> in
          match r with Taken => (s, n, false) | _ => (s, 0, true) end
        else (s, 0, true)
  end.

Definition slip_sample (slip : option Z) : list metric :=
  match slip with Some v => [Sample SCHEDULE_SLIP v] | None => [] end.

(** The Warmup/Running fill loop; [budget] tokens are left. *)
Fixpoint fill_warm_loop (budget : nat) (fired_at : Z) (slip : option Z) (s : Conn) (fc : Z)
    : option (Conn * Z) :=
  match budget with
  | O => Some (s, fc)
  | S budget =>
      if negb (pending_count (cl s) <? pipeline_depth env)%nat then Some (s, fc)
      else
        match last (backfill_queue s) with
        | Some key_id =>
            let s := s <| backfill_queue := removelast (backfill_queue s) |> in
            '(r, f) ← set_fire key_id (Z.lor key_id BACKFILL_MARKER) (g s);
            let '(s, ok, discarded) := do_fire f (s <| g := r |>) in
            if ok then
              fill_warm_loop budget fired_at slip
                (note (slip_sample slip) (s <| inflight := push fired_at (inflight s) |>)) (fc + 1)
            else Some (s <| backfill_queue := backfill_queue s ++ [key_id] |>,
                       wrap64 (fc - Z.of_nat discarded))
        | None =>
            '(s, picked) ← pick_key s;
            match picked with
            | None => Some (s, fc)
            | Some key_id =>
                '(r, f) ← choose_fire key_id (g s);
                let '(s, ok, discarded) := do_fire f (s <| g := r |>) in
                if ok then
                  fill_warm_loop budget fired_at slip
                    (note (slip_sample slip) (s <| inflight := push fired_at (inflight s) |>)) (fc + 1)
                else Some (s, wrap64 (fc - Z.of_nat discarded))
            end
        end
  end.

(** *** One iteration *)

(** Room for a full batch. *)
Definition want_fire (s : Conn) : bool :=
  batch_size env <=? Z.of_nat (pipeline_depth env - pending_count (cl s)).

(** Publish the worker's slip. *)
Definition publish_slip (now : Z) (s : Conn) : Conn :=
  match limiter_ s with
  | Some rl => s <| slip_state := set_worker_slip_ns (slip_ns now rl) (slip_state s) |>
  | None => s
  end.

Definition serving (phase : Phase) : bool :=
  bool_decide (phase = Warmup) || bool_decide (phase = Running).

(** The fill of an iteration: the connection, [fired_count], [starved] and
    [send_failed].  [prefill_fuel] rounds of prefill. *)
Definition fill (phase : Phase) (prefill_done : bool) (prefill_fuel : nat) (now : nat -> Z) (s : Conn)
    : option (Conn * Z * bool * bool) :=
  let fired_at := now 0%nat in
  if bool_decide (phase = Prefill) && negb prefill_done then
    if want_fire s then
      '(s, fc) ← fill_prefill_loop prefill_fuel now fired_at s 0; Some (s, fc, false, false)
    else Some (s, 0, false, false)
  else if serving phase && want_fire s then
    match routed s with
    | Some _ =>
        '(s, fc, failed) ← fill_routed_loop (S (pipeline_depth env)) now fired_at s 0;
        Some (s, fc, false, failed)
    | None =>
        let '(s, budget, starved) := token_budget (now 0%nat) s in
        let slip := match limiter_ s with Some rl => Some (slip_ns (now 0%nat) rl) | None => None end in
        let s := publish_slip (now 0%nat) s in
        '(s, fc) ← fill_warm_loop (Z.to_nat budget) fired_at slip s 0;
        Some (s, fc, starved, false)
    end
  else Some (s, 0, false, false).

(** The flush after the fill, and [REQUESTS_SENT]. *)
Definition flush_batch (phase : Phase) (s : Conn) (fc : Z) : option Conn :=
  let before := pending_count (cl s) in
  let (c, ok) := flush (cl s) in
  let s := s <| cl := c |> in
  if ok then Some (note [Count REQUESTS_SENT fc] s)
  else
    let '(x, ms, discarded) := note_discarded before (pending_count c) true (inflight s) in
    let s := note ms (s <| inflight := x |>) in
    let fc := wrap64 (fc - Z.of_nat discarded) in
    s ← (if bool_decide (phase = Prefill) then
           '(qs, fl) ← requeue_newest discarded (endpoint_idx env) (prefill_queues s) (prefill_in_flight s);
           Some (s <| prefill_queues := qs |> <| prefill_in_flight := fl |>)
         else Some s);
    Some (note [Count REQUESTS_SENT fc] s).

(** What the connection does next. *)
Inductive Next :=
| Finished
| Disconnect (r : DisconnectReason)
| WaitRouted
| AcquireTokens (n : Z)
| SleepFor (d : Z)
| RoutedOrRecv
| Recv.

(** The choice of wait, after the flush. *)
Definition next_wait (phase : Phase) (starved send_failed : bool) (has_dispatcher : bool) (s : Conn) : Next :=
  let is_routed := bool_decide (is_Some (routed s)) in
  if (pending_count (cl s) =? 0)%nat then
    if is_routed && serving phase && negb send_failed then WaitRouted
    else if has_dispatcher && starved then AcquireTokens (batch_size env)
    else SleepFor (match refused s with Some d => Z.max d IDLE_SLEEP_MIN | None => IDLE_SLEEP_MIN end)
  else if is_routed && serving phase && negb send_failed && want_fire s && recv_ready (cl s) then RoutedOrRecv
  else Recv.

(** Requeue every prefill key in flight, routed afresh. *)
Definition drain_prefill (s : Conn) : option Conn :=
  qs ← requeue_drained_prefill (key_format env) (key_len env) (hash_ring env) (slot_table s)
         (num_endpoints env) (prefill_queues s) (prefill_in_flight s);
  Some (s <| prefill_queues := qs |> <| prefill_in_flight := [] |>).

(** The refusal of the previous iteration is dropped. *)
Definition drop_refusal (s : Conn) : Conn :=
  match refused s with
  | Some _ => s <| refused := None |> <| pacer := refused_drop <$> pacer s |>
  | None => s
  end.

(** One iteration of the loop up to its wait. *)
Definition iterate (phase : Phase) (prefill_done has_dispatcher : bool) (prefill_fuel : nat)
    (now : nat -> Z) (s : Conn) : option (Conn * Next) :=
  let s := drop_refusal s in
  if bool_decide (phase = Stop) then Some (s, Finished)
  else if (pending_count (cl s) =? 0)%nat && negb (is_alive (cl s)) then
    s ← drain_prefill s; Some (s, Disconnect Eof)
  else
    '(s, fc, starved, send_failed) ← fill phase prefill_done prefill_fuel now s;
    s ← flush_batch phase s fc;
    let s := publish_slip (now 0%nat) s in
    Some (s, next_wait phase starved send_failed has_dispatcher s).

(** A failed receive: requeue and report the reason. *)
Definition on_disconnect (s : Conn) : option Conn := drain_prefill (drop_refusal s).

(** *** Replies *)

(** The prefill part of handling a reply. *)
Definition on_prefill_reply (r : RequestResult) (s : Conn) : option Conn :=
  if prefill r then
    '(fl, key_id) ← match prefill_in_flight s with
                    | k :: fl => Some (fl, k)
                    | [] => k ← rkey_id r; Some ([], k)
                    end;
    let s := s <| prefill_in_flight := fl |> in
    if success r then Some (s <| prefill_confirmed := wrap64 (prefill_confirmed s + 1) |>)
    else qs ← pq_push_back (prefill_queues s) (endpoint_idx env) key_id;
         Some (s <| prefill_queues := qs |>)
  else Some s.

(** The backfill part: queue a missed key, count a finished backfill SET. *)
Definition on_backfill_reply (r : RequestResult) (s : Conn) : Conn :=
  let s :=
    match rkey_id r with
    | Some key_id =>
        if backfill_on_miss env && bool_decide (request_type r = Get) && success r &&
           bool_decide (hit r = Some false) && (length (backfill_queue s) <? BACKFILL_QUEUE_CAP)%nat
        then s <| backfill_queue := backfill_queue s ++ [key_id] |> else s
    | None => s
    end in
  if backfill r && bool_decide (request_type r = Set_) && success r
  then note [Count BACKFILL_SET_COUNT 1; Sample BACKFILL_SET_LATENCY (latency_ns r)] s else s.

(** The redirect part, of the RESP loop. *)
Definition on_redirect (r : RequestResult) (s : Conn) : option Conn :=
  match redirect r, flavor env with
  | Some rd, Resp =>
      '(table, ms) ← check_resp_redirect_parsed rd (endpoints env) (slot_table s);
      Some (note ms (s <| slot_table := table |>))
  | _, _ => Some s
  end.

(** Handle one reply's result; the client has already dropped the request. *)
Definition on_reply (r : RequestResult) (s : Conn) : option Conn :=
  let s := drop_refusal s in
  let (x, queued_ns) := pop (inflight s) in
  let s := s <| inflight := x |> in
  s ← on_prefill_reply r s;
  let s := on_backfill_reply r s in
  s ← on_redirect r s;
  let s := note (record_counters r) s in
  Some (match routed s with
        | Some _ => note (record_routed_latency r queued_ns (slip (slip_state s))) s
        | None => s
        end).

End workload.

(** ** The two protocols' loops *)

Definition with_flavor `{Hashing} (f : Flavor) (e : Env) : Env :=
  {| flavor := f; key_format := key_format e; key_len := key_len e; hash_ring := hash_ring e;
     num_endpoints := num_endpoints e; endpoint_idx := endpoint_idx e;
     pipeline_depth := pipeline_depth e; batch_size := batch_size e; get_ratio := get_ratio e;
     delete_ratio := delete_ratio e; value_len_ := value_len_ e; pool_len := pool_len e;
     backfill_on_miss := backfill_on_miss e; key_dist := key_dist e;
     endpoint_keys := endpoint_keys e; endpoints := endpoints e |}.

Section drivers.
Context `{Ratelimiter} `{Rng} `{Hashing} `{Client} `{AddrParse}.
Variable env : Env.

(** [drive_resp_workload]. *)
Definition drive_resp_iterate := iterate (with_flavor Resp env).

Definition drive_resp_reply := on_reply (with_flavor Resp env).

(** [drive_memcache_workload]: the Prefill fill, the routed fill, the
    Warmup/Running fill, the flush, the waits and the replies. *)
Definition drive_memcache_prefill := fill_prefill_loop (with_flavor Memcache env).

Definition drive_memcache_routed := fill_routed_loop (with_flavor Memcache env).

Definition drive_memcache_warm := fill_warm_loop (with_flavor Memcache env).

Definition drive_memcache_flush := flush_batch (with_flavor Memcache env).

Definition drive_memcache_wait := next_wait (with_flavor Memcache env).

Definition drive_memcache_iterate := iterate (with_flavor Memcache env).

Definition drive_memcache_reply := on_reply (with_flavor Memcache env).

End drivers.

(** ** Replies to requests *)

Definition fire_ud (f : Fire) : Z :=
  match f with
  | FireGet _ ud | FireDel _ ud | FireSet _ _ _ ud | FireSetWithGuard _ _ _ ud => ud
  end.

Definition fire_kind (f : Fire) : OpKind :=
  match f with
  | FireGet _ _ => OpGet
  | FireDel _ _ => OpDel
  | FireSet _ _ _ _ | FireSetWithGuard _ _ _ _ => OpSet
  end.

(** What a server answered, as the clients report it. *)
Record Outcome := { o_ok : bool; o_len : option Z; o_latency : Z; o_error : option string }.

(** The clients report an outcome with the user data of its request; the
    source maps that report to a result. *)
Definition reply `{Hashing} (env : Env) (f : Fire) (o : Outcome) : RequestResult :=
  match flavor env with
  | Resp =>
      map_respmeta {| mkind := fire_kind f; msuccess := o_ok o; value_len := o_len o;
                      user_data := fire_ud f; mlatency_ns := o_latency o; error := o_error o |}
  | Memcache =>
      map_memcache_op
        match fire_kind f with
        | OpGet => McGet (if o_ok o then Ok (bool_decide (is_Some (o_len o))) else Err ()) (fire_ud f) (o_latency o)
        | OpSet => McSet (o_ok o) (fire_ud f) (o_latency o)
        | OpDel => McDelete (o_ok o) (fire_ud f) (o_latency o)
        end
  end.

(** ** Well-formed connections *)

Definition is_prefill (f : Fire) : bool :=
  match f with
  | FireSet _ _ _ ud | FireSetWithGuard _ _ _ ud => has_marker ud PREFILL_MARKER
  | _ => false
  end.

(** The keys of the prefill SETs among some requests, in order. *)
Fixpoint prefill_ids (fs : list Fire) : list Z :=
  match fs with
  | [] => []
  | f :: fs => if is_prefill f then id_of (fire_ud f) :: prefill_ids fs else prefill_ids fs
  end.

(** The prefill keys an outcome stores. *)
Definition stored (f : Fire) (o : Outcome) : list Z :=
  if is_prefill f && o_ok o then [id_of (fire_ud f)] else [].

(** Every key prefill still owes: queued, or in flight on this connection. *)
Definition held `{Ratelimiter} `{Rng} `{Client} (s : Conn) : list Z :=
  concat (prefill_queues s) ++ prefill_in_flight s.

Definition small_id (k : Z) : Prop := 0 <= k < 2 ^ 61.

(** The connection's bookkeeping agrees with the client's requests in flight. *)
Record sync `{Ratelimiter} `{Rng} `{Client} (s : Conn) : Prop := {
  sy_prefill : prefill_in_flight s = prefill_ids (pending (cl s));
  sy_fired : length (fired (inflight s)) = pending_count (cl s);
}.

Record wf_env `{Rng} `{Hashing} (env : Env) : Prop := {
  we_endpoint : 0 <= endpoint_idx env < num_endpoints env;
  we_ring k : 0 <= ring_route (hash_ring env) k < num_endpoints env;
  we_value : 0 < value_len_ env <= pool_len env;
  we_pool : pool_len env <= u64_max;
  we_dist : dist_ok (key_dist env);
  we_keys : 1 < num_endpoints env -> Z.of_nat (length (endpoint_keys env)) = num_endpoints env;
  we_sampler z : endpoint_sampler (key_dist env) = Some z ->
    forall r, exists r' o, endpoint_sample z (Z.to_nat (endpoint_idx env)) r = Some (r', o);
  we_endpoints : Z.of_nat (length (endpoints env)) = num_endpoints env;
  we_small : num_endpoints env <= 2 ^ 16;
  we_depth : Z.of_nat (pipeline_depth env) <= u64_max;
}.

(** What every state of a connection satisfies, also inside a batch. *)
Record shape `{Ratelimiter} `{Rng} `{Hashing} `{Client} (env : Env) (s : Conn) : Prop := {
  sh_sync : sync s;
  sh_queues : Z.of_nat (length (prefill_queues s)) = num_endpoints env;
  sh_table : table_ok (num_endpoints env) (slot_table s);
  sh_ids : Forall small_id (held s);
  sh_backfill : Forall small_id (backfill_queue s);
  sh_routed q : routed s = Some q -> Z.of_nat (length (nodes q)) = num_endpoints env;
}.

(** Between iterations nothing is unflushed. *)
Definition wf_conn `{Ratelimiter} `{Rng} `{Hashing} `{Client} (env : Env) (s : Conn) : Prop :=
  shape env s /\ unflushed (cl s) = 0%nat.

(** Inside an iteration that began with [n0] requests in flight: [fc] more
    have been fired, each a prefill SET exactly when [b] says so, and only
    those can be unflushed. *)
Record batch_inv `{Ratelimiter} `{Rng} `{Client} (n0 : nat) (b : bool) (s : Conn) (fc : nat) : Prop := {
  bi_count : pending_count (cl s) = (n0 + fc)%nat;
  bi_unflushed : (unflushed (cl s) <= fc)%nat;
  bi_kind : Forall (fun f => is_prefill f = b) (drop n0 (pending (cl s)));
}.

(** A fill loop that began at [s0] with [n0] requests in flight has reached
    [s] with [fc] more fired. *)
Record fill_inv `{Ratelimiter} `{Rng} `{Hashing} `{Client} (env : Env) (n0 : nat) (b : bool)
    (s0 s : Conn) (fc : nat) : Prop := {
  fi_shape : shape env s;
  fi_batch : batch_inv n0 b s fc;
  fi_depth : (n0 + fc <= Nat.max n0 (pipeline_depth env))%nat;
  fi_held : Permutation (held s) (held s0);
  fi_sent : counted REQUESTS_SENT (log s) = counted REQUESTS_SENT (log s0);
  fi_confirmed : prefill_confirmed s = prefill_confirmed s0;
}.

(** ** Lemmas: queues and requests *)

(** Requeueing the newest keys in flight moves them to the queue. *)
Lemma requeue_moves d e (qs : PrefillQueues) fl q :
  qs !! Z.to_nat e = Some q ->
  exists qs', requeue_newest d e qs fl = Some (qs', take (length fl - d) fl) /\
    length qs' = length qs /\ Permutation (concat qs' ++ take (length fl - d) fl) (concat qs ++ fl).
Proof.
  intros E. rewrite (requeue_newest_spec _ _ _ _ _ E). eexists. split; [done|].
  split; [by rewrite length_insert|]. rewrite (concat_prepend _ _ _ _ E).
  rewrite (Permutation_app_comm (drop _ _)), <- app_assoc. apply Permutation_app_head.
  rewrite Permutation_app_comm. by rewrite take_drop.
Qed.

Lemma prefill_ids_app l1 l2 : prefill_ids (l1 ++ l2) = prefill_ids l1 ++ prefill_ids l2.
Proof. induction l1 as [|f l1 IH]; cbn; [done|]. rewrite IH. by destruct (is_prefill f). Qed.

Lemma prefill_ids_none l : Forall (fun f => is_prefill f = false) l -> prefill_ids l = [].
Proof. induction 1 as [|f l Hf _ IH]; cbn; [done|]. by rewrite Hf. Qed.

Lemma prefill_ids_all l : Forall (fun f => is_prefill f = true) l -> length (prefill_ids l) = length l.
Proof. induction 1 as [|f l Hf _ IH]; cbn; [done|]. rewrite Hf. cbn. by rewrite IH. Qed.

(** Dropping the [d] newest requests of a batch of kind [b]. *)
Lemma prefill_ids_discard (b : bool) n0 d l :
  Forall (fun f => is_prefill f = b) (drop n0 l) -> (d <= length l - n0)%nat ->
  prefill_ids (take (length l - d) l) =
  if b then take (length (prefill_ids l) - d) (prefill_ids l) else prefill_ids l.
Proof.
  intros F Hd. set (m := (length l - d)%nat).
  assert (Forall (fun f => is_prefill f = b) (drop m l)) as Fm.
  { replace (drop m l) with (drop (m - n0) (drop n0 l)); [by apply Forall_drop|].
    rewrite drop_drop. destruct (decide (n0 <= m)%nat); [f_equal; lia|].
    rewrite !drop_ge by lia. done. }
  assert (length (drop m l) = d \/ d = 0%nat) as Ld by (rewrite length_drop; lia).
  assert (prefill_ids l = prefill_ids (take m l) ++ prefill_ids (drop m l)) as ->
    by (by rewrite <- prefill_ids_app, take_drop).
  destruct b.
  - pose proof (prefill_ids_all _ Fm) as E. rewrite length_app, E, length_drop.
    replace (length (prefill_ids (take m l)) + (length l - m) - d)%nat
      with (length (prefill_ids (take m l))) by lia.
    by rewrite take_app_length.
  - by rewrite (prefill_ids_none _ Fm), app_nil_r.
Qed.

(** The connection is over: every key in flight is queued again. *)
Record drained `{Ratelimiter} `{Rng} `{Hashing} `{Client} (env : Env) (s s' : Conn) : Prop := {
  dr_held : Permutation (held s') (held s);
  dr_empty : prefill_in_flight s' = [];
  dr_queues : Z.of_nat (length (prefill_queues s')) = num_endpoints env;
  dr_client : cl s' = cl s;
  dr_log : log s' = log s;
  dr_confirmed : prefill_confirmed s' = prefill_confirmed s;
  dr_backfill : backfill_queue s' = backfill_queue s;
}.

(** One iteration from [s] to [s']. *)
Record iterated `{Ratelimiter} `{Rng} `{Hashing} `{Client} (env : Env) (s s' : Conn) : Prop := {
  it_wf : wf_conn env s';
  it_held : Permutation (held s') (held s);
  it_sent : counted REQUESTS_SENT (log s') =
            counted REQUESTS_SENT (log s) + (Z.of_nat (pending_count (cl s')) - Z.of_nat (pending_count (cl s)));
  it_grows : (pending_count (cl s) <= pending_count (cl s'))%nat;
  it_depth : (pending_count (cl s') <= Nat.max (pending_count (cl s)) (pipeline_depth env))%nat;
  it_confirmed : prefill_confirmed s' = prefill_confirmed s;
}.

(** A state that differs in fields the invariant does not read keeps it. *)
Ltac fill_frame F := by (destruct F as [[[] ? ? ? ? ?] [] ? ? ? ?]; repeat constructor).

Section laws.
Context `{RatelimiterLaws} `{RngLaws} `{HashingLaws} `{ClientLaws} `{AddrParse}.
Variable env : Env.
Hypothesis WE : wf_env env.

Lemma value_offset_ok r :
  exists r' o, value_offset env r = Some (r', o) /\ 0 <= o <= pool_len env - value_len_ env.
Proof.
  pose proof (we_value _ WE). pose proof (we_pool _ WE). unfold value_offset.
  rewrite wrap64_small by lia.
  destruct (range_draw_ok 0 (pool_len env - value_len_ env + 1) r) as (r' & o & -> & ?); [lia|].
  exists r', o. split; [done|lia].
Qed.

(** A SET is built for the user data asked for. *)
Lemma set_fire_ok k ud r :
  exists r' f, set_fire env k ud r = Some (r', f) /\ fire_ud f = ud /\
               is_prefill f = has_marker ud PREFILL_MARKER.
Proof.
  unfold set_fire. destruct (value_offset_ok r) as (r' & o & -> & Ho). cbn.
  destruct (flavor env); [|eexists _, _; by split_and!].
  destruct (ZC_VALUE_THRESHOLD <=? value_len_ env); [eexists _, _; by split_and!|].
  rewrite (proj2 (Z.leb_le _ _)) by lia. eexists _, _; by split_and!.
Qed.

Lemma choose_fire_ok k r :
  exists r' f, choose_fire env k r = Some (r', f) /\ is_prefill f = false.
Proof.
  unfold choose_fire. destruct (range_draw_ok 0 100 r) as (r' & x & -> & _); [lia|]. cbn.
  destruct (x <? get_ratio env); [eexists _, _; by split|].
  destruct (x <? get_ratio env + delete_ratio env); [eexists _, _; by split|].
  destruct (set_fire_ok k 0 r') as (r2 & f & E & _ & Ep). eexists _, _; split; [exact E|by rewrite Ep].
Qed.

(** What a fire does to a connection inside a batch of kind [b]. *)
Lemma do_fire_spec n0 b f s fc s' ok d :
  batch_inv n0 b s fc -> sync s -> is_prefill f = b ->
  do_fire f s = (s', ok, d) ->
  prefill_queues s' = prefill_queues s /\ prefill_in_flight s' = prefill_in_flight s /\
  slot_table s' = slot_table s /\ routed s' = routed s /\ backfill_queue s' = backfill_queue s /\
  limiter_ s' = limiter_ s /\ pacer s' = pacer s /\ refused s' = refused s /\
  prefill_confirmed s' = prefill_confirmed s /\ g s' = g s /\
  counted REQUESTS_SENT (log s') = counted REQUESTS_SENT (log s) /\
  (if ok then
     d = 0%nat /\ pending (cl s') = pending (cl s) ++ [f] /\ inflight s' = inflight s /\
     batch_inv n0 b s' (S fc)
   else
     (d <= fc)%nat /\ length (fired (inflight s')) = pending_count (cl s') /\
     batch_inv n0 b s' (fc - d) /\
     prefill_ids (pending (cl s')) =
       if b then take (length (prefill_in_flight s) - d) (prefill_in_flight s)
       else prefill_in_flight s).
Proof.
  intros [Bc Bu Bk] [Sp Sf] Hf E. unfold do_fire in E.
  destruct (fire f (cl s)) as [c ok'] eqn:Ef. destruct ok'.
  - injection E as <- <- <-. destruct (fire_ok _ _ _ Ef) as [Ep Eu]. cbn. split_and!; try done.
    constructor; cbn.
    + unfold pending_count in *. rewrite Ep, length_app. cbn. lia.
    + lia.
    + rewrite Ep, drop_app_le by (unfold pending_count in *; lia).
      apply Forall_app. split; [done|by apply Forall_singleton].
  - destruct (fire_err _ _ _ Ef) as [Ep Eu]. unfold note_failed_fire, note_discarded in E. cbn in E.
    injection E as <- <- <-. cbn.
    pose proof (unflushed_le (cl s)) as Ul. unfold pending_count in *.
    assert (length (pending c) = length (pending (cl s)) - unflushed (cl s))%nat as Lc
      by (rewrite Ep, length_take; lia).
    replace (length (pending (cl s)) - length (pending c))%nat with (unflushed (cl s)) by lia.
    split_and!; try done.
    + rewrite counted_app, !counted_other by done. cbn. lia.
    + rewrite length_take. lia.
    + constructor; cbn; unfold pending_count.
      * lia.
      * lia.
      * rewrite Ep, skipn_firstn_comm. by apply Forall_take.
    + rewrite Ep, (prefill_ids_discard b n0) by (done || lia). by rewrite Sp.
Qed.

Lemma push_fired at_ q x : fired (push_queued at_ q x) = fired x ++ [at_].
Proof. unfold push_queued. cbn. by destruct (track_queued x). Qed.

Lemma fc_wrap n0 b s0 s fc d :
  fill_inv env n0 b s0 s fc -> (d <= fc)%nat -> wrap64 (Z.of_nat fc - Z.of_nat d) = Z.of_nat (fc - d).
Proof.
  intros F Hd. pose proof (fi_depth _ _ _ _ _ _ F). pose proof (we_depth _ WE).
  rewrite wrap64_small; lia.
Qed.

Lemma fill_note n0 b s0 s fc ms :
  counted REQUESTS_SENT ms = 0 -> fill_inv env n0 b s0 s fc -> fill_inv env n0 b s0 (note ms s) fc.
Proof.
  intros Hms F. assert (counted REQUESTS_SENT (log s ++ ms) = counted REQUESTS_SENT (log s0))
    by (rewrite counted_app, (fi_sent _ _ _ _ _ _ F); lia).
  fill_frame F.
Qed.

(** Firing a request that is not a prefill SET inside a batch: a success keeps
    the invariant once its send time is pushed, a failure does at once. *)
Lemma fire_other n0 s0 f s r fc s' ok d :
  fill_inv env n0 false s0 s fc -> (pending_count (cl s) < pipeline_depth env)%nat ->
  is_prefill f = false -> do_fire f (s <| g := r |>) = (s', ok, d) ->
  routed s' = routed s /\ backfill_queue s' = backfill_queue s /\
  if ok then
    pending_count (cl s') = S (pending_count (cl s)) /\ Z.of_nat fc + 1 = Z.of_nat (S fc) /\
    forall at_ q, fill_inv env n0 false s0 (s' <| inflight := push_queued at_ q (inflight s') |>) (S fc)
  else wrap64 (Z.of_nat fc - Z.of_nat d) = Z.of_nat (fc - d) /\ fill_inv env n0 false s0 s' (fc - d).
Proof.
  intros F Hp Hf E. assert (fill_inv env n0 false s0 (s <| g := r |>) fc) as F2 by fill_frame F.
  pose proof (sh_sync _ _ (fi_shape _ _ _ _ _ _ F2)) as Sy.
  pose proof (do_fire_spec _ _ _ _ _ _ _ _ (fi_batch _ _ _ _ _ _ F2) Sy Hf E) as T.
  pose proof (fc_wrap _ _ _ _ _ d F2) as W. destruct Sy as [Sp Sf].
  destruct F2 as [[_ Q1 Q2 Q3 Q4 Q5] [Bc _ _] D Hh Hs Hc].
  destruct T as (E1 & E2 & E3 & E4 & E5 & _ & _ & _ & E6 & _ & E7 & T).
  cbn in *. split; [done|]. split; [done|]. destruct ok.
  - destruct T as (-> & Ep & Ei & B).
    assert (prefill_ids (pending (cl s')) = prefill_ids (pending (cl s))) as Epi.
    { rewrite Ep, prefill_ids_app. cbn. rewrite Hf. apply app_nil_r. }
    assert (pending_count (cl s') = S (pending_count (cl s))) as El
      by (unfold pending_count; rewrite Ep, length_app; cbn; lia).
    split; [done|]. split; [lia|]. intros at_ q. destruct B as [B1 B2 B3].
    split; [split; [split|..]|..]; cbn; unfold held in *; cbn in *;
      rewrite ?E1, ?E2, ?E3, ?E4, ?E5, ?E6, ?Ei, ?Epi, ?E7; try done; try lia.
    rewrite push_fired, length_app, El. cbn. lia.
  - destruct T as (Hd & Hl & B & Epi). split; [auto|].
    split; [split; [split|..]|..]; cbn; unfold held in *; cbn in *;
      rewrite ?E1, ?E2, ?E3, ?E4, ?E5, ?E6, ?E7; try done.
    lia.
Qed.

Lemma Forall_removelast {A} (P : A -> Prop) l : Forall P l -> Forall P (removelast l).
Proof.
  destruct l as [|x l _] using rev_ind; [done|]. rewrite removelast_last. by intros [? _]%Forall_app.
Qed.

Lemma Forall_last {A} (P : A -> Prop) l x : Forall P l -> last l = Some x -> P x.
Proof. intros F E. apply last_Some_elem_of in E. by eapply Forall_forall. Qed.

Lemma take_backfill_inv n0 b s0 s fc now s1 key :
  fill_inv env n0 b s0 s fc -> take_backfill now s = (s1, key) ->
  fill_inv env n0 b s0 s1 fc /\ cl s1 = cl s /\ routed s1 = routed s /\
  (forall k, key = Some k -> small_id k).
Proof.
  intros F E. pose proof (sh_backfill _ _ (fi_shape _ _ _ _ _ _ F)) as Fb.
  assert (forall rl, fill_inv env n0 b s0 (s <| limiter_ := rl |>) fc) as F1.
  { intros rl. fill_frame F. }
  assert (forall rl, fill_inv env n0 b s0
    (s <| limiter_ := rl |> <| backfill_queue := removelast (backfill_queue s) |>) fc) as F2.
  { intros rl. pose proof (Forall_removelast _ _ Fb). fill_frame F. }
  unfold take_backfill in E.
  destruct (backfill_queue s) as [|k0 bq] eqn:Eb; [by injection E as <- <-|].
  destruct (limiter_ s) as [rl|]; [|by injection E as <- <-].
  destruct (limiter_try_wait now rl) as [rl' r]. rewrite <- Eb in *.
  destruct r; injection E as <- <-; (split; [done|]); cbn; split_and!; try done.
  intros k Ek. by eapply Forall_last.
Qed.

Lemma backfill_fire k r :
  small_id k -> exists r' f, set_fire env k (Z.lor k BACKFILL_MARKER) r = Some (r', f) /\ is_prefill f = false.
Proof.
  intros Hk. destruct (set_fire_ok k (Z.lor k BACKFILL_MARKER) r) as (r' & f & E & _ & Ep).
  exists r', f. split; [done|]. rewrite Ep, has_marker_lor by (done || tauto). done.
Qed.

Lemma routed_pop_inv n0 b s0 s fc q :
  fill_inv env n0 b s0 s fc -> routed s = Some q ->
  exists q' x, routed_pop (Z.to_nat (endpoint_idx env)) q = Some (q', x) /\
               fill_inv env n0 b s0 (s <| routed := Some q' |>) fc.
Proof.
  intros F Hq. pose proof (sh_routed _ _ (fi_shape _ _ _ _ _ _ F) q Hq) as Lq.
  pose proof (we_endpoint _ WE). unfold routed_pop.
  destruct (lookup_lt_is_Some_2 (nodes q) (Z.to_nat (endpoint_idx env))) as [nq Enq]; [lia|].
  assert (forall q', Z.of_nat (length (nodes q')) = num_endpoints env ->
            fill_inv env n0 b s0 (s <| routed := Some q' |>) fc) as T.
  { intros q' L. assert (forall q1, Some q' = Some q1 -> Z.of_nat (length (nodes q1)) = num_endpoints env)
      by (intros ? [= <-]; done). fill_frame F. }
  rewrite Enq. cbn [mbind option_bind]. destruct (requests nq) as [|x xs]; eexists _, _; (split; [done|]).
  - by apply T.
  - apply T. cbn. by rewrite length_insert.
Qed.

Lemma fill_routed_spec n0 s0 fuel now fa s fc :
  fill_inv env n0 false s0 s fc -> is_Some (routed s) ->
  (pipeline_depth env - pending_count (cl s) < fuel)%nat ->
  exists s' fc' failed, fill_routed_loop env fuel now fa s (Z.of_nat fc) = Some (s', Z.of_nat fc', failed) /\
                        fill_inv env n0 false s0 s' fc'.
Proof.
  revert s fc. induction fuel as [|fuel IH]; intros s fc F Hr Hf; [lia|]. cbn [fill_routed_loop].
  destruct (pending_count (cl s) <? pipeline_depth env)%nat eqn:Ed; cbn [negb]; [|by eexists _, _, _].
  apply Nat.ltb_lt in Ed. destruct (take_backfill (now fuel) s) as [s1 key] eqn:Et.
  destruct (take_backfill_inv _ _ _ _ _ _ _ _ F Et) as (F1 & Ec & Er & Hk).
  rewrite <- Ec in Ed, Hf. rewrite <- Er in Hr. clear Et Ec Er F. destruct key as [k|].
  - destruct (backfill_fire k (g s1) (Hk k eq_refl)) as (r' & f & -> & Hp). cbn [mbind option_bind].
    destruct (do_fire f (s1 <| g := r' |>)) as [[s2 ok] d] eqn:Efire.
    destruct (fire_other _ _ _ _ _ _ _ _ _ F1 Ed Hp Efire) as (Er & Eb & T). destruct ok.
    + destruct T as (Ep & -> & T). apply IH; [apply T|by cbn; rewrite Er|cbn; lia].
    + destruct T as [-> T]. eexists _, _, _. split; [done|].
      assert (Forall small_id (backfill_queue s2 ++ [k])).
      { apply Forall_app. split; [apply (sh_backfill _ _ (fi_shape _ _ _ _ _ _ T))|].
        apply Forall_singleton; auto. }
      fill_frame T.
  - destruct (routed s1) as [q|] eqn:Erq; [|by destruct Hr]. cbn [mbind option_bind].
    destruct (routed_pop_inv _ _ _ _ _ q F1 Erq) as (q' & x & -> & F2).
    cbn [mbind option_bind]. destruct x as [x|]; [|by eexists _, _, _].
    destruct (choose_fire_ok (Routed.key_id x) (g (s1 <| routed := Some q' |>))) as (r' & f & -> & Hp).
    cbn [mbind option_bind].
    destruct (do_fire f (s1 <| routed := Some q' |> <| g := r' |>)) as [[s2 ok] d] eqn:Efire.
    destruct (fire_other _ _ _ _ _ _ _ _ _ F2 Ed Hp Efire) as (Er & Eb & T). destruct ok.
    + destruct T as (Ep & -> & T). apply IH; [by apply fill_note|by cbn; rewrite Er|cbn in *; lia].
    + destruct T as [-> T]. by eexists _, _, _.
Qed.

Lemma route_ok s k :
  shape env s -> exists e, route env s k = Some e /\ 0 <= e < num_endpoints env.
Proof.
  intros Sh. pose proof (we_endpoint _ WE).
  destruct (route_owner (key_format env) (key_len env) (hash_ring env) (slot_table s) (num_endpoints env)
    (sh_table _ _ Sh) ltac:(lia) (we_ring _ WE) k) as [E R].
  unfold route, write. rewrite E. eauto.
Qed.

Lemma reject_pick_ok n0 b s0 n s fc :
  fill_inv env n0 b s0 s fc ->
  exists s' k, reject_pick env n s = Some (s', k) /\ fill_inv env n0 b s0 s' fc /\ cl s' = cl s.
Proof.
  revert s. induction n as [|n IH]; intros s F; cbn [reject_pick]; [by eexists _, _|].
  destruct (sample_total (key_dist env) (g s) (we_dist _ WE)) as (r & k & ->). cbn [mbind option_bind].
  assert (fill_inv env n0 b s0 (s <| g := r |>) fc) as F2 by fill_frame F.
  destruct (route_ok _ k (fi_shape _ _ _ _ _ _ F2)) as (e & -> & _).
  assert (exists e', match flavor env with
    | Resp => Some e | Memcache => if multi_endpoint env then Some e else Some (endpoint_idx env) end
    = Some e') as [e' ->] by (destruct (flavor env), (multi_endpoint env); eauto).
  cbn [mbind option_bind]. destruct (e' =? endpoint_idx env); [by eexists _, _|].
  destruct (IH _ F2) as (s' & k' & -> & ? & Ec). eexists _, _. split_and!; [done..|]. by rewrite Ec.
Qed.

Lemma pick_key_ok n0 b s0 s fc :
  fill_inv env n0 b s0 s fc ->
  exists s' k, pick_key env s = Some (s', k) /\ fill_inv env n0 b s0 s' fc /\ cl s' = cl s.
Proof.
  intros F. unfold pick_key, multi_endpoint. destruct (flavor env); [|by apply reject_pick_ok].
  destruct (1 <? num_endpoints env) eqn:Em; cbn [negb].
  - pose proof (we_endpoint _ WE). pose proof (we_keys _ WE ltac:(lia)) as Lk.
    destruct (key_dist env) as [n|z|rc] eqn:Ed; cbn [endpoint_sampler];
      [|destruct (by_endpoint z) as [ez|] eqn:Ez|]; try by apply reject_pick_ok.
    + destruct (lookup_lt_is_Some_2 (endpoint_keys env) (Z.to_nat (endpoint_idx env))) as [bk ->]; [lia|].
      cbn [mbind option_bind]. destruct bk as [|k0 bk]; [by eexists _, _|].
      destruct (range_draw_ok 0 (Z.of_nat (length (k0 :: bk))) (g s)) as (r & i & -> & Hi); [cbn; lia|].
      destruct (lookup_lt_is_Some_2 (k0 :: bk) (Z.to_nat i)) as [k Ek]; [lia|].
      cbn [mbind option_bind]. rewrite Ek. eexists _, _. split_and!; [done|fill_frame F|done].
    + destruct (we_sampler _ WE ez ltac:(rewrite Ed; exact Ez) (g s)) as (r & k & ->). cbn [mbind option_bind].
      eexists _, _. split_and!; [done|fill_frame F|done].
  - destruct (sample_total (key_dist env) (g s) (we_dist _ WE)) as (r & k & ->). cbn [mbind option_bind].
    eexists _, _. split_and!; [done|fill_frame F|done].
Qed.

Lemma backfill_pop_inv n0 b s0 s fc k :
  fill_inv env n0 b s0 s fc -> last (backfill_queue s) = Some k ->
  small_id k /\ fill_inv env n0 b s0 (s <| backfill_queue := removelast (backfill_queue s) |>) fc.
Proof.
  intros F Ek. pose proof (sh_backfill _ _ (fi_shape _ _ _ _ _ _ F)) as Fb.
  pose proof (Forall_removelast _ _ Fb). split; [exact (Forall_last _ _ _ Fb Ek)|]. fill_frame F.
Qed.

Lemma fill_warm_spec n0 s0 budget fa slip s fc :
  fill_inv env n0 false s0 s fc ->
  exists s' fc', fill_warm_loop env budget fa slip s (Z.of_nat fc) = Some (s', Z.of_nat fc') /\
                 (fc' <= fc + budget)%nat /\ fill_inv env n0 false s0 s' fc'.
Proof.
  assert (counted REQUESTS_SENT (slip_sample slip) = 0) as Hm by (by destruct slip).
  revert s fc. induction budget as [|budget IH]; intros s fc F; cbn [fill_warm_loop];
    [eexists _, _; split_and!; [done|lia|done]|].
  destruct (pending_count (cl s) <? pipeline_depth env)%nat eqn:Ed; cbn [negb];
    [|eexists _, _; split_and!; [done|lia|done]].
  apply Nat.ltb_lt in Ed. destruct (last (backfill_queue s)) as [k|] eqn:Ek.
  - destruct (backfill_pop_inv _ _ _ _ _ _ F Ek) as [Hk F1].
    set (s1 := s <| backfill_queue := _ |>) in *.
    destruct (backfill_fire k (g s1) Hk) as (r' & f & -> & Hp). cbn [mbind option_bind].
    destruct (do_fire f (s1 <| g := r' |>)) as [[s2 ok] d] eqn:Efire.
    destruct (fire_other _ _ _ _ _ _ _ _ _ F1 Ed Hp Efire) as (Er & Eb & T). destruct ok.
    + destruct T as (Ep & -> & T). edestruct IH as (s' & fc' & E & Lb & F'); [apply fill_note; [done|apply T]|].
      eexists _, _. split_and!; [exact E|lia|done].
    + destruct T as [-> T]. eexists _, _. split_and!; [done|lia|].
      assert (Forall small_id (backfill_queue s2 ++ [k])).
      { apply Forall_app. split; [apply (sh_backfill _ _ (fi_shape _ _ _ _ _ _ T))|].
        by apply Forall_singleton. }
      fill_frame T.
  - destruct (pick_key_ok _ _ _ _ _ F) as (s1 & k & -> & F1 & Ec). cbn [mbind option_bind].
    rewrite <- Ec in Ed. destruct k as [k|]; [|eexists _, _; split_and!; [done|lia|done]].
    destruct (choose_fire_ok k (g s1)) as (r' & f & -> & Hp). cbn [mbind option_bind].
    destruct (do_fire f (s1 <| g := r' |>)) as [[s2 ok] d] eqn:Efire.
    destruct (fire_other _ _ _ _ _ _ _ _ _ F1 Ed Hp Efire) as (Er & Eb & T). destruct ok.
    + destruct T as (Ep & -> & T). edestruct IH as (s' & fc' & E & Lb & F'); [apply fill_note; [done|apply T]|].
      eexists _, _. split_and!; [exact E|lia|done].
    + destruct T as [-> T]. eexists _, _. split_and!; [done|lia|done].
Qed.

(** Firing the key at the head of this endpoint's prefill queue. *)
Lemma fire_prefill n0 s0 s k q p r f fc s' ok d :
  fill_inv env n0 true s0 s fc -> prefill_queues s !! Z.to_nat (endpoint_idx env) = Some (k :: q) ->
  (pending_count (cl s) < pipeline_depth env)%nat -> is_prefill f = true -> id_of (fire_ud f) = k ->
  do_fire f (s <| prefill_queues := <[Z.to_nat (endpoint_idx env) := q]> (prefill_queues s) |>
               <| pacer := p |> <| g := r |>) = (s', ok, d) ->
  if ok then
    prefill_queues s' = <[Z.to_nat (endpoint_idx env) := q]> (prefill_queues s) /\
    Z.of_nat fc + 1 = Z.of_nat (S fc) /\
    forall at_, fill_inv env n0 true s0
      (s' <| prefill_in_flight := prefill_in_flight s' ++ [k] |> <| inflight := push at_ (inflight s') |>) (S fc)
  else
    wrap64 (Z.of_nat fc - Z.of_nat d) = Z.of_nat (fc - d) /\
    exists qs1 qs' fl', pq_push_front (prefill_queues s') (endpoint_idx env) k = Some qs1 /\
      requeue_newest d (endpoint_idx env) qs1 (prefill_in_flight s') = Some (qs', fl') /\
      fill_inv env n0 true s0 (s' <| prefill_queues := qs' |> <| prefill_in_flight := fl' |>) (fc - d).
Proof.
  intros F Eq Hp Hf Hk E. pose proof (fc_wrap _ _ _ _ _ d F) as W.
  destruct F as [[Sy Q1 Q2 Q3 Q4 Q5] B D Hh Hs Hc].
  eapply (do_fire_spec n0 true _ _ fc) in E; [|by destruct B|by destruct Sy|done].
  cbn in E. destruct E as (E1 & E2 & E3 & E4 & E5 & _ & _ & _ & E6 & _ & E7 & T). destruct ok.
  - destruct T as (-> & Ep & Ei & B'). split; [done|]. split; [lia|]. intros at_.
    pose proof (bi_count _ _ _ _ B). destruct B' as [B1 B2 B3], Sy as [Sp Sf].
    assert (Permutation (concat (<[Z.to_nat (endpoint_idx env):=q]> (prefill_queues s)) ++ prefill_in_flight s ++ [k])
              (held s)) as Hheld.
    { unfold held. rewrite (concat_pop _ _ _ _ Eq), app_assoc, Permutation_app_comm. done. }
    split; [split; [split|..]|..]; cbn; unfold held; cbn; rewrite ?E1, ?E2, ?E3, ?E4, ?E5, ?E6, ?E7, ?Ei; try done.
    + rewrite Ep, prefill_ids_app, Sp. cbn. by rewrite Hf, Hk.
    + unfold push, pending_count. rewrite push_fired, Ep, !length_app, Sf. done.
    + by rewrite length_insert.
    + by rewrite Hheld.
    + unfold pending_count in *. lia.
    + by rewrite Hheld.
  - destruct T as (Hd & Hl & B' & Epi). split; [by apply W|].
    assert (pq_push_front (prefill_queues s') (endpoint_idx env) k = Some (prefill_queues s)) as Efr.
    { unfold pq_push_front. rewrite E1, list_lookup_insert_eq by (by eapply lookup_lt_Some).
      cbn [mbind option_bind]. by rewrite list_insert_insert_eq, list_insert_id. }
    destruct (requeue_moves d (endpoint_idx env) _ (prefill_in_flight s') _ Eq) as (qs' & Er & Lq & P).
    eexists _, qs', _. split; [exact Efr|]. split; [exact Er|]. rewrite E2 in *.
    split; [split; [split|..]|..]; cbn; unfold held; cbn; rewrite ?E3, ?E4, ?E5, ?E6, ?E7; try done.
    + by rewrite Lq.
    + by rewrite P.
    + by destruct B'.
    + lia.
    + by rewrite P.
Qed.

(** A key whose owner is another endpoint moves to that endpoint's queue. *)
Lemma reroute_inv n0 b s0 s fc e k q to :
  fill_inv env n0 b s0 s fc -> prefill_queues s !! e = Some (k :: q) ->
  0 <= to < num_endpoints env -> Z.to_nat to <> e ->
  exists qs, pq_push_back (<[e := q]> (prefill_queues s)) to k = Some qs /\ qs !! e = Some q /\
    forall s', s' = s <| prefill_queues := <[e := q]> (prefill_queues s) |> <| prefill_queues := qs |> ->
               fill_inv env n0 b s0 s' fc.
Proof.
  intros F Eq Hto Hne. pose proof (sh_queues _ _ (fi_shape _ _ _ _ _ _ F)) as L.
  destruct (lookup_lt_is_Some_2 (prefill_queues s) (Z.to_nat to)) as [q2 E2]; [lia|].
  unfold pq_push_back. rewrite list_lookup_insert_ne, E2 by done. cbn [mbind option_bind].
  eexists. split; [done|]. split.
  { rewrite list_lookup_insert_ne, list_lookup_insert_eq by (done || by eapply lookup_lt_Some). done. }
  intros s' ->. destruct F as [[Sy Q1 Q2 Q3 Q4 Q5] B D Hh Hs Hc].
  set (qs := <[Z.to_nat to:=_]> _).
  assert (Permutation (concat qs) (concat (prefill_queues s))) as P.
  { unfold qs. rewrite (concat_push_back _ _ q2) by (by rewrite list_lookup_insert_ne).
    by rewrite <- (concat_pop _ _ _ _ Eq). }
  split; [split; [by destruct Sy|..]|..]; cbn; unfold held; cbn; try done.
  - unfold qs. by rewrite !length_insert.
  - by rewrite P.
  - by destruct B.
  - by rewrite P.
Qed.

Lemma prefill_fire k r :
  small_id k -> exists r' f, set_fire env k (Z.lor k PREFILL_MARKER) r = Some (r', f) /\
                             is_prefill f = true /\ id_of (fire_ud f) = k.
Proof.
  intros Hk. destruct (set_fire_ok k (Z.lor k PREFILL_MARKER) r) as (r' & f & E & Eu & Ep).
  exists r', f. split; [done|]. rewrite Ep, Eu, has_marker_lor by (done || tauto).
  split; [done|]. apply id_of_marked; [done|tauto].
Qed.

Lemma fill_prefill_spec n0 s0 fuel now fa s fc q :
  fill_inv env n0 true s0 s fc -> prefill_queues s !! Z.to_nat (endpoint_idx env) = Some q ->
  (length q < fuel)%nat ->
  exists s' fc', fill_prefill_loop env fuel now fa s (Z.of_nat fc) = Some (s', Z.of_nat fc') /\
                 fill_inv env n0 true s0 s' fc'.
Proof.
  revert s fc q. induction fuel as [|fuel IH]; intros s fc q F Eq Hf; [lia|]. cbn [fill_prefill_loop].
  destruct (pending_count (cl s) <? pipeline_depth env)%nat eqn:Ed; cbn [negb]; [|by eexists _, _].
  apply Nat.ltb_lt in Ed. unfold pq_pop_front at 1. rewrite Eq. cbn [mbind option_bind].
  destruct q as [|k q]; [by eexists _, _|]. cbn [mbind option_bind].
  set (e := Z.to_nat (endpoint_idx env)) in *.
  assert (exists to, (if multi_endpoint env
      then route env (s <| prefill_queues := <[e:=q]> (prefill_queues s) |>) k
      else Some (endpoint_idx env)) = Some to /\ 0 <= to < num_endpoints env) as (to & -> & Hto).
  { destruct (multi_endpoint env); [|eexists; split; [done|apply (we_endpoint _ WE)]].
    apply (route_ok s k (fi_shape _ _ _ _ _ _ F)). }
  cbn [mbind option_bind]. destruct (to =? endpoint_idx env) eqn:Et; cbn [negb].
  - destruct (match pacer s with Some p => _ | None => _ end) as [p [[]|sleep]].
    + assert (small_id k) as Hk.
      { eapply Forall_forall; [apply (sh_ids _ _ (fi_shape _ _ _ _ _ _ F))|]. unfold held.
        rewrite (concat_pop _ _ _ _ Eq). left. }
      set (s1 := s <| prefill_queues := _ |> <| pacer := p |>).
      destruct (prefill_fire k (g s1) Hk) as (r' & f & -> & Hpf & Hud). cbn [mbind option_bind].
      destruct (do_fire f (s1 <| g := r' |>)) as [[s2 ok] d] eqn:Efire.
      pose proof (fire_prefill _ _ _ _ _ _ _ _ _ _ _ _ F Eq Ed Hpf Hud Efire) as T. destruct ok.
      * destruct T as (E2 & -> & T). apply (IH _ _ q (T fa)); [|cbn in Hf; lia]. cbn.
        rewrite E2. apply list_lookup_insert_eq. by eapply lookup_lt_Some.
      * destruct T as (-> & qs1 & qs' & fl' & -> & T1 & T2). cbn [mbind option_bind].
        rewrite T1. by eexists _, _.
    + unfold pq_push_front; cbn. fold e. rewrite list_lookup_insert_eq by (by eapply lookup_lt_Some).
      cbn [mbind option_bind]. rewrite list_insert_insert_eq, list_insert_id by done.
      eexists _, _. split; [done|]. fill_frame F.
  - destruct (reroute_inv _ _ _ _ _ _ _ _ to F Eq Hto) as (qs & Ep & Eqs & T); [pose proof (we_endpoint _ WE); unfold e; lia|].
    cbn. rewrite Ep. cbn [mbind option_bind]. eapply IH; [by apply T|exact Eqs|cbn in Hf; lia].
Qed.

Lemma fill_start b s : wf_conn env s -> fill_inv env (pending_count (cl s)) b s s 0.
Proof.
  intros [Sh U]. split; try done; [|lia].
  split; [lia|lia|]. unfold pending_count. rewrite drop_all. done.
Qed.

Lemma token_budget_inv n0 b s0 s fc now s1 budget starved :
  fill_inv env n0 b s0 s fc -> token_budget env now s = (s1, budget, starved) -> fill_inv env n0 b s0 s1 fc.
Proof.
  intros F E. unfold token_budget in E.
  repeat case_match_hyp E; injection E as <- <- <-; (done || fill_frame F).
Qed.

Lemma publish_inv n0 b s0 s fc now : fill_inv env n0 b s0 s fc -> fill_inv env n0 b s0 (publish_slip now s) fc.
Proof. intros F. unfold publish_slip. repeat case_match_goal; (done || fill_frame F). Qed.

(** The whole fill of an iteration. *)
Lemma fill_spec phase prefill_done fuel now s :
  wf_conn env s ->
  (forall q, prefill_queues s !! Z.to_nat (endpoint_idx env) = Some q -> (length q < fuel)%nat) ->
  exists s' fc starved failed, fill env phase prefill_done fuel now s = Some (s', Z.of_nat fc, starved, failed) /\
    fill_inv env (pending_count (cl s)) (bool_decide (phase = Prefill)) s s' fc /\
    (serving phase = true -> routed s = None ->
       Z.of_nat fc <= Z.max 0 (snd (fst (token_budget env (now 0%nat) s)))).
Proof.
  intros W Hf. pose proof (fun b => fill_start b s W) as F. unfold fill.
  destruct (bool_decide (phase = Prefill) && negb prefill_done) eqn:Ep.
  - apply andb_prop in Ep as [Ep _]. rewrite Ep in *. apply bool_decide_eq_true in Ep.
    destruct (want_fire env s); [|eexists s, 0%nat, _, _; split_and!; [done..|lia]].
    pose proof (sh_queues _ _ (proj1 W)). pose proof (we_endpoint _ WE).
    destruct (lookup_lt_is_Some_2 (prefill_queues s) (Z.to_nat (endpoint_idx env))) as [q Eq]; [lia|].
    destruct (fill_prefill_spec _ _ fuel now (now 0%nat) _ 0%nat _ (F true) Eq (Hf _ Eq)) as (s' & fc & E & F').
    change (Z.of_nat 0) with 0 in E. rewrite E. eexists _, _, _, _. split_and!; [done..|by subst].
  - destruct (serving phase && want_fire env s) eqn:Es; [|eexists s, 0%nat, _, _; split_and!; [done..|lia]].
    apply andb_prop in Es as [Es _].
    assert (bool_decide (phase = Prefill) = false) as -> by (by destruct phase).
    destruct (routed s) as [q|] eqn:Er.
    + destruct (fill_routed_spec _ _ (S (pipeline_depth env)) now (now 0%nat) _ 0%nat (F false))
        as (s' & fc & failed & E & F'); [by rewrite Er|lia|].
      change (Z.of_nat 0) with 0 in E. rewrite E. by eexists _, _, _, _.
    + destruct (token_budget env (now 0%nat) s) as [[s1 budget] starved] eqn:Et.
      pose proof (token_budget_inv _ _ _ _ _ _ _ _ _ (F false) Et) as F1.
      set (slip := match limiter_ s1 with Some _ => _ | None => _ end).
      destruct (fill_warm_spec _ _ (Z.to_nat budget) (now 0%nat) slip _ 0%nat (publish_inv _ _ _ _ _ (now 0%nat) F1))
        as (s' & fc & E & Lb & F').
      change (Z.of_nat 0) with 0 in E. rewrite E. eexists _, _, _, _. split_and!; [done..|]. cbn. lia.
Qed.

Lemma flush_spec phase s0 s fc :
  fill_inv env (pending_count (cl s0)) (bool_decide (phase = Prefill)) s0 s fc ->
  exists s', flush_batch env phase s (Z.of_nat fc) = Some s' /\ iterated env s0 s' /\
    (pending_count (cl s') <= pending_count (cl s0) + fc)%nat.
Proof.
  intros F. pose proof (fc_wrap _ _ _ _ _ (unflushed (cl s)) F) as W.
  unfold flush_batch. set (b := bool_decide _) in *.
  destruct F as [[[Sp Sf] Q1 Q2 Q3 Q4 Q5] [Bc Bu Bk] D Hh Hs Hc].
  destruct (flush (cl s)) as [c ok] eqn:Ef. pose proof (unflushed_le (cl s)) as Ul. destruct ok.
  - destruct (flush_ok _ _ Ef) as [Ep Eu]. eexists. split; [done|]. unfold pending_count in *.
    (split; [|cbn; rewrite Ep; lia]); split; [split; [split; [split|..]|]|..]; cbn; unfold held, pending_count in *; cbn; rewrite ?Ep; try done.
    + rewrite counted_app, counted_same, Hs. cbn. lia.
    + lia.
    + lia.
  - destruct (flush_err _ _ Ef) as [Ep Eu]. unfold note_discarded. cbn.
    assert (length (pending c) = length (pending (cl s)) - unflushed (cl s))%nat as Lc
      by (rewrite Ep, length_take; lia).
    unfold pending_count in *.
    replace (length (pending (cl s)) - length (pending c))%nat with (unflushed (cl s)) by lia.
    rewrite W by done. set (m := [Count REQUESTS_SEND_FAILED _]).
    pose proof (prefill_ids_discard b _ (unflushed (cl s)) _ Bk) as Ei. rewrite Bc in Ei at 1.
    specialize (Ei ltac:(lia)).
    rewrite <- Ep, <- Sp in Ei. pose proof (we_endpoint _ WE).
    destruct (lookup_lt_is_Some_2 (prefill_queues s) (Z.to_nat (endpoint_idx env))) as [q Eq]; [lia|].
    destruct (requeue_moves (unflushed (cl s)) (endpoint_idx env) _ (prefill_in_flight s) _ Eq)
      as (qs' & Er & Lq & P).
    assert (counted REQUESTS_SENT ((log s ++ m) ++ [Count REQUESTS_SENT (Z.of_nat (fc - unflushed (cl s)))]) =
      counted REQUESTS_SENT (log s0) + (Z.of_nat (length (pending c)) - Z.of_nat (length (pending (cl s0))))) as Hsent.
    { rewrite !counted_app, counted_same, Hs. unfold m. rewrite counted_other by done. cbn. lia. }
    destruct b; cbn; [rewrite Er; cbn|]; (eexists; split; [done|]); (split; [|cbn; lia]);
      (split; [split; [split; [split|..]|]|..]; cbn; unfold held, pending_count in *; cbn;
       rewrite ?length_take, ?Lq, ?P; try done; try lia).
Qed.

Lemma drop_refusal_same s :
  cl (drop_refusal s) = cl s /\ held (drop_refusal s) = held s /\ log (drop_refusal s) = log s /\
  prefill_queues (drop_refusal s) = prefill_queues s /\
  prefill_in_flight (drop_refusal s) = prefill_in_flight s /\
  prefill_confirmed (drop_refusal s) = prefill_confirmed s /\
  routed (drop_refusal s) = routed s /\ backfill_queue (drop_refusal s) = backfill_queue s /\
  slot_table (drop_refusal s) = slot_table s /\ inflight (drop_refusal s) = inflight s.
Proof. unfold drop_refusal. by destruct (refused s). Qed.

Lemma drop_refusal_budget now s :
  snd (fst (token_budget env now (drop_refusal s))) = snd (fst (token_budget env now s)).
Proof. unfold drop_refusal, token_budget. destruct (refused s); cbn; by repeat case_match_goal. Qed.

Lemma drop_refusal_wf s : wf_conn env s -> wf_conn env (drop_refusal s).
Proof. intros [[[] ? ? ? ? ?] ?]. unfold drop_refusal. destruct (refused s); by repeat constructor. Qed.

(** Requeueing everything in flight. *)
Lemma drain_spec s :
  shape env s -> exists s', drain_prefill env s = Some s' /\ drained env s s'.
Proof.
  intros [_ Q1 Q2 _ _ _]. unfold drain_prefill.
  pose proof (we_endpoint _ WE).
  destruct (requeue_conserves (key_format env) (key_len env) (hash_ring env) _ _ Q2 ltac:(lia) (we_ring _ WE)
    (prefill_in_flight s) _ Q1) as (qs' & -> & P & L). eexists. split; [done|].
  split; try done. unfold held. cbn. by rewrite app_nil_r.
Qed.

(** What an iteration does: it ends the connection with every prefill key
    queued again, or stays well formed. *)
Lemma iterate_spec phase prefill_done has_dispatcher fuel now s :
  wf_conn env s ->
  (forall q, prefill_queues s !! Z.to_nat (endpoint_idx env) = Some q -> (length q < fuel)%nat) ->
  exists s' next, iterate env phase prefill_done has_dispatcher fuel now s = Some (s', next) /\
    match next with
    | Disconnect _ => drained env s s' /\ pending_count (cl s) = 0%nat
    | _ => iterated env s s' /\ (serving phase = true -> routed s = None ->
        Z.of_nat (pending_count (cl s') - pending_count (cl s)) <=
          Z.max 0 (snd (fst (token_budget env (now 0%nat) s))))
    end.
Proof.
  intros W Hf. pose proof (drop_refusal_wf _ W) as W1.
  destruct (drop_refusal_same s) as (Ec & Eh & El & Eq & _ & Ecf & Er & Eb & _). unfold iterate.
  assert (iterated env s (drop_refusal s)) as I0.
  { split; [done|by rewrite Eh|rewrite El, Ec; lia|rewrite Ec; lia|rewrite Ec; lia|done]. }
  destruct (bool_decide (phase = Stop)).
  { eexists _, _. split; [done|]. cbn. split; [done|]. rewrite Ec. lia. }
  destruct ((pending_count _ =? 0)%nat && _) eqn:Ed.
  - destruct (drain_spec _ (proj1 W1)) as (s' & -> & [P ? ? Ec' El' ? Eb']). cbn [mbind option_bind].
    eexists _, _. split; [done|]. apply andb_prop in Ed as [Ed _]. apply Nat.eqb_eq in Ed.
    rewrite Ec in Ed. split; [|done].
    split; [by rewrite P, Eh|done|done|by rewrite Ec'|by rewrite El'|congruence|by rewrite Eb'].
  - rewrite <- Eq in Hf.
    destruct (fill_spec phase prefill_done fuel now _ W1 Hf) as (s1 & fc & starved & failed & -> & F & Lb).
    cbn [mbind option_bind]. destruct (flush_spec _ _ _ _ F) as (s2 & -> & I & Lp). cbn [mbind option_bind].
    eexists _, _. split; [done|].
    assert (iterated env s (publish_slip (now 0%nat) s2)) as I2.
    { destruct I as [[Sh U] I2 I3 I4 I5 I6]. rewrite ?Ec, ?Eh, ?El, ?Ecf in *.
      unfold publish_slip. destruct (limiter_ s2); (split; [split; [|done]|..]; try done).
      by destruct Sh as [[] ? ? ? ? ?]. }
    assert (serving phase = true -> routed s = None ->
      Z.of_nat (pending_count (cl (publish_slip (now 0%nat) s2)) - pending_count (cl s)) <=
        Z.max 0 (snd (fst (token_budget env (now 0%nat) s)))) as Hb.
    { intros Hs Hr. rewrite Er, drop_refusal_budget in Lb. specialize (Lb Hs Hr). rewrite Ec in Lp.
      unfold publish_slip. destruct (limiter_ s2); cbn; lia. }
    unfold next_wait. by repeat case_match_goal.
Qed.

Lemma id_of_range ud : small_id (id_of ud).
Proof.
  unfold id_of, small_id. change USER_DATA_ID_MASK with (Z.ones 61). rewrite Z.land_ones by lia.
  apply Z.mod_pos_bound. lia.
Qed.

(** What the reply to a request says. *)
Lemma reply_spec f o :
  success (reply env f o) = o_ok o /\ prefill (reply env f o) = is_prefill f /\
  (is_prefill f = true -> rkey_id (reply env f o) = Some (id_of (fire_ud f))) /\
  (forall k, rkey_id (reply env f o) = Some k -> small_id k).
Proof.
  assert (forall ud k, Some (id_of ud) = Some k -> small_id k) as S by (intros ? ? [= <-]; apply id_of_range).
  unfold reply, map_respmeta, map_memcache_op.
  destruct f, (flavor env); cbn; try destruct (o_ok o); cbn; split_and!; try done;
    lazymatch goal with |- forall k, _ -> _ => intros ? E | _ => intros E end;
    try rewrite E; repeat case_match_hyp E; eauto; try done.
Qed.

Lemma counted_record r : counted REQUESTS_SENT (record_counters r) = 0.
Proof.
  unfold record_counters.
  by destruct (hit r) as [[]|], (request_type r), (bool_decide _), (is_error_response r).
Qed.

Lemma counted_routed r q sl : counted REQUESTS_SENT (record_routed_latency r q sl) = 0.
Proof. unfold record_routed_latency. by destruct (request_type r). Qed.

(** The prefill part of a reply's handling: the key leaves the connection,
    confirmed or back in the queue. *)
Lemma prefill_reply_spec f o fs s :
  prefill_in_flight s = prefill_ids (f :: fs) ->
  Z.of_nat (length (prefill_queues s)) = num_endpoints env ->
  exists s', on_prefill_reply env (reply env f o) s = Some s' /\
    prefill_in_flight s' = prefill_ids fs /\ Permutation (held s) (stored f o ++ held s') /\
    Z.of_nat (length (prefill_queues s')) = num_endpoints env /\
    prefill_confirmed s' = (if is_prefill f && o_ok o then wrap64 (prefill_confirmed s + 1) else prefill_confirmed s) /\
    cl s' = cl s /\ inflight s' = inflight s /\ slot_table s' = slot_table s /\ routed s' = routed s /\
    backfill_queue s' = backfill_queue s /\ log s' = log s.
Proof.
  intros Ei L. destruct (reply_spec f o) as (Es & Ep & _ & _). pose proof (we_endpoint _ WE).
  unfold on_prefill_reply, stored, held. rewrite Ep, Es, Ei. cbn in *. destruct (is_prefill f).
  2: { eexists. split; [done|]. rewrite Ei. cbn. by split_and!. }
  cbn. destruct (o_ok o); cbn.
  - eexists. split; [done|]. cbn. split_and!; try done. by rewrite Permutation_middle.
  - unfold pq_push_back.
    destruct (lookup_lt_is_Some_2 (prefill_queues s) (Z.to_nat (endpoint_idx env))) as [q Eq]; [lia|].
    rewrite Eq. cbn. eexists. split; [done|]. cbn. split_and!; try done.
    + rewrite (concat_push_back _ _ _ _ Eq). cbn. by rewrite Permutation_middle.
    + by rewrite length_insert.
Qed.

(** The backfill part: at most one key more, and never past the cap. *)
Lemma backfill_reply_spec r s :
  Forall small_id (backfill_queue s) -> (forall k, rkey_id r = Some k -> small_id k) ->
  exists bq ms, on_backfill_reply env r s = s <| backfill_queue := bq |> <| log := log s ++ ms |> /\
    Forall small_id bq /\ counted REQUESTS_SENT ms = 0 /\
    (length bq <= Nat.max (length (backfill_queue s)) BACKFILL_QUEUE_CAP)%nat.
Proof.
  intros F Hk. unfold on_backfill_reply.
  assert (exists bq, (match rkey_id r with
      | Some key_id =>
          if backfill_on_miss env && bool_decide (request_type r = Get) && success r &&
             bool_decide (hit r = Some false) && (length (backfill_queue s) <? BACKFILL_QUEUE_CAP)%nat
          then s <| backfill_queue := backfill_queue s ++ [key_id] |> else s
      | None => s
      end) = s <| backfill_queue := bq |> /\ Forall small_id bq /\
      (length bq <= Nat.max (length (backfill_queue s)) BACKFILL_QUEUE_CAP)%nat) as (bq & -> & Fb & Lb).
  { assert (s = s <| backfill_queue := backfill_queue s |>) as Es by (by destruct s).
    assert (length (backfill_queue s) <= Nat.max (length (backfill_queue s)) BACKFILL_QUEUE_CAP)%nat by lia.
    destruct (rkey_id r) as [k|]; [|by exists (backfill_queue s)].
    destruct (_ && (length _ <? _)%nat) eqn:E; [|by exists (backfill_queue s)].
    apply andb_prop in E as [_ E]. apply Nat.ltb_lt in E. eexists. split; [done|]. split.
    - apply Forall_app. split; [done|]. apply Forall_singleton; auto.
    - rewrite length_app. change (length [k]) with 1%nat. lia. }
  destruct (_ && success r); eexists bq, _; (split; [|split_and!; [done| |done]]).
  - unfold note. cbn. done.
  - done.
  - rewrite (app_nil_r (log s)). done.
  - done.
Qed.

Lemma redirect_spec r s :
  table_ok (num_endpoints env) (slot_table s) -> (forall rd, redirect r = Some rd -> slot rd < 16384) ->
  exists t ms, on_redirect env r s = Some (s <| slot_table := t |> <| log := log s ++ ms |>) /\
    table_ok (num_endpoints env) t /\ counted REQUESTS_SENT ms = 0.
Proof.
  intros T Hrd. unfold on_redirect.
  assert (s = s <| slot_table := slot_table s |> <| log := log s ++ [] |>) as Es
    by (rewrite app_nil_r; by destruct s).
  destruct (redirect r) as [rd|]; [|by exists (slot_table s), []; rewrite <- Es].
  destruct (flavor env); [|by exists (slot_table s), []; rewrite <- Es].
  pose proof (we_small _ WE). rewrite <- (we_endpoints _ WE) in *.
  destruct (redirect_ok rd (endpoints env) _ T) as (t & -> & T'); [done|by apply Hrd|].
  eexists _, _. by split_and!.
Qed.

(** Handling a reply: the request leaves the connection, which stays well
    formed; a stored key leaves [held], no other key does. *)
Lemma on_reply_spec f fs o s :
  wf_conn env s -> pending (cl s) = f :: fs ->
  (forall rd, redirect (reply env f o) = Some rd -> slot rd < 16384) ->
  exists s', on_reply env (reply env f o) (s <| cl := take_reply (cl s) |>) = Some s' /\
    wf_conn env s' /\ Permutation (held s) (stored f o ++ held s') /\ pending (cl s') = fs /\
    prefill_confirmed s' = (if is_prefill f && o_ok o then wrap64 (prefill_confirmed s + 1) else prefill_confirmed s) /\
    counted REQUESTS_SENT (log s') = counted REQUESTS_SENT (log s) /\
    (length (backfill_queue s') <= Nat.max (length (backfill_queue s)) BACKFILL_QUEUE_CAP)%nat.
Proof.
  intros [[[Sp Sf] Q1 Q2 Q3 Q4 Q5] U] Epend Hrd. unfold on_reply, pop.
  set (s0 := s <| cl := take_reply (cl s) |>).
  destruct (drop_refusal_same s0) as (Ec & Eh & El & Eq & Ep & Ecf & Er & Eb & Et & Ei).
  set (s1 := drop_refusal s0) in *. unfold pending_count in Sf. rewrite Epend in *.
  set (x := (inflight s1) <| fired := _ |> <| queued := _ |>).
  destruct (prefill_reply_spec f o fs (s1 <| inflight := x |>))
    as (s2 & -> & P1 & P2 & P3 & P4 & P5 & P6 & P7 & P8 & P9 & P10); [by cbn; rewrite Ep|by cbn; rewrite Eq|].
  cbn [mbind option_bind]. cbn in P4, P5, P6, P7, P8, P9, P10.
  destruct (backfill_reply_spec (reply env f o) s2) as (bq & ms & -> & Fb & Hm & Lb);
    [by rewrite P9, Eb|apply (reply_spec f o)|].
  destruct (redirect_spec (reply env f o) (s2 <| backfill_queue := bq |> <| log := log s2 ++ ms |>))
    as (t & ms' & -> & Ht & Hm'); [by cbn; rewrite P7, Et|done|].
  cbn [mbind option_bind]. eexists. split; [reflexivity|].
  assert (pending (cl s2) = fs) as Epend' by (rewrite P5, Ec; cbn; by rewrite take_reply_tail, Epend).
  assert (Permutation (held s) (stored f o ++ held s2)) as Hh by (rewrite <- P2; unfold held; cbn; by rewrite Eq, Ep).
  assert (Forall small_id (held s2)) as Fh by (rewrite Hh in Q3; by apply Forall_app in Q3 as [_ ?]).
  assert (counted REQUESTS_SENT (log s2) = counted REQUESTS_SENT (log s)) as Hl by (by rewrite P10, El).
  assert (prefill_confirmed s1 = prefill_confirmed s) as Ecf' by done. rewrite Ecf' in P4.
  assert (length (tail (fired (inflight s))) = length fs) as Lf by (destruct (fired (inflight s)); cbn in *; lia).
  pose proof (counted_record (reply env f o)) as Hc. remember (record_counters (reply env f o)) as rc eqn:Erc.
  clear Erc. set (s3 := note rc _).
  assert (forall s4, (s4 = s3 \/ exists ms4, counted REQUESTS_SENT ms4 = 0 /\ s4 = note ms4 s3) ->
    wf_conn env s4 /\ Permutation (held s) (stored f o ++ held s4) /\ pending (cl s4) = fs /\
    prefill_confirmed s4 = (if is_prefill f && o_ok o then wrap64 (prefill_confirmed s + 1) else prefill_confirmed s) /\
    counted REQUESTS_SENT (log s4) = counted REQUESTS_SENT (log s) /\
    (length (backfill_queue s4) <= Nat.max (length (backfill_queue s)) BACKFILL_QUEUE_CAP)%nat) as T.
  { intros s4 [->|(ms4 & Hm4 & ->)]; (split; [split; [split; [split|..]|]|split_and!]); cbn; unfold held, pending_count; cbn;
      rewrite ?P6, ?P8, ?Er, ?Epend', ?counted_app, ?Hm, ?Hm', ?Hc, ?Hm4; try done; try lia.
    all: try (by rewrite P5, Ec; apply take_reply_flushed).
    all: try (rewrite P9, Eb in Lb; exact Lb).
    all: try (unfold x; cbn; by rewrite Ei). }
  destruct (routed s3); apply T; [right; eexists; split; [apply counted_routed|done]|by left].
Qed.

End laws.

(** A fill reports starvation only when the limiter refused its batch. *)
Lemma fill_starved `{Ratelimiter} `{Rng} `{Hashing} `{Client} env phase prefill_done fuel now s s' fc failed :
  fill env phase prefill_done fuel now s = Some (s', fc, true, failed) ->
  serving phase = true /\ exists rl, limiter_ s = Some rl /\ carried_tokens s <= 0 /\
    let n := Z.min (batch_size env) (limiter_max_tokens rl) in
    n <= 0 \/ snd (limiter_try_wait_n (now 0%nat) n rl) <> Taken.
Proof.
  unfold fill. destruct (bool_decide _ && _).
  { destruct (want_fire env s); [|done]. by destruct (fill_prefill_loop _ _ _ _ _ _) as [[]|]. }
  destruct (serving phase && _) eqn:Es; [|done]. apply andb_prop in Es as [-> _].
  destruct (routed s); [by destruct (fill_routed_loop _ _ _ _ _ _) as [[[]]|]|].
  destruct (token_budget env (now 0%nat) s) as [[s1 n] starved] eqn:Et.
  destruct (fill_warm_loop _ _ _ _ _ _) as [[]|]; [|done]. intros [= _ _ -> _]. split; [done|].
  unfold token_budget in Et. destruct (limiter_ s) as [rl|]; [|done].
  destruct (0 <? carried_tokens s) eqn:Ec; [done|]. exists rl. split_and!; [done|lia|].
  set (m := Z.min _ _) in *. destruct (0 <? m) eqn:En; [right|left; lia].
  destruct (limiter_try_wait_n _ _ rl) as [rl' r]. by destruct r.
Qed.

Section agreement.
Context `{Ratelimiter} `{Rng} `{Hashing} `{Client}.
Variable env : Env.
Hypothesis (one_endpoint : num_endpoints env <= 1) (by_guard : ZC_VALUE_THRESHOLD <= value_len_ env).

Local Abbreviation mc := (with_flavor Memcache env).

Local Abbreviation rp := (with_flavor Resp env).

Lemma agree_set_fire k ud r : set_fire mc k ud r = set_fire rp k ud r.
Proof.
  unfold set_fire. cbn. rewrite (proj2 (Z.leb_le _ _) by_guard).
  by change (value_offset mc r) with (value_offset rp r).
Qed.

Lemma agree_choose_fire k r : choose_fire mc k r = choose_fire rp k r.
Proof.
  unfold choose_fire. destruct (range_draw 0 100 r) as [[r' x]|]; [|done]. cbn.
  by rewrite agree_set_fire.
Qed.

Lemma agree_pick_key s : pick_key mc s = pick_key rp s.
Proof.
  unfold pick_key, multi_endpoint, routing_tries. cbn.
  destruct (1 <? num_endpoints env) eqn:E; [lia|]. cbn.
  assert (exists n, Z.to_nat (max_routing_attempts (num_endpoints env)) = S n) as [n ->].
  { exists (Z.to_nat (max_routing_attempts (num_endpoints env)) - 1)%nat.
    unfold max_routing_attempts. lia. }
  cbn [reject_pick]. unfold multi_endpoint. cbn. rewrite E.
  destruct (sample (key_dist env) (g s)) as [[r k]|]; [|done]. cbn. by rewrite Z.eqb_refl.
Qed.

Lemma agree_prefill fuel now fa s fc :
  fill_prefill_loop mc fuel now fa s fc = fill_prefill_loop rp fuel now fa s fc.
Proof.
  revert s fc. induction fuel as [|fuel IH]; intros s fc; [done|]. cbn [fill_prefill_loop].
  unfold multi_endpoint. cbn [with_flavor num_endpoints pipeline_depth endpoint_idx].
  destruct (1 <? num_endpoints env) eqn:E; [lia|].
  destruct (negb _); [done|]. destruct (pq_pop_front _ _) as [[qs [k|]]|]; [|done..]. cbn.
  rewrite Z.eqb_refl. cbn.
  destruct (match pacer s with Some p => _ | None => _ end) as [p [[]|sleep]]; [|done].
  rewrite agree_set_fire. destruct (set_fire rp _ _ _) as [[r f]|]; [|done]. cbn.
  destruct (do_fire f _) as [[s' ok] d]. destruct ok; [apply IH|done].
Qed.

Lemma agree_routed fuel now fa s fc :
  fill_routed_loop mc fuel now fa s fc = fill_routed_loop rp fuel now fa s fc.
Proof.
  revert s fc. induction fuel as [|fuel IH]; intros s fc; [done|]. cbn [fill_routed_loop].
  cbn [with_flavor pipeline_depth endpoint_idx].
  destruct (negb _); [done|]. destruct (take_backfill _ _) as [s1 [k|]].
  - rewrite agree_set_fire. destruct (set_fire rp _ _ _) as [[r f]|]; [|done]. cbn.
    destruct (do_fire f _) as [[s' ok] d]. destruct ok; [apply IH|done].
  - destruct (routed s1) as [q|]; [|done]. cbn [mbind option_bind]. destruct (routed_pop _ q) as [[q' [x|]]|]; [|done..].
    cbn [mbind option_bind]. rewrite agree_choose_fire. destruct (choose_fire rp _ _) as [[r f]|]; [|done]. cbn.
    destruct (do_fire f _) as [[s' ok] d]. destruct ok; [apply IH|done].
Qed.

Lemma agree_warm budget fa slip s fc :
  fill_warm_loop mc budget fa slip s fc = fill_warm_loop rp budget fa slip s fc.
Proof.
  revert s fc. induction budget as [|budget IH]; intros s fc; [done|]. cbn [fill_warm_loop].
  cbn [with_flavor pipeline_depth endpoint_idx]. destruct (negb _); [done|].
  destruct (last _) as [k|].
  - rewrite agree_set_fire. destruct (set_fire rp _ _ _) as [[r f]|]; [|done]. cbn.
    destruct (do_fire f _) as [[s' ok] d]. destruct ok; [apply IH|done].
  - rewrite agree_pick_key. destruct (pick_key rp s) as [[s1 [k|]]|]; [|done..].
    cbn [mbind option_bind]. rewrite agree_choose_fire. destruct (choose_fire rp _ _) as [[r f]|]; [|done]. cbn.
    destruct (do_fire f _) as [[s' ok] d]. destruct ok; [apply IH|done].
Qed.

Lemma agree_fill phase pd fuel now s : fill mc phase pd fuel now s = fill rp phase pd fuel now s.
Proof.
  unfold fill. change (want_fire mc s) with (want_fire rp s).
  change (token_budget mc (now 0%nat) s) with (token_budget rp (now 0%nat) s).
  change (pipeline_depth mc) with (pipeline_depth rp). rewrite agree_prefill, agree_routed.
  destruct (token_budget rp (now 0%nat) s) as [[s1 n] starved]. by rewrite agree_warm.
Qed.

End agreement.

(** ** Properties *)

(** C2: an iteration of the connection loop never panics and never loses or
    repeats a prefill key: for every phase, answer of the network and state of
    the queues it ends, and the keys queued or in flight are the same keys
    before and after.  Ending the connection puts every key in flight back in
    a queue; otherwise the connection's bookkeeping still matches the client's
    requests in flight. *)
Theorem iteration_conserves_prefill `{RatelimiterLaws} `{RngLaws} `{HashingLaws} `{ClientLaws}
    env phase prefill_done has_dispatcher fuel now s :
  wf_env env -> wf_conn env s ->
  (forall q, prefill_queues s !! Z.to_nat (endpoint_idx env) = Some q -> (length q < fuel)%nat) ->
  exists s' next, iterate env phase prefill_done has_dispatcher fuel now s = Some (s', next) /\
    Permutation (held s') (held s) /\
    match next with Disconnect _ => prefill_in_flight s' = [] | _ => wf_conn env s' end.
Proof.
  intros WE W Hf.
  destruct (iterate_spec env WE phase prefill_done has_dispatcher fuel now s W Hf) as (s' & next & E & T).
  exists s', next. split; [done|].
  destruct next; destruct_hyps;
    match goal with I : iterated _ _ _ |- _ => by destruct I | I : drained _ _ _ |- _ => by destruct I end.
Qed.

(** C13: [REQUESTS_SENT] is exact: over an iteration it grows by the requests
    that joined the pipeline and stayed, discounting those a failed fire or
    flush discarded, never below zero; the pipeline stays within its depth. *)
Theorem requests_sent_exact `{RatelimiterLaws} `{RngLaws} `{HashingLaws} `{ClientLaws}
    env phase prefill_done has_dispatcher fuel now s s' next :
  wf_env env -> wf_conn env s ->
  (forall q, prefill_queues s !! Z.to_nat (endpoint_idx env) = Some q -> (length q < fuel)%nat) ->
  iterate env phase prefill_done has_dispatcher fuel now s = Some (s', next) ->
  counted REQUESTS_SENT (log s') - counted REQUESTS_SENT (log s) =
    Z.of_nat (pending_count (cl s')) - Z.of_nat (pending_count (cl s)) /\
  (pending_count (cl s) <= pending_count (cl s') <=
     Nat.max (pending_count (cl s)) (pipeline_depth env))%nat.
Proof.
  intros WE W Hf E.
  destruct (iterate_spec env WE phase prefill_done has_dispatcher fuel now s W Hf) as (s1 & next1 & E1 & T).
  rewrite E in E1. injection E1 as <- <-.
  destruct next; destruct_hyps;
    match goal with
    | I : iterated _ _ _ |- _ => destruct I; lia
    | I : drained _ _ _ |- _ => destruct I as [? ? ? Ec El]; rewrite Ec, El; lia
    end.
Qed.


(** C4: a reply settles exactly its own request: it leaves the pipeline, a
    stored prefill key is confirmed once and leaves the keys owed, a failed one
    goes back to the queue, any other reply changes neither; the bookkeeping
    still matches the client, and the backfill queue stays within its cap. *)
Theorem reply_settles_request `{RatelimiterLaws} `{RngLaws} `{HashingLaws} `{ClientLaws} `{AddrParse}
    env f fs o s :
  wf_env env -> wf_conn env s -> pending (cl s) = f :: fs ->
  (forall rd, redirect (reply env f o) = Some rd -> slot rd < 16384) ->
  exists s', on_reply env (reply env f o) (s <| cl := take_reply (cl s) |>) = Some s' /\
    wf_conn env s' /\ pending (cl s') = fs /\
    Permutation (held s) ((if is_prefill f && o_ok o then [id_of (fire_ud f)] else []) ++ held s') /\
    prefill_confirmed s' =
      (if is_prefill f && o_ok o then wrap64 (prefill_confirmed s + 1) else prefill_confirmed s) /\
    (length (backfill_queue s') <= Nat.max (length (backfill_queue s)) BACKFILL_QUEUE_CAP)%nat.
Proof.
  intros WE W Ep Hrd. destruct (on_reply_spec env WE f fs o s W Ep Hrd) as (s' & E & T).
  exists s'. destruct_hyps. by split_and!.
Qed.

(** The loop waits for what can come: it waits for a reply only with a
    request in flight, joins the routed queue or sleeps or parks on the token
    dispatcher only with none, parks only when the limiter refused this batch,
    sleeps at least the idle minimum, and ends only at the stop phase or on a
    dead connection. *)
Theorem wait_matches_pipeline `{Ratelimiter} `{Rng} `{Hashing} `{Client}
    env phase prefill_done has_dispatcher fuel now s s' next :
  iterate env phase prefill_done has_dispatcher fuel now s = Some (s', next) ->
  match next with
  | Finished => phase = Stop
  | Disconnect r => r = Eof /\ pending_count (cl s) = 0%nat /\ is_alive (cl s) = false
  | WaitRouted => pending_count (cl s') = 0%nat /\ serving phase = true /\ is_Some (routed s')
  | AcquireTokens n =>
      pending_count (cl s') = 0%nat /\ n = batch_size env /\ serving phase = true /\
      exists rl, limiter_ s = Some rl /\ carried_tokens s <= 0 /\
        let n := Z.min (batch_size env) (limiter_max_tokens rl) in
        n <= 0 \/ snd (limiter_try_wait_n (now 0%nat) n rl) <> Taken
  | SleepFor d => pending_count (cl s') = 0%nat /\ IDLE_SLEEP_MIN <= d
  | RoutedOrRecv => pending_count (cl s') <> 0%nat /\ is_Some (routed s') /\ want_fire env s' = true
  | Recv => pending_count (cl s') <> 0%nat
  end.
Proof.
  intros E. unfold iterate in E. destruct (drop_refusal_same s) as (Ec & _ & _ & _ & _ & _ & Er & _).
  destruct (bool_decide (phase = Stop)) eqn:Es; [injection E as <- <-; by apply bool_decide_eq_true in Es|].
  destruct ((_ =? 0)%nat && _) eqn:Ed.
  { destruct (drain_prefill env (drop_refusal s)); [|done]. injection E as <- <-. rewrite Ec in Ed.
    apply andb_prop in Ed as [Ed Ea]. apply Nat.eqb_eq in Ed. by apply negb_true_iff in Ea. }
  destruct (fill env phase prefill_done fuel now (drop_refusal s)) as [[[[s1 fc] starved] failed]|] eqn:Ef; [|done].
  cbn [mbind option_bind] in E. destruct (flush_batch env phase s1 fc) as [s2|]; [|done].
  cbn [mbind option_bind] in E. injection E as <- <-. set (s3 := publish_slip _ s2). unfold next_wait.
  destruct (pending_count (cl s3) =? 0)%nat eqn:Ep.
  - apply Nat.eqb_eq in Ep. destruct (bool_decide (is_Some (routed s3)) && serving phase && negb failed) eqn:Ew.
    + apply andb_prop in Ew as [[Ew ?]%andb_prop _]. apply bool_decide_eq_true in Ew. done.
    + destruct (has_dispatcher && starved) eqn:Est.
      * apply andb_prop in Est as [_ ->]. destruct (fill_starved _ _ _ _ _ _ _ _ _ Ef) as (? & rl & El & Ect & Er2).
        split_and!; [done..|]. exists rl. unfold drop_refusal in El, Ect. by destruct (refused s).
      * split; [done|]. destruct (refused s3); lia.
  - apply Nat.eqb_neq in Ep. destruct (_ && recv_ready _) eqn:Ew; [|done].
    apply andb_prop in Ew as [[[[Ew ?]%andb_prop _]%andb_prop Ew2]%andb_prop _]. by apply bool_decide_eq_true in Ew.
Qed.

(** The two protocols drive a connection alike: with one endpoint and
    values large enough to be sent by guard, an iteration of the memcache loop
    is an iteration of the RESP loop, whatever the phase and state. *)
Theorem protocol_loops_agree `{Ratelimiter} `{Rng} `{Hashing} `{Client}
    env phase prefill_done has_dispatcher fuel now s :
  num_endpoints env <= 1 -> ZC_VALUE_THRESHOLD <= value_len_ env ->
  drive_memcache_iterate env phase prefill_done has_dispatcher fuel now s =
  drive_resp_iterate env phase prefill_done has_dispatcher fuel now s.
Proof.
  intros Ho Hz. unfold drive_memcache_iterate, drive_resp_iterate, iterate.
  by rewrite agree_fill.
Qed.

(** *** Witnesses *)

(** A client over a network that works until it does not: requests are kept
    with the count of those unflushed. *)
Record SimpleClient := { sc_pending : list Fire; sc_unflushed : nat; sc_alive : bool }.

Definition sc_discard (c : SimpleClient) : SimpleClient :=
  {| sc_pending := take (length (sc_pending c) - sc_unflushed c) (sc_pending c);
     sc_unflushed := 0; sc_alive := sc_alive c |}.

(** [sc_unflushed] read within the requests pending. *)
Definition sc_norm (c : SimpleClient) : nat := Nat.min (sc_unflushed c) (length (sc_pending c)).

Definition simple_client : Client :=
  {| client := SimpleClient; pending := sc_pending; unflushed := sc_norm; is_alive := sc_alive;
     recv_ready := sc_alive;
     fire f c :=
       if sc_alive c
       then ({| sc_pending := sc_pending c ++ [f]; sc_unflushed := S (sc_norm c); sc_alive := true |}, true)
       else (sc_discard {| sc_pending := sc_pending c; sc_unflushed := sc_norm c; sc_alive := false |}, false);
     flush c :=
       if sc_alive c
       then ({| sc_pending := sc_pending c; sc_unflushed := 0; sc_alive := true |}, true)
       else (sc_discard {| sc_pending := sc_pending c; sc_unflushed := sc_norm c; sc_alive := false |}, false);
     take_reply c :=
       {| sc_pending := tail (sc_pending c); sc_unflushed := sc_unflushed c; sc_alive := sc_alive c |} |}.

Lemma simple_client_laws : @ClientLaws simple_client.
Proof.
  constructor; cbn.
  - intros c. unfold sc_norm. lia.
  - intros f c c'. destruct (sc_alive c); [|done]. intros [= <-]. split; [done|].
    unfold sc_norm. cbn [sc_unflushed sc_pending]. rewrite length_app. lia.
  - intros f c c'. destruct (sc_alive c); [done|]. by intros [= <-].
  - intros c c'. destruct (sc_alive c); [|done]. by intros [= <-].
  - intros c c'. destruct (sc_alive c); [done|]. by intros [= <-].
  - done.
  - intros c E. unfold sc_norm in *. cbn. destruct (sc_pending c); cbn in *; lia.
Qed.

(** Two endpoints, eight keys, pipelines four deep, batches of two. *)
Definition example_loop_env : @Env example_hashing :=
  {| flavor := Resp; key_format := Hex; key_len := 4%nat;
     hash_ring := ["a"; "b"]%string : @ring example_hashing; num_endpoints := 2; endpoint_idx := 0;
     pipeline_depth := 4; batch_size := 2; get_ratio := 80; delete_ratio := 0; value_len_ := 64;
     pool_len := 1024; backfill_on_miss := true; key_dist := KUniform 8;
     endpoint_keys := [[0; 2; 4; 6]; [1; 3; 5; 7]]; endpoints := example_nodes |}.

Lemma example_loop_env_ok : @wf_env counting_rng example_hashing example_loop_env.
Proof.
  constructor; cbn; unfold u64_max; try lia; try done.
  intros k. exact (@ring_route_range example_hashing example_hashing_laws ["a"; "b"]%string k ltac:(done)).
Qed.

Definition example_pending : list Fire :=
  [FireSet (write_key Hex 4 2) 10 64 (Z.lor 2 PREFILL_MARKER);
   FireSet (write_key Hex 4 4) 20 64 (Z.lor 4 PREFILL_MARKER)].

Lemma example_pending_ids : prefill_ids example_pending = [2; 4].
Proof. by vm_compute. Qed.

(** A connection to endpoint 0, two SETs in flight and three keys queued. *)
Definition example_conn : @Conn simple_ratelimiter counting_rng simple_client :=
  {| cl := {| sc_pending := example_pending; sc_unflushed := 0; sc_alive := true |}
           : @client simple_client;
     g := 0 : @rng counting_rng; prefill_queues := [[0; 6; 8]; [1; 3]]; limiter_ := None; pacer := None;
     refused := None; routed := None; slot_table := None;
     inflight := {| fired := [5; 6]; queued := []; track_queued := false; timeout := 1000; timer := None |};
     prefill_in_flight := [2; 4]; backfill_queue := []; carried_tokens := 0;
     slip_state := new_slip; prefill_confirmed := 3; log := [] |}.

Lemma example_conn_wf :
  @wf_conn simple_ratelimiter counting_rng example_hashing simple_client example_loop_env example_conn.
Proof.
  split; [|reflexivity]. split; [|done|exact I| |by apply Forall_nil|done].
  - split; [symmetry; exact example_pending_ids|reflexivity].
  - change (Forall small_id [0; 6; 8; 1; 3; 2; 4]). unfold small_id. forall_lia.
Qed.

Lemma example_fuel q :
  prefill_queues example_conn !! Z.to_nat (endpoint_idx example_loop_env) = Some q -> (length q < 9)%nat.
Proof. cbn. intros [= <-]. cbn. lia. Qed.

Lemma iteration_conserves_prefill_witness :
  exists s' next, iterate example_loop_env Prefill false false 9 (fun _ => 100) example_conn = Some (s', next) /\
    Permutation (held s') [0; 6; 8; 1; 3; 2; 4].
Proof.
  destruct (@iteration_conserves_prefill simple_ratelimiter simple_ratelimiter_laws counting_rng
    counting_rng_laws example_hashing example_hashing_laws simple_client simple_client_laws
    example_loop_env Prefill false false 9 (fun _ => 100) example_conn example_loop_env_ok example_conn_wf
    example_fuel) as (s' & next & E & P & _).
  exists s', next. split; [exact E|exact P].
Defined.

(** The state an iteration reaches; the argument's when it panics. *)
Definition after `{Ratelimiter} `{Rng} `{Client} (r : option (Conn * Next)) (s : Conn) : Conn :=
  match r with Some (s, _) => s | None => s end.

Local Abbreviation example_iterate phase :=
  (@iterate simple_ratelimiter counting_rng example_hashing simple_client example_loop_env phase false true 9%nat
    (fun _ => 100) example_conn).

Lemma example_iterate_some phase : exists next, example_iterate phase = Some (after (example_iterate phase) example_conn, next).
Proof.
  destruct (@iterate_spec simple_ratelimiter counting_rng counting_rng_laws example_hashing
    example_hashing_laws simple_client simple_client_laws example_loop_env example_loop_env_ok phase false true 9
    (fun _ => 100) example_conn example_conn_wf example_fuel) as (s' & next & E & _).
  exists next. rewrite E. reflexivity.
Qed.

Lemma requests_sent_exact_witness :
  counted REQUESTS_SENT (log (after (example_iterate Prefill) example_conn)) = 2.
Proof.
  destruct (example_iterate_some Prefill) as [next E].
  destruct (@requests_sent_exact simple_ratelimiter simple_ratelimiter_laws counting_rng
    counting_rng_laws example_hashing example_hashing_laws simple_client simple_client_laws
    example_loop_env Prefill false true 9 (fun _ => 100) example_conn _ next example_loop_env_ok
    example_conn_wf example_fuel E) as [S _].
  assert (Z.of_nat (pending_count (cl (after (example_iterate Prefill) example_conn))) = 4) as P.
  { vm_compute. reflexivity. }
  change (counted REQUESTS_SENT (log example_conn)) with 0 in S.
  change (Z.of_nat (pending_count (cl example_conn))) with 2 in S. lia.
Defined.


(** The first of the two SETs succeeds. *)
Definition example_outcome : Outcome := {| o_ok := true; o_len := None; o_latency := 9; o_error := None |}.

Lemma reply_settles_request_witness :
  exists s', @on_reply simple_ratelimiter counting_rng example_hashing simple_client example_parse
      example_loop_env
      (reply example_loop_env (FireSet (write_key Hex 4 2) 10 64 (Z.lor 2 PREFILL_MARKER)) example_outcome)
      (example_conn <| cl := @take_reply simple_client (cl example_conn) |>) = Some s' /\
    Permutation (held example_conn) (2 :: held s') /\ prefill_confirmed s' = 4.
Proof.
  destruct (@reply_settles_request simple_ratelimiter simple_ratelimiter_laws counting_rng
    counting_rng_laws example_hashing example_hashing_laws simple_client simple_client_laws example_parse
    example_loop_env (FireSet (write_key Hex 4 2) 10 64 (Z.lor 2 PREFILL_MARKER))
    [FireSet (write_key Hex 4 4) 20 64 (Z.lor 4 PREFILL_MARKER)] example_outcome example_conn
    example_loop_env_ok example_conn_wf eq_refl) as (s' & E & _ & _ & P & C & _).
  - intros rd. change (redirect _) with (@None Redirect). done.
  - exists s'. split; [exact E|]. split; [exact P|]. exact C.
Defined.

Lemma wait_matches_pipeline_witness :
  exists next, example_iterate Running = Some (after (example_iterate Running) example_conn, next) /\ next <> Finished.
Proof.
  destruct (example_iterate_some Running) as [next E]. exists next. split; [exact E|]. intros ->.
  pose proof (@wait_matches_pipeline simple_ratelimiter counting_rng example_hashing simple_client
    example_loop_env Running false true 9 (fun _ => 100) example_conn _ _ E) as T. discriminate T.
Defined.

Lemma protocol_loops_agree_witness :
  let env := {| flavor := Resp; key_format := Hex; key_len := 4%nat;
                hash_ring := ["a"]%string : @ring example_hashing; num_endpoints := 1; endpoint_idx := 0;
                pipeline_depth := 4; batch_size := 2; get_ratio := 80; delete_ratio := 0; value_len_ := 4096;
                pool_len := 8192; backfill_on_miss := true; key_dist := KUniform 8; endpoint_keys := [];
                endpoints := [] |} in
  drive_memcache_iterate env Running false false 9 (fun _ => 100) example_conn =
  drive_resp_iterate env Running false false 9 (fun _ => 100) example_conn.
Proof.
  intros env. apply (@protocol_loops_agree simple_ratelimiter counting_rng example_hashing simple_client env
    Running false false 9 (fun _ => 100) example_conn); cbn; unfold ZC_VALUE_THRESHOLD; lia.
Defined.
