(* ===== verification/Prefill.v ===== *)
(** Prefill: every connection of a run over the shared prefill queues
    ([src/src/worker.rs], the Prefill phase of [drive_resp_workload] and
    [drive_memcache_workload], [confirm_prefill_key]).

    A system is the shared queues, the shared count of confirmed keys and the
    connections.  A step is one loop iteration, one reply, one lost connection
    or one reconnect of some connection; between a connection's steps the
    others, and the runner, may change everything they share with it: queues,
    count, slot table, limiter, pacer and routed queues.  [stored] records the
    keys whose SET a server acknowledged; the source keeps only their count. *)

From S2P Require Import Prelude F64 Config Keys KeyDist Limiter Dispatch Metrics InFlight Reply Routed Workload.
Open Scope Z_scope.

Section system.
Context `{Ratelimiter} `{Rng} `{Hashing} `{Client} `{AddrParse}.

Record PrefillSys := {
  ps_queues : PrefillQueues;
  ps_confirmed : Z;
  ps_conns : list (Env * Conn);
  ps_stored : list Z;
}.

(** The connection a task resumes with: its own state, and what is shared as
    it is now. *)
Record resumed (S : PrefillSys) (env : Env) (s s1 : Conn) : Prop := {
  re_queues : prefill_queues s1 = ps_queues S;
  re_confirmed : prefill_confirmed s1 = ps_confirmed S;
  re_client : cl s1 = cl s;
  re_inflight : inflight s1 = inflight s;
  re_prefill : prefill_in_flight s1 = prefill_in_flight s;
  re_backfill : backfill_queue s1 = backfill_queue s;
  re_table : table_ok (num_endpoints env) (slot_table s1);
  re_routed q : routed s1 = Some q -> Z.of_nat (length (nodes q)) = num_endpoints env;
}.

(** The system after connection [i] ran: its shared parts are read back. *)
Definition settle (S : PrefillSys) (i : nat) (env : Env) (s : Conn) (keys : list Z) : PrefillSys :=
  {| ps_queues := prefill_queues s; ps_confirmed := prefill_confirmed s;
     ps_conns := <[i := (env, s)]> (ps_conns S); ps_stored := keys ++ ps_stored S |}.

(** A reconnect: a new client with nothing pending and an empty [InFlight];
    the key buffer, generator and backfill queue outlive the connection. *)
Definition reconnect (c : client) (timeout : Z) (s : Conn) : Conn :=
  s <| cl := c |> <| inflight := new_inflight timeout |>.

Definition fresh (c : client) : Prop := pending c = [] /\ unflushed c = 0%nat.

Inductive pstep (S : PrefillSys) : PrefillSys -> Prop :=
| ps_iterate i env s s1 phase prefill_done has_dispatcher fuel now s' next :
    ps_conns S !! i = Some (env, s) -> resumed S env s s1 ->
    (forall q, prefill_queues s1 !! Z.to_nat (endpoint_idx env) = Some q -> (length q < fuel)%nat) ->
    iterate env phase prefill_done has_dispatcher fuel now s1 = Some (s', next) ->
    (forall r, next <> Disconnect r) -> pstep S (settle S i env s' [])
| ps_close i env s s1 phase prefill_done has_dispatcher fuel now s' r c timeout :
    ps_conns S !! i = Some (env, s) -> resumed S env s s1 ->
    (forall q, prefill_queues s1 !! Z.to_nat (endpoint_idx env) = Some q -> (length q < fuel)%nat) ->
    iterate env phase prefill_done has_dispatcher fuel now s1 = Some (s', Disconnect r) -> fresh c ->
    pstep S (settle S i env (reconnect c timeout s') [])
| ps_reply i env s s1 f fs o s' :
    ps_conns S !! i = Some (env, s) -> resumed S env s s1 -> pending (cl s1) = f :: fs ->
    (forall rd, redirect (reply env f o) = Some rd -> slot rd < 16384) ->
    on_reply env (reply env f o) (s1 <| cl := take_reply (cl s1) |>) = Some s' ->
    pstep S (settle S i env s' (stored f o))
| ps_lost i env s s1 s' c timeout :
    ps_conns S !! i = Some (env, s) -> resumed S env s s1 -> on_disconnect env s1 = Some s' -> fresh c ->
    pstep S (settle S i env (reconnect c timeout s') []).

(** A connection before its first iteration. *)
Definition unstarted (n : Z) (c : Env * Conn) : Prop :=
  wf_env (fst c) /\ num_endpoints (fst c) = n /\ fresh (cl (snd c)) /\
  fired (inflight (snd c)) = [] /\ prefill_in_flight (snd c) = [] /\ backfill_queue (snd c) = [].

Definition prefill_start (qs : PrefillQueues) (conns : list (Env * Conn)) : PrefillSys :=
  {| ps_queues := qs; ps_confirmed := 0; ps_conns := conns; ps_stored := [] |}.

(** The keys in flight on every connection. *)
Definition in_flight_keys (conns : list (Env * Conn)) : list Z :=
  concat (map (fun c => prefill_in_flight (snd c)) conns).

(** ** Invariant *)

(** A connection's own state, apart from what it shares. *)
Record own_ok (n : Z) (c : Env * Conn) : Prop := {
  oo_env : wf_env (fst c);
  oo_n : num_endpoints (fst c) = n;
  oo_sync : sync (snd c);
  oo_backfill : Forall small_id (backfill_queue (snd c));
  oo_flushed : unflushed (cl (snd c)) = 0%nat;
}.

Record psinv (n : Z) (keys : list Z) (S : PrefillSys) : Prop := {
  pi_conns : Forall (own_ok n) (ps_conns S);
  pi_queues : Z.of_nat (length (ps_queues S)) = n;
  pi_keys : Permutation (concat (ps_queues S) ++ in_flight_keys (ps_conns S) ++ ps_stored S) keys;
  pi_small : Forall small_id keys;
  pi_confirmed : ps_confirmed S = wrap64 (Z.of_nat (length (ps_stored S)));
}.

End system.

(** ** Lemmas *)

Section laws.
Context `{RatelimiterLaws} `{RngLaws} `{HashingLaws} `{ClientLaws} `{AddrParse}.

Lemma in_flight_insert conns i c c' :
  conns !! i = Some c ->
  Permutation (in_flight_keys (<[i := c']> conns) ++ prefill_in_flight (snd c))
              (prefill_in_flight (snd c') ++ in_flight_keys conns).
Proof.
  intros E. unfold in_flight_keys. rewrite list_fmap_insert. apply concat_insert.
  by rewrite list_lookup_fmap, E.
Qed.

(** A resumed connection is well formed. *)
Lemma resumed_wf n keys S i env s s1 :
  psinv n keys S -> ps_conns S !! i = Some (env, s) -> resumed S env s s1 ->
  own_ok n (env, s) /\ wf_conn env s1.
Proof.
  intros I E R. pose proof (Forall_lookup_1 _ _ _ _ (pi_conns _ _ _ I) E) as O. split; [done|].
  destruct O as [We Wn [Sp Sf] Wb Wu], R as [R1 R2 R3 R4 R5 R6 R7 R8]. cbn in *.
  split; [|by rewrite R3]. split; try done.
  - split; [by rewrite R5, R3|by rewrite R4, R3].
  - rewrite R1, Wn. apply (pi_queues _ _ _ I).
  - unfold held. rewrite R1, R5. pose proof (pi_small _ _ _ I) as F.
    rewrite <- (pi_keys _ _ _ I) in F. apply Forall_app in F as [F1 F2]. apply Forall_app in F2 as [F2 _].
    apply Forall_app. split; [done|]. unfold in_flight_keys in F2.
    eapply (Forall_concat small_id) in F2. by eapply (Forall_lookup_1 _ _ i) in F2; [|by rewrite list_lookup_fmap, E].
  - by rewrite R6.
Qed.

(** A connection that ran, with its keys accounted for, keeps the invariant. *)
Lemma settle_inv n keys S i env s s1 s' ks :
  psinv n keys S -> ps_conns S !! i = Some (env, s) -> resumed S env s s1 ->
  own_ok n (env, s') -> Z.of_nat (length (prefill_queues s')) = n ->
  Permutation (held s1) (ks ++ held s') ->
  prefill_confirmed s' = wrap64 (prefill_confirmed s1 + Z.of_nat (length ks)) ->
  psinv n keys (settle S i env s' ks).
Proof.
  intros [I1 I2 I3 I4 I5] E R O L P C. unfold settle. split; cbn; try done.
  - by apply Forall_insert.
  - rewrite <- I3. pose proof (in_flight_insert _ _ _ (env, s') E) as Q. cbn in Q.
    unfold held in P. rewrite (re_queues _ _ _ _ R), (re_prefill _ _ _ _ R) in P.
    apply (Permutation_app_inv_r (prefill_in_flight s)).
    transitivity (concat (prefill_queues s') ++ (prefill_in_flight s' ++ in_flight_keys (ps_conns S)) ++ ks ++ ps_stored S).
    { rewrite <- Q. solve_Permutation. }
    transitivity ((concat (ps_queues S) ++ prefill_in_flight s) ++ in_flight_keys (ps_conns S) ++ ps_stored S).
    { rewrite P. solve_Permutation. }
    solve_Permutation.
  - rewrite C, (re_confirmed _ _ _ _ R), I5, wrap64_add_l, length_app. f_equal. lia.
Qed.

Lemma wrap_confirmed n keys S : psinv n keys S -> wrap64 (ps_confirmed S + 0) = ps_confirmed S.
Proof. intros I. rewrite (pi_confirmed _ _ _ I), wrap64_add_l. f_equal. lia. Qed.

(** A connection that ended and reconnected. *)
Lemma reconnect_inv n keys S i env s s1 s' c t :
  psinv n keys S -> ps_conns S !! i = Some (env, s) -> resumed S env s s1 -> drained env s1 s' -> fresh c ->
  psinv n keys (settle S i env (reconnect c t s') []).
Proof.
  intros I E R D [Fp Fu]. destruct (resumed_wf _ _ _ _ _ _ _ I E R) as [O W].
  assert (psinv n keys (settle S i env (reconnect c t s') [])) as T; [|done].
  eapply settle_inv; try done.
  - destruct O as [We Wn _ _ _]. split; cbn in *; try done.
    + split; cbn; [by rewrite (dr_empty _ _ _ D), Fp|]. unfold pending_count. by rewrite Fp.
    + rewrite (dr_backfill _ _ _ D). apply (sh_backfill _ _ (proj1 W)).
  - cbn. rewrite (dr_queues _ _ _ D). apply (oo_n _ _ O).
  - cbn. change (held (reconnect c t s')) with (held s'). by rewrite (dr_held _ _ _ D).
  - cbn. rewrite (dr_confirmed _ _ _ D), (re_confirmed _ _ _ _ R). symmetry. by eapply wrap_confirmed.
Qed.

Lemma psinv_step n keys S S' : pstep S S' -> psinv n keys S -> psinv n keys S'.
Proof.
  intros St I. destruct St as
    [i env s s1 ph pd hd fuel now s' next E R Hf It Hn
    |i env s s1 ph pd hd fuel now s' r c t E R Hf It Fc
    |i env s s1 f fs o s' E R Ep Hrd Or
    |i env s s1 s' c t E R Od Fc]; destruct (resumed_wf _ _ _ _ _ _ _ I E R) as [O W]; pose proof (oo_n _ _ O) as On; cbn in On.
  - destruct (iterate_spec env (oo_env _ _ O) ph pd hd fuel now s1 W Hf) as (s2 & nx & E2 & T).
    rewrite It in E2. injection E2 as <- <-.
    assert (iterated env s1 s') as [[Sh U] P _ _ _ C].
    { destruct next; destruct_hyps; try done. by destruct (Hn r). }
    eapply settle_inv; try done.
    + destruct O as [We Wn _ _ _], Sh. by split.
    + rewrite (sh_queues _ _ Sh). done.
    + cbn. rewrite C, (re_confirmed _ _ _ _ R). symmetry. by eapply wrap_confirmed.
  - destruct (iterate_spec env (oo_env _ _ O) ph pd hd fuel now s1 W Hf) as (s2 & nx & E2 & T).
    rewrite It in E2. injection E2 as <- <-. destruct T as [D _]. by eapply reconnect_inv.
  - destruct (on_reply_spec env (oo_env _ _ O) f fs o s1 W Ep Hrd) as (s2 & E2 & [Sh U] & P & _ & C & _).
    rewrite Or in E2. injection E2 as <-.
    eapply settle_inv; try done.
    + destruct O as [We Wn _ _ _], Sh. by split.
    + rewrite (sh_queues _ _ Sh). done.
    + rewrite C. unfold stored. destruct (is_prefill f && o_ok o); cbn; [done|].
      rewrite (re_confirmed _ _ _ _ R). symmetry. by eapply wrap_confirmed.
  - unfold on_disconnect in Od. destruct (drain_spec env (oo_env _ _ O) _ (proj1 (drop_refusal_wf env _ W))) as (s2 & E2 & D).
    rewrite Od in E2. injection E2 as <-.
    assert (drained env s1 s') as D1.
    { destruct (drop_refusal_same s1) as (Ec & Eh & El & Eq & _ & Ecf & _ & Eb & _). destruct D as [D1 D2 D3 D4 D5 D6 D7].
      split; congruence. }
    by eapply reconnect_inv.
Qed.

Lemma psinv_start n keys qs conns :
  Forall (unstarted n) conns -> Z.of_nat (length qs) = n -> Permutation (concat qs) keys ->
  Forall small_id keys -> psinv n keys (prefill_start qs conns).
Proof.
  intros F L P Sm. assert (in_flight_keys conns = []) as Ei.
  { unfold in_flight_keys. clear -F. induction F as [|c l (_ & _ & _ & _ & Fi & _) F IH]; cbn; [done|].
    by rewrite Fi, IH. }
  split; cbn [prefill_start ps_conns ps_queues ps_stored ps_confirmed]; try done.
  - eapply Forall_impl; [exact F|]. intros [env s] (We & Wn & [Fp Fu] & Ff & Fi & Fb). cbn in *.
    split; cbn; try done; [|by rewrite Fb].
    split; [by rewrite Fi, Fp|]. unfold pending_count. by rewrite Ff, Fp.
  - rewrite Ei. cbn. by rewrite app_nil_r.
Qed.

Lemma psinv_reachable n keys qs conns S :
  psinv n keys (prefill_start qs conns) -> rtc pstep (prefill_start qs conns) S -> psinv n keys S.
Proof. intros I R. revert I. induction R as [|S1 S2 S3 St _ IH]; intros I; [done|]. apply IH. by eapply psinv_step. Qed.

End laws.

(** ** Properties *)

(** C1: prefill writes each key of the keyspace exactly once: however the
    connections interleave, fail, reconnect and are redirected, every key is
    in exactly one place, a queue, some connection's requests in flight or the
    acknowledged writes; the confirmed count is the number of keys
    acknowledged; and when it reaches the keyspace, which ends the phase,
    every key has been written, none twice. *)
Theorem prefill_writes_each_key_once
    `{RatelimiterLaws} `{RngLaws} `{HashingLaws} `{ClientLaws} `{AddrParse}
    fmt key_count klen nodes slot_table qs conns S :
  let n := Z.max (Z.of_nat (length nodes)) 1 in
  table_ok n slot_table -> 0 <= key_count <= 2 ^ 61 ->
  build_prefill_queues fmt key_count klen nodes slot_table = Some qs ->
  Forall (unstarted n) conns -> rtc pstep (prefill_start qs conns) S ->
  Permutation (concat (ps_queues S) ++ in_flight_keys (ps_conns S) ++ ps_stored S) (key_ids key_count) /\
  ps_confirmed S = Z.of_nat (length (ps_stored S)) /\ NoDup (ps_stored S) /\
  (key_count <= ps_confirmed S -> Permutation (ps_stored S) (key_ids key_count)).
Proof.
  intros n T Hc E F R. destruct (prefill_queues_built fmt key_count klen nodes slot_table T)
    as (qs' & E' & _ & L & P).
  rewrite E in E'. injection E' as <-. fold n in L.
  assert (Forall small_id (key_ids key_count)) as Sm.
  { apply Forall_forall. intros k Hk. apply key_ids_elem in Hk. unfold small_id. lia. }
  assert (psinv n (key_ids key_count) S) as [_ _ Pk _ C].
  { eapply psinv_reachable; [|exact R]. apply psinv_start; try done. lia. }
  pose proof (Permutation_length Pk) as Lk. unfold key_ids in Lk. rewrite !length_app, length_seqZ in Lk.
  assert (ps_confirmed S = Z.of_nat (length (ps_stored S))) as C'.
  { rewrite C. apply wrap64_small. unfold u64_max. lia. }
  assert (NoDup (key_ids key_count)) as N by apply NoDup_seqZ.
  split; [done|]. split; [done|]. split.
  - rewrite <- Pk in N. apply NoDup_app in N as (_ & _ & N). by apply NoDup_app in N as (_ & _ & N).
  - intros Hdone. rewrite <- Pk.
    assert (concat (ps_queues S) = []) as -> by (apply length_zero_iff_nil; lia).
    assert (in_flight_keys (ps_conns S) = []) as -> by (apply length_zero_iff_nil; lia). done.
Qed.


(** *** Witnesses *)

(** Eight keys over the two example nodes, and one connection. *)
Definition example_built : PrefillQueues := [[0; 2; 4; 6]; [1; 3; 5; 7]].

Lemma example_build :
  @build_prefill_queues example_hashing Hex 8 4 example_nodes None = Some example_built.
Proof. by vm_compute. Qed.

Definition example_start : @Conn simple_ratelimiter counting_rng simple_client :=
  {| cl := {| sc_pending := []; sc_unflushed := 0; sc_alive := true |} : @client simple_client;
     g := 0 : @rng counting_rng; prefill_queues := example_built; limiter_ := None; pacer := None;
     refused := None; routed := None; slot_table := None; inflight := new_inflight 1000;
     prefill_in_flight := []; backfill_queue := []; carried_tokens := 0; slip_state := new_slip;
     prefill_confirmed := 0; log := [] |}.

Local Abbreviation example_iterated :=
  (@iterate simple_ratelimiter counting_rng example_hashing simple_client example_loop_env Prefill false false 9%nat
    (fun _ => 100) example_start).

Definition example_sys := @prefill_start simple_ratelimiter counting_rng example_hashing simple_client
  example_built [(example_loop_env, example_start)].

Lemma example_start_resumed :
  @resumed simple_ratelimiter counting_rng example_hashing simple_client example_sys example_loop_env
    example_start example_start.
Proof. by split. Qed.

Lemma example_start_wf :
  @wf_conn simple_ratelimiter counting_rng example_hashing simple_client example_loop_env example_start.
Proof.
  split; [|reflexivity]. split; [by split|done|exact I| |by apply Forall_nil|done].
  change (Forall small_id [0; 2; 4; 6; 1; 3; 5; 7]). unfold small_id. forall_lia.
Qed.

Lemma example_start_unstarted :
  Forall (@unstarted simple_ratelimiter counting_rng example_hashing simple_client 2)
    [(example_loop_env, example_start)].
Proof.
  apply Forall_singleton. split; [exact example_loop_env_ok|]. split; [done|]. by split.
Qed.

(** After one iteration the keys are queued or in flight, none stored. *)
Lemma prefill_writes_each_key_once_witness :
  Permutation (held (after example_iterated example_start)) (key_ids 8) /\
  prefill_in_flight (after example_iterated example_start) = [0; 2; 4; 6].
Proof.
  assert (prefill_in_flight (after example_iterated example_start) = [0; 2; 4; 6]) as Ei
    by (vm_compute; reflexivity).
  split; [|exact Ei].
  destruct (@iterate_spec simple_ratelimiter counting_rng counting_rng_laws example_hashing
    example_hashing_laws simple_client simple_client_laws example_loop_env example_loop_env_ok Prefill false
    false 9 (fun _ => 100) example_start example_start_wf) as (s' & next & E & T).
  { cbn. intros q [= <-]. cbn. lia. }
  assert (forall r, next <> Disconnect r) as Hn.
  { intros r ->. destruct T as [D _]. pose proof (dr_empty _ _ _ D) as Em. rewrite E in Ei. cbn in Ei. congruence. }
  pose proof (@ps_iterate simple_ratelimiter counting_rng example_hashing simple_client example_parse example_sys
    0 example_loop_env example_start example_start Prefill false false 9 (fun _ => 100) s' next
    eq_refl example_start_resumed) as St.
  destruct (@prefill_writes_each_key_once simple_ratelimiter simple_ratelimiter_laws counting_rng
    counting_rng_laws example_hashing example_hashing_laws simple_client simple_client_laws example_parse
    Hex 8 4 example_nodes None example_built [(example_loop_env, example_start)]
    (settle example_sys 0 example_loop_env s' [])) as (P & _).
  - exact I.
  - lia.
  - exact example_build.
  - exact example_start_unstarted.
  - apply rtc_once, St; [|exact E|exact Hn]. cbn. intros q [= <-]. cbn. lia.
  - rewrite E. cbn [after]. cbn in P. unfold held. cbn in P. rewrite !app_nil_r in P. exact P.
Defined.
