(* ===== verification/Append.v ===== *)
(** Append: the append stream ([src/src/worker.rs], [drive_resp_append],
    [drive_memcache_append] and their helpers; [src/src/runner.rs], the batch
    scheduler of the main loop).

    The runner opens one batch of new keys at a time into the per-endpoint
    append queues; writer connections drain them as prefill is drained; when
    every key of the batch is confirmed the runner advances the keyspace head,
    below which readers pick their keys.  The writer's [Env] is Workload's with
    the append section's pipeline depth; its limiter is a plain bucket. *)

From S2P Require Import Prelude F64 Config Keys KeyDist Limiter Dispatch Metrics InFlight Reply Routed Workload.
Open Scope Z_scope.

(** ** A writer connection *)

Section writer.
Context `{Ratelimiter} `{Rng} `{Hashing} `{Client} `{AddrParse}.

Record Writer := {
  w_client : client;
  w_rng : rng;
  w_queues : PrefillQueues;
  w_limiter : option bucket;
  w_table : option (list Z);
  w_inflight : InFlight;
  w_keys : list Z;
  w_confirmed : Z;
  w_log : list metric;
}.

#[export] Instance eta_Writer : Settable Writer := fun x =>
  {| w_client := w_client x; w_rng := w_rng x; w_queues := w_queues x; w_limiter := w_limiter x;
     w_table := w_table x; w_inflight := w_inflight x; w_keys := w_keys x;
     w_confirmed := w_confirmed x; w_log := w_log x |}.

Variable env : Env.

Definition w_pending (w : Writer) : nat := pending_count (w_client w).

(** [append_token_budget]: how many SETs may be fired into [free] slots; the
    takes are at [now 0] and [now 1]. *)
Definition append_token_budget (now : nat -> Z) (rl : option bucket) (free : nat) : option bucket * Z :=
  match rl with
  | None => (None, Z.of_nat free)
  | Some b =>
      let n := Z.max (Z.min (Z.of_nat free) (rl_max_tokens b)) 1 in
      let (b, r) := rl_try_wait_n (now 0%nat) n b in
      match r with
      | Taken => (Some b, n)
      | _ =>
          if 1 <? n then
            let (b, r) := rl_try_wait_n (now 1%nat) 1 b in
            (Some b, match r with Taken => 1 | _ => 0 end)
          else (Some b, 0)
      end
  end.

(** [write_key] and [route_key] against the writer's slot table. *)
Definition writer_route (w : Writer) (key_id : Z) : option Z :=
  route_partition (w_table w) (hash_ring env) (num_endpoints env) (write env key_id).

(** The accounting of a send that failed: the client is now [c]. *)
Definition writer_discard (before : nat) (c : client) (w : Writer) : option Writer :=
  let '(x, ms, discarded) := note_discarded before (pending_count c) false (w_inflight w) in
  '(qs, keys) ← requeue_newest discarded (endpoint_idx env) (w_queues w) (w_keys w);
  Some (w <| w_client := c |> <| w_inflight := x |> <| w_queues := qs |> <| w_keys := keys |>
          <| w_log := w_log w ++ ms |>).

(** The fill loop of a writer: [budget] SETs at most. *)
Fixpoint append_fill (fuel : nat) (fired_at budget : Z) (w : Writer) : option Writer :=
  match fuel with
  | O => None
  | S fuel =>
      if negb ((0 <? budget) && (w_pending w <? pipeline_depth env)%nat) then Some w
      else
        '(qs, popped) ← pq_pop_front (w_queues w) (endpoint_idx env);
        match popped with
        | None => Some w
        | Some key_id =>
            let w := w <| w_queues := qs |> in
            routed_to ← (if multi_endpoint env then writer_route w key_id else Some (endpoint_idx env));
            if negb (routed_to =? endpoint_idx env) then
              qs ← pq_push_back (w_queues w) routed_to key_id;
              append_fill fuel fired_at budget (w <| w_queues := qs |>)
            else
              '(r, f) ← set_fire env key_id (Z.lor key_id APPEND_MARKER) (w_rng w);
              let w := w <| w_rng := r |> in
              let before := w_pending w in
              let (c, ok) := fire f (w_client w) in
              if ok then
                append_fill fuel fired_at (budget - 1)
                  (w <| w_client := c |> <| w_keys := w_keys w ++ [key_id] |>
                     <| w_inflight := push fired_at (w_inflight w) |>)
              else
                qs ← pq_push_front (w_queues w) (endpoint_idx env) key_id;
                writer_discard before c (w <| w_queues := qs |>)
        end
  end.

(** [requeue_drained_append]: every key in flight goes to its owner's queue. *)
Definition requeue_drained_append (w : Writer) : option Writer :=
  qs ← requeue_drained_prefill (key_format env) (key_len env) (hash_ring env) (w_table w)
         (num_endpoints env) (w_queues w) (w_keys w);
  Some (w <| w_queues := qs |> <| w_keys := [] |>).

(** What a writer does after an iteration. *)
Inductive WriterNext := WFinished | WDisconnect (r : DisconnectReason) | WSleep (d : Z) | WRecv.

(** The fill of an iteration. *)
Definition writer_fill (fuel : nat) (now : nat -> Z) (w : Writer) : option Writer :=
  let free := (pipeline_depth env - w_pending w)%nat in
  if (0 <? free)%nat then
    empty ← pq_is_empty (w_queues w) (endpoint_idx env);
    if negb empty then
      let (rl, budget) := append_token_budget now (w_limiter w) free in
      append_fill fuel (now 0%nat) budget (w <| w_limiter := rl |>)
    else Some w
  else Some w.

(** One iteration of a writer's loop up to its wait. *)
Definition writer_iterate (should_stop : bool) (fuel : nat) (now : nat -> Z) (w : Writer)
    : option (Writer * WriterNext) :=
  if should_stop then Some (w, WFinished)
  else if (w_pending w =? 0)%nat && negb (is_alive (w_client w)) then
    w ← requeue_drained_append w; Some (w, WDisconnect Eof)
  else
    w ← writer_fill fuel now w;
    let before := w_pending w in
    let (c, ok) := flush (w_client w) in
    w ← (if ok then Some (w <| w_client := c |>) else writer_discard before c w);
    Some (w, if (w_pending w =? 0)%nat then WSleep (from_millis 1) else WRecv).

(** [confirm_append_key]. *)
Definition confirm_append_key (w : Writer) : Writer :=
  w <| w_confirmed := wrap64 (w_confirmed w + 1) |> <| w_log := w_log w ++ [Count APPEND_SET_COUNT 1] |>.

(** Handling one reply's result; the client has already dropped the request. *)
Definition writer_reply (r : RequestResult) (w : Writer) : option Writer :=
  let w := w <| w_inflight := fst (pop (w_inflight w)) |> in
  w ← (if append r then
         '(keys, key_id) ← match w_keys w with
                           | k :: keys => Some (keys, k)
                           | [] => k ← rkey_id r; Some ([], k)
                           end;
         let w := w <| w_keys := keys |> in
         if success r then Some (confirm_append_key w)
         else
           qs ← pq_push_back (w_queues w) (endpoint_idx env) key_id;
           Some (w <| w_queues := qs |> <| w_log := w_log w ++ [Count APPEND_SET_ERRORS 1] |>)
       else Some w);
  match redirect r, flavor env with
  | Some rd, Resp =>
      '(table, ms) ← check_resp_redirect_parsed rd (endpoints env) (w_table w);
      Some (w <| w_table := table |> <| w_log := w_log w ++ ms |>)
  | _, _ => Some w
  end.

End writer.

(** The memcache writer: [drive_memcache_append]. *)
Definition memcache_writer_iterate `{Ratelimiter} `{Rng} `{Hashing} `{Client} (env : Env) :=
  writer_iterate (with_flavor Memcache env).

Definition memcache_writer_reply `{Ratelimiter} `{Rng} `{Hashing} `{Client} `{AddrParse} (env : Env) :=
  writer_reply (with_flavor Memcache env).

(** What a writer's [on_result] callback records ([make_resp_append_callback],
    [make_memcache_append_callback]). *)
Definition append_on_result (latency_ns tx_bytes rx_bytes : Z) : list metric :=
  [Sample APPEND_SET_LATENCY latency_ns; Count BYTES_TX tx_bytes; Count BYTES_RX rx_bytes].

(** ** The batch scheduler *)

Record AppendRunner := {
  next_id : Z;
  next_at : option Z;
  batch_open : bool;
  batches_committed : Z;
  head_id : Z;
  keys_total : Z;
}.

#[export] Instance eta_AppendRunner : Settable AppendRunner := fun x =>
  {| next_id := next_id x; next_at := next_at x; batch_open := batch_open x;
     batches_committed := batches_committed x; head_id := head_id x; keys_total := keys_total x |}.

(** The state before the first batch; [head_id] is the recency head. *)
Definition append_start (key_count : Z) : AppendRunner :=
  {| next_id := key_count; next_at := None; batch_open := false; batches_committed := 0;
     head_id := key_count; keys_total := 0 |}.

(** [enqueue_append_batch]. *)
Definition enqueue_append_batch `{Hashing} (fmt : KeyFormat) (key_len : nat) (nodes : list SocketAddr)
    (slot_table : option (list Z)) (start count : Z) (qs : PrefillQueues) : option PrefillQueues :=
  fill_prefill fmt key_len (partition_ring nodes) slot_table (Z.max (Z.of_nat (length nodes)) 1) qs
    (seqZ start count).

(** One tick of the main loop in Warmup or Running, [warmup_start] set:
    commit a drained batch, or open the next one when it is due. *)
Definition append_tick `{Hashing} (fmt : KeyFormat) (key_len : nat) (nodes : list SocketAddr)
    (slot_table : option (list Z)) (every batch warmup_start now confirmed : Z)
    (r : AppendRunner) (qs : PrefillQueues) : option (AppendRunner * PrefillQueues) :=
  let at_ := default (warmup_start + every) (next_at r) in
  let r := r <| next_at := Some at_ |> in
  if batch_open r then
    if keys_total r <=? confirmed then
      Some (r <| batch_open := false |> <| batches_committed := batches_committed r + 1 |>
              <| head_id := next_id r |>, qs)
    else Some (r, qs)
  else if at_ <=? now then
    qs ← enqueue_append_batch fmt key_len nodes slot_table (next_id r) batch qs;
    Some (r <| keys_total := wrap64 (keys_total r + batch) |> <| next_id := wrap64 (next_id r + batch) |>
            <| batch_open := true |> <| next_at := Some (at_ + every) |>, qs)
  else Some (r, qs).

(** ** The system: the runner, the writers and what they share *)

Section system.
Context `{Ratelimiter} `{Rng} `{Hashing} `{Client} `{AddrParse}.

Record AppendSys := {
  as_runner : AppendRunner;
  as_queues : PrefillQueues;
  as_confirmed : Z;
  as_writers : list (Env * Writer);
  as_stored : list Z;
}.

(** A writer resumes with the shared parts as they are now; its slot table and
    limiter are shared too. *)
Record w_resumed (S : AppendSys) (env : Env) (w w1 : Writer) : Prop := {
  wr_queues : w_queues w1 = as_queues S;
  wr_confirmed : w_confirmed w1 = as_confirmed S;
  wr_client : w_client w1 = w_client w;
  wr_inflight : w_inflight w1 = w_inflight w;
  wr_keys : w_keys w1 = w_keys w;
  wr_table : table_ok (num_endpoints env) (w_table w1);
}.

Definition w_settle (S : AppendSys) (i : nat) (env : Env) (w : Writer) (keys : list Z) : AppendSys :=
  {| as_runner := as_runner S; as_queues := w_queues w; as_confirmed := w_confirmed w;
     as_writers := <[i := (env, w)]> (as_writers S); as_stored := keys ++ as_stored S |}.

Definition w_reconnect (c : client) (timeout : Z) (w : Writer) : Writer :=
  w <| w_client := c |> <| w_inflight := new_inflight timeout |>.

(** The key an outcome stores. *)
Definition w_stored (f : Fire) (o : Outcome) : list Z :=
  if o_ok o then [id_of (fire_ud f)] else [].

(** [nodes], [slot_table]: the runner's own.  Key ids stay below [2^61]. *)
Inductive astep (fmt : KeyFormat) (key_len : nat) (nodes : list SocketAddr) (slot_table : option (list Z))
    (every batch : Z) (S : AppendSys) : AppendSys -> Prop :=
| as_tick warmup_start now r qs :
    next_id (as_runner S) + batch <= 2 ^ 61 ->
    append_tick fmt key_len nodes slot_table every batch warmup_start now (as_confirmed S)
      (as_runner S) (as_queues S) = Some (r, qs) ->
    astep fmt key_len nodes slot_table every batch S
      {| as_runner := r; as_queues := qs; as_confirmed := as_confirmed S; as_writers := as_writers S;
         as_stored := as_stored S |}
| as_iterate i env w w1 should_stop fuel now w' next :
    as_writers S !! i = Some (env, w) -> w_resumed S env w w1 ->
    (forall q, w_queues w1 !! Z.to_nat (endpoint_idx env) = Some q -> (length q < fuel)%nat) ->
    writer_iterate env should_stop fuel now w1 = Some (w', next) ->
    (forall r, next <> WDisconnect r) -> astep fmt key_len nodes slot_table every batch S (w_settle S i env w' [])
| as_close i env w w1 should_stop fuel now w' r c timeout :
    as_writers S !! i = Some (env, w) -> w_resumed S env w w1 ->
    (forall q, w_queues w1 !! Z.to_nat (endpoint_idx env) = Some q -> (length q < fuel)%nat) ->
    writer_iterate env should_stop fuel now w1 = Some (w', WDisconnect r) -> pending c = [] ->
    astep fmt key_len nodes slot_table every batch S (w_settle S i env (w_reconnect c timeout w') [])
| as_reply i env w w1 f fs o w' :
    as_writers S !! i = Some (env, w) -> w_resumed S env w w1 -> pending (w_client w1) = f :: fs ->
    (forall rd, redirect (reply env f o) = Some rd -> slot rd < 16384) ->
    writer_reply env (reply env f o) (w1 <| w_client := take_reply (w_client w1) |>) = Some w' ->
    astep fmt key_len nodes slot_table every batch S (w_settle S i env w' (w_stored f o))
| as_lost i env w w1 w' c timeout :
    as_writers S !! i = Some (env, w) -> w_resumed S env w w1 ->
    requeue_drained_append env w1 = Some w' -> pending c = [] ->
    astep fmt key_len nodes slot_table every batch S (w_settle S i env (w_reconnect c timeout w') []).

End system.

(** ** Invariant *)

Definition is_append (f : Fire) : bool :=
  match f with
  | FireSet _ _ _ ud | FireSetWithGuard _ _ _ ud => has_marker ud APPEND_MARKER
  | _ => false
  end.

(** Every request in flight is an append SET, and the writer knows their
    keys. *)
Record wsync `{Ratelimiter} `{Rng} `{Client} (w : Writer) : Prop := {
  ws_append : Forall (fun f => is_append f = true) (pending (w_client w));
  ws_keys : w_keys w = map (fun f => id_of (fire_ud f)) (pending (w_client w));
  ws_fired : length (fired (w_inflight w)) = w_pending w;
}.

(** Every key the writer can reach: queued, or in flight on it. *)
Definition w_held `{Ratelimiter} `{Rng} `{Client} (w : Writer) : list Z := concat (w_queues w) ++ w_keys w.

Record wshape `{Ratelimiter} `{Rng} `{Hashing} `{Client} (env : Env) (w : Writer) : Prop := {
  wh_sync : wsync w;
  wh_queues : Z.of_nat (length (w_queues w)) = num_endpoints env;
  wh_table : table_ok (num_endpoints env) (w_table w);
  wh_ids : Forall small_id (w_held w);
}.

(** From [w0] to [w] no key is lost and nothing is confirmed. *)
Record wkept `{Ratelimiter} `{Rng} `{Hashing} `{Client} (env : Env) (w0 w : Writer) : Prop := {
  wk_shape : wshape env w;
  wk_held : Permutation (w_held w) (w_held w0);
  wk_confirmed : w_confirmed w = w_confirmed w0;
}.

(** ** Lemmas: one writer *)

Section laws.
Context `{RatelimiterLaws} `{RngLaws} `{HashingLaws} `{ClientLaws} `{AddrParse}.
Variable env : Env.
Hypothesis WE : wf_env env.

Lemma append_fire k r :
  small_id k -> exists r' f, set_fire env k (Z.lor k APPEND_MARKER) r = Some (r', f) /\
                             is_append f = true /\ id_of (fire_ud f) = k.
Proof.
  intros Hk. destruct (set_fire_ok env WE k (Z.lor k APPEND_MARKER) r) as (r' & f & E & Eu & Ep).
  exists r', f. split; [done|]. rewrite Eu, id_of_marked by (done || tauto). split; [|done].
  assert (has_marker (Z.lor k APPEND_MARKER) APPEND_MARKER = true) as M
    by (by rewrite has_marker_lor by (done || tauto)).
  unfold set_fire in E. destruct (value_offset env r) as [[r1 o]|]; [|done]. cbn in E.
  repeat case_match_hyp E; simplify_eq; exact M.
Qed.

Lemma writer_route_ok w k :
  table_ok (num_endpoints env) (w_table w) ->
  exists e, writer_route env w k = Some e /\ 0 <= e < num_endpoints env.
Proof.
  intros T. pose proof (we_endpoint _ WE).
  destruct (route_owner (key_format env) (key_len env) (hash_ring env) (w_table w) (num_endpoints env)
    T ltac:(lia) (we_ring _ WE) k) as [E R].
  unfold writer_route, write. rewrite E. eauto.
Qed.

(** A failed send: the keys of the discarded requests go back to the queue. *)
Lemma discard_kept w0 w c m :
  wkept env w0 w -> pending c = take m (pending (w_client w)) -> (m <= w_pending w)%nat ->
  exists w', writer_discard env (w_pending w) c w = Some w' /\ wkept env w0 w'.
Proof.
  intros [[[Sa Sk Sf] Q T I] P C] Ep Hm. unfold writer_discard, note_discarded, w_pending, pending_count in *.
  assert (length (pending c) = m) as Lc by (rewrite Ep, length_take; lia). cbn. rewrite Lc.
  pose proof (we_endpoint _ WE).
  destruct (lookup_lt_is_Some_2 (w_queues w) (Z.to_nat (endpoint_idx env))) as [q Eq]; [lia|].
  destruct (requeue_moves (length (pending (w_client w)) - m) (endpoint_idx env) _ (w_keys w) _ Eq)
    as (qs' & -> & Lq & Pq).
  cbn. eexists. split; [done|].
  assert (length (w_keys w) = length (pending (w_client w))) as Lk by (by rewrite Sk, length_map).
  replace (length (w_keys w) - (length (pending (w_client w)) - m))%nat with m in * by lia.
  split; [split; [split|..]|..]; cbn; unfold w_held, w_pending, pending_count in *; cbn; try done.
  - rewrite Ep. by apply Forall_take.
  - by rewrite Sk, Ep, firstn_map.
  - rewrite length_take, Lc. lia.
  - by rewrite Lq.
  - by rewrite Pq.
  - by rewrite Pq.
Qed.

Lemma append_fill_kept w0 fuel fa budget w q :
  wkept env w0 w -> w_queues w !! Z.to_nat (endpoint_idx env) = Some q -> (length q < fuel)%nat ->
  exists w', append_fill env fuel fa budget w = Some w' /\ wkept env w0 w'.
Proof.
  revert budget w q. induction fuel as [|fuel IH]; intros budget w q K Eq Hf; [lia|]. cbn [append_fill].
  destruct (negb _); [by eexists|]. unfold pq_pop_front at 1. rewrite Eq. cbn [mbind option_bind].
  destruct q as [|k q]; [by eexists|]. cbn [mbind option_bind].
  set (e := Z.to_nat (endpoint_idx env)) in *. pose proof (we_endpoint _ WE).
  destruct K as [[[Sa Sk Sf] Q T I] P C].
  pose proof (lookup_lt_Some _ _ _ Eq) as Le.
  assert (exists to, (if multi_endpoint env then writer_route env (w <| w_queues := <[e:=q]> (w_queues w) |>) k
      else Some (endpoint_idx env)) = Some to /\ 0 <= to < num_endpoints env) as (to & -> & Hto).
  { destruct (multi_endpoint env); [|eexists; split; [done|lia]]. by apply (writer_route_ok w k). }
  cbn [mbind option_bind]. destruct (to =? endpoint_idx env) eqn:Et; cbn [negb].
  - assert (small_id k) as Hk.
    { eapply Forall_forall; [exact I|]. unfold w_held. rewrite (concat_pop _ _ _ _ Eq). left. }
    set (w1 := w <| w_queues := _ |>).
    destruct (append_fire k (w_rng w1) Hk) as (r' & f & -> & Ha & Hid). cbn [mbind option_bind].
    set (w2 := w1 <| w_rng := r' |>). change (w_client w2) with (w_client w).
    change (w_pending w2) with (w_pending w).
    destruct (fire f (w_client w)) as [c ok] eqn:Ef. destruct ok.
    + destruct (fire_ok _ _ _ Ef) as [Ep _]. apply (IH (budget - 1) _ q); [|by cbn; apply list_lookup_insert_eq|cbn in Hf; lia].
      assert (Permutation (concat (<[e:=q]> (w_queues w)) ++ w_keys w ++ [k]) (w_held w)) as Hh.
      { unfold w_held. rewrite (concat_pop _ _ _ _ Eq), app_assoc, Permutation_app_comm. done. }
      split; [split; [split|..]|..]; cbn; unfold w_held, w_pending, pending_count in *; cbn; try done.
      * rewrite Ep. apply Forall_app. split; [done|by apply Forall_singleton].
      * by rewrite Ep, map_app, Sk, <- Hid.
      * unfold push. by rewrite push_fired, Ep, !length_app, Sf.
      * by rewrite length_insert.
      * by rewrite Hh.
      * by rewrite Hh.
    + destruct (fire_err _ _ _ Ef) as [Ep _].
      assert (pq_push_front (w_queues w2) (endpoint_idx env) k = Some (w_queues w)) as ->.
      { unfold pq_push_front. cbn. fold e. rewrite list_lookup_insert_eq by done. cbn.
        by rewrite list_insert_insert_eq, list_insert_id. }
      cbn [mbind option_bind]. change (w_pending w) with (w_pending (w2 <| w_queues := w_queues w |>)).
      eapply discard_kept; [|exact Ep|unfold w_pending, pending_count; cbn; lia]. by split.
  - assert (Z.to_nat to <> e) as Hne by (unfold e; lia).
    destruct (lookup_lt_is_Some_2 (w_queues w) (Z.to_nat to)) as [q2 E2]; [lia|].
    unfold pq_push_back. cbn. rewrite list_lookup_insert_ne, E2 by done. cbn [mbind option_bind].
    set (qs := <[Z.to_nat to:=_]> _).
    assert (Permutation (concat qs) (concat (w_queues w))) as Pq.
    { unfold qs. rewrite (concat_push_back _ _ q2) by (by rewrite list_lookup_insert_ne).
      by rewrite <- (concat_pop _ _ _ _ Eq). }
    apply (IH budget _ q); [| |cbn in Hf; lia].
    + split; [split; [by split|..]|..]; cbn; unfold w_held in *; cbn; rewrite ?Pq; try done.
      unfold qs. by rewrite !length_insert.
    + cbn. unfold qs. by rewrite list_lookup_insert_ne, list_lookup_insert_eq.
Qed.

Lemma writer_flush_kept w0 w :
  wkept env w0 w ->
  exists w', (let (c, ok) := flush (w_client w) in
              if ok then Some (w <| w_client := c |>) else writer_discard env (w_pending w) c w) = Some w' /\
             wkept env w0 w'.
Proof.
  intros K. destruct (flush (w_client w)) as [c ok] eqn:Ef. destruct ok.
  - destruct (flush_ok _ _ Ef) as [Ep _]. eexists. split; [done|].
    destruct K as [[[Sa Sk Sf] Q T I] P C]. split; [split; [split|..]|..]; cbn; rewrite ?Ep; try done.
    rewrite Sf. unfold w_pending, pending_count. cbn. by rewrite Ep.
  - destruct (flush_err _ _ Ef) as [Ep _]. eapply discard_kept; [done|exact Ep|].
    unfold w_pending, pending_count. lia.
Qed.

(** A writer that lost its connection: every key it had is queued. *)
Record wdrained (w w' : Writer) : Prop := {
  wd_held : Permutation (w_held w') (w_held w);
  wd_keys : w_keys w' = [];
  wd_queues : Z.of_nat (length (w_queues w')) = num_endpoints env;
  wd_confirmed : w_confirmed w' = w_confirmed w;
}.

Lemma writer_drain_spec w :
  wshape env w -> exists w', requeue_drained_append env w = Some w' /\ wdrained w w'.
Proof.
  intros [_ Q T _]. unfold requeue_drained_append.
  pose proof (we_endpoint _ WE).
  destruct (requeue_conserves (key_format env) (key_len env) (hash_ring env) _ _ T ltac:(lia) (we_ring _ WE)
    (w_keys w) _ Q) as (qs' & -> & P & L).
  cbn. eexists. split; [done|]. split; try done. unfold w_held. cbn. by rewrite app_nil_r.
Qed.

Lemma writer_iterate_spec should_stop fuel now w :
  wshape env w ->
  (forall q, w_queues w !! Z.to_nat (endpoint_idx env) = Some q -> (length q < fuel)%nat) ->
  exists w' next, writer_iterate env should_stop fuel now w = Some (w', next) /\
    match next with WDisconnect _ => wdrained w w' | _ => wkept env w w' end.
Proof.
  intros Sh Hf. assert (wkept env w w) as K by done. unfold writer_iterate.
  destruct should_stop; [by eexists _, _|].
  destruct ((w_pending w =? 0)%nat && _).
  { destruct (writer_drain_spec w Sh) as (w' & -> & D). by eexists _, _. }
  assert (exists w1, writer_fill env fuel now w = Some w1 /\ wkept env w w1) as (w1 & -> & K1).
  { unfold writer_fill. pose proof (wh_queues _ _ Sh). pose proof (we_endpoint _ WE).
    destruct (lookup_lt_is_Some_2 (w_queues w) (Z.to_nat (endpoint_idx env))) as [q Eq]; [lia|].
    destruct (0 <? _)%nat; [|by eexists]. unfold pq_is_empty. rewrite Eq. cbn [mbind option_bind].
    destruct (negb _); [|by eexists].
    destruct (append_token_budget now (w_limiter w) _) as [rl budget].
    eapply (append_fill_kept w); [|exact Eq|by apply Hf].
    destruct K as [[[] ? ? ?] ? ?]. by repeat constructor. }
  cbn [mbind option_bind]. destruct (writer_flush_kept w w1 K1) as (w2 & E & K2).
  destruct (flush (w_client w1)) as [c ok]. rewrite E. cbn [mbind option_bind].
  eexists _, _. split; [done|]. by destruct (w_pending w2 =? 0)%nat.
Qed.

(** A reply: its key leaves the writer, confirmed or back in the queue. *)
Lemma writer_reply_spec f fs o w :
  wshape env w -> pending (w_client w) = f :: fs ->
  (forall rd, redirect (reply env f o) = Some rd -> slot rd < 16384) ->
  exists w', writer_reply env (reply env f o) (w <| w_client := take_reply (w_client w) |>) = Some w' /\
    wshape env w' /\ Permutation (w_held w) (w_stored f o ++ w_held w') /\
    w_confirmed w' = (if o_ok o then wrap64 (w_confirmed w + 1) else w_confirmed w).
Proof.
  intros [[Sa Sk Sf] Q T I] Ep Hrd. unfold writer_reply.
  rewrite Ep in Sa, Sk. apply Forall_cons in Sa as [Sa1 Sa2]. cbn [map] in Sk.
  assert (append (reply env f o) = true) as Ea.
  { unfold reply, map_respmeta, map_memcache_op. by destruct f, (flavor env). }
  destruct (reply_spec env f o) as (Es & _). rewrite Ea, Es. cbn [set_field]. cbn. rewrite Sk. cbn.
  set (w1 := w <| w_client := take_reply (w_client w) |> <| w_inflight := _ |> <| w_keys := _ |>).
  assert (exists w2, (if o_ok o then Some (confirm_append_key w1)
      else qs ← pq_push_back (w_queues w) (endpoint_idx env) (id_of (fire_ud f));
           Some (w1 <| w_queues := qs |> <| w_log := w_log w ++ [Count APPEND_SET_ERRORS 1] |>)) = Some w2 /\
    wshape env w2 /\ Permutation (w_held w) (w_stored f o ++ w_held w2) /\
    w_confirmed w2 = (if o_ok o then wrap64 (w_confirmed w + 1) else w_confirmed w)) as (w2 & -> & Sh2 & P2 & C2).
  { assert (Permutation (w_held w) (id_of (fire_ud f) :: concat (w_queues w) ++ map (fun f => id_of (fire_ud f)) fs)) as Hh.
    { unfold w_held. rewrite Sk. by rewrite Permutation_middle. }
    assert (wsync w1) as Sy.
    { split; cbn; rewrite ?take_reply_tail, ?Ep; try done.
      unfold w_pending, pending_count in *. rewrite Ep in Sf. cbn. rewrite take_reply_tail, Ep.
      destruct (fired (w_inflight w)); cbn in *; lia. }
    rewrite Hh in I. unfold w_stored. destruct (o_ok o).
    - eexists. split; [done|]. split; [|split; [exact Hh|done]].
      destruct Sy. split; [by split|done|done|]. by apply Forall_cons in I as [_ I].
    - unfold pq_push_back. pose proof (we_endpoint _ WE).
      destruct (lookup_lt_is_Some_2 (w_queues w) (Z.to_nat (endpoint_idx env))) as [q Eq]; [lia|].
      rewrite Eq. cbn. eexists. split; [done|].
      assert (Permutation (w_held w) (concat (<[Z.to_nat (endpoint_idx env):=q ++ [id_of (fire_ud f)]]> (w_queues w)) ++
        map (fun f => id_of (fire_ud f)) fs)) as Hh2 by (by rewrite (concat_push_back _ _ _ _ Eq)).
      split; [|split; [exact Hh2|done]]. rewrite <- Hh, Hh2 in I.
      destruct Sy. split; [by split| |done|exact I]. cbn. by rewrite length_insert. }
  cbn [mbind option_bind].
  assert (forall t ms, table_ok (num_endpoints env) t ->
    wshape env (w2 <| w_table := t |> <| w_log := w_log w2 ++ ms |>)) as Sht.
  { intros t ms Ht. destruct Sh2 as [[] ? ? ?]. by repeat constructor. }
  destruct (redirect (reply env f o)) as [rd|]; [|by eexists].
  destruct (flavor env); [|by eexists]. pose proof (we_small _ WE).
  pose proof (wh_table _ _ Sh2) as T2. rewrite <- (we_endpoints _ WE) in T2, Sht.
  destruct (redirect_ok rd (endpoints env) _ T2) as (t & -> & Ht); [by rewrite (we_endpoints _ WE)|by apply Hrd|].
  cbn. eexists. split; [done|]. split; [by apply Sht|]. by split.
Qed.

End laws.

(** ** Lemmas: the system *)

Section syslaws.
Context `{RatelimiterLaws} `{RngLaws} `{HashingLaws} `{ClientLaws} `{AddrParse}.
Variables (fmt : KeyFormat) (key_len : nat) (nodes : list SocketAddr) (slot_table : option (list Z)).
Variables (every batch key_count : Z).
Local Abbreviation n := (Z.max (Z.of_nat (length nodes)) 1).
Hypothesis (table_good : table_ok n slot_table) (batch_pos : 0 < batch) (count_ok : 0 <= key_count <= 2 ^ 61).

(** Keys in flight over all writers. *)
Definition w_in_flight (ws : list (Env * Writer)) : list Z := concat (map (fun c => w_keys (snd c)) ws).

Definition w_own (c : Env * Writer) : Prop :=
  wf_env (fst c) /\ num_endpoints (fst c) = n /\ wsync (snd c).

(** The keys enqueued so far are queued, in flight or stored; those below the
    head are stored. *)
Record ainv (S : AppendSys) : Prop := {
  ai_writers : Forall w_own (as_writers S);
  ai_queues : Z.of_nat (length (as_queues S)) = n;
  ai_keys : Permutation (concat (as_queues S) ++ w_in_flight (as_writers S) ++ as_stored S)
              (seqZ key_count (next_id (as_runner S) - key_count));
  ai_range : key_count <= head_id (as_runner S) /\ head_id (as_runner S) <= next_id (as_runner S) <= 2 ^ 61;
  ai_confirmed : as_confirmed S = Z.of_nat (length (as_stored S));
  ai_total : keys_total (as_runner S) = next_id (as_runner S) - key_count;
  ai_head k : key_count <= k < head_id (as_runner S) -> k ∈ as_stored S;
  ai_open : next_id (as_runner S) = head_id (as_runner S) + if batch_open (as_runner S) then batch else 0;
  ai_batches : head_id (as_runner S) = key_count + batches_committed (as_runner S) * batch;
}.

(** Every key enqueued has been stored once the count says so. *)
Lemma ainv_all_stored S :
  ainv S -> keys_total (as_runner S) <= as_confirmed S ->
  forall k, key_count <= k < next_id (as_runner S) -> k ∈ as_stored S.
Proof.
  intros I Hc k Hk. pose proof (ai_keys _ I) as P. pose proof (ai_range _ I).
  pose proof (Permutation_length P) as L. rewrite !length_app, length_seqZ in L.
  rewrite (ai_total _ I), (ai_confirmed _ I) in Hc.
  assert (concat (as_queues S) = []) as E1 by (apply length_zero_iff_nil; lia).
  assert (w_in_flight (as_writers S) = []) as E2 by (apply length_zero_iff_nil; lia).
  rewrite E1, E2 in P. cbn in P. rewrite P. apply elem_of_seqZ. lia.
Qed.

Lemma enqueue_conserves start count (qs : PrefillQueues) :
  Z.of_nat (length qs) = n ->
  exists qs', enqueue_append_batch fmt key_len nodes slot_table start count qs = Some qs' /\
    Permutation (concat qs') (concat qs ++ seqZ start count) /\ Z.of_nat (length qs') = n.
Proof.
  intros L. unfold enqueue_append_batch. rewrite <- requeue_is_fill.
  apply requeue_conserves; [done|lia|apply partition_ring_range|done].
Qed.

(** The scheduler's tick. *)
Lemma append_tick_inv S ws now r qs :
  ainv S -> next_id (as_runner S) + batch <= 2 ^ 61 ->
  append_tick fmt key_len nodes slot_table every batch ws now (as_confirmed S) (as_runner S) (as_queues S)
    = Some (r, qs) ->
  ainv {| as_runner := r; as_queues := qs; as_confirmed := as_confirmed S; as_writers := as_writers S;
          as_stored := as_stored S |}.
Proof.
  intros I Hb E. pose proof (ainv_all_stored S I) as All. destruct I as [I1 I2 I3 I4 I5 I6 I7 I8 I9].
  unfold append_tick in E. cbn in E. destruct (batch_open (as_runner S)) eqn:Eo.
  - destruct (keys_total (as_runner S) <=? as_confirmed S) eqn:Ec; injection E as <- <-.
    + apply Z.leb_le in Ec. split; cbn; rewrite ?Eo; try done; try lia. auto.
    + split; cbn; rewrite ?Eo; try done; lia.
  - destruct (_ <=? now); [|injection E as <- <-; split; cbn; rewrite ?Eo; try done; lia].
    destruct (enqueue_conserves (next_id (as_runner S)) batch (as_queues S) I2) as (qs' & E' & P & L).
    rewrite E' in E. injection E as <- <-.
    assert (wrap64 (next_id (as_runner S) + batch) = next_id (as_runner S) + batch) as En
      by (apply wrap64_small; unfold u64_max; lia).
    assert (wrap64 (keys_total (as_runner S) + batch) = keys_total (as_runner S) + batch) as Et
      by (apply wrap64_small; unfold u64_max; lia).
    split; cbn; rewrite ?En, ?Et; try done; try lia.
    rewrite P. replace (next_id (as_runner S) + batch - key_count)
      with ((next_id (as_runner S) - key_count) + batch) by lia.
    rewrite seqZ_app by lia. rewrite <- I3.
    replace (key_count + (next_id (as_runner S) - key_count)) with (next_id (as_runner S)) by lia.
    solve_Permutation.
Qed.

Lemma w_in_flight_insert ws i c c' :
  ws !! i = Some c ->
  Permutation (w_in_flight (<[i := c']> ws) ++ w_keys (snd c)) (w_keys (snd c') ++ w_in_flight ws).
Proof.
  intros E. unfold w_in_flight. rewrite list_fmap_insert. apply concat_insert.
  by rewrite list_lookup_fmap, E.
Qed.

(** A resumed writer is well formed. *)
Lemma w_resumed_shape S i env w w1 :
  ainv S -> as_writers S !! i = Some (env, w) -> w_resumed S env w w1 ->
  w_own (env, w) /\ wshape env w1.
Proof.
  intros I E R. pose proof (Forall_lookup_1 _ _ _ _ (ai_writers _ I) E) as O. split; [done|].
  destruct O as (We & Wn & [Sa Sk Sf]), R as [R1 R2 R3 R4 R5 R6]. cbn in *.
  split; [| |done|].
  - split; unfold w_pending; by rewrite ?R3, ?R4, ?R5.
  - rewrite R1, Wn. apply (ai_queues _ I).
  - assert (Forall small_id (concat (as_queues S) ++ w_in_flight (as_writers S) ++ as_stored S)) as F.
    { rewrite (ai_keys _ I). apply Forall_forall. intros k Hk%elem_of_seqZ.
      pose proof (ai_range _ I). unfold small_id. lia. }
    apply Forall_app in F as [F1 F2]. apply Forall_app in F2 as [F2 _].
    unfold w_held. rewrite R1, R5. apply Forall_app. split; [done|]. unfold w_in_flight in F2.
    eapply (Forall_concat small_id) in F2. by eapply (Forall_lookup_1 _ _ i) in F2; [|by rewrite list_lookup_fmap, E].
Qed.

(** A writer that ran, with its keys accounted for, keeps the invariant. *)
Lemma w_settle_inv S i env w w1 w' ks :
  ainv S -> as_writers S !! i = Some (env, w) -> w_resumed S env w w1 ->
  w_own (env, w') -> Z.of_nat (length (w_queues w')) = n ->
  Permutation (w_held w1) (ks ++ w_held w') ->
  w_confirmed w' = wrap64 (w_confirmed w1 + Z.of_nat (length ks)) ->
  ainv (w_settle S i env w' ks).
Proof.
  intros I E R O L P C.
  assert (Permutation (concat (w_queues w') ++ w_in_flight (<[i:=(env, w')]> (as_writers S)) ++ ks ++ as_stored S)
            (concat (as_queues S) ++ w_in_flight (as_writers S) ++ as_stored S)) as Pk.
  { pose proof (w_in_flight_insert _ _ _ (env, w') E) as Q. cbn in Q.
    unfold w_held in P. rewrite (wr_queues _ _ _ _ R), (wr_keys _ _ _ _ R) in P.
    apply (Permutation_app_inv_r (w_keys w)).
    transitivity (concat (w_queues w') ++ (w_keys w' ++ w_in_flight (as_writers S)) ++ ks ++ as_stored S).
    { rewrite <- Q. solve_Permutation. }
    transitivity ((concat (as_queues S) ++ w_keys w) ++ w_in_flight (as_writers S) ++ as_stored S);
      [rewrite P|]; solve_Permutation. }
  assert (Z.of_nat (length (ks ++ as_stored S)) <= 2 ^ 61) as Ls.
  { pose proof (ai_keys _ I) as K. rewrite <- Pk in K. apply Permutation_length in K.
    rewrite !length_app, length_seqZ in K. pose proof (ai_range _ I). rewrite length_app. lia. }
  destruct I as [I1 I2 I3 I4 I5 I6 I7 I8 I9]. unfold w_settle. split; cbn; try done.
  - by apply Forall_insert.
  - by rewrite Pk.
  - rewrite C, (wr_confirmed _ _ _ _ R), I5, wrap64_small; rewrite length_app in *; unfold u64_max; lia.
  - intros k Hk. apply elem_of_app. right. auto.
Qed.

Lemma w_reconnect_inv S i env w w1 w' c t :
  ainv S -> as_writers S !! i = Some (env, w) -> w_resumed S env w w1 -> wdrained env w1 w' ->
  pending c = [] -> ainv (w_settle S i env (w_reconnect c t w') []).
Proof.
  intros I E R D Fp. destruct (w_resumed_shape _ _ _ _ _ I E R) as [(We & Wn & _) Sh]. cbn in *.
  eapply w_settle_inv; try done.
  - split; [done|]. split; [done|]. cbn.
    split; cbn; rewrite ?Fp, ?(wd_keys _ _ _ D); try done. unfold w_pending, pending_count. cbn. by rewrite Fp.
  - cbn. rewrite (wd_queues _ _ _ D). done.
  - change (w_held (w_reconnect c t w')) with (w_held w'). by rewrite (wd_held _ _ _ D).
  - cbn. rewrite (wd_confirmed _ _ _ D), (wr_confirmed _ _ _ _ R), (ai_confirmed _ I).
    pose proof (Permutation_length (ai_keys _ I)) as K. rewrite !length_app, length_seqZ in K.
    pose proof (ai_range _ I). rewrite wrap64_small; unfold u64_max; lia.
Qed.

Lemma ainv_step S S' : astep fmt key_len nodes slot_table every batch S S' -> ainv S -> ainv S'.
Proof.
  intros St I. assert (wrap64 (as_confirmed S + 0) = as_confirmed S) as Wc.
  { pose proof (Permutation_length (ai_keys _ I)) as K. rewrite !length_app, length_seqZ in K.
    pose proof (ai_range _ I). rewrite (ai_confirmed _ I), wrap64_small; unfold u64_max; lia. }
  destruct St as
    [ws now r qs Hb Et
    |i env w w1 st fuel now w' next E R Hf It Hn
    |i env w w1 st fuel now w' r c t E R Hf It Fc
    |i env w w1 f fs o w' E R Ep Hrd Or
    |i env w w1 w' c t E R Od Fc]; [by eapply append_tick_inv|..];
    destruct (w_resumed_shape _ _ _ _ _ I E R) as [(We & Wn & Ws) Sh]; cbn in We, Wn, Ws.
  - destruct (writer_iterate_spec env We st fuel now w1 Sh Hf) as (w2 & nx & E2 & T).
    rewrite It in E2. injection E2 as <- <-.
    assert (wkept env w1 w') as [Sh' P C] by (destruct next; try done; by destruct (Hn r)).
    eapply w_settle_inv; try done.
    + split; [done|]. split; [done|]. by destruct Sh'.
    + rewrite (wh_queues _ _ Sh'). done.
    + rewrite C, (wr_confirmed _ _ _ _ R). symmetry. exact Wc.
  - destruct (writer_iterate_spec env We st fuel now w1 Sh Hf) as (w2 & nx & E2 & T).
    rewrite It in E2. injection E2 as <- <-. by eapply w_reconnect_inv.
  - destruct (writer_reply_spec env We f fs o w1 Sh Ep Hrd) as (w2 & E2 & Sh' & P & C).
    rewrite Or in E2. injection E2 as <-.
    eapply w_settle_inv; try done.
    + split; [done|]. split; [done|]. by destruct Sh'.
    + rewrite (wh_queues _ _ Sh'). done.
    + rewrite C. unfold w_stored. destruct (o_ok o); cbn; [done|].
      rewrite (wr_confirmed _ _ _ _ R). symmetry. exact Wc.
  - destruct (writer_drain_spec env We w1 Sh) as (w2 & E2 & D). rewrite Od in E2. injection E2 as <-.
    by eapply w_reconnect_inv.
Qed.

(** The system before the first batch. *)
Definition append_sys_start (ws : list (Env * Writer)) : AppendSys :=
  {| as_runner := append_start key_count; as_queues := pq_new n; as_confirmed := 0; as_writers := ws;
     as_stored := [] |}.

Lemma ainv_reachable ws S :
  Forall w_own ws -> w_in_flight ws = [] ->
  rtc (astep fmt key_len nodes slot_table every batch) (append_sys_start ws) S -> ainv S.
Proof.
  intros F Ei R. assert (ainv (append_sys_start ws)) as I.
  { split; cbn [append_sys_start append_start as_writers as_queues as_stored as_runner as_confirmed
                  next_id keys_total head_id batch_open batches_committed]; try done; try lia.
    - unfold pq_new. rewrite length_replicate. lia.
    - rewrite Ei, Z.sub_diag. unfold pq_new.
      assert (forall m, concat (replicate m (@nil Z)) = []) as -> by (induction m; done). done. }
  revert I. induction R as [|S1 S2 S3 St _ IH]; intros I; [done|]. apply IH. by eapply ainv_step.
Qed.

End syslaws.

(** ** Properties *)

(** C8: readers never target an unwritten key: however the writers interleave
    with the runner, fail and reconnect, every append key below the head a
    reader may draw from has been acknowledged, and the head stands at the end
    of the last committed batch; no key of an open batch is lost or enqueued
    twice. *)
Theorem append_head_is_stored
    `{RatelimiterLaws} `{RngLaws} `{HashingLaws} `{ClientLaws} `{AddrParse}
    fmt klen nodes slot_table every batch key_count ws S :
  let n := Z.max (Z.of_nat (length nodes)) 1 in
  table_ok n slot_table -> 0 < batch -> 0 <= key_count <= 2 ^ 61 ->
  Forall (fun c => wf_env (fst c) /\ num_endpoints (fst c) = n /\ wsync (snd c)) ws ->
  concat (map (fun c => w_keys (snd c)) ws) = [] ->
  rtc (astep fmt klen nodes slot_table every batch)
    {| as_runner := append_start key_count; as_queues := pq_new n; as_confirmed := 0; as_writers := ws;
       as_stored := [] |} S ->
  (forall k, key_count <= k < head_id (as_runner S) -> k ∈ as_stored S) /\
  head_id (as_runner S) = key_count + batches_committed (as_runner S) * batch /\
  next_id (as_runner S) = head_id (as_runner S) + (if batch_open (as_runner S) then batch else 0) /\
  Permutation (concat (as_queues S) ++ concat (map (fun c => w_keys (snd c)) (as_writers S)) ++ as_stored S)
    (seqZ key_count (next_id (as_runner S) - key_count)).
Proof.
  intros n T B C F Ei R.
  destruct (ainv_reachable fmt klen nodes slot_table every batch key_count T B C ws S F Ei R) as [].
  by split_and!.
Qed.

(** *** Witnesses *)

(** One node, eight keys prefilled, one writer, batches of one key: the batch
    opens, the writer sends it, the server stores it, the runner commits. *)
Definition example_node : list SocketAddr := [{| sa_ip := "10.0.0.1"; sa_port := 6379 |}].

Definition example_append_env : @Env example_hashing :=
  {| flavor := Resp; key_format := Hex; key_len := 4%nat;
     hash_ring := ["a"]%string : @ring example_hashing; num_endpoints := 1; endpoint_idx := 0;
     pipeline_depth := 4; batch_size := 1; get_ratio := 0; delete_ratio := 0; value_len_ := 64;
     pool_len := 1024; backfill_on_miss := false; key_dist := KUniform 8; endpoint_keys := [];
     endpoints := example_node |}.

Lemma example_append_env_ok : @wf_env counting_rng example_hashing example_append_env.
Proof.
  constructor; cbn; unfold u64_max; try lia; try done.
  intros k. exact (@ring_route_range example_hashing example_hashing_laws ["a"]%string k ltac:(done)).
Qed.

Definition example_writer (qs : PrefillQueues) : @Writer simple_ratelimiter counting_rng simple_client :=
  {| w_client := {| sc_pending := []; sc_unflushed := 0; sc_alive := true |} : @client simple_client;
     w_rng := 0 : @rng counting_rng; w_queues := qs; w_limiter := None; w_table := None;
     w_inflight := new_inflight 1000; w_keys := []; w_confirmed := 0; w_log := [] |}.

Definition w_after `{Ratelimiter} `{Rng} `{Client} (r : option (Writer * WriterNext)) (w : Writer) : Writer :=
  match r with Some (w, _) => w | None => w end.

Local Abbreviation example_sent :=
  (@writer_iterate simple_ratelimiter counting_rng example_hashing simple_client example_append_env false 9%nat
    (fun _ => 100) (example_writer [[8]])).

Lemma example_writer_shape :
  @wshape simple_ratelimiter counting_rng example_hashing simple_client example_append_env (example_writer [[8]]).
Proof.
  split; [by split; [apply Forall_nil| |]|done|exact I|].
  change (Forall small_id [8]). unfold small_id. forall_lia.
Qed.

Definition example_set : Fire := FireSet (write_key Hex 4 8) 0 64 (Z.lor 8 APPEND_MARKER).

Local Abbreviation example_append_sys r qs c ws st :=
  (@Build_AppendSys simple_ratelimiter counting_rng example_hashing simple_client r qs c ws st).

Lemma append_head_is_stored_witness :
  exists S, rtc (@astep simple_ratelimiter counting_rng example_hashing simple_client example_parse Hex 4
      example_node None 10 1)
      (example_append_sys (append_start 8) (pq_new 1) 0 [(example_append_env, example_writer [[]])] []) S /\
    head_id (as_runner S) = 9 /\ 8 ∈ as_stored S.
Proof.
  set (open_runner := {| next_id := 9; next_at := Some 30; batch_open := true; batches_committed := 0;
                         head_id := 8; keys_total := 1 |}).
  destruct (@writer_iterate_spec simple_ratelimiter counting_rng counting_rng_laws example_hashing
    example_hashing_laws simple_client simple_client_laws example_append_env example_append_env_ok false 9
    (fun _ => 100) (example_writer [[8]]) example_writer_shape) as (w1 & nx & E1 & T1).
  { cbn. intros q [= <-]. cbn. lia. }
  assert (pending (w_client (w_after example_sent (example_writer [[8]]))) = [example_set]) as Ep1
    by (vm_compute; reflexivity).
  assert (w_keys (w_after example_sent (example_writer [[8]])) = [8]) as Ek1 by (vm_compute; reflexivity).
  rewrite E1 in Ep1, Ek1. cbn [w_after] in Ep1, Ek1.
  assert (forall r, nx <> WDisconnect r) as Hnx.
  { intros r ->. pose proof (wd_keys _ _ _ T1) as Em. rewrite Em in Ek1. discriminate Ek1. }
  assert (wkept example_append_env (example_writer [[8]]) w1) as [Sh1 P1 C1].
  { destruct nx; try done; by destruct (Hnx r). }
  destruct (@writer_reply_spec simple_ratelimiter counting_rng example_hashing simple_client simple_client_laws
    example_parse example_append_env example_append_env_ok example_set [] example_outcome w1 Sh1 Ep1)
    as (w2 & E2 & Sh2 & P2 & C2).
  { intros rd. change (redirect _) with (@None Redirect). done. }
  assert (exists S, rtc (@astep simple_ratelimiter counting_rng example_hashing simple_client example_parse Hex 4
      example_node None 10 1)
      (example_append_sys (append_start 8) (pq_new 1) 0 [(example_append_env, example_writer [[]])] []) S /\
    head_id (as_runner S) = 9) as (S & R & Hh).
  { eexists. split.
    - eapply rtc_l; [eapply (as_tick _ _ _ _ _ _ _ 10 20 open_runner [[8]]); [cbn; lia|vm_compute; reflexivity]|].
      eapply rtc_l; [eapply (as_iterate _ _ _ _ _ _ _ 0 example_append_env (example_writer [[]])
        (example_writer [[8]]) false 9 (fun _ => 100) w1 nx); [done|by split| |exact E1|exact Hnx]|].
      { cbn. intros q [= <-]. cbn. lia. }
      eapply rtc_l; [eapply (as_reply _ _ _ _ _ _ _ 0 example_append_env w1 w1 example_set [] example_outcome w2);
        [done|by split; [..|apply Sh1]|exact Ep1| |exact E2]|].
      { intros rd. change (redirect _) with (@None Redirect). done. }
      eapply rtc_l; [|apply rtc_refl]. eapply (as_tick _ _ _ _ _ _ _ 10 20); [cbn; lia|].
      cbn. rewrite C2, C1. cbn. reflexivity.
    - reflexivity. }
  exists S. split; [exact R|]. split; [exact Hh|].
  destruct (@append_head_is_stored simple_ratelimiter simple_ratelimiter_laws counting_rng
    counting_rng_laws example_hashing example_hashing_laws simple_client simple_client_laws example_parse
    Hex 4 example_node None 10 1 8 [(example_append_env, example_writer [[]])] S) as (St & _).
  - exact I.
  - lia.
  - lia.
  - apply Forall_singleton. split; [exact example_append_env_ok|]. split; [done|].
    by split; [apply Forall_nil| |].
  - done.
  - exact R.
  - apply St. rewrite Hh. lia.
Defined.
