(* ===== verification/Saturation.v ===== *)
(** Saturation: the saturation search of a run ([src/src/saturation.rs],
    [SaturationSearchState]).

    The runner calls [check_and_advance] on every report tick.  A trial of a
    rate first drains: [drain_window] after the rate was applied the counters
    and histograms are read as the baseline.  [sample_window] later the step is
    measured against it, judged, printed and recorded, and RateSearch answers
    the next rate or the knee.

    The histogram crate is the class [Histograms]; nothing is assumed of it. *)

From S2P Require Import Prelude F64 Config RateSearch Limiter Metrics.
Open Scope Z_scope.

(** [metriken::histogram]: snapshots, [wrapping_sub] ([None] on [Err]), the
    end of the bucket that holds one quantile and of the highest bucket
    ([None] when there is none). *)
Class Histograms := {
  hist : Type;
  hist_sub : hist -> hist -> option hist;
  hist_quantile : hist -> f64 -> option Z;
  hist_max : hist -> option Z;
}.

(** ** Text *)

(** [format_duration_short]. *)
Definition format_duration_short (d : Z) : string :=
  let us := d / 1000 in
  if 1000000 <=? us then
    (if us mod 1000000 =? 0 then show_Z (us / 1000000)
     else fmt_f64 1 (f64_div (f64_of_Z us) (f64_of_Z 1000000))) +:+ "s"
  else if 1000 <=? us then
    (if us mod 1000 =? 0 then show_Z (us / 1000)
     else fmt_f64 1 (f64_div (f64_of_Z us) (f64_of_Z 1000))) +:+ "ms"
  else show_Z us +:+ "us".

(** A threshold in microseconds: [as_micros() as f64]. *)
Definition threshold_us (d : Z) : f64 := f64_of_Z (d / 1000).

(** One percentile against its threshold. *)
Definition exceeds (name : string) (us : f64) (slo : option Z) : option string :=
  match slo with
  | Some d =>
      if f64_lt (threshold_us d) us
      then Some ("Latency: " ++ name ++ " " ++ fmt_f64 0 us ++ "us > " ++ fmt_f64 0 (threshold_us d) ++ "us SLO")%string
      else None
  | None => None
  end.

(** [slo_fail_reason]. *)
Definition slo_fail_reason (slo : SloThresholds.t) (p50_us p99_us p999_us : f64) : option string :=
  match exceeds "p50" p50_us (SloThresholds.p50 slo) with
  | Some r => Some r
  | None =>
      match exceeds "p99" p99_us (SloThresholds.p99 slo) with
      | Some r => Some r
      | None => exceeds "p999" p999_us (SloThresholds.p999 slo)
      end
  end.

(** [slo_display]: the highest configured percentile. *)
Definition slo_display (slo : SloThresholds.t) : string :=
  match SloThresholds.p999 slo, SloThresholds.p99 slo, SloThresholds.p50 slo with
  | Some d, _, _ => "p999 ≤ " ++ format_duration_short d
  | None, Some d, _ => "p99 ≤ " ++ format_duration_short d
  | None, None, Some d => "p50 ≤ " ++ format_duration_short d
  | None, None, None => ""
  end%string.

(** [slo_threshold_us]. *)
Definition slo_threshold_us (slo : SloThresholds.t) : option f64 :=
  threshold_us <$> match SloThresholds.p999 slo, SloThresholds.p99 slo with
                   | Some d, _ => Some d
                   | None, Some d => Some d
                   | None, None => SloThresholds.p50 slo
                   end.

(** [slo_percentile]. *)
Definition slo_percentile (slo : SloThresholds.t) (p50_us p99_us p999_us : f64) : string * f64 :=
  if bool_decide (is_Some (SloThresholds.p999 slo)) then ("p999", p999_us)
  else if bool_decide (is_Some (SloThresholds.p99 slo)) then ("p99", p99_us)
  else if bool_decide (is_Some (SloThresholds.p50 slo)) then ("p50", p50_us)
  else ("p999", p999_us).

(** ** State *)

(** [SaturationStep]. *)
Record SaturationStep := {
  target_rate : Z;
  achieved_rate : f64;
  p50_us : f64;
  p99_us : f64;
  p999_us : f64;
  slo_passed : bool;
  fail_reason : string;
  step_slo_display : string;
  step_threshold_us : option f64;
  slo_percentile_label : string;
  slo_percentile_us : f64;
  perceived_slo_us : f64;
  throughput_rollover : bool;
  slip_onset : bool;
  slo_breach : bool;
}.

(** [SaturationResults]. *)
Record SaturationResults := {
  max_compliant_rate : option Z;
  steps : list SaturationStep;
  latency_floor : bool;
}.

(** What is printed through the formatter. *)
Inductive Printed := Header | Step (s : SaturationStep).

Section saturation.
Context `{Ratelimiter} `{Histograms}.

(** What one call of [check_and_advance] reads; each metric is read at most
    once in a call. *)
Record Reading := {
  r_now : Z;
  r_responses : Z;
  r_latency : option hist;
  r_perceived : option hist;
  r_slip : option hist;
}.

(** [SaturationSearchState], with the [TARGET_RATE] gauge ([set(rate as i64)]) and what was
    printed. *)
Record SatState := {
  st_config : SaturationSearch.t;
  st_limiters : WorkerLimiters;
  st_rate : Z;
  st_last_good : option Z;
  st_search : RateSearch;
  st_start : Z;
  st_baseline_at : option Z;
  st_histogram : option hist;
  st_perceived : option hist;
  st_slip : option hist;
  st_responses : Z;
  st_prev_achieved : f64;
  st_slip_seen : bool;
  st_breach_seen : bool;
  st_results : list SaturationStep;
  st_completed : bool;
  st_header_printed : bool;
  st_gauge : Z;
  st_printed : list Printed;
}.

#[export] Instance eta_SatState : Settable SatState := fun x =>
  {| st_config := st_config x; st_limiters := st_limiters x; st_rate := st_rate x;
     st_last_good := st_last_good x; st_search := st_search x; st_start := st_start x;
     st_baseline_at := st_baseline_at x; st_histogram := st_histogram x;
     st_perceived := st_perceived x; st_slip := st_slip x; st_responses := st_responses x;
     st_prev_achieved := st_prev_achieved x; st_slip_seen := st_slip_seen x;
     st_breach_seen := st_breach_seen x; st_results := st_results x;
     st_completed := st_completed x; st_header_printed := st_header_printed x;
     st_gauge := st_gauge x; st_printed := st_printed x |}.

(** The search of a configuration. *)
Definition config_search (cfg : SaturationSearch.t) : RateSearch :=
  new_search (SaturationSearch.start_rate cfg) (SaturationSearch.step_multiplier cfg)
    (SaturationSearch.max_rate cfg) (SaturationSearch.bisect_tolerance cfg)
    (SaturationSearch.max_bisect_steps cfg) (SaturationSearch.confirm_failures cfg)
    (SaturationSearch.floor_improvement_ratio cfg).

(** [SaturationSearchState::new]. *)
Definition new_saturation (now : Z) (cfg : SaturationSearch.t) (l : WorkerLimiters) : SatState :=
  let start_rate := SaturationSearch.start_rate cfg in
  {| st_config := cfg; st_limiters := limiters_set_rate start_rate l; st_rate := start_rate;
     st_last_good := None; st_search := config_search cfg; st_start := now; st_baseline_at := None;
     st_histogram := None; st_perceived := None; st_slip := None; st_responses := 0;
     st_prev_achieved := f64_zero; st_slip_seen := false; st_breach_seen := false;
     st_results := []; st_completed := false; st_header_printed := false;
     st_gauge := as_i64 start_rate; st_printed := [] |}.

(** ** Measurement *)

(** [percentile_from_histogram]: nanoseconds to microseconds; 0 when empty. *)
Definition percentile_from_histogram (h : hist) (p : f64) : f64 :=
  match hist_quantile h p with
  | Some end_ => f64_div (f64_of_Z end_) (f64_of_Z 1000)
  | None => f64_zero
  end.

(** The histogram of the window, when there is one. *)
Definition window (current previous : option hist) : option hist :=
  match current, previous with
  | Some c, Some p => hist_sub c p
  | Some c, None => Some c
  | None, _ => None
  end.

Definition percentile_of (h : option hist) (p : f64) : f64 :=
  match h with Some h => percentile_from_histogram h p | None => f64_zero end.

(** p50, p99 and p999 of a window. *)
Definition percentiles (h : option hist) : f64 * f64 * f64 :=
  (percentile_of h (f64_lit 1 2), percentile_of h (f64_lit 99 100), percentile_of h (f64_lit 999 1000)).

(** The rate achieved over [elapsed] nanoseconds. *)
Definition achieved (before after elapsed : Z) : f64 :=
  f64_div (f64_of_Z (sat_sub after before)) (as_secs_f64 elapsed).

(** The p99 schedule slip of the step, in microseconds. *)
Definition slip_p99_us (s : SatState) (m : Reading) : f64 :=
  percentile_of (window (r_slip m) (st_slip s)) (f64_lit 99 100).

(** First crossing of one millisecond. *)
Definition slipped (us : f64) : bool := f64_lt (f64_of_Z 1000) us.

(** The step measured by [m] against the baseline. *)
Definition measure_step (s : SatState) (elapsed : Z) (m : Reading) : SaturationStep :=
  let cfg := st_config s in
  let slo := SaturationSearch.slo cfg in
  let min_ratio := SaturationSearch.min_throughput_ratio cfg in
  let rate := achieved (st_responses s) (r_responses m) elapsed in
  let '(p50, p99, p999) := percentiles (window (r_latency m) (st_histogram s)) in
  let '(perc_p50, perc_p99, perc_p999) := percentiles (window (r_perceived m) (st_perceived s)) in
  let ratio := f64_div rate (f64_of_Z (st_rate s)) in
  let throughput_ok := f64_le min_ratio ratio in
  let latency_reason := slo_fail_reason slo perc_p50 perc_p99 perc_p999 in
  let passed := throughput_ok && bool_decide (latency_reason = None) in
  let (label, us) := slo_percentile slo p50 p99 p999 in
  {| target_rate := st_rate s; achieved_rate := rate; p50_us := p50; p99_us := p99; p999_us := p999;
     slo_passed := passed;
     fail_reason :=
       if passed then ""
       else if negb throughput_ok then
         ("Throughput: " ++ fmt_f64 0 (f64_mul ratio (f64_of_Z 100)) ++ "% (need "
            ++ fmt_f64 0 (f64_mul min_ratio (f64_of_Z 100)) ++ "%)")%string
       else default ""%string latency_reason;
     step_slo_display := slo_display slo; step_threshold_us := slo_threshold_us slo;
     slo_percentile_label := label; slo_percentile_us := us;
     perceived_slo_us := (slo_percentile slo perc_p50 perc_p99 perc_p999).2;
     throughput_rollover :=
       is_climbing (st_search s) && f64_lt f64_zero (st_prev_achieved s) && f64_lt rate (st_prev_achieved s);
     slip_onset := negb (st_slip_seen s) && slipped (slip_p99_us s m);
     slo_breach := negb passed && negb (st_breach_seen s) |}.

(** Print and record a step. *)
Definition record_step (st : SaturationStep) (slip_us : f64) (s : SatState) : SatState :=
  s <| st_printed := st_printed s ++ [Step st] |>
    <| st_results := st_results s ++ [st] |>
    <| st_prev_achieved := achieved_rate st |>
    <| st_slip_seen := slipped slip_us || st_slip_seen s |>
    <| st_breach_seen := negb (slo_passed st) || st_breach_seen s |>.

(** Drive the search with the verdict; reset the trial unless it is over. *)
Definition next_rate (now : Z) (passed : bool) (slo_us : f64) (s : SatState) : SatState :=
  let (search, out) := advance (st_search s) passed slo_us in
  let s := s <| st_search := search |> in
  match out with
  | Done knee => s <| st_last_good := knee |> <| st_completed := true |>
  | Probe r =>
      s <| st_rate := r |> <| st_limiters := limiters_set_rate r (st_limiters s) |>
        <| st_gauge := as_i64 r |> <| st_start := now |> <| st_baseline_at := None |>
        <| st_histogram := None |> <| st_perceived := None |> <| st_slip := None |>
        <| st_responses := 0 |>
  end.

(** [saturating_duration_since]. *)
Definition since (now earlier : Z) : Z := Z.max (now - earlier) 0.

(** [check_and_advance]. *)
Definition check_and_advance (m : Reading) (s : SatState) : SatState * bool :=
  if st_completed s then (s, false)
  else
    match st_baseline_at s with
    | None =>
        if since (r_now m) (st_start s) <? SaturationSearch.drain_window (st_config s) then (s, false)
        else
          (s <| st_responses := r_responses m |> <| st_histogram := r_latency m |>
             <| st_perceived := r_perceived m |> <| st_slip := r_slip m |>
             <| st_baseline_at := Some (r_now m) |>, false)
    | Some baseline_at =>
        let elapsed := since (r_now m) baseline_at in
        if elapsed <? SaturationSearch.sample_window (st_config s) then (s, false)
        else
          let s := if negb (st_header_printed s)
                   then s <| st_printed := st_printed s ++ [Header] |> <| st_header_printed := true |>
                   else s in
          let st := measure_step s elapsed m in
          let s := record_step st (slip_p99_us s m) s in
          (next_rate (r_now m) (slo_passed st) (slo_percentile_us st) s, true)
    end.

(** [results]. *)
Definition saturation_results (s : SatState) : SaturationResults :=
  {| max_compliant_rate := st_last_good s; steps := st_results s;
     latency_floor := floor_detected (st_search s) |}.

End saturation.

(** ** Runs *)

Section runs.
Context `{Ratelimiter} `{Histograms}.
Variables (cfg : SaturationSearch.t) (l0 : WorkerLimiters).

Definition clock (t : Z) (ms : list Reading) : Z := match ms with [] => t | m :: _ => r_now m end.

(** [trial s t ms]: the search is in state [s], the current rate was applied at
    [t], and the calls since then read [ms], latest first.  The workers take
    tokens from the limiters in between, which changes no rate. *)
Inductive trial : SatState -> Z -> list Reading -> Prop :=
| trial_new now : trial (new_saturation now cfg l0) now []
| trial_work s t ms l :
    trial s t ms -> rate l = rate (st_limiters s) -> trial (s <| st_limiters := l |>) t ms
| trial_wait s t ms m s' :
    trial s t ms -> clock t ms <= r_now m -> check_and_advance m s = (s', false) -> trial s' t (m :: ms)
| trial_next s t ms m s' :
    trial s t ms -> clock t ms <= r_now m -> check_and_advance m s = (s', true) -> trial s' (r_now m) [].

End runs.

(** The rates measured and their verdicts, latest first. *)
Definition verdicts (sts : list SaturationStep) : list (Z * bool) :=
  rev (map (fun st => (target_rate st, slo_passed st)) sts).

(** Whether a latency is within an optional threshold. *)
Definition within (us : f64) (slo : option Z) : bool :=
  match slo with Some d => negb (f64_lt (threshold_us d) us) | None => true end.

(** ** Lemmas *)

Lemma exceeds_within name us slo : exceeds name us slo = None <-> within us slo = true.
Proof. unfold exceeds, within. destruct slo as [d|]; [destruct (f64_lt _ _)|]; done. Qed.

Lemma slo_fail_reason_none slo a b c :
  slo_fail_reason slo a b c = None <->
  within a (SloThresholds.p50 slo) && within b (SloThresholds.p99 slo) && within c (SloThresholds.p999 slo) = true.
Proof.
  rewrite !andb_true_iff, <- (exceeds_within "p50"), <- (exceeds_within "p99"), <- (exceeds_within "p999").
  unfold slo_fail_reason. repeat case_match; naive_solver.
Qed.

Lemma slo_fail_reason_text slo a b c r : slo_fail_reason slo a b c = Some r -> r <> ""%string.
Proof.
  unfold slo_fail_reason, exceeds. intros E ->. repeat case_match_hyp E; by simplify_eq.
Qed.

Section lemmas.
Context `{Ratelimiter} `{Histograms}.
Variables (cfg : SaturationSearch.t) (l0 : WorkerLimiters).

(** The trial so far: waiting for the drain, or measuring from the first call
    at or after its end. *)
Definition trial_phase (s : SatState) (t : Z) (ms : list Reading) : Prop :=
  match st_baseline_at s with
  | None => st_start s = t /\ Forall (fun x => r_now x - t < SaturationSearch.drain_window cfg) ms
  | Some tb =>
      exists after b before, ms = after ++ b :: before /\ tb = r_now b /\
        Forall (fun x => r_now x - t < SaturationSearch.drain_window cfg) before /\
        SaturationSearch.drain_window cfg <= r_now b - t /\
        Forall (fun x => r_now x - r_now b < SaturationSearch.sample_window cfg) after /\
        st_responses s = r_responses b /\ st_histogram s = r_latency b /\
        st_perceived s = r_perceived b /\ st_slip s = r_slip b
  end.

(** What every reachable state satisfies. *)
Record sat_inv (s : SatState) : Prop := {
  si_config : st_config s = cfg;
  si_rate : rate (st_limiters s) = st_rate s;
  si_search : current_rate (st_search s) = st_rate s;
  si_gauge : st_gauge s = as_i64 (st_rate s);
  si_header : st_header_printed s = negb (bool_decide (st_results s = []));
  si_printed : st_printed s = (if st_header_printed s then [Header] else []) ++ map Step (st_results s);
  si_breach : st_breach_seen s = existsb (fun st => negb (slo_passed st)) (st_results s);
  si_slip : forall st, st ∈ st_results s -> slip_onset st = true -> st_slip_seen s = true;
}.

Lemma trial_clock s t ms :
  trial cfg l0 s t ms -> t <= clock t ms /\ Forall (fun x => r_now x <= clock t ms) ms.
Proof.
  induction 1 as [now|s t ms l _ IH _|s t ms m s' _ IH C _|s t ms m s' _ IH C _]; [split; [cbn; lia|done]|done| |split; [cbn; lia|done]].
  destruct IH as [L F]. cbn. split; [lia|]. constructor; [lia|].
  eapply Forall_impl; [exact F|]. cbn. intros x ?. lia.
Qed.

(** The state once a step is recorded, before the rate changes. *)
Definition recorded (m : Reading) (elapsed : Z) (s : SatState) : SatState :=
  let s := if negb (st_header_printed s)
           then s <| st_printed := st_printed s ++ [Header] |> <| st_header_printed := true |>
           else s in
  record_step (measure_step s elapsed m) (slip_p99_us s m) s.

Lemma measure_header s ps h elapsed m :
  measure_step (s <| st_printed := ps |> <| st_header_printed := h |>) elapsed m = measure_step s elapsed m.
Proof. done. Qed.

Lemma recorded_results m elapsed s :
  st_results (recorded m elapsed s) = st_results s ++ [measure_step s elapsed m].
Proof. unfold recorded. by destruct (st_header_printed s). Qed.

(** The four ways through [check_and_advance]. *)
Lemma check_cases m s s' r :
  check_and_advance m s = (s', r) ->
  (r = false /\ s' = s /\
     (st_completed s = true \/
      (st_baseline_at s = None /\ since (r_now m) (st_start s) < SaturationSearch.drain_window (st_config s)) \/
      exists tb, st_baseline_at s = Some tb /\ since (r_now m) tb < SaturationSearch.sample_window (st_config s))) \/
  (r = false /\ st_baseline_at s = None /\
     SaturationSearch.drain_window (st_config s) <= since (r_now m) (st_start s) /\
     s' = s <| st_responses := r_responses m |> <| st_histogram := r_latency m |>
            <| st_perceived := r_perceived m |> <| st_slip := r_slip m |>
            <| st_baseline_at := Some (r_now m) |>) \/
  (r = true /\ st_completed s = false /\ exists tb, st_baseline_at s = Some tb /\
     SaturationSearch.sample_window (st_config s) <= since (r_now m) tb /\
     s' = next_rate (r_now m) (slo_passed (measure_step s (since (r_now m) tb) m))
            (slo_percentile_us (measure_step s (since (r_now m) tb) m)) (recorded m (since (r_now m) tb) s)).
Proof.
  unfold check_and_advance. destruct (st_completed s) eqn:EC; [naive_solver|].
  destruct (st_baseline_at s) as [tb|] eqn:EB.
  - destruct (_ <? _) eqn:E; intros [= <- <-]; [left; split_and!; [done..|]; right; right; exists tb; split; [done|lia]|].
    right; right. split_and!; [done..|]. exists tb. split_and!; [done|lia|]. unfold recorded.
    by destruct (st_header_printed s).
  - destruct (_ <? _) eqn:E; intros [= <- <-]; [left; split_and!; [done..|]; right; left; split; [done|lia]|].
    right; left. split_and!; [done..|lia|done].
Qed.

Lemma advance_rate s passed us s' out :
  advance s passed us = (s', out) ->
  match out with Probe r => r = current_rate s' | Done _ => current_rate s' = current_rate s end.
Proof.
  intros E. assert (forall s1 p s' out, phase_step s1 p = (s', out) ->
    match out with Probe r => r = current_rate s' | Done _ => current_rate s' = current_rate s1 end) as PS.
  { clear. intros s1 p s' out. unfold phase_step, climb_step, bisect_step, bisect_probe.
    intros E. repeat case_match_hyp E; by simplify_eq. }
  unfold advance in E. destruct passed; [by apply PS in E|]. cbn in E.
  destruct (_ <=? _); [by simplify_eq|]. unfold note_confirmed_failure in E.
  repeat case_match_hyp E; simplify_eq; try done; by apply PS in E.
Qed.

Lemma next_rate_inv now passed us s : sat_inv s -> sat_inv (next_rate now passed us s).
Proof.
  intros []. unfold next_rate. destruct (advance (st_search s) passed us) as [search out] eqn:E.
  apply advance_rate in E. destruct out; subst; constructor; cbn; try done. congruence.
Qed.

Lemma measure_onset s e m :
  slip_onset (measure_step s e m) = negb (st_slip_seen s) && slipped (slip_p99_us s m).
Proof. unfold measure_step. cbn. by destruct (slo_percentile _ _ _ _). Qed.

Lemma measure_breach s e m :
  slo_breach (measure_step s e m) = negb (slo_passed (measure_step s e m)) && negb (st_breach_seen s).
Proof. unfold measure_step. cbn. by destruct (slo_percentile _ _ _ _). Qed.

Lemma measure_rate s e m : target_rate (measure_step s e m) = st_rate s.
Proof. unfold measure_step. cbn. by destruct (slo_percentile _ _ _ _). Qed.

Local Arguments measure_step : simpl never.

Lemma recorded_inv m elapsed s : sat_inv s -> sat_inv (recorded m elapsed s).
Proof.
  intros [C R S G Hh P B L].
  assert (st_results (recorded m elapsed s) <> []) as NE by (rewrite recorded_results; by destruct (st_results s)).
  unfold recorded in *. destruct (st_header_printed s) eqn:EH; cbn [negb] in *; constructor; cbn; try done.
  - rewrite EH. by rewrite bool_decide_false.
  - rewrite EH, P, map_app. by rewrite app_assoc.
  - rewrite existsb_app, B; cbn. by rewrite orb_false_r, orb_comm.
  - intros st [I|I%list_elem_of_singleton]%elem_of_app ?; [rewrite (L st); [by rewrite orb_true_r|done..]|].
    subst st. change (slip_onset (measure_step s elapsed m) = true) in H1.
    rewrite measure_onset in H1. apply andb_true_iff in H1 as [_ E].
    change (slipped (slip_p99_us s m) || st_slip_seen s = true). by rewrite E.
  - by rewrite bool_decide_false.
  - rewrite P. symmetry in Hh. apply negb_false_iff, bool_decide_eq_true in Hh. by rewrite Hh.
  - rewrite existsb_app, B; cbn. by rewrite orb_false_r, orb_comm.
  - intros st [I|I%list_elem_of_singleton]%elem_of_app ?; [rewrite (L st); [by rewrite orb_true_r|done..]|].
    subst st. change (slip_onset (measure_step s elapsed m) = true) in H1.
    rewrite measure_onset in H1. apply andb_true_iff in H1 as [_ E].
    change (slipped (slip_p99_us s m) || st_slip_seen s = true). by rewrite E.
Qed.

Lemma check_inv m s s' r : sat_inv s -> check_and_advance m s = (s', r) -> sat_inv s'.
Proof.
  intros I [(_ & -> & _)|[(_ & _ & _ & ->)|(_ & _ & tb & _ & _ & ->)]]%check_cases; [done| |].
  - destruct I. by constructor.
  - by apply next_rate_inv, recorded_inv.
Qed.

Lemma trial_inv s t ms : trial cfg l0 s t ms -> sat_inv s.
Proof.
  induction 1 as [now|s t ms l _ [] E|s t ms m s' _ I _ K|s t ms m s' _ I _ K].
  - constructor; cbn; try done. by intros st I%not_elem_of_nil.
  - constructor; cbn; done || congruence.
  - by apply (check_inv _ _ _ _ I K).
  - by apply (check_inv _ _ _ _ I K).
Qed.

Lemma next_rate_start now passed us s :
  st_completed (next_rate now passed us s) = false ->
  st_baseline_at (next_rate now passed us s) = None /\ st_start (next_rate now passed us s) = now.
Proof. unfold next_rate. by destruct (advance _ _ _) as [search [r|k]]. Qed.

Lemma trial_phase_ok s t ms : trial cfg l0 s t ms -> st_completed s = false -> trial_phase s t ms.
Proof.
  induction 1 as [now|s t ms l _ IH _|s t ms m s' T IH C K|s t ms m s' T IH C K]; intros EC.
  - done.
  - by apply IH.
  - pose proof (si_config _ (trial_inv _ _ _ T)) as EG. pose proof (trial_clock _ _ _ T) as [CL CF].
    apply check_cases in K as [(_ & -> & K)|[(_ & EB & D & ->)|(? & _)]]; [| |done].
    + specialize (IH EC). unfold trial_phase in *. destruct K as [K|[[EB K]|(tb & EB & K)]]; [congruence|rewrite EB in *..].
      * destruct IH as [<- F]. split; [done|]. rewrite EG in K. constructor; [unfold since in K; lia|done].
      * destruct IH as (af & b & be & -> & -> & F1 & D & F2 & IH). exists (m :: af), b, be.
        rewrite EG in K. split_and!; [done..| |apply IH|apply IH|apply IH|apply IH].
        constructor; [unfold since in K; lia|done].
    + specialize (IH EC). unfold trial_phase in *. rewrite EB in IH. destruct IH as [<- F].
      cbn. exists [], m, ms. rewrite EG in D. split_and!; try done.
      unfold since in D. destruct (decide (r_now m < st_start s)); lia.
  - apply check_cases in K as [(? & _)|[(? & _)|(_ & _ & tb & _ & _ & ->)]]; [done..|].
    apply next_rate_start in EC as [EB ES]. unfold trial_phase. by rewrite EB.
Qed.

(** The recorded steps are the history of the search. *)
Definition sat_search (s : SatState) : Prop :=
  if st_completed s then
    exists s1 h passed us, probing (config_search cfg) s1 h /\
      advance s1 passed us = (st_search s, Done (st_last_good s)) /\
      verdicts (st_results s) = (current_rate s1, passed) :: h
  else probing (config_search cfg) (st_search s) (verdicts (st_results s)) /\ st_last_good s = None.

Lemma verdicts_snoc sts st :
  verdicts (sts ++ [st]) = (target_rate st, slo_passed st) :: verdicts sts.
Proof. unfold verdicts. by rewrite map_app, rev_app_distr. Qed.

Lemma check_search m s s' r :
  sat_inv s -> sat_search s -> check_and_advance m s = (s', r) -> sat_search s'.
Proof.
  intros I J K. apply check_cases in K as [(_ & -> & _)|[(_ & _ & _ & ->)|(_ & EC & tb & _ & _ & ->)]]; [done..|].
  unfold sat_search in *. rewrite EC in J. destruct J as [P N].
  assert (st_search (recorded m (since (r_now m) tb) s) = st_search s) as ES
    by (unfold recorded; by destruct (st_header_printed s)).
  pose proof (recorded_results m (since (r_now m) tb) s) as ER.
  assert (st_completed (recorded m (since (r_now m) tb) s) = false /\
          st_last_good (recorded m (since (r_now m) tb) s) = None) as [EC' EN]
    by (unfold recorded; by destruct (st_header_printed s)).
  revert ES ER EC' EN. generalize (recorded m (since (r_now m) tb) s). intros s1 ES ER EC' EN.
  unfold next_rate. rewrite ES.
  destruct (advance _ _ _) as [search [q|k]] eqn:E; cbn -[verdicts].
  - rewrite EC', EN, ER, verdicts_snoc, measure_rate, <- (si_search _ I). split; [by eapply probing_next|done].
  - rewrite ER, verdicts_snoc, measure_rate, <- (si_search _ I). by eexists _, _, _, _.
Qed.

Lemma trial_search s t ms : trial cfg l0 s t ms -> sat_search s.
Proof.
  induction 1 as [now|s t ms l _ IH E|s t ms m s' T IH _ K|s t ms m s' T IH _ K];
    [split; [apply probing_new|done]|done|..]; eapply check_search; try done; by eapply trial_inv.
Qed.

(** The measurements a search has made, against its budget. *)
Lemma probing_budget s h :
  search_config_ok (config_search cfg) -> probing (config_search cfg) s h ->
  Z.of_nat (length h) + budget s <= budget (config_search cfg).
Proof.
  intros C. induction 1 as [|s h passed lat s' r P IH A]; [cbn; lia|].
  destruct (probing_good _ _ _ C P) as [G _].
  destruct (advance_probe _ _ _ _ _ G A) as (_ & _ & _ & _ & B). cbn. lia.
Qed.

(** Flags of the recorded steps: a breach exactly at the first failed step, a
    slip onset at most once. *)
Definition flags (sts : list SaturationStep) : Prop :=
  forall i st, sts !! i = Some st ->
    slo_breach st = negb (slo_passed st) && forallb slo_passed (take i sts) /\
    (slip_onset st = true -> Forall (fun x => slip_onset x = false) (take i sts)).

Lemma existsb_forallb sts : existsb (fun st => negb (slo_passed st)) sts = negb (forallb slo_passed sts).
Proof. induction sts as [|st sts IH]; cbn; [done|]. rewrite IH. by destruct (slo_passed st). Qed.

Lemma flags_snoc s elapsed m :
  sat_inv s -> flags (st_results s) -> flags (st_results s ++ [measure_step s elapsed m]).
Proof.
  intros I F i st [L|[L E]]%lookup_app_Some.
  - rewrite take_app_le; [by apply F|]. apply lookup_lt_Some in L. lia.
  - apply list_lookup_singleton_Some in E as [E <-].
    replace i with (length (st_results s)) by lia. rewrite take_app_length. split.
    + by rewrite measure_breach, (si_breach _ I), existsb_forallb, negb_involutive.
    + rewrite measure_onset. intros [N _]%andb_true_iff. apply Forall_forall. intros x X.
      destruct (slip_onset x) eqn:EX; [|done]. rewrite (si_slip _ I x X EX) in N. done.
Qed.

Lemma trial_flags s t ms : trial cfg l0 s t ms -> flags (st_results s).
Proof.
  induction 1 as [now|s t ms l _ IH E|s t ms m s' T IH _ K|s t ms m s' T IH _ K]; [by intros i st ?|done|..];
    apply check_cases in K as [(_ & -> & _)|[(_ & _ & _ & ->)|(? & EC & tb & _ & _ & ->)]]; try done.
  pose proof (recorded_results m (since (r_now m) tb) s) as ER. revert ER.
  generalize (recorded m (since (r_now m) tb) s). intros s1 ER.
  unfold next_rate. destruct (advance _ _ _) as [search [q|k]]; cbn; rewrite ER;
    apply flags_snoc; try done; by eapply trial_inv.
Qed.

End lemmas.

Section properties.
Context `{Ratelimiter} `{Histograms}.
Variables (cfg : SaturationSearch.t) (l0 : WorkerLimiters).

(** The verdict on a step, from its achieved rate and perceived percentiles. *)
Definition verdict_ok (rate : f64) (target : Z) (perceived : f64 * f64 * f64) : bool :=
  let '(p50, p99, p999) := perceived in
  let slo := SaturationSearch.slo cfg in
  f64_le (SaturationSearch.min_throughput_ratio cfg) (f64_div rate (f64_of_Z target)) &&
  (within p50 (SloThresholds.p50 slo) && within p99 (SloThresholds.p99 slo) &&
   within p999 (SloThresholds.p999 slo)).

Lemma measure_verdict s elapsed m :
  st_config s = cfg ->
  let st := measure_step s elapsed m in
  slo_passed st = verdict_ok (achieved_rate st) (target_rate st)
                    (percentiles (window (r_perceived m) (st_perceived s))) /\
  (fail_reason st = ""%string <-> slo_passed st = true).
Proof.
  intros EC. unfold measure_step, verdict_ok, percentiles. rewrite <- EC. destruct (slo_percentile _ _ _ _) as [label us]; cbn.
  destruct (f64_le _ _); cbn; [|split; [done|]; split; discriminate].
  pose proof (slo_fail_reason_none (SaturationSearch.slo (st_config s))
    (percentile_of (window (r_perceived m) (st_perceived s)) (f64_lit 1 2))
    (percentile_of (window (r_perceived m) (st_perceived s)) (f64_lit 99 100))
    (percentile_of (window (r_perceived m) (st_perceived s)) (f64_lit 999 1000))) as N.
  destruct (slo_fail_reason _ _ _ _) as [r|] eqn:E; cbn.
  - split; [destruct (_ && _); [by destruct N as [_ N]; specialize (N eq_refl)|done]|].
    by apply slo_fail_reason_text in E.
  - by rewrite (proj1 N eq_refl).
Qed.

Lemma measure_window s elapsed m :
  let st := measure_step s elapsed m in
  achieved_rate st = achieved (st_responses s) (r_responses m) elapsed /\
  (p50_us st, p99_us st, p999_us st) = percentiles (window (r_latency m) (st_histogram s)).
Proof. unfold measure_step, percentiles. by destruct (slo_percentile _ _ _ _). Qed.

(** C15: a recorded step measures one rate in its steady state.  The limiters
    have run at its target rate since that rate was applied at [t]; its
    baseline [b] is the first call at or after [drain_window] past [t]; it ends
    at the first call at or after [sample_window] past [b]; its throughput and
    latencies are the differences between the two readings alone; it passes
    exactly when the throughput ratio and every configured percentile of the
    perceived latency do, and it gives a reason exactly when it fails. *)
Theorem step_measures_steady_rate s t ms m s' :
  trial cfg l0 s t ms -> clock t ms <= r_now m -> check_and_advance m s = (s', true) ->
  exists after b before st,
    ms = after ++ b :: before /\
    Forall (fun x => r_now x - t < SaturationSearch.drain_window cfg) before /\
    SaturationSearch.drain_window cfg <= r_now b - t /\
    Forall (fun x => r_now x - r_now b < SaturationSearch.sample_window cfg) after /\
    SaturationSearch.sample_window cfg <= r_now m - r_now b /\
    st_results s' = st_results s ++ [st] /\
    target_rate st = rate (st_limiters s) /\
    achieved_rate st = achieved (r_responses b) (r_responses m) (r_now m - r_now b) /\
    (p50_us st, p99_us st, p999_us st) = percentiles (window (r_latency m) (r_latency b)) /\
    slo_passed st = verdict_ok (achieved_rate st) (target_rate st)
                      (percentiles (window (r_perceived m) (r_perceived b))) /\
    (fail_reason st = ""%string <-> slo_passed st = true).
Proof.
  intros T C K. pose proof (trial_inv _ _ _ _ _ T) as I. pose proof (trial_clock _ _ _ _ _ T) as [CL CF].
  apply check_cases in K as [(? & _)|[(? & _)|(_ & EC & tb & EB & D & ->)]]; [done..|].
  pose proof (trial_phase_ok _ _ _ _ _ T EC) as P. unfold trial_phase in P. rewrite EB in P.
  destruct P as (af & b & be & -> & -> & F1 & D1 & F2 & R & EH & EP & _).
  rewrite (si_config _ _ I) in D.
  apply Forall_app in CF as [_ [CB _]%Forall_cons].
  assert (since (r_now m) (r_now b) = r_now m - r_now b) as ES by (unfold since; lia). rewrite ES in *.
  destruct (measure_window s (r_now m - r_now b) m) as [W1 W2].
  destruct (measure_verdict s (r_now m - r_now b) m (si_config _ _ I)) as [V1 V2].
  rewrite R, EH, EP in *. exists af, b, be, (measure_step s (r_now m - r_now b) m).
  assert (forall s1, st_results (next_rate (r_now m) (slo_passed (measure_step s (r_now m - r_now b) m))
            (slo_percentile_us (measure_step s (r_now m - r_now b) m)) s1) = st_results s1) as EN
    by (intros s1; unfold next_rate; by destruct (advance _ _ _) as [? []]).
  split_and!; [reflexivity|exact F1|exact D1|exact F2|lia|by rewrite EN, recorded_results
              |rewrite measure_rate; by rewrite (si_rate _ _ I)|exact W1|exact W2|exact V1|apply V2..].
Qed.

(** What the search reports.  Nothing until it has completed; then the
    highest target rate among the steps that passed, and none exactly when no
    step passed.  It completes within the search's measurement budget, and a
    completed search takes no further step. *)
Theorem saturation_outcome s t ms :
  search_config_ok (config_search cfg) -> trial cfg l0 s t ms ->
  max_compliant_rate (saturation_results s)
    = (if st_completed s then best_pass (verdicts (steps (saturation_results s))) else None) /\
  Z.of_nat (length (steps (saturation_results s)))
    <= (SaturationSearch.confirm_failures cfg + 1) *
       (SaturationSearch.max_rate cfg - SaturationSearch.start_rate cfg
          + SaturationSearch.max_bisect_steps cfg + 1)
       + SaturationSearch.confirm_failures cfg + 1 /\
  (st_completed s = true -> forall m, check_and_advance m s = (s, false)).
Proof.
  intros C T. pose proof (trial_search _ _ _ _ _ T) as J. unfold sat_search in J.
  assert (length (verdicts (st_results s)) = length (st_results s)) as EL
    by (unfold verdicts; by rewrite length_rev, length_map).
  split; [|split]; cbn [max_compliant_rate steps saturation_results].
  - destruct (st_completed s); [|tauto]. destruct J as (s1 & h & p & us & P & A & ->).
    by eapply done_best.
  - rewrite <- EL. assert (budget (config_search cfg) =
      (SaturationSearch.confirm_failures cfg + 1) * (SaturationSearch.max_rate cfg -
        SaturationSearch.start_rate cfg + SaturationSearch.max_bisect_steps cfg + 1)
      + SaturationSearch.confirm_failures cfg) as <- by (unfold budget, rounds; cbn; lia).
    destruct (st_completed s).
    + destruct J as (s1 & h & p & us & P & _ & ->). cbn.
      pose proof (probing_budget _ _ _ C P). pose proof (budget_nonneg _ (proj1 (probing_good _ _ _ C P))). lia.
    + destruct J as [P _]. pose proof (probing_budget _ _ _ C P).
      pose proof (budget_nonneg _ (proj1 (probing_good _ _ _ C P))). lia.
  - intros E m. unfold check_and_advance. by rewrite E.
Qed.

(** The markers and the table.  The header is printed once, before the
    first step, and every step once in order; [slo_breach] marks exactly the
    first step that failed; [slip_onset] marks at most one step; and the
    limiters, the [TARGET_RATE] gauge and the rate search agree on the rate. *)
Theorem saturation_markers s t ms :
  trial cfg l0 s t ms ->
  st_printed s = (if bool_decide (st_results s = []) then [] else Header :: map Step (st_results s)) /\
  (forall i st, st_results s !! i = Some st ->
     slo_breach st = negb (slo_passed st) && forallb slo_passed (take i (st_results s)) /\
     (slip_onset st = true -> Forall (fun x => slip_onset x = false) (take i (st_results s)))) /\
  rate (st_limiters s) = current_rate (st_search s) /\
  st_gauge s = as_i64 (rate (st_limiters s)).
Proof.
  intros T. pose proof (trial_inv _ _ _ _ _ T) as [C R S G Hh P B L]. split_and!; [|by eapply trial_flags|congruence..].
  rewrite P, Hh. destruct (st_results s); done.
Qed.

End properties.

Example format_duration_short_ex :
  map format_duration_short [from_millis 1; from_millis 2000; 1500000; 500000; 1500000000]
  = ["1ms"; "2s"; "1.5ms"; "500us"; "1.5s"]%string.
Proof. by vm_compute. Qed.

(** *** Witnesses

    A search whose first rate is its top rate: it passes, and the search is
    over. *)

Definition example_histograms : Histograms := {|
  hist := list Z;
  hist_sub := fun c p => Some (drop (length p) c);
  hist_quantile := fun h _ => match h with [] => None | _ => Some (fold_right Z.max 0 h) end;
  hist_max := fun h => match h with [] => None | _ => Some (fold_right Z.max 0 h) end;
|}.

Definition example_saturation : SaturationSearch.t := {|
  SaturationSearch.slo := {| SloThresholds.p50 := None; SloThresholds.p99 := Some (from_millis 1);
                             SloThresholds.p999 := None |};
  SaturationSearch.start_rate := 1000; SaturationSearch.step_multiplier := f64_lit 2 1;
  SaturationSearch.sample_window := from_secs 1; SaturationSearch.drain_window := from_millis 500;
  SaturationSearch.stop_after_failures := 3; SaturationSearch.max_rate := 1000;
  SaturationSearch.min_throughput_ratio := f64_lit 9 10; SaturationSearch.confirm_failures := 1;
  SaturationSearch.floor_improvement_ratio := f64_lit 10 100;
  SaturationSearch.bisect_tolerance := f64_lit 5 100; SaturationSearch.max_bisect_steps := 8;
|}.

Definition example_reading (now responses : Z) (lat : list Z) : @Reading example_histograms :=
  {| r_now := now; r_responses := responses; r_latency := Some (lat : @hist example_histograms);
     r_perceived := Some (lat : @hist example_histograms); r_slip := None |}.

Definition no_limiters : @WorkerLimiters simple_ratelimiter :=
  {| limiters := []; weights := []; total_weight := 1; rate := 0 |}.

Definition reading1 := example_reading (from_millis 600) 550 [].

Definition reading2 := example_reading (from_millis 1600) 1545 [200000; 900000].

Definition example_s0 := @new_saturation simple_ratelimiter example_histograms 0 example_saturation no_limiters.

Definition example_s1 := (check_and_advance reading1 example_s0).1.

Definition example_s2 := (check_and_advance reading2 example_s1).1.

Lemma example_search_config : search_config_ok (config_search example_saturation).
Proof. constructor; cbn; try (by vm_compute); unfold u64_max, u32_max; lia. Qed.

Lemma example_trial1 :
  @trial simple_ratelimiter example_histograms example_saturation no_limiters example_s1 0 [reading1].
Proof. by eapply trial_wait; [apply trial_new|cbn; unfold from_millis; lia|]. Qed.

Lemma example_step : check_and_advance reading2 example_s1 = (example_s2, true).
Proof.
  unfold example_s2. rewrite (surjective_pairing (check_and_advance reading2 example_s1)) at 1.
  f_equal; by vm_compute.
Qed.

Lemma example_trial2 :
  @trial simple_ratelimiter example_histograms example_saturation no_limiters example_s2 (from_millis 1600) [].
Proof.
  apply (trial_next _ _ _ _ _ reading2 _ example_trial1); [cbn; unfold from_millis; lia|exact example_step].
Qed.

Lemma step_measures_steady_rate_witness :
  exists st, st_results example_s2 = st_results example_s1 ++ [st] /\ target_rate st = 1000.
Proof.
  destruct (step_measures_steady_rate _ _ _ _ _ reading2 example_s2 example_trial1) as (_ & _ & _ & st & _ & _ & _ & _ & _ & E & R & _).
  - cbn. unfold from_millis. lia.
  - exact example_step.
  - exists st. split; [exact E|]. rewrite R. by vm_compute.
Defined.

Lemma saturation_outcome_witness :
  max_compliant_rate (saturation_results example_s2) = Some 1000.
Proof.
  rewrite (proj1 (saturation_outcome _ _ _ _ _ example_search_config example_trial2)). by vm_compute.
Defined.

Lemma saturation_markers_witness : rate (st_limiters example_s2) = current_rate (st_search example_s2).
Proof. exact (proj1 (proj2 (proj2 (saturation_markers _ _ _ _ _ example_trial2)))). Defined.
