(* ===== verification/Trace.v ===== *)
(** Trace: object-level trace replay ([src/src/tracereplay.rs]).

    A reader thread turns trace entries into rows and sends them, in batches
    of [CLAIM_BATCH], into a bounded channel.  A worker claims a batch at a
    time; its connections send the rows, put back those whose send failed, and
    settle the others by their replies.  The crates cachetrace (the meaning of
    an op code) and ringline-redis (the client, the kind of a send error) are
    parameters; the channel is crossbeam's bounded queue, a list. *)

From Stdlib Require Import Ascii.
From S2P Require Import Prelude F64 Text Config Keys KeyDist Limiter Dispatch Metrics InFlight Reply Workload.
Open Scope Z_scope.

Definition CLAIM_BATCH : nat := 64.

Definition MAX_SEND_ATTEMPTS : Z := 3.

Definition READ_AHEAD_BATCHES : nat := 256.

Definition READER_POLL : Z := from_millis 1.

Definition RINGLINE_SEND_SLOT_SIZE : Z := 16448.

Definition REQUEST_FRAMING : Z := 64.

(** ** Rows *)

Inductive RowOp := RowGet | RowSet | RowDel.

#[export] Instance RowOp_eq_dec : EqDecision RowOp.
Proof. solve_decision. Defined.

Record Row := { obj_id : Z; size : Z; op : RowOp; failed_sends : Z }.

#[export] Instance eta_Row : Settable Row := fun x =>
  {| obj_id := obj_id x; size := size x; op := op x; failed_sends := failed_sends x |}.

(** [cachetrace::TraceEntry], the fields that are read. *)
Record TraceEntry := { entry_id : Z; entry_size : Z; entry_op : option Z }.

(** [cachetrace::Op]. *)
Class TraceOps := {
  trace_op : Type;
  op_from_u8 : Z -> trace_op;
  op_is_delete : trace_op -> bool;
  op_is_write : trace_op -> bool;
  op_is_read : trace_op -> bool;
}.

(** [RowOp::from_trace]. *)
Definition from_trace `{TraceOps} (code : option Z) : option RowOp :=
  match code with
  | None => Some RowGet
  | Some code =>
      let o := op_from_u8 code in
      if op_is_delete o then Some RowDel
      else if op_is_write o then Some RowSet
      else if op_is_read o then Some RowGet
      else None
  end.

(** [Row::from_entry]. *)
Definition from_entry `{TraceOps} (e : TraceEntry) (max_value : Z) : option Row :=
  op ← from_trace (entry_op e);
  if bool_decide (op = RowSet) && (max_value <? entry_size e) then None
  else Some {| obj_id := entry_id e; size := entry_size e; op := op; failed_sends := 0 |}.

(** ** What every worker shares: [TraceReplay] and [ReaderState]

    [tx_open] is whether the reader thread still holds its sender. *)
Record Replay := {
  batches : list (list Row);
  tx_open : bool;
  rd_sent : Z;
  rd_stopped : bool;
  rd_error : option string;
  rp_done : Z;
  rp_started : bool;
  returned : list Row;
  rp_log : list metric;
}.

#[export] Instance eta_Replay : Settable Replay := fun x =>
  {| batches := batches x; tx_open := tx_open x; rd_sent := rd_sent x; rd_stopped := rd_stopped x;
     rd_error := rd_error x; rp_done := rp_done x; rp_started := rp_started x;
     returned := returned x; rp_log := rp_log x |}.

(** [TraceReplay::load], once the footer and the reader are open. *)
Definition new_replay : Replay :=
  {| batches := []; tx_open := true; rd_sent := 0; rd_stopped := false; rd_error := None;
     rp_done := 0; rp_started := false; returned := []; rp_log := [] |}.

Definition rp_note (ms : list metric) (s : Replay) : Replay := s <| rp_log := rp_log s ++ ms |>.

(** [is_finished]. *)
Definition is_finished (s : Replay) : bool := rd_stopped s && (rd_sent s <=? rp_done s).

Definition trace_start (s : Replay) : Replay := s <| rp_started := true |>.

(** [mark_done]. *)
Definition mark_done (n : nat) (s : Replay) : Replay :=
  if (0 <? n)%nat then s <| rp_done := wrap64 (rp_done s + Z.of_nat n) |> else s.

(** [note_given_up]. *)
Definition note_given_up (n : nat) (s : Replay) : Replay :=
  mark_done n (rp_note [Count TRACE_ROWS_FAILED (Z.of_nat n)] s).

(** ** The reader thread

    [rt_rest]: what the trace has left; [rt_sending]: a batch counted in
    [rd_sent] whose [send] has not returned; [rt_exit]: past the loop. *)
Record Reader := {
  rt_rest : list (result string TraceEntry);
  rt_batch : list Row;
  rt_sending : option (list Row);
}.

#[export] Instance eta_Reader : Settable Reader := fun x =>
  {| rt_rest := rt_rest x; rt_batch := rt_batch x; rt_sending := rt_sending x |}.

Definition new_reader (entries : list (result string TraceEntry)) : Reader :=
  {| rt_rest := entries; rt_batch := []; rt_sending := None |}.

(** The first half of [send]: the rows are counted before they are sent. *)
Definition begin_send (t : Reader) (s : Replay) : Reader * Replay :=
  (t <| rt_batch := [] |> <| rt_sending := Some (rt_batch t) |>,
   s <| rd_sent := wrap64 (rd_sent s + Z.of_nat (length (rt_batch t))) |>).

(** One step of the thread: finish a send once the channel has room (or the
    receiver is gone, [alive = false], which ends the thread), read one entry,
    or stop.  The path of the trace names it in an error. *)
Definition reader_step `{TraceOps} (path : string) (alive : bool) (t : Reader) (s : Replay) : Reader * Replay :=
  match rt_sending t with
  | Some b =>
      if negb alive then
        (t <| rt_rest := [] |> <| rt_batch := [] |> <| rt_sending := None |>, s)
      else if (length (batches s) <? READ_AHEAD_BATCHES)%nat then
        (t <| rt_sending := None |>, s <| batches := batches s ++ [b] |>)
      else (t, s)
  | None =>
      match rt_rest t with
      | Ok entry :: rest =>
          let t := t <| rt_rest := rest |> in
          match from_entry entry VALUE_POOL_SIZE with
          | Some row =>
              let t := t <| rt_batch := rt_batch t ++ [row] |> in
              if (length (rt_batch t) =? CLAIM_BATCH)%nat then begin_send t s else (t, s)
          | None => (t, rp_note [Count TRACE_ROWS_SKIPPED 1] s)
          end
      | Err e :: _ =>
          (t <| rt_rest := [] |>,
           s <| rd_error := Some (default ("trace_replay trace " +:+ path +:+ ": " +:+ e) (rd_error s)) |>)
      | [] =>
          match rt_batch t with
          | _ :: _ => begin_send t s
          | [] => (t, if rd_stopped s then s <| tx_open := false |> else s <| rd_stopped := true |>)
          end
      end
  end.

(** ** Rows a worker has claimed *)

Inductive NextRow := ARow (r : Row) | NotReady | Exhausted.

(** [next_row]: the claimed rows, and the shared state, after it. *)
Definition next_row (claimed : list Row) (s : Replay) : list Row * Replay * NextRow :=
  match claimed with
  | row :: claimed => (claimed, s, ARow row)
  | [] =>
      match returned s with
      | _ :: _ =>
          let n := Nat.min (length (returned s)) CLAIM_BATCH in
          let s' := s <| returned := drop n (returned s) |> in
          match take n (returned s) with
          | row :: claimed => (claimed, s', ARow row)
          | [] => ([], s', NotReady)
          end
      | [] =>
          match batches s with
          | b :: bs =>
              let s := s <| batches := bs |> in
              match b with
              | row :: claimed => (claimed, s, ARow row)
              | [] => ([], s, NotReady)
              end
          | [] => ([], s, if tx_open s then NotReady else Exhausted)
          end
      end
  end.

(** [unclaim]: [push_front] of each row, last first. *)
Definition unclaim (rows claimed : list Row) : list Row := fold_right cons claimed rows.

(** [return_claimed]. *)
Definition return_claimed (claimed : list Row) (s : Replay) : list Row * Replay :=
  ([], s <| returned := unclaim claimed (returned s) |>).

(** ** Requests in flight *)

Inductive Sent := SentRow (r : Row) | SentBackfill (obj_id size : Z).

Inductive Charge := ChargeNothing | ChargeFailed | ChargeAll.

(** The row part of [requeue]'s loop; [i] is the index, [n] the number of
    discarded requests. *)
Fixpoint requeue_rows (i n : nat) (charge : Charge) (l : list Sent) : list Row * nat :=
  match l with
  | [] => ([], 0%nat)
  | SentBackfill _ _ :: l => requeue_rows (S i) n charge l
  | SentRow row :: l =>
      let charged := match charge with
                     | ChargeNothing => false
                     | ChargeFailed => (n <=? i)%nat
                     | ChargeAll => true
                     end in
      let row := if charged then row <| failed_sends := (failed_sends row + 1) mod 2 ^ 8 |> else row in
      let (rows, given_up) := requeue_rows (S i) n charge l in
      if MAX_SEND_ATTEMPTS <=? failed_sends row then (rows, S given_up) else (row :: rows, given_up)
  end.

(** [requeue]: the requests still in flight, the claimed rows, and how many
    rows were given up. *)
Definition requeue (sent : list Sent) (discarded : nat) (failed : option Sent) (charge : Charge)
    (claimed : list Row) : list Sent * list Row * nat :=
  let keep := (length sent - discarded)%nat in
  let n_discarded := (length sent - keep)%nat in
  let (rows, given_up) := requeue_rows 0 n_discarded charge (drop keep sent ++ option_list failed) in
  (take keep sent, unclaim rows claimed, given_up).

(** [requeue_with_next]. *)
Definition requeue_with_next (sent : list Sent) (discarded : nat) (next : Sent) (charge : Charge)
    (claimed : list Row) : list Sent * list Row * nat :=
  let claimed := match next with SentRow row => unclaim [row] claimed | SentBackfill _ _ => claimed end in
  requeue sent discarded None charge claimed.

(** [must_flush_first]. *)
Definition must_flush_first (copied : Z) (has_guard : bool) (next_copied : Z) (next_guarded : bool)
    (slot : Z) : bool :=
  (0 <? copied) && (has_guard || next_guarded) && (slot <? copied + next_copied).

(** ** A connection *)

(** Whether a failing send's error is ringline's [InvalidInput]
    ([never_sendable]): that of a fire, that of a flush. *)
Class ClientErrors `{Client} := {
  fire_invalid : Fire -> client -> bool;
  flush_invalid : client -> bool;
}.

(** What the connection task hands the loop: [TraceConn] and the key format of
    the replay. *)
Record TraceEnv := {
  te_depth : nat;
  te_batch : Z;
  te_pool_len : Z;
  te_backfill : bool;
  te_prefix : list Z;
  te_format : KvKeyFormat;
}.

(** The state of a connection; [tc_claimed] is its worker's, [tc_replay] every
    worker's. *)
Record TConn `{Ratelimiter} `{Rng} `{Client} := {
  tc_client : client;
  tc_rng : rng;
  tc_limiter : option WorkerLimiter;
  tc_slip : SlipState;
  tc_inflight : InFlight;
  tc_sent : list Sent;
  tc_backfill : list (Z * Z);
  tc_carried : Z;
  tc_claimed : list Row;
  tc_replay : Replay;
}.

#[export] Instance eta_TConn `{Ratelimiter} `{Rng} `{Client} : Settable TConn := fun x =>
  {| tc_client := tc_client x; tc_rng := tc_rng x; tc_limiter := tc_limiter x; tc_slip := tc_slip x;
     tc_inflight := tc_inflight x; tc_sent := tc_sent x; tc_backfill := tc_backfill x;
     tc_carried := tc_carried x; tc_claimed := tc_claimed x; tc_replay := tc_replay x |}.


(** An object's key: the prefix, then 16 hex digits or the decimal id. *)
Definition replay_key (prefix : list Z) (format : KvKeyFormat) (id : Z) : list Z :=
  prefix ++ match format with
            | KvHex => rev (hex_rev 16 id)
            | KvDecimal => bytes_of (show_Z id)
            end.

(** [push_key]. *)
Definition push_key (env : TraceEnv) (id : Z) : list Z := replay_key (te_prefix env) (te_format env) id.

(** [max_key_len]; [max_value_len] of the largest object in the footer. *)
Definition replay_key_len (prefix : list Z) (format : KvKeyFormat) : Z :=
  Z.of_nat (length prefix) + match format with KvHex => 16 | KvDecimal => 20 end.

Definition max_key_len (env : TraceEnv) : Z := replay_key_len (te_prefix env) (te_format env).

Definition max_value_len (max_obj_size : Z) : Z := Z.min max_obj_size VALUE_POOL_SIZE.

Section conn.
Context `{Ratelimiter} `{Rng} `{ClientErrors}.
Variable env : TraceEnv.

Definition tc_note (ms : list metric) (s : TConn) : TConn := s <| tc_replay := rp_note ms (tc_replay s) |>.

Definition t_pending (s : TConn) : nat := pending_count (tc_client s).

(** [value_offset] of a value of [n] bytes. *)
Definition trace_offset (n : Z) (r : rng) : option (rng * Z) :=
  range_draw 0 (wrap64 (te_pool_len env - n) + 1) r.

(** The request of an operation on a key; every user data is 0. *)
Definition trace_fire (op : RowOp) (id n : Z) (r : rng) : option (rng * Fire) :=
  let key := push_key env id in
  match op with
  | RowGet => Some (r, FireGet key 0)
  | RowDel => Some (r, FireDel key 0)
  | RowSet =>
      '(r, offset) ← trace_offset n r;
      if ZC_VALUE_THRESHOLD <=? n then Some (r, FireSetWithGuard key (offset mod 2 ^ 32) (n mod 2 ^ 32) 0)
      else if offset + n <=? te_pool_len env then Some (r, FireSet key offset n 0) else None
  end.

(** What a request sends: its op, its object and its size. *)
Definition sent_request (x : Sent) : RowOp * Z * Z :=
  match x with
  | SentRow row => (op row, obj_id row, size row)
  | SentBackfill id n => (RowSet, id, n)
  end.

Definition is_guarded (op : RowOp) (n : Z) : bool := bool_decide (op = RowSet) && (ZC_VALUE_THRESHOLD <=? n).

(** The bytes a request copies into the batch. *)
Definition copied_bytes (op : RowOp) (id n : Z) : Z :=
  Z.of_nat (length (push_key env id)) + REQUEST_FRAMING +
  (if bool_decide (op = RowSet) && negb (is_guarded op n) then n else 0).

(** [sent] and the claimed rows after a failed send: [rq] is what [requeue] or
    [requeue_with_next] answers. *)
Definition give_back (rq : list Sent * list Row * nat) (s : TConn) : TConn :=
  let '(sent, claimed, given_up) := rq in
  s <| tc_sent := sent |> <| tc_claimed := claimed |> <| tc_replay := note_given_up given_up (tc_replay s) |>.

(** A flush, and the accounting of its failure: [next] is the request that
    waits for it, if any; the last component is whether it succeeded and how
    many requests it discarded. *)
Definition trace_flush (next : option Sent) (s : TConn) : TConn * bool * nat :=
  let before := t_pending s in
  let (c, ok) := flush (tc_client s) in
  if ok then (s <| tc_client := c |>, true, 0%nat)
  else
    let '(x, ms, discarded) := note_discarded before (pending_count c) true (tc_inflight s) in
    let charge := if flush_invalid (tc_client s) then ChargeAll else ChargeNothing in
    let s := tc_note ms (s <| tc_client := c |> <| tc_inflight := x |>) in
    (give_back (match next with
                | Some next => requeue_with_next (tc_sent s) discarded next charge (tc_claimed s)
                | None => requeue (tc_sent s) discarded None charge (tc_claimed s)
                end) s, false, discarded).

(** Why a fill stopped: out of room or tokens, a failed send, no row ready, no
    row left. *)
Inductive FillEnd := FillFull | FillFailed | ReaderBehind | FillExhausted.

(** The next request: a queued backfill, or a row. *)
Definition next_request (s : TConn) : TConn * (FillEnd + Sent) :=
  match tc_backfill s with
  | (id, n) :: rest => (s <| tc_backfill := rest |>, inr (SentBackfill id n))
  | [] =>
      let '(claimed, rp, next) := next_row (tc_claimed s) (tc_replay s) in
      let s := s <| tc_claimed := claimed |> <| tc_replay := rp |> in
      match next with
      | ARow row => (s, inr (SentRow row))
      | NotReady => (tc_note [Count TRACE_READ_WAITS 1] s, inl ReaderBehind)
      | Exhausted => (s, inl FillExhausted)
      end
  end.

(** The fill loop: [budget] tokens, [copied] and [guard] of the batch so far,
    [fc] requests fired.  The answer adds the tokens left and why it ended. *)
Fixpoint trace_fill (budget : nat) (fired_at : Z) (slip : option Z) (copied : Z) (guard : bool)
    (s : TConn) (fc : Z) : option (TConn * Z * nat * FillEnd) :=
  match budget with
  | O => Some (s, fc, O, FillFull)
  | S budget =>
      if negb (t_pending s <? te_depth env)%nat then Some (s, fc, S budget, FillFull)
      else
        let (s, next) := next_request s in
        match next with
        | inl e => Some (s, fc, S budget, e)
        | inr next =>
            let '(op, id, n) := sent_request next in
            let guarded := is_guarded op n in
            let add := copied_bytes op id n in
            let first := must_flush_first copied guard add guarded RINGLINE_SEND_SLOT_SIZE in
            let '(s, ok, discarded) := if first then trace_flush (Some next) s else (s, true, 0%nat) in
            if negb ok then Some (s, wrap64 (fc - Z.of_nat discarded), S budget, FillFailed)
            else
              let '(copied, guard) := if first then (0, false) else (copied, guard) in
              '(r, f) ← trace_fire op id n (tc_rng s);
              let s := s <| tc_rng := r |> in
              let before := t_pending s in
              let (c, ok) := fire f (tc_client s) in
              if ok then
                let s := s <| tc_client := c |> <| tc_inflight := push fired_at (tc_inflight s) |>
                           <| tc_sent := tc_sent s ++ [next] |> in
                trace_fill budget fired_at slip (copied + add) (guard || guarded)
                  (tc_note (slip_sample slip) s) (fc + 1)
              else
                let '(x, ms, discarded) := note_failed_fire before (pending_count c) true (tc_inflight s) in
                let charge := if fire_invalid f (tc_client s) then ChargeFailed else ChargeNothing in
                let s := tc_note ms (s <| tc_client := c |> <| tc_inflight := x |>) in
                Some (give_back (requeue (tc_sent s) discarded (Some next) charge (tc_claimed s)) s,
                      wrap64 (fc - Z.of_nat discarded), budget, FillFailed)
        end
  end.

(** The tokens for a batch; the last component is [starved]. *)
Definition trace_tokens (now : Z) (s : TConn) : TConn * Z * bool :=
  match tc_limiter s with
  | None => (s, te_batch env, false)
  | Some rl =>
      if 0 <? tc_carried s then (s <| tc_carried := 0 |>, tc_carried s, false)
      else
        let n := Z.min (te_batch env) (limiter_max_tokens rl) in
        if 0 <? n then
          let (rl, r) := limiter_try_wait_n now n rl in
          let s := s <| tc_limiter := Some rl |> in
          match r with Taken => (s, n, false) | _ => (s, 0, true) end
        else (s, 0, true)
  end.

Definition trace_publish_slip (now : Z) (s : TConn) : TConn :=
  match tc_limiter s with
  | Some rl => s <| tc_slip := set_worker_slip_ns (slip_ns now rl) (tc_slip s) |>
  | None => s
  end.

(** The fill of an iteration: the connection, [fired_count], [starved] and why
    it ended. *)
Definition trace_fill_phase (now : Z) (s : TConn) : option (TConn * Z * bool * FillEnd) :=
  let '(s, budget, starved) := trace_tokens now s in
  let slip := match tc_limiter s with Some rl => Some (slip_ns now rl) | None => None end in
  let s := trace_publish_slip now s in
  '(s, fc, left_, e) ← trace_fill (Z.to_nat budget) now slip 0 false s 0;
  let s := match e with
           | ReaderBehind | FillExhausted =>
               if (0 <? left_)%nat then s <| tc_carried := wrap64 (tc_carried s + Z.of_nat left_) |> else s
           | _ => s
           end in
  Some (s, fc, starved, e).

Inductive TraceNext := TraceFinished | TraceDisconnect (r : DisconnectReason) | TraceAcquire (n : Z)
| TraceSleep (d : Z) | TraceRecv.

(** One iteration of [run]'s loop up to its wait. *)
Definition trace_iterate (phase : Phase) (has_dispatcher : bool) (now : Z) (s : TConn)
    : option (TConn * TraceNext) :=
  if bool_decide (phase = Stop) then Some (s, TraceFinished)
  else if (t_pending s =? 0)%nat && negb (is_alive (tc_client s)) then Some (s, TraceDisconnect Eof)
  else
    let waiting_start := negb (rp_started (tc_replay s)) in
    let want_fire := te_batch env <=? Z.of_nat (te_depth env - t_pending s) in
    '(s, fc, starved, e) ← (if serving phase && want_fire && negb waiting_start
                            then trace_fill_phase now s else Some (s, 0, false, FillFull));
    let '(s, ok, discarded) := trace_flush None s in
    let s := tc_note [Count REQUESTS_SENT (wrap64 (fc - Z.of_nat discarded))] s in
    let s := trace_publish_slip now s in
    Some (s,
      if (t_pending s =? 0)%nat then
        if has_dispatcher && starved then TraceAcquire (te_batch env)
        else TraceSleep (match e with
                         | FillExhausted => IDLE_SLEEP_MAX
                         | ReaderBehind => READER_POLL
                         | _ => if waiting_start then READER_POLL else IDLE_SLEEP_MIN
                         end)
      else TraceRecv).

(** What an answered row counts as. *)
Definition op_counter (op : RowOp) : Counter :=
  match op with RowGet => TRACE_GETS | RowSet => TRACE_SETS | RowDel => TRACE_DELS end.

(** Handle one reply; the client has already dropped the request.  [None]: a
    reply with nothing recorded in flight. *)
Definition trace_reply (r : RequestResult) (s : TConn) : option TConn :=
  let s := s <| tc_inflight := fst (pop (tc_inflight s)) |> in
  match tc_sent s with
  | [] => None
  | x :: sent =>
      let s := tc_note (record_counters r) (s <| tc_sent := sent |>) in
      match x with
      | SentRow row =>
          let s := s <| tc_replay := mark_done 1 (tc_replay s) |> in
          let s := tc_note [Count TRACE_ROWS 1; Count (op_counter (op row)) 1] s in
          if te_backfill env && bool_decide (op row = RowGet) && success r &&
             bool_decide (hit r = Some false) && (length (tc_backfill s) <? BACKFILL_QUEUE_CAP)%nat &&
             (size row <=? VALUE_POOL_SIZE)
          then Some (s <| tc_backfill := tc_backfill s ++ [(obj_id row, size row)] |>)
          else Some s
      | SentBackfill _ _ =>
          if success r
          then Some (tc_note [Count BACKFILL_SET_COUNT 1; Sample BACKFILL_SET_LATENCY (latency_ns r)] s)
          else Some s
      end
  end.

(** The rows among some requests. *)
Fixpoint rows_of (l : list Sent) : list Row :=
  match l with
  | [] => []
  | SentRow row :: l => row :: rows_of l
  | SentBackfill _ _ :: l => rows_of l
  end.

(** The end of [drive]: rows in flight are failed unless the run is stopping;
    a failed connection returns its worker's rows. *)
Definition trace_end (should_stop is_err : bool) (s : TConn) : TConn :=
  let failed := length (rows_of (tc_sent s)) in
  let s := if should_stop then s else s <| tc_replay := note_given_up failed (tc_replay s) |> in
  if is_err then
    let (claimed, rp) := return_claimed (tc_claimed s) (tc_replay s) in
    s <| tc_claimed := claimed |> <| tc_replay := rp |>
  else s.

End conn.

(** What [acquire] granted is carried into the next batch. *)
Definition trace_acquired `{Ratelimiter} `{Rng} `{Client} (n : Z) (s : TConn) : TConn :=
  s <| tc_carried := wrap64 (tc_carried s + n) |>.

(** ** Results *)

(** [TraceBaseline]: the counters at the start of recording. *)
Definition trace_baseline (value : Counter -> Z) : list Z :=
  map value [TRACE_ROWS; TRACE_ROWS_FAILED; TRACE_GETS; TRACE_SETS; TRACE_DELS; TRACE_READ_WAITS].

(** [TraceReplayResults]. *)
Record TraceReplayResults := {
  trr_trace : string; trr_trace_rows : Z; trr_rows : Z; trr_rows_failed : Z; trr_rows_skipped : Z;
  trr_gets : Z; trr_sets : Z; trr_dels : Z; trr_read_waits : Z; trr_finished : bool; trr_all_skipped : bool;
}.

(** [TraceReplay::results]: [value] reads a counter now. *)
Definition trace_results (path : string) (trace_rows : Z) (value : Counter -> Z) (baseline : list Z) (s : Replay)
    : TraceReplayResults :=
  let d i := sat_sub (nth i (trace_baseline value) 0) (nth i baseline 0) in
  {| trr_trace := path; trr_trace_rows := trace_rows; trr_rows := d 0%nat; trr_rows_failed := d 1%nat;
     trr_rows_skipped := value TRACE_ROWS_SKIPPED; trr_gets := d 2%nat; trr_sets := d 3%nat;
     trr_dels := d 4%nat; trr_read_waits := d 5%nat;
     trr_finished := is_finished s && bool_decide (rd_error s = None);
     trr_all_skipped := (rd_sent s =? 0) && rd_stopped s && bool_decide (rd_error s = None) |}.

(** ** The system: the reader, the workers, their connections *)

(** A row's identity; [failed_sends] changes as it is retried. *)
Definition rid (r : Row) : Z * Z * RowOp := (obj_id r, size r, op r).

(** The rows of a trace: those before the first read error that are sent. *)
Fixpoint trace_rows `{TraceOps} (entries : list (result string TraceEntry)) : list Row :=
  match entries with
  | Ok e :: entries => option_list (from_entry e VALUE_POOL_SIZE) ++ trace_rows entries
  | _ => []
  end.

Section system.
Context `{TraceOps} `{Ratelimiter} `{Rng} `{ClientErrors}.

(** A connection, its worker and its environment. *)
Record TTask := { tt_env : TraceEnv; tt_worker : nat; tt_conn : TConn }.

Record TraceSys := {
  y_reader : Reader;
  y_replay : Replay;
  y_claimed : list (list Row);
  y_tasks : list TTask;
}.

(** A task resumes with its own state and what it shares, as it is now. *)
Record t_resumed (S : TraceSys) (t : TTask) (s1 : TConn) : Prop := {
  tr_replay : tc_replay s1 = y_replay S;
  tr_claimed : y_claimed S !! tt_worker t = Some (tc_claimed s1);
  tr_client : tc_client s1 = tc_client (tt_conn t);
  tr_sent : tc_sent s1 = tc_sent (tt_conn t);
  tr_backfill : tc_backfill s1 = tc_backfill (tt_conn t);
}.

Definition t_settle (S : TraceSys) (i : nat) (t : TTask) (s : TConn) : TraceSys :=
  {| y_reader := y_reader S; y_replay := tc_replay s;
     y_claimed := <[tt_worker t := tc_claimed s]> (y_claimed S);
     y_tasks := <[i := {| tt_env := tt_env t; tt_worker := tt_worker t; tt_conn := s |}]> (y_tasks S) |}.

(** A new connection: nothing in flight, no backfill. *)
Definition t_reconnect (c : client) (timeout : Z) (s : TConn) : TConn :=
  s <| tc_client := c |> <| tc_inflight := new_inflight timeout |> <| tc_sent := [] |>
    <| tc_backfill := [] |> <| tc_carried := 0 |>.

(** One step, while the run is not stopping. *)
Inductive tstep (path : string) (S : TraceSys) : TraceSys -> Prop :=
| ts_reader t r :
    reader_step path true (y_reader S) (y_replay S) = (t, r) ->
    tstep path S {| y_reader := t; y_replay := r; y_claimed := y_claimed S; y_tasks := y_tasks S |}
| ts_start :
    tstep path S {| y_reader := y_reader S; y_replay := trace_start (y_replay S);
                    y_claimed := y_claimed S; y_tasks := y_tasks S |}
| ts_iterate i t s1 phase has_dispatcher now s' next :
    y_tasks S !! i = Some t -> t_resumed S t s1 -> phase <> Stop ->
    trace_iterate (tt_env t) phase has_dispatcher now s1 = Some (s', next) ->
    (forall r, next <> TraceDisconnect r) -> tstep path S (t_settle S i t s')
| ts_close i t s1 phase has_dispatcher now s' r c timeout :
    y_tasks S !! i = Some t -> t_resumed S t s1 -> phase <> Stop ->
    trace_iterate (tt_env t) phase has_dispatcher now s1 = Some (s', TraceDisconnect r) -> pending c = [] ->
    tstep path S (t_settle S i t (t_reconnect c timeout (trace_end false true s')))
| ts_reply i t s1 f fs r s' :
    y_tasks S !! i = Some t -> t_resumed S t s1 -> pending (tc_client s1) = f :: fs ->
    trace_reply (tt_env t) r (s1 <| tc_client := take_reply (tc_client s1) |>) = Some s' ->
    tstep path S (t_settle S i t s')
| ts_lost i t s1 c timeout :
    y_tasks S !! i = Some t -> t_resumed S t s1 -> pending c = [] ->
    tstep path S (t_settle S i t (t_reconnect c timeout (trace_end false true s1))).

(** Before the first step. *)
Definition trace_sys_start (entries : list (result string TraceEntry)) (workers : nat) (tasks : list TTask)
    : TraceSys :=
  {| y_reader := new_reader entries; y_replay := new_replay; y_claimed := replicate workers [];
     y_tasks := tasks |}.

Definition unstarted_task (workers : nat) (t : TTask) : Prop :=
  (tt_worker t < workers)%nat /\ te_pool_len (tt_env t) = VALUE_POOL_SIZE /\
  pending (tc_client (tt_conn t)) = [] /\ tc_sent (tt_conn t) = [] /\ tc_backfill (tt_conn t) = [].

(** The rows handed over by the reader and not settled, wherever they are. *)
Definition waiting_rows (S : TraceSys) : list Row :=
  default [] (rt_sending (y_reader S)) ++ concat (batches (y_replay S)) ++ returned (y_replay S) ++
  concat (y_claimed S) ++ concat (map (fun t => rows_of (tc_sent (tt_conn t))) (y_tasks S)).

End system.

(** ** Invariant *)

(** A row that may still be sent: under the attempts cap, and a SET no larger
    than the pool. *)
Definition row_ok (r : Row) : Prop :=
  0 <= failed_sends r < MAX_SEND_ATTEMPTS /\ 0 <= size r /\ (op r = RowSet -> size r <= VALUE_POOL_SIZE).

(** [Replay] fields no connection changes. *)
Definition same_reader (s s' : Replay) : Prop :=
  rd_sent s' = rd_sent s /\ rd_stopped s' = rd_stopped s /\ rd_error s' = rd_error s /\
  tx_open s' = tx_open s /\ rp_started s' = rp_started s.

(** Rows settled, by the counters. *)
Definition settled_count (log : list metric) : Z := counted TRACE_ROWS log + counted TRACE_ROWS_FAILED log.

Section inv.
Context `{Ratelimiter} `{Rng} `{Client}.

(** The rows a connection can reach. *)
Definition t_here (s : TConn) : list Row :=
  tc_claimed s ++ returned (tc_replay s) ++ concat (batches (tc_replay s)) ++ rows_of (tc_sent s).

Record twf (s : TConn) : Prop := {
  tw_rows : Forall row_ok (t_here s);
  tw_backfill : Forall (fun b => 0 <= b.2 <= VALUE_POOL_SIZE) (tc_backfill s);
  tw_sync : length (tc_sent s) = t_pending s;
}.

(** Holding rows [h] in state [s] becomes holding [h'] in [s'], and the rows
    [gone] were settled and counted; no other row was lost or made. *)
Record settles (h : list Row) (s : TConn) (h' : list Row) (s' : TConn) (gone : list (Z * Z * RowOp)) : Prop := {
  se_rows : map rid (h ++ t_here s) ≡ₚ gone ++ map rid (h' ++ t_here s');
  se_done : wrap64 (rp_done (tc_replay s')) = wrap64 (rp_done (tc_replay s) + Z.of_nat (length gone));
  se_range : is_u64 (rp_done (tc_replay s)) -> is_u64 (rp_done (tc_replay s'));
  se_count : settled_count (rp_log (tc_replay s')) =
             settled_count (rp_log (tc_replay s)) + Z.of_nat (length gone);
  se_reader : same_reader (tc_replay s) (tc_replay s');
}.

Definition keeps (h : list Row) (s : TConn) (h' : list Row) (s' : TConn) : Prop :=
  exists gone, settles h s h' s' gone.

End inv.

(** ** Lemmas: rows *)

Lemma dec_digits_length fuel n acc k :
  0 <= n < 10 ^ Z.of_nat (S k) ->
  (String.length (dec_digits fuel n acc) <= String.length acc + S k)%nat.
Proof.
  revert n acc k. induction fuel as [|fuel IH]; intros n acc k B; cbn [dec_digits]; [lia|].
  destruct (n <? 10) eqn:E; cbn [String.length]; [lia|]. destruct k as [|k].
  { change (10 ^ Z.of_nat 1) with 10 in B. lia. }
  specialize (IH (n / 10) (String (digit_ascii (n mod 10)) acc) k). cbn [String.length] in IH.
  rewrite Nat2Z.inj_succ, Z.pow_succ_r in B by lia.
  assert (0 <= n / 10 < 10 ^ Z.of_nat (S k)); [|lia].
  split; [apply Z.div_pos; lia|apply Z.div_lt_upper_bound; lia].
Qed.

(** No key is longer than the send buffers are sized for. *)
Lemma replay_key_length prefix format id :
  is_u64 id -> Z.of_nat (length (replay_key prefix format id)) <= replay_key_len prefix format.
Proof.
  intros B. unfold replay_key, replay_key_len. rewrite length_app. destruct format.
  - rewrite length_rev. assert (forall k n, length (hex_rev k n) = k) as L
      by (induction k as [|k IH]; intros n; cbn; [done|by rewrite IH]). rewrite L. lia.
  - unfold bytes_of, show_Z. rewrite length_map.
    pose proof (dec_digits_length (S (Z.to_nat (Z.log2 id))) id "" 19 ltac:(unfold u64_max in B; cbn; lia)) as L.
    assert (forall s, length (Stdlib.Strings.String.list_ascii_of_string s) = String.length s) as E
      by (induction s as [|a s IH]; cbn; [done|by rewrite IH]). rewrite E. cbn [String.length] in L. lia.
Qed.

Lemma unclaim_app rows claimed : unclaim rows claimed = rows ++ claimed.
Proof. induction rows as [|r rows IH]; cbn; [done|]. by rewrite <- IH. Qed.

Lemma rows_of_app l1 l2 : rows_of (l1 ++ l2) = rows_of l1 ++ rows_of l2.
Proof. induction l1 as [|[r|a b] l1 IH]; cbn; [done| |done]. by rewrite IH. Qed.

Lemma next_row_spec claimed s claimed' s' next :
  next_row claimed s = (claimed', s', next) ->
  claimed ++ returned s ++ concat (batches s)
    ≡ₚ match next with ARow r => [r] | _ => [] end ++ claimed' ++ returned s' ++ concat (batches s') /\
  same_reader s s' /\ rp_done s' = rp_done s /\ rp_log s' = rp_log s.
Proof.
  unfold next_row. destruct claimed as [|r claimed]; [|by intros [= <- <- <-]].
  destruct (returned s) as [|r rs] eqn:ER.
  - destruct (batches s) as [|b bs] eqn:EB.
    + intros [= <- <- <-]. rewrite ER, EB. by destruct (tx_open s).
    + destruct b as [|r b]; intros [= <- <- <-]; cbn; by rewrite ER.
  - intros E. rewrite <- (take_drop (Nat.min (length (r :: rs)) CLAIM_BATCH) (r :: rs)).
    remember (Nat.min (length (r :: rs)) CLAIM_BATCH) as n.
    destruct (take n (r :: rs)) as [|r' cl] eqn:ET; injection E as <- <- <-; split; try done.
    cbn -[drop]. by rewrite <- app_assoc.
Qed.

(** What [requeue] keeps and what it gives up. *)
Lemma requeue_rows_spec n charge l i rows g :
  Forall row_ok (rows_of l) -> requeue_rows i n charge l = (rows, g) ->
  Forall row_ok rows /\
  exists gone, map rid (rows_of l) ≡ₚ gone ++ map rid rows /\ length gone = g.
Proof.
  revert i rows g. induction l as [|[r|a b] l IH]; cbn [requeue_rows rows_of]; intros i rows g F E.
  - injection E as <- <-. split; [done|]. by exists [].
  - apply Forall_cons in F as [[Fr Fs] F].
    destruct (requeue_rows (S i) n charge l) as [rows' g'] eqn:E'. specialize (IH _ _ _ F E') as (F' & gone & P & L).
    set (r' := if match charge with ChargeNothing => false | ChargeFailed => (n <=? i)%nat | ChargeAll => true end
               then r <| failed_sends := (failed_sends r + 1) mod 2 ^ 8 |> else r) in *.
    assert (rid r' = rid r /\ 0 <= failed_sends r' /\ op r' = op r /\ size r' = size r) as (Er & R0 & Eo & Es).
    { pose proof (Z.mod_pos_bound (failed_sends r + 1) (2 ^ 8) ltac:(lia)) as B. unfold r'.
      repeat case_match_goal; split_and!; try done; cbn [failed_sends set_field] in *; lia. }
    destruct (MAX_SEND_ATTEMPTS <=? failed_sends r') eqn:EM; injection E as <- <-.
    + split; [done|]. exists (rid r :: gone). cbn. rewrite P, L. done.
    + split; [constructor; [|done]; split; [lia|by rewrite Eo, Es]|].
      exists gone. cbn. rewrite P, Er. split; [solve_Permutation|done].
  - by eapply IH.
Qed.

Lemma requeue_spec sent d failed charge claimed sent' claimed' g :
  Forall row_ok (rows_of sent ++ rows_of (option_list failed)) ->
  requeue sent d failed charge claimed = (sent', claimed', g) ->
  sent' = take (length sent - d) sent /\
  exists back gone, claimed' = back ++ claimed /\ Forall row_ok back /\ length gone = g /\
    map rid (rows_of sent ++ rows_of (option_list failed)) ≡ₚ gone ++ map rid (rows_of sent' ++ back).
Proof.
  unfold requeue. intros F. set (keep := (length sent - d)%nat).
  destruct (requeue_rows _ _ _ _) as [rows g'] eqn:E. intros [= <- <- <-].
  assert (rows_of sent = rows_of (take keep sent) ++ rows_of (drop keep sent)) as ES
    by (by rewrite <- rows_of_app, take_drop).
  rewrite ES in *. rewrite <- app_assoc, Forall_app in F. destruct F as [F1 F2].
  rewrite <- rows_of_app in F2. destruct (requeue_rows_spec _ _ _ _ _ _ F2 E) as (Fr & gone & P & L).
  split; [done|]. exists rows, gone. split_and!; [apply unclaim_app|done|done|].
  rewrite <- app_assoc, <- rows_of_app, !map_app, P. solve_Permutation.
Qed.

Lemma forall_rows_sent l : Forall row_ok (rows_of l) -> forall d, Forall row_ok (rows_of (take d l)).
Proof.
  intros F d. rewrite <- (take_drop d l), rows_of_app in F. by apply Forall_app in F as [F _].
Qed.

(** ** Lemmas: a connection *)

(** The metrics that settle no row. *)
Definition quiet (ms : list metric) : Prop := settled_count ms = 0.

Lemma settled_app l1 l2 : settled_count (l1 ++ l2) = settled_count l1 + settled_count l2.
Proof. unfold settled_count. rewrite !counted_app. lia. Qed.

Lemma settled_failed n : settled_count [Count TRACE_ROWS_FAILED n] = n.
Proof. change (0 + 0 + (n + 0) = n). lia. Qed.

Lemma quiet_record r : quiet (record_counters r).
Proof. unfold record_counters, quiet. by repeat case_match_goal. Qed.

Lemma quiet_send_failed n : quiet [Count REQUESTS_SEND_FAILED n].
Proof. reflexivity. Qed.

Lemma quiet_fire_failed n : quiet [Count REQUESTS_SEND_FAILED 1; Count REQUESTS_SEND_FAILED n].
Proof. reflexivity. Qed.

Lemma quiet_sent n : quiet [Count REQUESTS_SENT n].
Proof. reflexivity. Qed.

Lemma quiet_slip slip : quiet (slip_sample slip).
Proof. by destruct slip. Qed.

#[local] Hint Resolve quiet_record quiet_send_failed quiet_fire_failed quiet_sent quiet_slip : core.

Section laws.
Context `{Ratelimiter} `{RngLaws} `{ClientLaws} `{!ClientErrors}.

Lemma keeps_trans h1 s1 h2 s2 h3 s3 : keeps h1 s1 h2 s2 -> keeps h2 s2 h3 s3 -> keeps h1 s1 h3 s3.
Proof.
  intros [g1 [P1 D1 R1 C1 (A1 & B1 & E1 & F1 & G1)]] [g2 [P2 D2 R2 C2 (A2 & B2 & E2 & F2 & G2)]].
  exists (g1 ++ g2). split.
  - by rewrite P1, P2, app_assoc.
  - rewrite D2, <- wrap64_add_l, D1, wrap64_add_l, length_app. f_equal. lia.
  - auto.
  - rewrite C2, C1, length_app. lia.
  - split_and!; congruence.
Qed.

(** A change of parts that hold no rows, with quiet metrics. *)
Lemma keeps_frame h s s' ms :
  tc_claimed s' = tc_claimed s -> tc_sent s' = tc_sent s -> tc_replay s' = rp_note ms (tc_replay s) ->
  quiet ms -> keeps h s h s'.
Proof.
  intros E1 E2 E3 Q. exists []. split; unfold t_here; rewrite ?E1, ?E2, ?E3; try done; cbn.
  - f_equal. lia.
  - rewrite settled_app, Q. lia.
Qed.

Lemma keeps_refl h s : keeps h s h s.
Proof. exists []. split; try done; cbn; [f_equal; lia|lia]. Qed.

Lemma given_up_replay n r :
  batches (note_given_up n r) = batches r /\ returned (note_given_up n r) = returned r /\
  rp_done (note_given_up n r) = (if (0 <? n)%nat then wrap64 (rp_done r + Z.of_nat n) else rp_done r) /\
  rp_log (note_given_up n r) = rp_log r ++ [Count TRACE_ROWS_FAILED (Z.of_nat n)] /\
  same_reader r (note_given_up n r).
Proof. unfold note_given_up, mark_done. by destruct (0 <? n)%nat. Qed.

(** Giving up the rows [gone]: the counters move by their number. *)
Lemma given_up_settles h s h' s' gone :
  map rid (h ++ t_here s) ≡ₚ gone ++ map rid (h' ++ t_here s') ->
  tc_replay s' = note_given_up (length gone) (tc_replay s) -> settles h s h' s' gone.
Proof.
  intros P E. destruct (given_up_replay (length gone) (tc_replay s)) as (_ & _ & D & L & R).
  split; [done|..]; rewrite E, ?D, ?L; try done.
  - destruct (0 <? length gone)%nat eqn:G; [by rewrite wrap64_wrap64|].
    apply Nat.ltb_ge in G. f_equal. lia.
  - destruct (0 <? length gone)%nat; [intros _; apply wrap64_range|done].
  - by rewrite settled_app, settled_failed.
Qed.

(** Rows given back after a failed send: [ex] joins the claimed rows first. *)
Lemma give_back_spec s d failed charge ex s' :
  Forall row_ok (t_here s) -> Forall row_ok (rows_of (option_list failed) ++ ex) ->
  give_back (requeue (tc_sent s) d failed charge (ex ++ tc_claimed s)) s = s' ->
  keeps (rows_of (option_list failed) ++ ex) s [] s' /\ Forall row_ok (t_here s') /\
  tc_sent s' = take (length (tc_sent s) - d) (tc_sent s) /\ tc_client s' = tc_client s /\
  tc_backfill s' = tc_backfill s.
Proof.
  intros F [F1 F2]%Forall_app <-. unfold t_here in F. rewrite !Forall_app in F. destruct F as (Fc & Fr & Fb & Fs).
  unfold give_back. destruct (requeue _ _ _ _ _) as [[sent claimed] g] eqn:E.
  apply requeue_spec in E as (-> & back & gone & -> & Fk & L & P); [|by apply Forall_app].
  destruct (given_up_replay g (tc_replay s)) as (B & R & _).
  split_and!; try done.
  - exists gone. apply given_up_settles; [|cbn; by rewrite L].
    unfold t_here; cbn. rewrite B, R. rewrite !map_app in *.
    transitivity ((map rid (rows_of (tc_sent s)) ++ map rid (rows_of (option_list failed))) ++
                  map rid ex ++ map rid (tc_claimed s) ++ map rid (returned (tc_replay s)) ++
                  map rid (concat (batches (tc_replay s)))); [solve_Permutation|].
    rewrite P. solve_Permutation.
  - unfold t_here; cbn. rewrite B, R, !Forall_app. split_and!; try done. by apply forall_rows_sent.
Qed.

Lemma tc_note_nil s : tc_note [] s = s.
Proof. destruct s as [? ? ? ? ? ? ? ? ? []]. unfold tc_note, rp_note; cbn. by rewrite app_nil_r. Qed.

(** The two ways a send fails leave the connection well formed: the rows it
    held are given back and the requests it discarded leave [sent]. *)
Lemma discard_spec s c x ms failed charge ex d s' :
  twf s -> Forall row_ok (rows_of (option_list failed) ++ ex) -> quiet ms ->
  pending_count c = (t_pending s - d)%nat ->
  give_back (requeue (tc_sent s) d failed charge (ex ++ tc_claimed s))
    (tc_note ms (s <| tc_client := c |> <| tc_inflight := x |>)) = s' ->
  keeps (rows_of (option_list failed) ++ ex) s [] s' /\ twf s'.
Proof.
  intros [F B S] Fh Q Pc E.
  destruct (give_back_spec (tc_note ms (s <| tc_client := c |> <| tc_inflight := x |>)) d failed charge ex s')
    as (K & F' & Es & Ec & Eb); [done..|]. split.
  - eapply keeps_trans; [|exact K]. by apply (keeps_frame _ _ _ ms).
  - split; [done|by rewrite Eb|]. unfold t_pending. rewrite Es, Ec. cbn. rewrite length_take, Pc, S. lia.
Qed.

Lemma trace_flush_spec next s s' ok d :
  twf s -> Forall row_ok (rows_of (option_list next)) -> trace_flush next s = (s', ok, d) ->
  if ok then exists c, s' = s <| tc_client := c |> /\ pending c = pending (tc_client s)
  else keeps (rows_of (option_list next)) s [] s' /\ twf s'.
Proof.
  intros W F. unfold trace_flush. destruct (flush (tc_client s)) as [c [|]] eqn:Ef.
  - intros [= <- <- _]. exists c. split; [done|]. by apply flush_ok in Ef as [-> _].
  - apply flush_err in Ef as [Ep _]. unfold note_discarded.
    assert (pending_count c = (t_pending s - (t_pending s - pending_count c))%nat) as Ec.
    { unfold t_pending, pending_count in *. rewrite Ep, length_take. lia. }
    intros [= <- <- _]. destruct next as [next|].
    + unfold requeue_with_next. destruct next as [r|a b].
      * exact (discard_spec s c _ _ None _ [r] _ _ W F (quiet_send_failed _) Ec eq_refl).
      * exact (discard_spec s c _ _ None _ [] _ _ W F (quiet_send_failed _) Ec eq_refl).
    + exact (discard_spec s c _ _ None _ [] _ _ W F (quiet_send_failed _) Ec eq_refl).
Qed.

Lemma next_request_spec s s' next :
  twf s -> next_request s = (s', next) ->
  keeps [] s match next with inr (SentRow r) => [r] | _ => [] end s' /\ twf s' /\
  tc_client s' = tc_client s /\
  match next with
  | inr (SentRow r) => row_ok r
  | inr (SentBackfill _ n) => 0 <= n <= VALUE_POOL_SIZE
  | inl _ => True
  end.
Proof.
  intros [F B S]. unfold next_request. destruct (tc_backfill s) as [|[a n] bs] eqn:EB.
  - destruct (next_row _ _) as [[cl rp] nx] eqn:E. apply next_row_spec in E as (P & R & D & L).
    assert (t_here s ≡ₚ match nx with ARow r => [r] | _ => [] end ++
              cl ++ returned rp ++ concat (batches rp) ++ rows_of (tc_sent s)) as PH.
    { unfold t_here. rewrite (app_assoc (returned _)), (app_assoc (tc_claimed s)), P, <- !app_assoc. done. }
    assert (forall ms s1, s1 = tc_note ms (s <| tc_claimed := cl |> <| tc_replay := rp |>) -> quiet ms ->
      keeps [] s match nx with ARow r => [r] | _ => [] end s1) as K.
    { intros ms s1 -> Q. exists []. split; cbn; try done.
      - apply fmap_Permutation. exact PH.
      - rewrite D. f_equal. lia.
      - by rewrite D.
      - rewrite settled_app, Q, L. lia. }
    assert (Forall row_ok match nx with ARow r => [r] | _ => [] end /\
            Forall row_ok (cl ++ returned rp ++ concat (batches rp) ++ rows_of (tc_sent s))) as [Fn Fh].
    { rewrite <- Forall_app. by rewrite PH in F. }
    destruct nx as [r| |]; intros [= <- <-].
    + split_and!; [apply (K []); [by rewrite tc_note_nil|done]|split; [done|cbn; by rewrite EB|done]|done|by apply Forall_cons in Fn as [? _]].
    + split_and!; [by apply (K [Count TRACE_READ_WAITS 1])|split; [done|cbn; by rewrite EB|done]|done..].
    + split_and!; [apply (K []); [by rewrite tc_note_nil|done]|split; [done|cbn; by rewrite EB|done]|done..].
  - intros [= <- <-]. apply Forall_cons in B as [Bn B]. split_and!; [|by split|done|apply Bn..].
    apply (keeps_frame _ _ _ []); [done|done| |done]. by rewrite <- (tc_note_nil s) at 1.
Qed.

Section fill.
Variable env : TraceEnv.
Hypothesis POOL : te_pool_len env = VALUE_POOL_SIZE.

(** A request is built for every op and size that is sent. *)
Lemma trace_fire_ok op id n r :
  (op = RowSet -> 0 <= n <= VALUE_POOL_SIZE) -> exists r' f, trace_fire env op id n r = Some (r', f).
Proof.
  intros B. unfold trace_fire. destruct op; [by eexists _, _| |by eexists _, _].
  specialize (B eq_refl). unfold trace_offset. rewrite POOL. unfold VALUE_POOL_SIZE in *.
  rewrite wrap64_small by (unfold u64_max; lia).
  destruct (range_draw_ok 0 (1024 * 1024 * 1024 - n + 1) r) as (r' & o & -> & Ho); [lia|]. cbn.
  destruct (ZC_VALUE_THRESHOLD <=? n); [by eexists _, _|].
  rewrite (proj2 (Z.leb_le _ _)) by lia. by eexists _, _.
Qed.

Lemma sent_request_ok x op id n :
  match x with SentRow r => row_ok r | SentBackfill _ n => 0 <= n <= VALUE_POOL_SIZE end ->
  sent_request x = (op, id, n) -> (op = RowSet -> 0 <= n <= VALUE_POOL_SIZE) /\ Forall row_ok (rows_of [x]).
Proof. destruct x as [r|a b]; intros B [= <- <- <-]; [|done]. split; [|by constructor].
  intros E. destruct B as (_ & ? & B). auto. Qed.

(** A fired request: its row, if it is one, is now in flight. *)
Lemma fired_spec s c f x r fired_at slip h s' :
  twf s -> fire f (tc_client s) = (c, true) -> Forall row_ok (rows_of [x]) ->
  s' = tc_note (slip_sample slip)
         (s <| tc_rng := r |> <| tc_client := c |> <| tc_inflight := push fired_at (tc_inflight s) |>
            <| tc_sent := tc_sent s ++ [x] |>) ->
  h = rows_of [x] -> keeps h s [] s' /\ twf s'.
Proof.
  intros [F B S] E Fx -> ->. apply fire_ok in E as [Ep _]. split.
  - exists []. split; cbn; try done.
    + apply fmap_Permutation. unfold t_here; cbn. rewrite rows_of_app. solve_Permutation.
    + f_equal. lia.
    + rewrite settled_app, quiet_slip. lia.
  - split; [|done|].
    + unfold t_here in *; cbn. rewrite rows_of_app, !app_assoc, Forall_app, <- !app_assoc. by split.
    + unfold t_pending, pending_count in *; cbn. rewrite Ep, !length_app, S. cbn. lia.
Qed.

(** A failed fire gives its request back with those it discarded. *)
Lemma fire_failed_spec s c f x r charge s' :
  twf s -> fire f (tc_client s) = (c, false) -> Forall row_ok (rows_of [x]) ->
  (let '(y, ms, d) := note_failed_fire (t_pending s) (pending_count c) true (tc_inflight s) in
   let s1 := tc_note ms (s <| tc_rng := r |> <| tc_client := c |> <| tc_inflight := y |>) in
   give_back (requeue (tc_sent s1) d (Some x) charge (tc_claimed s1)) s1) = s' ->
  keeps (rows_of [x]) s [] s' /\ twf s'.
Proof.
  intros W E Fx. apply fire_err in E as [Ep _]. cbn [note_failed_fire note_discarded].
  assert (pending_count c = (t_pending s - (t_pending s - pending_count c))%nat) as Ec.
  { unfold t_pending, pending_count in *. rewrite Ep, length_take. lia. }
  assert (twf (s <| tc_rng := r |>)) as Wr by (by destruct W; split).
  intros Es. rewrite <- (app_nil_r (rows_of [x])) in Fx |- *.
  destruct (discard_spec (s <| tc_rng := r |>) c _ _ (Some x) charge [] _ _ Wr Fx (quiet_fire_failed _) Ec Es) as [K T].
  split; [|done]. eapply keeps_trans; [|exact K].
  apply (keeps_frame _ _ _ []); [done|done| |done]. by rewrite <- (tc_note_nil s) at 1.
Qed.

Lemma keeps_flushed s c h : keeps h s h (s <| tc_client := c |>).
Proof. apply (keeps_frame _ _ _ []); [done|done| |done]. by rewrite <- (tc_note_nil s) at 1. Qed.

(** The fill loop never panics, loses no row and keeps the connection well
    formed. *)
Lemma trace_fill_spec budget fired_at slip copied guard s fc :
  twf s -> exists s' fc' n e, trace_fill env budget fired_at slip copied guard s fc = Some (s', fc', n, e) /\
                              keeps [] s [] s' /\ twf s'.
Proof.
  revert copied guard s fc. induction budget as [|budget IH]; intros copied guard s fc W; cbn [trace_fill].
  { eexists _, _, _, _. split_and!; [done|apply keeps_refl|done]. }
  destruct (negb _). { eexists _, _, _, _. split_and!; [done|apply keeps_refl|done]. }
  destruct (next_request s) as [s1 next] eqn:En. apply next_request_spec in En as (K1 & W1 & _ & Ok); [|done].
  destruct next as [e|x]. { eexists _, _, _, _. by split_and!. }
  assert (keeps [] s (rows_of [x]) s1) as K1' by (by destruct x).
  destruct (sent_request x) as [[op id] n] eqn:Ex. apply sent_request_ok in Ex as [Bn Fx]; [|done].
  set (first := must_flush_first _ _ _ _ _).
  destruct (if first then trace_flush (Some x) s1 else (s1, true, 0%nat)) as [[s2 ok] d] eqn:Ef.
  assert (if ok then keeps [] s (rows_of [x]) s2 /\ twf s2 else keeps [] s [] s2 /\ twf s2) as K2.
  { destruct first; [|by injection Ef as <- <- <-].
    pose proof (trace_flush_spec (Some x) _ _ _ _ W1 Fx Ef) as T. destruct ok.
    - destruct T as (c & -> & Ep). split; [eapply keeps_trans; [exact K1'|apply keeps_flushed]|].
      destruct W1 as [F B S]. split; [done..|]. unfold t_pending, pending_count in *. cbn. by rewrite Ep.
    - destruct T. split; [by eapply keeps_trans|done]. }
  destruct ok; cbn [negb]; [|eexists _, _, _, _; split; [done|exact K2]]. destruct K2 as [K2 W2].
  destruct (if first then (0, false) else (copied, guard)) as [copied2 guard2].
  destruct (trace_fire_ok op id n (tc_rng s2) Bn) as (r & f & ->). cbn [mbind option_bind].
  destruct (fire f (tc_client (s2 <| tc_rng := r |>))) as [c [|]] eqn:Ei.
  - destruct (fired_spec s2 c f x r fired_at slip _ _ W2 Ei Fx eq_refl eq_refl) as [K3 W3].
    edestruct IH as (s4 & fc4 & n4 & e4 & -> & K4 & W4); [exact W3|].
    eexists _, _, _, _. split_and!; [done| |done]. eapply keeps_trans; [exact K2|]. by eapply keeps_trans.
  - cbn [note_failed_fire note_discarded]. eexists _, _, _, _. split; [done|].
    destruct (fire_failed_spec s2 c f x r (if fire_invalid f (tc_client s2) then ChargeFailed else ChargeNothing) _ W2 Ei Fx eq_refl) as [K3 W3]. split; [by eapply keeps_trans|done].
Qed.

(** A change of the limiter, the slip, the timer, the generator or the carried
    tokens. *)
Lemma frame_ok s s' :
  twf s -> tc_client s' = tc_client s -> tc_sent s' = tc_sent s -> tc_backfill s' = tc_backfill s ->
  tc_claimed s' = tc_claimed s -> tc_replay s' = tc_replay s -> keeps [] s [] s' /\ twf s'.
Proof.
  intros [F B S] E1 E2 E3 E4 E5. split.
  - apply (keeps_frame _ _ _ []); [done|done| |done]. rewrite E5. by rewrite <- (tc_note_nil s) at 1.
  - split; [unfold t_here; by rewrite E2, E4, E5|by rewrite E3|unfold t_pending; by rewrite E1, E2].
Qed.

Lemma tokens_frame now s s' n b :
  twf s -> trace_tokens env now s = (s', n, b) -> keeps [] s [] s' /\ twf s'.
Proof.
  intros W E. unfold trace_tokens in E.
  repeat case_match_hyp E; injection E as <- _ _; by apply frame_ok.
Qed.

Lemma publish_frame now s : twf s -> keeps [] s [] (trace_publish_slip now s) /\ twf (trace_publish_slip now s).
Proof. intros W. unfold trace_publish_slip. by destruct (tc_limiter s); apply frame_ok. Qed.

(** One iteration: no panic, no row lost. *)
Lemma trace_iterate_spec phase has_dispatcher now s :
  twf s -> exists s' next, trace_iterate env phase has_dispatcher now s = Some (s', next) /\
                           keeps [] s [] s' /\ twf s'.
Proof.
  intros W. unfold trace_iterate. destruct (bool_decide _); [eexists _, _; split_and!; [done|apply keeps_refl|done]|].
  destruct (_ && negb (is_alive _)); [eexists _, _; split_and!; [done|apply keeps_refl|done]|].
  assert (exists s1 fc st e, (if serving phase && (te_batch env <=? Z.of_nat (te_depth env - t_pending s)) &&
    negb (negb (rp_started (tc_replay s))) then trace_fill_phase env now s else Some (s, 0, false, FillFull))
    = Some (s1, fc, st, e) /\ keeps [] s [] s1 /\ twf s1) as (s1 & fc & st & e & -> & K1 & W1).
  { destruct (serving phase && _ && _); [|eexists _, _, _, _; split_and!; [done|apply keeps_refl|done]].
    unfold trace_fill_phase. destruct (trace_tokens env now s) as [[s1 n] b] eqn:Et.
    apply tokens_frame in Et as [K1 W1]; [|done].
    destruct (publish_frame now s1 W1) as [K2 W2].
    destruct (trace_fill_spec (Z.to_nat n) now
      match tc_limiter s1 with Some rl => Some (slip_ns now rl) | None => None end 0 false _ 0 W2)
      as (s3 & fc & m & e & -> & K3 & W3). cbn [mbind option_bind].
    eexists _, _, _, _. split; [done|].
    assert (keeps [] s [] s3) as K by (eapply keeps_trans; [|exact K3]; by eapply keeps_trans).
    assert (forall c, keeps [] s [] (s3 <| tc_carried := c |>) /\ twf (s3 <| tc_carried := c |>)) as KC.
    { intros c. destruct (frame_ok s3 (s3 <| tc_carried := c |>)); [done..|]. split; [by eapply keeps_trans|done]. }
    destruct e; [done|done|by destruct (0 <? m)%nat..]. }
  cbn [mbind option_bind]. destruct (trace_flush None s1) as [[s2 ok] d] eqn:Ef.
  pose proof (trace_flush_spec None _ _ _ _ W1 ltac:(by constructor) Ef) as T.
  assert (keeps [] s [] s2 /\ twf s2) as [K2 W2].
  { destruct ok.
    - destruct T as (c & -> & Ep). split; [eapply keeps_trans; [exact K1|apply keeps_flushed]|].
      destruct W1 as [F B S]. split; [done..|]. unfold t_pending, pending_count in *. cbn. by rewrite Ep.
    - destruct T. split; [by eapply keeps_trans|done]. }
  eexists _, _. split; [done|].
  set (s3 := tc_note _ s2). assert (keeps [] s2 [] s3) as K3 by (by apply (keeps_frame _ _ _ [Count REQUESTS_SENT (wrap64 (fc - Z.of_nat d))])).
  assert (twf s3) as W3 by (by destruct W2; split).
  destruct (publish_frame now s3 W3) as [K4 W4]. split; [|done].
  eapply keeps_trans; [exact K2|]. by eapply keeps_trans.
Qed.

(** One reply settles the oldest row in flight. *)
Lemma trace_reply_spec r f fs s c :
  twf s -> pending (tc_client s) = f :: fs -> pending c = fs ->
  exists s', trace_reply env r (s <| tc_client := c |>) = Some s' /\ keeps [] s [] s' /\ twf s'.
Proof.
  intros [F B S] Ep Ec. unfold trace_reply. cbn [tc_sent set_field]. destruct (tc_sent s) as [|x sent] eqn:Es.
  { unfold t_pending, pending_count in S. by rewrite Ep in S. }
  assert (length sent = length fs) as S' by (unfold t_pending, pending_count in S; rewrite Ep in S; by injection S).
  unfold t_here in F. rewrite Es in F. destruct x as [row|a n]; cbn [rows_of] in F.
  - assert (forall s1, tc_client s1 = c -> tc_sent s1 = sent -> tc_claimed s1 = tc_claimed s ->
      tc_replay s1 = rp_note [Count TRACE_ROWS 1; Count (op_counter (op row)) 1]
                       (mark_done 1 (rp_note (record_counters r) (tc_replay s))) ->
      Forall (fun b => 0 <= b.2 <= VALUE_POOL_SIZE) (tc_backfill s1) -> keeps [] s [] s1 /\ twf s1) as K.
    { intros s1 E1 E2 E3 E4 Fb. split.
      - exists [rid row]. split; unfold t_here; rewrite ?E2, ?E3, ?E4; cbn -[record_counters settled_count]; try done.
        + rewrite Es. cbn. rewrite !map_app. cbn. solve_Permutation.
        + by rewrite wrap64_wrap64.
        + intros _. apply wrap64_range.
        + rewrite !settled_app, (quiet_record r). destruct (op row); change (settled_count [Count TRACE_ROWS 1; _]) with 1; lia.
      - split; [|done|unfold t_pending, pending_count; by rewrite E1, E2, Ec].
        unfold t_here. rewrite E2, E3, E4; cbn. rewrite !Forall_app in *. by destruct F as (? & ? & ? & [_ ?]%Forall_cons). }
    destruct (te_backfill env && _ && _ && _ && _ && _) eqn:Eb; (eexists; split; [done|]); apply K; try done.
    cbn. apply Forall_app. split; [done|]. constructor; [|done]. cbn.
    rewrite !Forall_app in F. destruct F as (_ & _ & _ & [(_ & ? & _) _]%Forall_cons).
    apply andb_true_iff in Eb as [_ Eb%Z.leb_le]. done.
  - assert (forall ms s1, quiet ms -> tc_client s1 = c -> tc_sent s1 = sent -> tc_claimed s1 = tc_claimed s ->
      tc_replay s1 = rp_note ms (tc_replay s) -> tc_backfill s1 = tc_backfill s -> keeps [] s [] s1 /\ twf s1) as K.
    { intros ms s1 Q E1 E2 E3 E4 E5. split.
      - exists []. split; unfold t_here; rewrite ?E2, ?E3, ?E4; cbn -[settled_count]; try done.
        + by rewrite Es.
        + f_equal. lia.
        + rewrite settled_app, Q. lia.
      - split; [unfold t_here; by rewrite E2, E3, E4|by rewrite E5|unfold t_pending, pending_count; by rewrite E1, E2, Ec]. }
    destruct (success r); (eexists; split; [done|]).
    + apply (K (record_counters r ++ [Count BACKFILL_SET_COUNT 1; Sample BACKFILL_SET_LATENCY (latency_ns r)])); try done.
      * unfold quiet. by rewrite settled_app, (quiet_record r).
      * unfold rp_note; cbn -[record_counters]. by rewrite app_assoc.
    + by apply (K (record_counters r)).
Qed.

End fill.

(** The end of a connection and its reconnect: its rows in flight have failed,
    its worker's rows are returned. *)
Lemma trace_end_spec s c timeout :
  twf s -> pending c = [] ->
  keeps [] s [] (t_reconnect c timeout (trace_end false true s)) /\
  twf (t_reconnect c timeout (trace_end false true s)).
Proof.
  intros [F B S] Ep. set (n := length (rows_of (tc_sent s))).
  destruct (given_up_replay n (tc_replay s)) as (Eb & Er & _).
  assert (t_here (t_reconnect c timeout (trace_end false true s))
          = tc_claimed s ++ returned (tc_replay s) ++ concat (batches (tc_replay s))) as EH.
  { unfold t_here, trace_end, return_claimed, t_reconnect. cbn -[note_given_up unclaim].
    fold n. by rewrite unclaim_app, Eb, Er, app_nil_r, <- app_assoc. }
  split.
  - exists (map rid (rows_of (tc_sent s))).
    assert (settles [] s [] (s <| tc_sent := [] |> <| tc_replay := note_given_up n (tc_replay s) |>)
              (map rid (rows_of (tc_sent s)))) as [P D R C I].
    { apply given_up_settles; [|cbn; by rewrite length_map]. unfold t_here; cbn [tc_claimed tc_replay tc_sent set_field].
      cbn -[note_given_up]. rewrite Eb, Er. rewrite !map_app. cbn. rewrite app_nil_r. solve_Permutation. }
    split; try done. cbn [app]. rewrite EH. unfold t_here. rewrite !map_app. solve_Permutation.
  - split; [|done|unfold t_pending, pending_count; cbn; by rewrite Ep].
    rewrite EH. unfold t_here in F. rewrite !Forall_app in *. tauto.
Qed.

End laws.

(** ** Lemmas: the system *)

(** An entry as the crate decodes it: its size is a [u32]. *)
Definition entry_ok (e : result string TraceEntry) : Prop :=
  match e with Ok e => 0 <= entry_size e | Err _ => True end.

Record task_ok `{Ratelimiter} `{Rng} `{Client} (workers : nat) (t : TTask) : Prop := {
  tk_worker : (tt_worker t < workers)%nat;
  tk_pool : te_pool_len (tt_env t) = VALUE_POOL_SIZE;
  tk_backfill : Forall (fun b => 0 <= b.2 <= VALUE_POOL_SIZE) (tc_backfill (tt_conn t));
  tk_sync : length (tc_sent (tt_conn t)) = t_pending (tt_conn t);
}.

Record tinv `{TraceOps} `{Ratelimiter} `{Rng} `{Client} (rows : list (Z * Z * RowOp)) (S : TraceSys) : Prop := {
  ti_tasks : Forall (task_ok (length (y_claimed S))) (y_tasks S);
  ti_waiting : Forall row_ok (waiting_rows S);
  ti_batch : Forall row_ok (rt_batch (y_reader S));
  ti_rest : Forall entry_ok (rt_rest (y_reader S));
  ti_rows : exists settled,
    rows ≡ₚ settled ++ map rid (waiting_rows S ++ rt_batch (y_reader S) ++ trace_rows (rt_rest (y_reader S))) /\
    rp_done (y_replay S) = wrap64 (Z.of_nat (length settled)) /\
    settled_count (rp_log (y_replay S)) = Z.of_nat (length settled) /\
    rd_sent (y_replay S) = wrap64 (Z.of_nat (length settled + length (waiting_rows S)));
  ti_stopped : rd_stopped (y_replay S) = true ->
    rt_rest (y_reader S) = [] /\ rt_batch (y_reader S) = [] /\ rt_sending (y_reader S) = None;
}.

Section system_laws.
Context `{TraceOps} `{Ratelimiter} `{RngLaws} `{ClientLaws} `{!ClientErrors}.

Lemma from_entry_ok e r : 0 <= entry_size e -> from_entry e VALUE_POOL_SIZE = Some r -> row_ok r.
Proof.
  unfold from_entry. intros Z0 E. destruct (from_trace (entry_op e)) as [o|]; [|done]. cbn [mbind option_bind] in E.
  destruct (_ && _) eqn:B; [done|]. injection E as <-. split; [unfold MAX_SEND_ATTEMPTS; cbn; lia|].
  split; [done|]. cbn. intros ->. rewrite bool_decide_true in B by done. cbn in B. lia.
Qed.

(** What the reader holds that is counted as sent. *)
Definition handed (t : Reader) (r : Replay) : list Row := default [] (rt_sending t) ++ concat (batches r).

(** A reader step that hands over [k] more rows and loses none. *)
Lemma tinv_reader rows S t r k :
  tinv rows S ->
  handed t r ++ rt_batch t ++ trace_rows (rt_rest t)
    ≡ₚ handed (y_reader S) (y_replay S) ++ rt_batch (y_reader S) ++ trace_rows (rt_rest (y_reader S)) ->
  length (handed t r) = (length (handed (y_reader S) (y_replay S)) + k)%nat ->
  Forall row_ok (handed t r) -> Forall row_ok (rt_batch t) -> Forall entry_ok (rt_rest t) ->
  returned r = returned (y_replay S) -> rp_done r = rp_done (y_replay S) ->
  settled_count (rp_log r) = settled_count (rp_log (y_replay S)) ->
  rd_sent r = wrap64 (rd_sent (y_replay S) + Z.of_nat k) ->
  (rd_stopped r = true -> rt_rest t = [] /\ rt_batch t = [] /\ rt_sending t = None) ->
  tinv rows {| y_reader := t; y_replay := r; y_claimed := y_claimed S; y_tasks := y_tasks S |}.
Proof.
  intros [T W B R (settled & P & D & C & N) St] PH L Fh Fb Fr Er Ed Ec En Es.
  assert (exists others, waiting_rows S = handed (y_reader S) (y_replay S) ++ others /\
    waiting_rows {| y_reader := t; y_replay := r; y_claimed := y_claimed S; y_tasks := y_tasks S |}
      = handed t r ++ others) as (others & EW & EW').
  { exists (returned (y_replay S) ++ concat (y_claimed S) ++
            concat (map (fun t => rows_of (tc_sent (tt_conn t))) (y_tasks S))).
    unfold waiting_rows, handed; cbn. by rewrite Er, !app_assoc. }
  rewrite EW in *. apply Forall_app in W as [Wh Wo]. split; cbn [y_tasks y_claimed y_reader y_replay]; try done.
  - rewrite EW'. by apply Forall_app.
  - exists settled. rewrite EW', Ed, Ec, En, D, C, N, wrap64_add_l. split_and!; [|done|done|].
    + rewrite P. apply Permutation_app_head, fmap_Permutation. rewrite <- !app_assoc.
      rewrite (Permutation_app_comm others), (Permutation_app_comm others), !app_assoc.
      apply Permutation_app_tail. rewrite <- !app_assoc. by symmetry.
    + f_equal. rewrite !length_app in *. lia.
Qed.

(** The batch handed over for sending. *)
Lemma begin_send_inv rows S t r t' r' :
  tinv rows {| y_reader := t; y_replay := r; y_claimed := y_claimed S; y_tasks := y_tasks S |} ->
  rt_sending t = None -> rd_stopped r = false -> begin_send t r = (t', r') ->
  tinv rows {| y_reader := t'; y_replay := r'; y_claimed := y_claimed S; y_tasks := y_tasks S |}.
Proof.
  intros I En Es [= <- <-]. pose proof (ti_waiting _ _ I) as W. pose proof (ti_batch _ _ I) as B.
  apply (tinv_reader rows {| y_reader := t; y_replay := r; y_claimed := y_claimed S; y_tasks := y_tasks S |}
           _ _ (length (rt_batch t)) I); unfold handed; cbn; rewrite ?En; cbn; try done.
  - solve_Permutation.
  - rewrite length_app. lia.
  - apply Forall_app. split; [done|]. unfold waiting_rows in W. cbn in W. rewrite En, !Forall_app in W. tauto.
  - apply (ti_rest _ _ I).
  - by rewrite Es.
Qed.

Lemma sent_wrapped rows S : tinv rows S -> rd_sent (y_replay S) = wrap64 (rd_sent (y_replay S) + Z.of_nat 0).
Proof. intros [_ _ _ _ (d & _ & _ & _ & ->) _]. rewrite wrap64_add_l. f_equal. lia. Qed.

(** The reader moves rows from the trace to its batch and on to the channel. *)
Lemma reader_inv rows path S t r :
  tinv rows S -> reader_step path true (y_reader S) (y_replay S) = (t, r) ->
  tinv rows {| y_reader := t; y_replay := r; y_claimed := y_claimed S; y_tasks := y_tasks S |}.
Proof.
  intros I E. pose proof (ti_waiting _ _ I) as W. unfold waiting_rows in W. rewrite !Forall_app in W.
  destruct W as (Ws & Wb & _). unfold reader_step in E. destruct (rt_sending (y_reader S)) as [b|] eqn:ES; cbn [negb] in E.
  { destruct (_ <? _)%nat; injection E as <- <-; [|by destruct S].
    assert (rd_stopped (y_replay S) = false) as Est
      by (destruct (rd_stopped (y_replay S)) eqn:X; [destruct (ti_stopped _ _ I X) as (_ & _ & ?); congruence|done]).
    apply (tinv_reader rows S _ _ 0 I); unfold handed; cbn; rewrite ?ES, ?concat_app; cbn; try done.
    - rewrite app_nil_r. solve_Permutation.
    - rewrite app_nil_r, !length_app. lia.
    - rewrite app_nil_r. by apply Forall_app.
    - apply (ti_batch _ _ I).
    - apply (ti_rest _ _ I).
    - by apply (sent_wrapped rows).
    - by rewrite Est. }
  destruct (rt_rest (y_reader S)) as [|[e|e] rest] eqn:ER.
  - destruct (rt_batch (y_reader S)) as [|row rows'] eqn:EB.
    + injection E as <- <-. destruct (rd_stopped (y_replay S)) eqn:Est;
        (apply (tinv_reader rows S _ _ 0 I); unfold handed; cbn; rewrite ?ES, ?ER, ?EB; cbn; try done;
         by apply (sent_wrapped rows)).
    + assert (rd_stopped (y_replay S) = false) as Est
        by (destruct (rd_stopped (y_replay S)) eqn:X; [destruct (ti_stopped _ _ I X) as (_ & ? & _); congruence|done]).
      eapply (begin_send_inv rows S (y_reader S) (y_replay S)); [by destruct S|done..].
  - assert (rd_stopped (y_replay S) = false) as Est
      by (destruct (rd_stopped (y_replay S)) eqn:X; [destruct (ti_stopped _ _ I X) as (? & _); congruence|done]).
    pose proof (ti_rest _ _ I) as FR. rewrite ER in FR. apply Forall_cons in FR as [Fe FR]. cbn in Fe.
    destruct (from_entry e VALUE_POOL_SIZE) as [row|] eqn:EF.
    + set (t1 := (y_reader S) <| rt_rest := rest |>
                  <| rt_batch := rt_batch ((y_reader S) <| rt_rest := rest |>) ++ [row] |>) in *.
      assert (tinv rows {| y_reader := t1; y_replay := y_replay S; y_claimed := y_claimed S; y_tasks := y_tasks S |}) as I1.
      { apply (tinv_reader rows S _ _ 0 I); unfold handed; cbn; rewrite ?ES, ?ER; cbn; try done.
        - rewrite EF. cbn. solve_Permutation.
        - apply Forall_app. split; [apply (ti_batch _ _ I)|]. constructor; [|done]. by eapply from_entry_ok.
        - by apply (sent_wrapped rows).
        - by rewrite Est. }
      destruct (_ =? CLAIM_BATCH)%nat; [|by injection E as <- <-].
      by eapply (begin_send_inv rows S t1 (y_replay S)).
    + injection E as <- <-. apply (tinv_reader rows S _ _ 0 I); unfold handed; cbn; rewrite ?ES, ?ER; cbn; try done.
      * by rewrite EF.
      * apply (ti_batch _ _ I).
      * rewrite settled_app. change (settled_count [Count TRACE_ROWS_SKIPPED 1]) with 0. lia.
      * by apply (sent_wrapped rows).
      * by rewrite Est.
  - injection E as <- <-. apply (tinv_reader rows S _ _ 0 I); unfold handed; cbn; rewrite ?ES, ?ER; cbn; try done.
    + apply (ti_batch _ _ I).
    + by apply (sent_wrapped rows).
    + intros X. destruct (ti_stopped _ _ I X) as (? & _). congruence.
Qed.


Lemma t_resumed_wf rows S i t s1 :
  tinv rows S -> y_tasks S !! i = Some t -> t_resumed S t s1 -> task_ok (length (y_claimed S)) t /\ twf s1.
Proof.
  intros I E [R1 R2 R3 R4 R5]. pose proof (Forall_lookup_1 _ _ _ _ (ti_tasks _ _ I) E) as T. split; [done|].
  destruct T as [_ _ B Y]. split; [|by rewrite R5|unfold t_pending in *; by rewrite R3, R4].
  pose proof (ti_waiting _ _ I) as W. unfold waiting_rows in W. rewrite !Forall_app in W.
  destruct W as (_ & Wb & Wr & Wc & Wt). unfold t_here. rewrite R1, R4, !Forall_app. split_and!; try done.
  - apply (Forall_concat row_ok) in Wc. exact (Forall_lookup_1 _ _ _ _ Wc R2).
  - apply (Forall_concat row_ok) in Wt. eapply (Forall_lookup_1 _ _ i) in Wt; [exact Wt|]. by rewrite list_lookup_fmap, E.
Qed.

(** A task that ran and kept its rows keeps the invariant. *)
Lemma t_settle_inv rows S i t s1 s' :
  tinv rows S -> y_tasks S !! i = Some t -> t_resumed S t s1 -> keeps [] s1 [] s' -> twf s' ->
  tinv rows (t_settle S i t s').
Proof.
  intros I E R [gone [P D Rg C RD]] [F' B' Y']. pose proof I as [T W Fb Fr (settled & PS & DS & CS & NS) St].
  destruct (t_resumed_wf _ _ _ _ _ I E R) as [[Tw Tp _ _] _]. destruct R as [R1 R2 R3 R4 R5].
  destruct RD as (Q1 & Q2 & Q3 & Q4 & Q5). cbn [app] in P.
  pose proof (concat_insert _ _ _ (tc_claimed s') R2) as PC.
  assert (map (fun t => rows_of (tc_sent (tt_conn t))) (y_tasks S) !! i = Some (rows_of (tc_sent s1))) as Et
    by (by rewrite list_lookup_fmap, E, R4).
  pose proof (concat_insert _ _ _ (rows_of (tc_sent s')) Et) as PT.
  assert (map rid (waiting_rows S) ≡ₚ gone ++ map rid (waiting_rows (t_settle S i t s'))) as PW.
  { unfold waiting_rows, t_settle; cbn. rewrite list_fmap_insert; cbn.
    apply (Permutation_app_inv_r (map rid (tc_claimed s1 ++ rows_of (tc_sent s1)))).
    transitivity (map rid (default [] (rt_sending (y_reader S)) ++ concat (y_claimed S) ++
       concat (map (fun t => rows_of (tc_sent (tt_conn t))) (y_tasks S))) ++ map rid (t_here s1)).
    { unfold t_here. rewrite R1, !map_app. solve_Permutation. }
    rewrite P. apply (fmap_Permutation rid) in PC, PT. unfold t_here. rewrite !map_app in *.
    transitivity (gone ++ map rid (default [] (rt_sending (y_reader S))) ++
      map rid (concat (batches (tc_replay s'))) ++ map rid (returned (tc_replay s')) ++
      (map rid (tc_claimed s') ++ map rid (concat (y_claimed S))) ++
      (map rid (rows_of (tc_sent s')) ++ map rid (concat (map (fun t => rows_of (tc_sent (tt_conn t))) (y_tasks S)))));
      [solve_Permutation|]. rewrite <- PC, <- PT. solve_Permutation. }
  split; cbn [y_reader y_replay y_claimed y_tasks t_settle]; try done.
  - rewrite length_insert. apply Forall_insert; [done|]. by split.
  - unfold waiting_rows, t_settle; cbn. unfold waiting_rows in W. rewrite !Forall_app in W.
    destruct W as (W1 & W2 & W3 & W4 & W5). unfold t_here in F'. rewrite !Forall_app in F'. destruct F' as (G1 & G2 & G3 & G4).
    rewrite !Forall_app. split_and!; try done.
    + apply (Forall_concat row_ok). apply Forall_insert; [by apply (Forall_concat row_ok)|done].
    + rewrite list_fmap_insert. apply (Forall_concat row_ok). apply Forall_insert; [by apply (Forall_concat row_ok)|done].
  - exists (settled ++ gone). split_and!.
    + rewrite PS, !map_app, PW. cbn [y_reader]. solve_Permutation.
    + rewrite R1, DS in D, Rg. rewrite <- (wrap64_small (rp_done (tc_replay s'))) by (apply Rg, wrap64_range).
      rewrite D, wrap64_add_l, length_app. f_equal. lia.
    + rewrite C, R1, CS, length_app. lia.
    + rewrite Q1, R1, NS. f_equal. apply Permutation_length in PW. rewrite length_app, !length_map in PW.
      rewrite length_app. lia.
  - rewrite Q2, R1. exact St.
Qed.

Lemma tinv_step rows path S S' : tstep path S S' -> tinv rows S -> tinv rows S'.
Proof.
  intros Step I. destruct Step as
    [t r E| |i t s1 ph hd now s' next E R _ It _|i t s1 ph hd now s' r c tm E R _ It Ep
    |i t s1 f fs r s' E R Ep Or|i t s1 c tm E R Ep].
  - by eapply reader_inv.
  - destruct I. by split.
  - destruct (t_resumed_wf _ _ _ _ _ I E R) as [O W].
    destruct (trace_iterate_spec (tt_env t) (tk_pool _ _ O) ph hd now s1 W) as (s2 & nx & E2 & K & W2).
    rewrite It in E2. injection E2 as <- <-. by eapply t_settle_inv.
  - destruct (t_resumed_wf _ _ _ _ _ I E R) as [O W].
    destruct (trace_iterate_spec (tt_env t) (tk_pool _ _ O) ph hd now s1 W) as (s2 & nx & E2 & K & W2).
    rewrite It in E2. injection E2 as <- <-. destruct (trace_end_spec s' c tm W2 Ep) as [K2 W3].
    eapply t_settle_inv; try done. by eapply keeps_trans.
  - destruct (t_resumed_wf _ _ _ _ _ I E R) as [O W].
    destruct (trace_reply_spec (tt_env t) r f fs s1 (take_reply (tc_client s1)) W Ep) as (s2 & E2 & K & W2).
    { by rewrite take_reply_tail, Ep. }
    rewrite Or in E2. injection E2 as <-. by eapply t_settle_inv.
  - destruct (t_resumed_wf _ _ _ _ _ I E R) as [O W]. destruct (trace_end_spec s1 c tm W Ep) as [K2 W3].
    by eapply t_settle_inv.
Qed.

Lemma tinv_start entries workers tasks :
  Forall entry_ok entries -> Forall (unstarted_task workers) tasks ->
  tinv (map rid (trace_rows entries)) (trace_sys_start entries workers tasks).
Proof.
  intros Fe Ft. assert (waiting_rows (trace_sys_start entries workers tasks) = []) as EW.
  { unfold waiting_rows; cbn. replace (concat (replicate workers [])) with (@nil Row) by (clear; induction workers; [done|cbn; assumption]).
    cbn. induction Ft as [|t ts (_ & _ & _ & E & _) _ IH]; [done|]. cbn. by rewrite E. }
  split; cbn [trace_sys_start y_reader y_replay y_claimed y_tasks]; try done.
  - rewrite length_replicate. eapply Forall_impl; [exact Ft|]. intros t (A & B & C & D & E).
    split; [done|done|by rewrite E|]. unfold t_pending, pending_count. by rewrite C, D.
  - by rewrite EW.
  - exists []. by rewrite EW.
Qed.

Lemma tinv_reachable entries workers tasks path S :
  Forall entry_ok entries -> Forall (unstarted_task workers) tasks ->
  rtc (tstep path) (trace_sys_start entries workers tasks) S -> tinv (map rid (trace_rows entries)) S.
Proof.
  intros Fe Ft R. assert (tinv (map rid (trace_rows entries)) (trace_sys_start entries workers tasks)) as I by (by apply tinv_start).
  revert I. induction R as [|S1 S2 S3 St _ IH]; [done|]. intros I. by eapply IH, tinv_step.
Qed.

End system_laws.

(** ** Properties *)

Section properties.
Context `{TraceOps} `{Ratelimiter} `{RngLaws} `{ClientLaws} `{!ClientErrors}.

Lemma trace_rows_length entries : (length (trace_rows entries) <= length entries)%nat.
Proof.
  induction entries as [|[e|e] entries IH]; cbn; [done| |lia].
  rewrite length_app. destruct (from_entry e VALUE_POOL_SIZE); cbn; lia.
Qed.

(** C17: every row of the trace is settled exactly once.  In every state of a
    run that is not stopping, whatever sends fail and connections are lost, the
    rows before the first read error are, each once, settled (answered or
    counted failed), waiting (sent by the reader, claimed, returned or in
    flight) or still with the reader; the count that ends the replay and the
    metrics count exactly the settled rows; no waiting row has used up its
    attempts; and the replay reports that it is finished exactly when the
    reader has stopped and no row waits. *)
Theorem trace_rows_settled_once entries workers tasks path S :
  Forall entry_ok entries -> Z.of_nat (length entries) <= u64_max -> Forall (unstarted_task workers) tasks ->
  rtc (tstep path) (trace_sys_start entries workers tasks) S ->
  exists settled,
    map rid (trace_rows entries) ≡ₚ
      settled ++ map rid (waiting_rows S ++ rt_batch (y_reader S) ++ trace_rows (rt_rest (y_reader S))) /\
    rp_done (y_replay S) = Z.of_nat (length settled) /\
    counted TRACE_ROWS (rp_log (y_replay S)) + counted TRACE_ROWS_FAILED (rp_log (y_replay S))
      = Z.of_nat (length settled) /\
    Forall (fun r => failed_sends r < MAX_SEND_ATTEMPTS) (waiting_rows S) /\
    (is_finished (y_replay S) = true <-> rd_stopped (y_replay S) = true /\ waiting_rows S = []).
Proof.
  intros Fe Le Ft R. pose proof (tinv_reachable _ _ _ _ _ Fe Ft R) as [_ W _ _ (settled & P & D & C & N) _].
  exists settled. pose proof (Permutation_length P) as L. rewrite length_app, !length_map, !length_app in L.
  pose proof (trace_rows_length entries). rewrite wrap64_small in D, N by lia.
  split_and!; [done|done|done|by eapply Forall_impl; [exact W|intros r [[_ ?] _]]|].
  unfold is_finished. rewrite andb_true_iff, Z.leb_le, D, N.
  split; intros [E1 E2]; split; try done; [apply nil_length_inv; lia|rewrite E2; cbn; lia].
Qed.

(** The replay never panics: whenever a connection runs, its iteration
    completes and so does the handling of a reply to its oldest request. *)
Theorem trace_runs_on entries workers tasks path S i t s1 :
  Forall entry_ok entries -> Forall (unstarted_task workers) tasks ->
  rtc (tstep path) (trace_sys_start entries workers tasks) S ->
  y_tasks S !! i = Some t -> t_resumed S t s1 ->
  (forall phase has_dispatcher now, is_Some (trace_iterate (tt_env t) phase has_dispatcher now s1)) /\
  (pending (tc_client s1) <> [] ->
   forall r, is_Some (trace_reply (tt_env t) r (s1 <| tc_client := take_reply (tc_client s1) |>))).
Proof.
  intros Fe Ft R E Rs. destruct (t_resumed_wf _ _ _ _ _ (tinv_reachable _ _ _ _ _ Fe Ft R) E Rs) as [O W]. split.
  - intros ph hd now. destruct (trace_iterate_spec (tt_env t) (tk_pool _ _ O) ph hd now s1 W) as (s2 & nx & -> & _).
    by eexists.
  - intros N r. destruct (pending (tc_client s1)) as [|f fs] eqn:Ep; [done|].
    destruct (trace_reply_spec (tt_env t) r f fs s1 (take_reply (tc_client s1)) W Ep) as (s2 & -> & _).
    + by rewrite take_reply_tail, Ep.
    + by eexists.
Qed.

(** The reader runs by itself. *)
Lemma reader_runs path n S :
  rtc (tstep path) S
    (let tr := Nat.iter n (fun tr => reader_step path true tr.1 tr.2) (y_reader S, y_replay S) in
     {| y_reader := tr.1; y_replay := tr.2; y_claimed := y_claimed S; y_tasks := y_tasks S |}).
Proof.
  induction n as [|n IH]; [by destruct S|]. eapply rtc_r; [exact IH|]. cbn [Nat.iter].
  set (tr := Nat.iter _ _ _) in *. by apply (ts_reader path {| y_reader := tr.1; y_replay := tr.2;
    y_claimed := y_claimed S; y_tasks := y_tasks S |}), surjective_pairing.
Qed.

End properties.

(** *** Witnesses *)

Definition example_trace_ops : TraceOps := {|
  trace_op := Z; op_from_u8 := fun c => c; op_is_delete := fun o => o =? 9;
  op_is_write := fun o => (3 <=? o) && (o <=? 8); op_is_read := fun o => (1 <=? o) && (o <=? 2);
|}.

Definition example_client_errors : @ClientErrors simple_client :=
  {| fire_invalid := fun _ _ => false; flush_invalid := fun _ => false |}.

(** A read, an op that is not replayed, a write. *)
Definition example_entries : list (result string TraceEntry) :=
  [Ok {| entry_id := 7; entry_size := 100; entry_op := Some 1 |};
   Ok {| entry_id := 8; entry_size := 100; entry_op := Some 20 |};
   Ok {| entry_id := 7; entry_size := 200; entry_op := Some 3 |}].

Definition example_tconn : @TConn simple_ratelimiter counting_rng simple_client :=
  {| tc_client := {| sc_pending := []; sc_unflushed := 0; sc_alive := true |} : @client simple_client;
     tc_rng := 0 : @rng counting_rng; tc_limiter := None; tc_slip := new_slip;
     tc_inflight := new_inflight 0; tc_sent := []; tc_backfill := []; tc_carried := 0; tc_claimed := [];
     tc_replay := new_replay |}.

Definition example_task : @TTask simple_ratelimiter counting_rng simple_client :=
  {| tt_env := {| te_depth := 8; te_batch := 4; te_pool_len := VALUE_POOL_SIZE; te_backfill := true;
                  te_prefix := []; te_format := KvHex |};
     tt_worker := 0; tt_conn := example_tconn |}.

Definition example_trace_start := trace_sys_start example_entries 1 [example_task].

Lemma example_entries_ok : Forall entry_ok example_entries.
Proof. repeat constructor; cbn; lia. Qed.

Lemma example_task_ok : Forall (unstarted_task 1) [example_task].
Proof. repeat constructor. Qed.

(** Three entries read, the rows counted and sent, the reader stopped. *)
Lemma trace_rows_settled_once_witness :
  exists settled, [(7, 100, RowGet); (7, 200, RowSet)] ≡ₚ settled ++ [(7, 100, RowGet); (7, 200, RowSet)].
Proof.
  destruct (@trace_rows_settled_once example_trace_ops simple_ratelimiter counting_rng
    counting_rng_laws simple_client simple_client_laws example_client_errors
    example_entries 1 [example_task] "t" _ example_entries_ok ltac:(cbn; unfold u64_max; lia) example_task_ok
    (reader_runs "t" 6 example_trace_start)) as (settled & P & _).
  exists settled. exact P.
Defined.

Lemma trace_runs_on_witness :
  is_Some (@trace_iterate simple_ratelimiter counting_rng simple_client example_client_errors
             (tt_env example_task) Running false 0 example_tconn).
Proof.
  refine (proj1 (@trace_runs_on example_trace_ops simple_ratelimiter counting_rng
    counting_rng_laws simple_client simple_client_laws example_client_errors
    example_entries 1 [example_task] "t" example_trace_start 0 example_task example_tconn
    example_entries_ok example_task_ok (rtc_refl _ _) _ _) Running false 0); [reflexivity|].
  by split.
Defined.
