(* ===== verification/KvRequest.v ===== *)
(** KvRequest: one request of a KV-cache replay on one connection
    ([src/src/kvreplay.rs], [run_request] and its helpers).

    A request is looked up (one EXISTS per object, in one pipeline), the hit
    prefix is loaded (GETs) and the objects the write rule selects are stored
    (SETs), each phase pipelined up to the connection's depth.  What the server
    and the clock do is a [Script].  The object mapping (kvtrace) is the class
    [Mapper], the protocol client the class [Client]. *)

From S2P Require Import Prelude F64 Config Keys KeyDist Limiter Metrics InFlight Reply Workload Trace.
Open Scope Z_scope.

(** ** Requests and objects *)

(** [kvtrace::Request], the fields that are read. *)
Record Request := { req_id : Z; timestamp : Z; input_tokens : Z; chunks : list Z }.

(** [kvtrace::KvObject]. *)
Record KvObject := { kv_obj_id : Z; kv_size : Z; chunk_index : nat }.

(** [kvtrace::ObjectMapper]. *)
Class Mapper := {
  objects : list Z -> list KvObject;
  ranks : nat;
  max_object_size : Z;
}.

(** The order of the objects: chunk by chunk, [ranks] each; sizes as
    [KvReplay::load] requires. *)
Class MapperLaws `{Mapper} := {
  ranks_pos : (0 < ranks)%nat;
  objects_length cs : length (objects cs) = (length cs * ranks)%nat;
  objects_chunk cs i o : objects cs !! i = Some o -> chunk_index o = (i / ranks)%nat;
  objects_size cs i o : objects cs !! i = Some o -> 0 <= kv_size o <= max_object_size;
  max_size : 0 < max_object_size <= VALUE_POOL_SIZE;
}.

(** [lookup_prefix]: the chunks ([ranks] flags each) before the first with a
    missing object.  [fuel] is the number of flags. *)
Fixpoint prefix_chunks (fuel : nat) (n : nat) (exists_ : list bool) : nat :=
  match fuel, exists_ with
  | S fuel, _ :: _ =>
      if forallb (fun e => e) (take n exists_) then S (prefix_chunks fuel n (drop n exists_)) else O
  | _, _ => O
  end.

Definition lookup_prefix (exists_ : list bool) (ranks : nat) : nat :=
  prefix_chunks (length exists_) (Nat.max ranks 1) exists_.

(** [cached_tokens]. *)
Definition cached_tokens (hit_chunks chunk_tokens input : Z) : Z :=
  let hit := sat_mul hit_chunks chunk_tokens in
  if input <=? hit then sat_sub input 1 else hit.

(** [decimal_len], one step per digit after the first. *)
Fixpoint decimal_len_loop (fuel : nat) (v digits : Z) : Z :=
  match fuel with
  | O => digits
  | S fuel => if 10 <=? v then decimal_len_loop fuel (v / 10) (digits + 1) else digits
  end.

Definition decimal_len (v : Z) : Z := decimal_len_loop (Z.to_nat (Z.log2 v)) v 1.

(** ** Outcomes *)

Record KvOutcome := {
  lookup_hit : nat;
  o_hit : nat;
  o_cached : Z;
  o_new : Z;
  full_hit : bool;
  o_gets : nat;
  get_nil : Z;
  o_sets : nat;
  lookup_ns : Z;
  load_ns : Z;
  store_ns : Z;
}.

#[export] Instance eta_KvOutcome : Settable KvOutcome := fun x =>
  {| lookup_hit := lookup_hit x; o_hit := o_hit x; o_cached := o_cached x; o_new := o_new x;
     full_hit := full_hit x; o_gets := o_gets x; get_nil := get_nil x; o_sets := o_sets x;
     lookup_ns := lookup_ns x; load_ns := load_ns x; store_ns := store_ns x |}.

Definition default_outcome : KvOutcome :=
  {| lookup_hit := 0; o_hit := 0; o_cached := 0; o_new := 0; full_hit := false; o_gets := 0;
     get_nil := 0; o_sets := 0; lookup_ns := 0; load_ns := 0; store_ns := 0 |}.

(** Why a request did not complete. *)
Inductive Failure := FailDisconnect (r : DisconnectReason) | FailRequest | FailClosed.

(** [recv_failed]: an error of a receive. *)
Definition kv_recv_failed (closed : bool) : Failure :=
  FailDisconnect (if closed then Eof else RecvError).

(** [note_lookup]. *)
Definition note_lookup (n tx_bytes : Z) : list metric :=
  [Count REQUESTS_SENT n; Count RESPONSES_RECEIVED n; Count KV_EXISTS_COUNT n;
   Count BYTES_TX tx_bytes; Count BYTES_RX (4 * n)].

(** [record_outcome]. *)
Definition record_outcome (req : Request) (o : KvOutcome) : list metric :=
  [Count KV_REQUESTS 1; Count KV_INPUT_TOKENS (input_tokens req); Count KV_CACHED_TOKENS (o_cached o);
   Count KV_NEW_TOKENS (o_new o)] ++
  match chunks req with
  | [] => [Count KV_NO_FULL_CHUNK 1]
  | _ =>
      [Count KV_LOOKUPS 1; Sample KV_LOOKUP_TIME (lookup_ns o)] ++
      (if (lookup_hit o =? 0)%nat then [Count KV_CHUNK0_MISSES 1] else []) ++
      (if full_hit o then [Count KV_FULL_HITS 1] else []) ++
      (if (0 <? o_gets o)%nat then
         [Count KV_LOADS 1; Sample KV_LOAD_TIME (load_ns o)] ++
         (if o_cached o =? 0 then []
          else [Count KV_LOADS_WITH_CACHED 1;
                Sample KV_LOAD_TIME_PER_1K_TOKENS (sat_mul (load_ns o) 1000 / o_cached o)])
       else []) ++
      (if (0 <? o_sets o)%nat then [Count KV_STORES 1; Sample KV_STORE_TIME (store_ns o)] else [])
  end.

(** ** A run of a request *)

(** What a connection is configured with, and the trace's chunk size. *)
Record KvEnv := {
  ke_prefix : list Z;
  ke_format : KvKeyFormat;
  ke_depth : nat;
  ke_pool_len : Z;
  ke_chunk_tokens : Z;
  ke_rule : KvWriteRule;
}.

Record KvRun `{Rng} `{Client} := {
  kr_client : client;
  kr_rng : rng;
  kr_inflight : InFlight;
  kr_next : nat;
  kr_done : nat;
  kr_now : Z;
  kr_out : KvOutcome;
  kr_log : list metric;
}.

#[export] Instance eta_KvRun `{Rng} `{Client} : Settable KvRun := fun x =>
  {| kr_client := kr_client x; kr_rng := kr_rng x; kr_inflight := kr_inflight x; kr_next := kr_next x;
     kr_done := kr_done x; kr_now := kr_now x; kr_out := kr_out x; kr_log := kr_log x |}.

(** The answer to the EXISTS pipeline: the integers (or another value), or the
    client's error. *)
Inductive LookupReply :=
| LookupRecvFailed (r : DisconnectReason)
| LookupValues (values : list (option Z))
| LookupNotConnected
| LookupIo
| LookupRedis
| LookupClosed
| LookupOther.

(** One round of a phase: when its batch was fired, what the receive gave
    ([Err]: why it failed), and when. *)
Record Round := { rd_fired_at : Z; rd_reply : result DisconnectReason Workload.Outcome; rd_end : Z }.

(** How a phase ended: every reply in, a failure, or a reply still awaited. *)
Inductive PhaseEnd := PhaseDone | PhaseFailed (f : Failure) | PhaseWaiting.

Section run.
Context `{Rng} `{Client} `{Mapper}.
Variable env : KvEnv.

Definition kr_note (ms : list metric) (s : KvRun) : KvRun := s <| kr_log := kr_log s ++ ms |>.

Definition kr_pending (s : KvRun) : nat := pending_count (kr_client s).

(** [push_key] of an object. *)
Definition kv_key (o : KvObject) : list Z := replay_key (ke_prefix env) (ke_format env) (kv_obj_id o).

(** The bytes of the EXISTS commands: the fixed part, the key's length and the
    key. *)
Definition exists_bytes (objs : list KvObject) : Z :=
  fold_right (fun o acc => let n := Z.of_nat (length (kv_key o)) in
                           16 + (1 + decimal_len n + 2 + n + 2) + acc) 0 objs.

(** The GET of object [i]. *)
Definition get_fire (objs : list KvObject) (i : nat) (r : rng) : option (rng * Fire) :=
  o ← objs !! i; Some (r, FireGet (kv_key o) (Z.of_nat i)).

(** The SET of object [sets !! j]. *)
Definition store_fire (objs : list KvObject) (sets : list nat) (j : nat) (r : rng) : option (rng * Fire) :=
  i ← sets !! j;
  o ← objs !! i;
  let n := kv_size o in
  '(r, offset) ← range_draw 0 (wrap64 (ke_pool_len env - n) + 1) r;
  if ZC_VALUE_THRESHOLD <=? n
  then Some (r, FireSetWithGuard (kv_key o) (offset mod 2 ^ 32) (n mod 2 ^ 32) (Z.of_nat i))
  else if offset + n <=? ke_pool_len env then Some (r, FireSet (kv_key o) offset n (Z.of_nat i)) else None.

(** The fire loop of a round, [left_] requests not yet fired; the answer adds
    how many were fired and whether every send succeeded. *)
Fixpoint kv_fill (fire_of : nat -> rng -> option (rng * Fire)) (left_ : nat) (fired_at : Z) (s : KvRun)
    (fired : Z) : option (KvRun * Z * bool) :=
  match left_ with
  | O => Some (s, fired, true)
  | S left_ =>
      if negb (kr_pending s <? ke_depth env)%nat then Some (s, fired, true)
      else
        '(r, f) ← fire_of (kr_next s) (kr_rng s);
        let s := s <| kr_rng := r |> in
        let before := kr_pending s in
        let (c, ok) := fire f (kr_client s) in
        if ok then
          kv_fill fire_of left_ fired_at
            (s <| kr_client := c |> <| kr_inflight := push fired_at (kr_inflight s) |>
               <| kr_next := S (kr_next s) |>) (fired + 1)
        else
          let '(x, ms, _) := note_failed_fire before (pending_count c) true (kr_inflight s) in
          Some (kr_note (ms ++ [Count REQUESTS_SENT fired]) (s <| kr_client := c |> <| kr_inflight := x |>),
                fired, false)
  end.

(** [flush]. *)
Definition kv_flush (fired : Z) (s : KvRun) : KvRun * bool :=
  let before := kr_pending s in
  let (c, ok) := flush (kr_client s) in
  if ok then (kr_note [Count REQUESTS_SENT fired] (s <| kr_client := c |>), true)
  else
    let '(x, ms, discarded) := note_discarded before (pending_count c) true (kr_inflight s) in
    (kr_note (ms ++ [Count REQUESTS_SENT (wrap64 (fired - Z.of_nat discarded))])
       (s <| kr_client := c |> <| kr_inflight := x |>), false).

(** A phase's loop: while a reply is missing, fill, flush and receive one.
    [handle] is what a reply does to the outcome; [send_failed] closes the
    connection. *)
Fixpoint kv_loop (total : nat) (fire_of : nat -> rng -> option (rng * Fire))
    (handle : Fire -> Workload.Outcome -> KvOutcome -> option (KvOutcome * list metric))
    (rounds : list Round) (s : KvRun) : option (KvRun * PhaseEnd) :=
  if (total <=? kr_done s)%nat then Some (s, PhaseDone)
  else
    match rounds with
    | [] => Some (s, PhaseWaiting)
    | rd :: rounds =>
        '(s, fired, ok) ← kv_fill fire_of (total - kr_next s) (rd_fired_at rd) s 0;
        if negb ok then Some (s, PhaseFailed (FailDisconnect SendError))
        else
          let (s, ok) := kv_flush fired s in
          if negb ok then Some (s, PhaseFailed (FailDisconnect SendError))
          else
            match rd_reply rd with
            | Err r => Some (s, PhaseFailed (FailDisconnect r))
            | Ok o =>
                f ← head (pending (kr_client s));
                '(out, ms) ← handle f o (kr_out s);
                kv_loop total fire_of handle rounds
                  (kr_note ms (s <| kr_client := take_reply (kr_client s) |>
                                 <| kr_inflight := fst (pop (kr_inflight s)) |>
                                 <| kr_done := S (kr_done s) |> <| kr_now := rd_end rd |>
                                 <| kr_out := out |>))
            end
    end.

(** The reply of the client to a request, mapped. *)
Definition kv_result (f : Fire) (o : Workload.Outcome) : RequestResult :=
  map_respmeta {| mkind := fire_kind f; msuccess := o_ok o; value_len := o_len o;
                  user_data := fire_ud f; mlatency_ns := o_latency o; error := o_error o |}.

(** A GET's reply: nil or an error cuts the prefix at its chunk. *)
Definition on_get (objs : list KvObject) (f : Fire) (o : Workload.Outcome) (out : KvOutcome)
    : option (KvOutcome * list metric) :=
  obj ← objs !! Z.to_nat (fire_ud f);
  let r := kv_result f o in
  let ms := record_counters r in
  if negb (success r) || bool_decide (hit r = Some false) then
    let (out, ms) :=
      if success r then (out <| get_nil := get_nil out + 1 |>, ms ++ [Count KV_GET_NIL 1]) else (out, ms) in
    Some (out <| o_hit := Nat.min (o_hit out) (chunk_index obj) |>, ms)
  else Some (out, ms).

(** A SET's reply. *)
Definition on_set (f : Fire) (o : Workload.Outcome) (out : KvOutcome) : option (KvOutcome * list metric) :=
  Some (out, record_counters (kv_result f o)).

(** The objects the write rule selects. *)
Definition set_indices (rule : KvWriteRule) (hit : nat) (n : nat) (exists_ : list bool) : list nat :=
  match rule with
  | SetFromMiss => seq (hit * ranks) (n - hit * ranks)
  | InsertIfAbsent => omap (fun p : nat * bool => if p.2 then None else Some p.1)
                        (zip (seq 0 (length exists_)) exists_)
  end.

(** The flags of the EXISTS replies; [None] at a value that is no integer. *)
Fixpoint exists_flags (values : list (option Z)) : option (list bool) :=
  match values with
  | [] => Some []
  | Some c :: values => flags ← exists_flags values; Some ((0 <? c) :: flags)
  | None :: _ => None
  end.

(** When things happen and what the server answers. *)
Record Script := {
  sc_fired_at : Z;
  sc_lookup : LookupReply;
  sc_lookup_end : Z;
  sc_load_start : Z;
  sc_load : list Round;
  sc_store_start : Z;
  sc_store : list Round;
}.

Inductive RunEnd := RunOk (o : KvOutcome) | RunFailed (f : Failure) | RunWaiting.

(** What a lookup's answer means: the flags, or the failure, and what is
    recorded. *)
Definition lookup_result (n tx_bytes : Z) (l : LookupReply) : list metric * result Failure (list bool) :=
  match l with
  | LookupRecvFailed r => ([], Err (FailDisconnect r))
  | LookupNotConnected => ([], Err FailClosed)
  | LookupIo => ([Count REQUESTS_SEND_FAILED n], Err FailRequest)
  | LookupRedis => (note_lookup n tx_bytes ++ [Count REQUEST_ERRORS 1], Err FailRequest)
  | LookupClosed => ([], Err FailClosed)
  | LookupOther => ([], Err (FailDisconnect RecvError))
  | LookupValues values =>
      match exists_flags values with
      | Some flags => (note_lookup n tx_bytes, Ok flags)
      | None => (note_lookup n tx_bytes ++ [Count REQUEST_ERRORS 1], Err FailRequest)
      end
  end.

(** The lookup's accounting of its replies in [InFlight]: every EXISTS is
    pushed, and forgotten once the pipeline has answered. *)
Definition after_lookup (n : nat) (sc : Script) (s : KvRun) : KvRun :=
  let x := Nat.iter n (push (sc_fired_at sc)) (kr_inflight s) in
  match sc_lookup sc with
  | LookupRecvFailed _ => s <| kr_inflight := x |>
  | _ => s <| kr_inflight := forget_newest n x |>
  end.

(** The load phase. *)
Definition load_phase (objs : list KvObject) (sc : Script) (s : KvRun) : option (KvRun * PhaseEnd) :=
  let gets := (lookup_hit (kr_out s) * ranks)%nat in
  if (0 <? gets)%nat then
    '(s, e) ← kv_loop gets (get_fire objs) (on_get objs) (sc_load sc)
                (s <| kr_next := 0%nat |> <| kr_done := 0%nat |> <| kr_now := sc_load_start sc |>);
    Some (s <| kr_out := (kr_out s) <| o_gets := gets |> <| load_ns := kr_now s - sc_load_start sc |> |>, e)
  else Some (s, PhaseDone).

(** The store phase. *)
Definition store_phase (objs : list KvObject) (exists_ : list bool) (sc : Script) (s : KvRun)
    : option (KvRun * PhaseEnd) :=
  let sets := set_indices (ke_rule env) (lookup_hit (kr_out s)) (length objs) exists_ in
  if (0 <? length sets)%nat then
    '(s, e) ← kv_loop (length sets) (store_fire objs sets) on_set (sc_store sc)
                (s <| kr_next := 0%nat |> <| kr_done := 0%nat |> <| kr_now := sc_store_start sc |>);
    Some (s <| kr_out := (kr_out s) <| o_sets := length sets |> <| store_ns := kr_now s - sc_store_start sc |> |>, e)
  else Some (s, PhaseDone).

(** The token accounting at the end. *)
Definition account (input : Z) (o : KvOutcome) : KvOutcome :=
  let cached := cached_tokens (Z.of_nat (o_hit o)) (ke_chunk_tokens env) input in
  o <| o_cached := cached |> <| o_new := sat_sub input cached |>
    <| full_hit := (0 <? input) && (input <=? sat_mul (Z.of_nat (o_hit o)) (ke_chunk_tokens env)) |>.

(** [run_request]. *)
Definition run_request (req : Request) (sc : Script) (s : KvRun) : option (KvRun * RunEnd) :=
  let input := input_tokens req in
  let s := s <| kr_out := default_outcome <| o_new := input |> |> in
  match chunks req with
  | [] => Some (s, RunOk (kr_out s))
  | _ =>
      let objs := objects (chunks req) in
      let n := length objs in
      let s := after_lookup n sc s in
      let (ms, l) := lookup_result (Z.of_nat n) (exists_bytes objs) (sc_lookup sc) in
      let s := kr_note ms (s <| kr_out := (kr_out s) <| lookup_ns := sc_lookup_end sc - sc_fired_at sc |> |>) in
      match l with
      | Err f => Some (s, RunFailed f)
      | Ok flags =>
          let h := lookup_prefix flags ranks in
          let s := s <| kr_out := (kr_out s) <| lookup_hit := h |> <| o_hit := h |> |> in
          '(s, e) ← load_phase objs sc s;
          match e with
          | PhaseFailed f => Some (s, RunFailed f)
          | PhaseWaiting => Some (s, RunWaiting)
          | PhaseDone =>
              '(s, e) ← store_phase objs flags sc s;
              match e with
              | PhaseFailed f => Some (s, RunFailed f)
              | PhaseWaiting => Some (s, RunWaiting)
              | PhaseDone => let s := s <| kr_out := account input (kr_out s) |> in Some (s, RunOk (kr_out s))
              end
          end
      end
  end.

End run.

(** ** Lemmas: prefixes and tokens *)

(** [h] chunks are in the prefix exactly when their flags are all set. *)
Lemma prefix_chunks_spec fuel n l c h :
  (0 < n)%nat -> length l = (c * n)%nat -> (length l <= fuel)%nat -> (h <= c)%nat ->
  (h <= prefix_chunks fuel n l)%nat <-> Forall (fun e => e = true) (take (h * n) l).
Proof.
  intros Hn. revert l c h. induction fuel as [|fuel IH]; intros l c h L Hf Hc.
  { assert (h = 0%nat) as -> by nia. split; [by constructor|cbn; lia]. }
  destruct h as [|h]; [split; [by constructor|lia]|]. destruct c as [|c]; [lia|].
  destruct l as [|b l0] eqn:El; [cbn in L; lia|]. cbn [prefix_chunks]. rewrite <- El in *. clear El b l0.
  replace (S h * n)%nat with (n + h * n)%nat by lia.
  rewrite <- take_take_drop, Forall_app. destruct (forallb _ _) eqn:E.
  - assert (Forall (fun e => e = true) (take n l)) as F.
    { rewrite forallb_forall in E. apply List.Forall_forall. exact E. }
    rewrite <- (IH (drop n l) c h) by (rewrite ?length_drop; lia). split; [intros ?; split; [done|lia]|lia].
  - split; [lia|]. intros [F _]. exfalso. rewrite <- not_true_iff_false, forallb_forall in E. apply E.
    by apply List.Forall_forall.
Qed.

Lemma prefix_chunks_le fuel n l c :
  (0 < n)%nat -> length l = (c * n)%nat -> (prefix_chunks fuel n l <= c)%nat.
Proof.
  intros Hn. revert l c. induction fuel as [|fuel IH]; intros l c L; cbn; [lia|].
  destruct l as [|b l0] eqn:El; [lia|]. destruct c as [|c]; [done|]. rewrite <- El in *. clear El b l0.
  destruct (forallb _ _) eqn:E; [|lia]. specialize (IH (drop n l) c). rewrite length_drop in IH. lia.
Qed.

Lemma lookup_prefix_spec l n c h :
  (0 < n)%nat -> length l = (c * n)%nat -> (h <= c)%nat ->
  (h <= lookup_prefix l n)%nat <-> Forall (fun e => e = true) (take (h * n) l).
Proof. intros. unfold lookup_prefix. rewrite Nat.max_l by lia. by eapply prefix_chunks_spec. Qed.

Lemma lookup_prefix_le l n c : (0 < n)%nat -> length l = (c * n)%nat -> (lookup_prefix l n <= c)%nat.
Proof. intros. unfold lookup_prefix. rewrite Nat.max_l by lia. by apply prefix_chunks_le. Qed.

Lemma cached_tokens_spec hit ct input :
  0 <= hit -> 0 <= ct -> is_u64 input ->
  0 <= cached_tokens hit ct input <= input /\ (0 < input -> cached_tokens hit ct input < input).
Proof. intros Hh Hc Hi. unfold cached_tokens. assert (0 <= hit * ct) by nia. ulia. Qed.

Lemma decimal_len_loop_spec fuel v d acc :
  decimal_len_loop fuel v d
  = d + Z.of_nat (String.length (dec_digits (S fuel) v acc)) - Z.of_nat (String.length acc) - 1.
Proof.
  revert v d acc. induction fuel as [|fuel IH]; intros v d acc; cbn [decimal_len_loop dec_digits].
  - destruct (v <? 10); cbn [String.length]; lia.
  - destruct (10 <=? v) eqn:E.
    + rewrite (proj2 (Z.ltb_ge v 10)) by lia. rewrite (IH _ _ (String (digit_ascii (v mod 10)) acc)).
      cbn [dec_digits String.length]. lia.
    + rewrite (proj2 (Z.ltb_lt v 10)) by lia. cbn [String.length]. lia.
Qed.

(** [decimal_len] is the length of the decimal text. *)
Lemma decimal_len_show v : decimal_len v = Z.of_nat (String.length (show_Z v)).
Proof.
  unfold decimal_len, show_Z. rewrite (decimal_len_loop_spec _ _ _ ""). cbn [String.length]. lia.
Qed.

(** ** Lemmas: a phase *)

(** What the replies to requests [i], [i + 1], ... do to the outcome. *)
Fixpoint replies_fold (h : nat -> Workload.Outcome -> KvOutcome -> option (KvOutcome * list metric)) (i : nat)
    (os : list Workload.Outcome) (out : KvOutcome) : option KvOutcome :=
  match os with
  | [] => Some out
  | o :: os => '(out, _) ← h i o out; replies_fold h (S i) os out
  end.

Section loop.
Context `{RngLaws} `{ClientLaws} `{MapperLaws}.
Variable env : KvEnv.
Hypothesis DEPTH : (0 < ke_depth env)%nat.

(** A phase of [total] requests: each can be built, request [j] satisfies
    [P j], and the reply to it does [h j]. *)
Variable total : nat.
Variable fire_of : nat -> rng -> option (rng * Fire).
Variable handle : Fire -> Workload.Outcome -> KvOutcome -> option (KvOutcome * list metric).
Variable P : nat -> Fire -> Prop.
Variable h : nat -> Workload.Outcome -> KvOutcome -> option (KvOutcome * list metric).
Hypothesis FIRE : forall j r, (j < total)%nat -> exists r' f, fire_of j r = Some (r', f) /\ P j f.
Hypothesis HANDLE : forall j f o out, (j < total)%nat -> P j f -> handle f o out = h j o out.
Hypothesis TOTAL : forall j o out, (j < total)%nat -> is_Some (h j o out).

(** Requests [kr_done .. kr_next] are in flight, in order. *)
Record loop_inv (s : KvRun) : Prop := {
  li_next : (kr_done s <= kr_next s <= total)%nat;
  li_count : length (pending (kr_client s)) = (kr_next s - kr_done s)%nat;
  li_order i f : pending (kr_client s) !! i = Some f -> P (kr_done s + i) f;
}.

Lemma kv_fill_spec left_ fired_at s fired :
  loop_inv s -> left_ = (total - kr_next s)%nat ->
  exists s' fired' ok, kv_fill env fire_of left_ fired_at s fired = Some (s', fired', ok) /\
    kr_out s' = kr_out s /\ kr_done s' = kr_done s /\
    (ok = true -> loop_inv s' /\ (kr_done s < total -> pending (kr_client s') <> [])%nat).
Proof.
  revert s fired. induction left_ as [|left_ IH]; intros s fired I E; cbn [kv_fill]; destruct I as [N C O].
  - eexists _, _, _. split_and!; [done..|]. intros _. split; [done|]. intros D Ep. rewrite Ep in C. cbn in C. lia.
  - destruct (kr_pending s <? ke_depth env)%nat eqn:B; cbn [negb].
    + destruct (FIRE (kr_next s) (kr_rng s)) as (r & f & -> & Pf); [lia|]. cbn [mbind option_bind].
      destruct (fire f (kr_client (s <| kr_rng := r |>))) as [c [|]] eqn:Ef.
      * apply fire_ok in Ef as [Ep _]. change (kr_client (s <| kr_rng := r |>)) with (kr_client s) in Ep.
        edestruct IH as (s' & fired' & ok & -> & E1 & E2 & E3); [| |eexists _, _, _; split_and!; [done..|exact E3]].
        -- split; cbn; [lia|rewrite Ep, length_app, C; cbn; lia|].
           intros i g. rewrite Ep. intros [L|[L [Ei <-]%list_lookup_singleton_Some]]%lookup_app_Some; [by apply O|].
           cbn in L, Ei. rewrite C in L, Ei. by replace (kr_done s + i)%nat with (kr_next s) by lia.
        -- cbn. lia.
      * cbn [note_failed_fire note_discarded]. by eexists _, _, _.
    + eexists _, _, _. split_and!; [done..|]. intros _. split; [done|]. intros D Ep.
      apply Nat.ltb_ge in B. unfold kr_pending, pending_count in B. rewrite Ep in B. cbn in B. lia.
Qed.

Lemma kv_flush_spec fired s :
  loop_inv s -> exists s' ok, kv_flush fired s = (s', ok) /\ kr_out s' = kr_out s /\ kr_done s' = kr_done s /\
    (ok = true -> loop_inv s' /\ pending (kr_client s') = pending (kr_client s)).
Proof.
  intros [N C O]. unfold kv_flush. destruct (flush (kr_client s)) as [c [|]] eqn:E.
  - apply flush_ok in E as [E _]. eexists _, _. split_and!; [done..|]. intros _.
    split; [|done]. split; cbn; rewrite ?E; done.
  - cbn [note_discarded]. by eexists _, _.
Qed.

(** The loop: it never panics; it ends with every reply in, each handled once
    and in order, or with the connection dropped; it waits only when fewer
    rounds came than requests are left. *)
Lemma kv_loop_spec rounds s :
  loop_inv s -> exists s' e, kv_loop env total fire_of handle rounds s = Some (s', e) /\
    match e with
    | PhaseDone => pending (kr_client s') = [] /\
        exists os, map rd_reply (take (total - kr_done s) rounds) = map Ok os /\
                   length os = (total - kr_done s)%nat /\
                   replies_fold h (kr_done s) os (kr_out s) = Some (kr_out s')
    | PhaseWaiting => (length rounds < total - kr_done s)%nat
    | PhaseFailed f => exists r, f = FailDisconnect r
    end.
Proof.
  revert s. induction rounds as [|rd rounds IH]; intros s I; cbn [kv_loop];
    destruct (total <=? kr_done s)%nat eqn:B.
  1, 3: apply Nat.leb_le in B; destruct I as [N C O]; eexists _, _; split; [done|];
    (split; [apply nil_length_inv; lia|]); exists []; replace (total - kr_done s)%nat with 0%nat by lia; done.
  - apply Nat.leb_gt in B. eexists _, _. split; [done|]. cbn. lia.
  - apply Nat.leb_gt in B.
    destruct (kv_fill_spec (total - kr_next s) (rd_fired_at rd) s 0 I eq_refl) as (s1 & fired & ok & -> & E1 & D1 & T1).
    cbn [mbind option_bind]. destruct ok; cbn [negb]; [|eexists _, _; split; [done|by eexists]].
    destruct T1 as [I1 NE]; [done|].
    destruct (kv_flush_spec fired s1 I1) as (s2 & ok & -> & E2 & D2 & T2).
    destruct ok; cbn [negb]; [|eexists _, _; split; [done|by eexists]]. destruct T2 as [I2 EP]; [done|].
    destruct (rd_reply rd) as [o|r] eqn:ER; [|eexists _, _; split; [done|by eexists]].
    destruct (pending (kr_client s2)) as [|f fs] eqn:Ep; [by destruct (NE B)|]. cbn [head mbind option_bind].
    assert (P (kr_done s2) f) as Pf by (rewrite <- (Nat.add_0_r (kr_done s2)); apply (li_order _ I2); by rewrite Ep).
    assert (kr_done s2 = kr_done s) as Ed by congruence.
    rewrite (HANDLE (kr_done s2)) by (done || lia).
    destruct (TOTAL (kr_done s2) o (kr_out s2)) as [[out ms] Eh]; [lia|]. rewrite Eh. cbn [mbind option_bind].
    edestruct IH as (s3 & e & -> & T3); [|eexists _, _; split; [done|]].
    + destruct I2 as [N2 C2 O2]. pose proof (take_reply_tail (kr_client s2)) as ET. rewrite Ep in C2, O2, ET. cbn in C2, ET.
      split; cbn; rewrite ?ET; [lia|lia|].
      intros i g Eg.  replace (S (kr_done s2 + i)) with (kr_done s2 + S i)%nat by lia. by apply O2.
    + cbn [kr_done kr_out set_field kr_note] in T3. rewrite <- Ed.
      replace (total - kr_done s2)%nat with (S (total - S (kr_done s2))) by lia.
      destruct e as [| |]; [|exact T3|cbn in *; lia].
      destruct T3 as (Z3 & os & M & L & F). split; [done|]. exists (o :: os). cbn. rewrite ER, M, L.
      split_and!; [done..|]. rewrite <- E1, <- E2, Eh. exact F.
Qed.

End loop.

(** ** Lemmas: what the phases of a request do *)

(** A GET that leaves the prefix as it is: a value came back. *)
Definition got (o : Workload.Outcome) : bool :=
  let r := kv_result (FireGet [] 0) o in success r && negb (bool_decide (hit r = Some false)).

Section phases.
Context `{RngLaws} `{ClientLaws} `{MapperLaws}.
Variable env : KvEnv.
Hypothesis DEPTH : (0 < ke_depth env)%nat.
Hypothesis POOL : ke_pool_len env = VALUE_POOL_SIZE.

Implicit Types s : KvRun.

Lemma on_get_spec objs i obj o out :
  objs !! i = Some obj -> exists out' ms,
    on_get objs (FireGet [] (Z.of_nat i)) o out = Some (out', ms) /\
    lookup_hit out' = lookup_hit out /\ o_sets out' = o_sets out /\
    o_hit out' = (if got o then o_hit out else Nat.min (o_hit out) (chunk_index obj)).
Proof.
  intros E. unfold on_get. cbn [fire_ud]. rewrite Nat2Z.id, E. cbn [mbind option_bind].
  unfold got. set (r := kv_result (FireGet [] 0) o). set (r' := kv_result (FireGet [] (Z.of_nat i)) o).
  change (success r') with (success r). change (hit r') with (hit r).
  destruct (success r), (bool_decide (hit r = Some false)); cbn -[record_counters]; eexists _, _; by split_and!.
Qed.

(** After replies [i], [i + 1], ..., [j] chunks are still in the prefix exactly
    when they were before and every reply of theirs brought a value. *)
Lemma gets_fold objs os i out out' :
  (i + length os <= length objs)%nat ->
  (forall k obj, objs !! k = Some obj -> chunk_index obj = (k / ranks)%nat) ->
  replies_fold (fun j => on_get objs (FireGet [] (Z.of_nat j))) i os out = Some out' ->
  lookup_hit out' = lookup_hit out /\ o_sets out' = o_sets out /\ (o_hit out' <= o_hit out)%nat /\
  forall j, (j <= o_hit out)%nat ->
    (j <= o_hit out' <-> forall k o, os !! k = Some o -> got o = true \/ j <= (i + k) / ranks)%nat.
Proof.
  intros L CH. revert i out L. induction os as [|o os IH]; intros i out L; cbn [replies_fold].
  { intros [= <-]. by split_and!. }
  cbn [length] in L. destruct (lookup_lt_is_Some_2 objs i) as [obj E]; [lia|].
  destruct (on_get_spec objs i obj o out E) as (o1 & ms & -> & Q1 & S1 & G1). cbn [mbind option_bind]. intros F.
  apply IH in F as (Q2 & S2 & L2 & C2); [|lia]. rewrite (CH _ _ E) in G1.
  assert (o_hit o1 <= o_hit out)%nat by (rewrite G1; destruct (got o); lia).
  split_and!; [congruence|congruence|lia|]. intros j Hj.
  destruct (decide (j <= o_hit o1)%nat) as [D|D].
  - rewrite (C2 j D). split.
    + intros A [|k] o' Ek; cbn in Ek.
      * injection Ek as <-. rewrite Nat.add_0_r. destruct (got o); [by left|right; lia].
      * rewrite <- Nat.add_succ_comm. by eauto.
    + intros A k o' Ek. rewrite Nat.add_succ_comm. apply (A (S k)). exact Ek.
  - split; [lia|]. intros A. exfalso. destruct (A 0%nat o eq_refl) as [Eg|Eg]; rewrite G1 in D.
    + rewrite Eg in D. lia.
    + rewrite Nat.add_0_r in Eg. destruct (got o); lia.
Qed.

Lemma fresh_inv total P s t : pending (kr_client s) = [] ->
  loop_inv total P (s <| kr_next := 0%nat |> <| kr_done := 0%nat |> <| kr_now := t |>).
Proof. intros E. split; cbn; rewrite ?E; [lia|done|]. intros i f Ei. by rewrite lookup_nil in Ei. Qed.

(** The load phase: it never panics, and once done the prefix is the chunks
    whose GETs all brought a value. *)
Lemma load_phase_spec objs cs sc s :
  objs = objects cs -> pending (kr_client s) = [] -> o_hit (kr_out s) = lookup_hit (kr_out s) ->
  (lookup_hit (kr_out s) <= length cs)%nat -> o_gets (kr_out s) = 0%nat ->
  exists s' e, load_phase env objs sc s = Some (s', e) /\
    match e with
    | PhaseDone =>
        pending (kr_client s') = [] /\ lookup_hit (kr_out s') = lookup_hit (kr_out s) /\
        o_gets (kr_out s') = (lookup_hit (kr_out s) * ranks)%nat /\ o_sets (kr_out s') = o_sets (kr_out s) /\
        exists gots, map rd_reply (take (o_gets (kr_out s')) (sc_load sc)) = map Ok gots /\
                     length gots = o_gets (kr_out s') /\
                     o_hit (kr_out s') = lookup_prefix (map got gots) ranks
    | PhaseWaiting => (length (sc_load sc) < length objs)%nat
    | PhaseFailed f => exists r, f = FailDisconnect r
    end.
Proof.
  intros -> EP EH LH EG. pose proof ranks_pos as RP. pose proof (objects_length cs) as OL.
  unfold load_phase. set (h0 := lookup_hit (kr_out s)) in *. destruct (0 <? h0 * ranks)%nat eqn:B.
  - edestruct (kv_loop_spec env DEPTH (h0 * ranks) (get_fire env (objects cs)) (on_get (objects cs))
      (fun j f => exists key, f = FireGet key (Z.of_nat j)) (fun j => on_get (objects cs) (FireGet [] (Z.of_nat j))))
      as (s' & e & -> & T); [| | |by apply fresh_inv|].
    + intros j r Hj. destruct (lookup_lt_is_Some_2 (objects cs) j) as [o E]; [nia|].
      unfold get_fire. rewrite E. eexists _, _. split; [done|by eexists].
    + by intros j f o out _ [key ->].
    + intros j o out Hj. destruct (lookup_lt_is_Some_2 (objects cs) j) as [obj E]; [nia|].
      destruct (on_get_spec (objects cs) j obj o out E) as (? & ? & -> & _). done.
    + cbn [mbind option_bind]. eexists _, _. split; [done|]. destruct e as [| |]; [|exact T|cbn in T; nia].
      destruct T as (E & os & M & Lo & F). cbn in M, Lo, F. rewrite Nat.sub_0_r in M, Lo.
      apply gets_fold in F as (Q3 & S3 & L3 & C3); [|nia|apply objects_chunk].
      cbn. split_and!; try done. exists os. split_and!; try done.
      assert (lookup_prefix (map got os) ranks <= h0)%nat by (apply lookup_prefix_le; rewrite ?length_map; done).
      assert (forall j, (j <= h0)%nat -> (j <= o_hit (kr_out s') <-> j <= lookup_prefix (map got os) ranks)%nat) as EQ.
      { intros j Hj. rewrite C3 by (cbn; lia). rewrite (lookup_prefix_spec _ _ h0 j) by (rewrite ?length_map; done).
        rewrite Forall_lookup. split.
        - intros A k b Ek. apply lookup_take_Some in Ek as [Ek Lk]. apply list_lookup_fmap_Some in Ek as (o & -> & Eo).
          destruct (A k o Eo) as [?|Q]; [done|]. cbn in Q.
          pose proof (Nat.Div0.div_lt_upper_bound k ranks j). rewrite Nat.mul_comm in Lk. lia.
        - intros A k o Ek. destruct (decide (k < j * ranks)%nat) as [D|D].
          + left. apply (A k). apply lookup_take_Some. split; [|done]. apply list_lookup_fmap_Some. by eexists.
          + right. cbn. apply Nat.div_le_lower_bound; lia. }
      cbn in L3. pose proof (proj1 (EQ (o_hit (kr_out s')) ltac:(lia))). pose proof (proj2 (EQ (lookup_prefix (map got os) ranks) ltac:(lia))). lia.
  - apply Nat.ltb_ge in B. assert (h0 = 0%nat) as E0 by nia. eexists _, _. split; [done|]. cbn.
    rewrite EG, E0. split_and!; [done..|]. exists []. split_and!; try done. rewrite EH. exact E0.
Qed.

(** What the write rule selects: with [SetFromMiss] every object past the hit
    prefix, with [InsertIfAbsent] every object that was absent. *)
Lemma set_indices_spec rule h flags i :
  i ∈ set_indices rule h (length flags) flags <->
  (i < length flags)%nat /\ match rule with
                           | SetFromMiss => (h * ranks <= i)%nat
                           | InsertIfAbsent => flags !! i = Some false
                           end.
Proof.
  destruct rule; cbn [set_indices].
  - rewrite elem_of_seq. lia.
  - rewrite list_elem_of_omap. split.
    + intros ([k b] & E & F). cbn in F. destruct b; [done|]. injection F as ->.
      apply list_elem_of_lookup in E as [j E]. apply lookup_zip_with_Some in E as (? & ? & [= <- <-] & Es & Eb).
      apply lookup_seq in Es as [-> ?]. split; [by apply lookup_lt_Some in Eb|exact Eb].
    + intros [L E]. exists (i, false). split; [|done]. apply list_elem_of_lookup. exists i.
      apply lookup_zip_with_Some. exists i, false. split_and!; [done| |done]. by apply lookup_seq.
Qed.

Lemma length_omap {A B} (f : A -> option B) l : (length (omap f l) <= length l)%nat.
Proof. induction l as [|a l IH]; cbn; [lia|]. destruct (f a); cbn; lia. Qed.

Lemma set_indices_length rule h flags : (length (set_indices rule h (length flags) flags) <= length flags)%nat.
Proof.
  destruct rule; cbn [set_indices]; [rewrite length_seq; lia|].
  transitivity (length (zip (seq 0 (length flags)) flags)); [apply length_omap|].
  rewrite length_zip_with, length_seq. lia.
Qed.

Lemma store_fire_ok cs sets j r :
  (j < length sets)%nat -> Forall (fun i => (i < length (objects cs))%nat) sets ->
  exists r' f, store_fire env (objects cs) sets j r = Some (r', f) /\
    fire_kind f = OpSet /\ fire_ud f = Z.of_nat (nth j sets 0%nat).
Proof.
  intros Hj F. destruct (lookup_lt_is_Some_2 sets j Hj) as [i Ei].
  destruct (lookup_lt_is_Some_2 (objects cs) i) as [o Eo]; [by eapply Forall_lookup_1 in F|].
  rewrite (nth_lookup_Some _ _ _ _ Ei). unfold store_fire. rewrite Ei. cbn [mbind option_bind]. rewrite Eo.
  cbn [mbind option_bind]. rewrite POOL.
  pose proof (objects_size cs i o Eo) as SZ. pose proof max_size as MX.
  assert (VALUE_POOL_SIZE < 2 ^ 64) by done. rewrite wrap64_small by (unfold u64_max; lia).
  destruct (range_draw_ok 0 (VALUE_POOL_SIZE - kv_size o + 1) r) as (g' & off & -> & R); [lia|].
  cbn [mbind option_bind]. destruct (ZC_VALUE_THRESHOLD <=? kv_size o); [by eexists _, _|].
  rewrite (proj2 (Z.leb_le _ _)) by lia. by eexists _, _.
Qed.

Lemma sets_fold h i os out out' :
  (forall j o out, h j o out ≫= (fun p => Some p.1) = Some out) ->
  replies_fold h i os out = Some out' -> out' = out.
Proof.
  intros E. revert i out. induction os as [|o os IH]; intros i out; cbn; [by intros [= ->]|].
  specialize (E i o out). destruct (h i o out) as [[]|]; [|done]. cbn in *. injection E as ->. apply IH.
Qed.

(** The store phase: it never panics and leaves the rest of the outcome. *)
Lemma store_phase_spec cs flags sc s :
  length flags = length (objects cs) -> pending (kr_client s) = [] -> o_sets (kr_out s) = 0%nat ->
  exists s' e, store_phase env (objects cs) flags sc s = Some (s', e) /\
    match e with
    | PhaseDone =>
        pending (kr_client s') = [] /\
        o_sets (kr_out s') = length (set_indices (ke_rule env) (lookup_hit (kr_out s)) (length flags) flags) /\
        lookup_hit (kr_out s') = lookup_hit (kr_out s) /\ o_hit (kr_out s') = o_hit (kr_out s) /\
        o_gets (kr_out s') = o_gets (kr_out s)
    | PhaseWaiting => (length (sc_store sc) < length (objects cs))%nat
    | PhaseFailed f => exists r, f = FailDisconnect r
    end.
Proof.
  intros L EP ES. unfold store_phase. rewrite <- L.
  pose proof (set_indices_length (ke_rule env) (lookup_hit (kr_out s)) flags) as LE.
  assert (Forall (fun i => (i < length (objects cs))%nat)
            (set_indices (ke_rule env) (lookup_hit (kr_out s)) (length flags) flags)) as B
    by (apply Forall_forall; intros i Ei; rewrite <- L; by apply set_indices_spec in Ei as [? _]).
  set (sets := set_indices _ _ _ _) in *. destruct (0 <? length sets)%nat eqn:Z.
  - edestruct (kv_loop_spec env DEPTH (length sets) (store_fire env (objects cs) sets) on_set
      (fun j f => fire_kind f = OpSet /\ fire_ud f = Z.of_nat (nth j sets 0%nat))
      (fun j => on_set (FireSet [] 0 0 (Z.of_nat (nth j sets 0%nat))))) as (s' & e & -> & T);
      [| | |by apply fresh_inv|].
    + intros j r Hj. by apply store_fire_ok.
    + intros j f o out _ [E1 E2]. unfold on_set, kv_result. by rewrite E1, E2.
    + done.
    + cbn [mbind option_bind]. eexists _, _. split; [done|]. destruct e as [| |]; [|exact T|cbn in T; lia].
      destruct T as (E & os & _ & _ & F). apply sets_fold in F; [|done]. cbn in F |- *. by rewrite F.
  - apply Nat.ltb_ge in Z. eexists _, _. split; [done|]. cbn. split_and!; try done. lia.
Qed.

Lemma exists_flags_length vs flags : exists_flags vs = Some flags -> length flags = length vs.
Proof.
  revert flags. induction vs as [|[c|] vs IH]; intros flags; cbn; [by intros [= <-]| |done].
  destruct (exists_flags vs); [|done]. intros [= <-]. cbn. by rewrite IH.
Qed.

(** What a request that completed has done and reports, given the server's
    answers. *)
Definition request_outcome (req : Request) (sc : Script) (o : KvOutcome) : Prop :=
  match chunks req with
  | [] => o = default_outcome <| o_new := input_tokens req |>
  | cs =>
      exists vs flags gots,
        sc_lookup sc = LookupValues vs /\ exists_flags vs = Some flags /\
        lookup_hit o = lookup_prefix flags ranks /\
        o_gets o = (lookup_hit o * ranks)%nat /\
        map rd_reply (take (o_gets o) (sc_load sc)) = map Ok gots /\ length gots = o_gets o /\
        o_hit o = lookup_prefix (map got gots) ranks /\
        o_sets o = length (set_indices (ke_rule env) (lookup_hit o) (length flags) flags)
  end.

(** Every way a request can end. *)
Lemma run_request_spec req sc s :
  pending (kr_client s) = [] -> is_u64 (input_tokens req) -> 0 <= ke_chunk_tokens env ->
  (forall vs, sc_lookup sc = LookupValues vs -> length vs = length (objects (chunks req))) ->
  exists s' e, run_request env req sc s = Some (s', e) /\
    match e with
    | RunOk o =>
        pending (kr_client s') = [] /\ request_outcome req sc o /\
        0 <= o_cached o /\ o_cached o + o_new o = input_tokens req /\
        (0 < input_tokens req -> o_cached o < input_tokens req)
    | RunFailed _ => True
    | RunWaiting => (length (sc_load sc) < length (objects (chunks req)) \/
                     length (sc_store sc) < length (objects (chunks req)))%nat
    end.
Proof.
  intros EP IN CT LV. unfold run_request, request_outcome. destruct (chunks req) as [|c cs'] eqn:EC.
  { eexists _, _. split; [done|]. cbn. split_and!; try done; lia. }
  rewrite <- EC in *. assert (chunks req <> []) as NE by (by rewrite EC). clear EC c cs'.
  set (cs := chunks req) in *. clearbody cs.
  set (s1 := after_lookup _ _ _). assert (pending (kr_client s1) = []) as EP1.
  { unfold s1, after_lookup. by destruct (sc_lookup sc). }
  assert (o_gets (kr_out s1) = 0%nat /\ o_sets (kr_out s1) = 0%nat) as [EG1 ES1].
  { unfold s1, after_lookup. by destruct (sc_lookup sc). }
  clearbody s1. destruct (lookup_result _ _ _) as [ms l] eqn:EL. destruct l as [flags|f]; [|by eexists _, _].
  destruct (sc_lookup sc) as [|vs| | | | |] eqn:ES; try by cbn in EL.
  cbn in EL. destruct (exists_flags vs) as [fl|] eqn:EF; [|done]. injection EL as <- <-.
  assert (length fl = length (objects cs)) as LF by (rewrite (exists_flags_length _ _ EF); by apply LV).
  assert (lookup_prefix fl ranks <= length cs)%nat as LP.
  { apply lookup_prefix_le; [apply ranks_pos|]. rewrite LF. apply objects_length. }
  edestruct (load_phase_spec (objects cs) cs sc) as (s2 & e & -> & T2);
    [done| | | | |]; [exact EP1|done|exact LP|exact EG1|]. cbn [mbind option_bind].
  destruct e as [|f|]; [|by eexists _, _|by eexists _, _; split; [done|left]].
  cbn in T2. destruct T2 as (EP2 & H2' & G2 & S2 & gots & M2 & L2 & O2). rewrite ES1 in S2.
  destruct (store_phase_spec cs fl sc s2 LF EP2 S2) as (s3 & e & -> & T3). cbn [mbind option_bind].
  destruct e as [|f|]; [|by eexists _, _|by eexists _, _; split; [done|right]].
  destruct T3 as (EP3 & S3 & H3' & O3 & G3). eexists _, _. split; [done|]. rewrite H2' in *.
  cbn. destruct (cached_tokens_spec (Z.of_nat (o_hit (kr_out s3))) (ke_chunk_tokens env) (input_tokens req))
    as [C1 C2]; [lia|done|done|].
  split_and!; [done| |lia|ulia|lia]. destruct cs as [|c0 cs0]; [done|].
  eexists vs, fl, gots. rewrite ?H3', ?G3, ?S3, ?O3. split_and!; try done; congruence.
Qed.

End phases.

(** ** Properties *)

Section properties.
Context `{RngLaws} `{ClientLaws} `{MapperLaws}.

(** What every run of a request starts from and the server keeps to: a window
    of at least one, the value pool the workers share, nothing pending, one
    EXISTS reply per object. *)
Record request_start (env : KvEnv) (req : Request) (sc : Script) (s : KvRun) : Prop := {
  rs_depth : (0 < ke_depth env)%nat;
  rs_pool : ke_pool_len env = VALUE_POOL_SIZE;
  rs_pending : pending (kr_client s) = [];
  rs_tokens : is_u64 (input_tokens req) /\ 0 <= ke_chunk_tokens env;
  rs_lookup vs : sc_lookup sc = LookupValues vs -> length vs = length (objects (chunks req));
}.


(** A request never panics, and it ends: it completes or fails once the
    server has answered one round per object of each phase, however the rounds
    fall out. *)
Theorem kv_request_completes env req sc s :
  request_start env req sc s ->
  (length (objects (chunks req)) <= length (sc_load sc))%nat ->
  (length (objects (chunks req)) <= length (sc_store sc))%nat ->
  exists s' e, run_request env req sc s = Some (s', e) /\ e <> RunWaiting.
Proof.
  intros [D P E [T C] L] R1 R2. destruct (run_request_spec env D P req sc s E T C L) as (s2 & e & R & Q).
  exists s2, e. split; [done|]. intros ->. lia.
Qed.

End properties.

(** *** Witnesses *)

(** Chunk [c] is the objects [2c] and [2c + 1], one per rank. *)
Definition example_mapper : Mapper := {|
  objects cs := imap (fun i id => {| kv_obj_id := id; kv_size := 4096; chunk_index := (i / 2)%nat |})
                  (concat (map (fun c => [2 * c; 2 * c + 1]) cs));
  ranks := 2; max_object_size := 4096 |}.

Lemma example_mapper_laws : @MapperLaws example_mapper.
Proof.
  constructor; cbn -[VALUE_POOL_SIZE]; [lia| | | |done].
  - intros cs. rewrite length_imap. induction cs as [|c cs IH]; cbn; [done|]. rewrite IH. lia.
  - intros cs i o (id & _ & ->)%list_lookup_imap_Some. done.
  - intros cs i o (id & _ & ->)%list_lookup_imap_Some. cbn. lia.
Qed.

(** Windows of four, chunks of sixteen tokens. *)
Definition example_kv_env : KvEnv :=
  {| ke_prefix := []; ke_format := KvHex; ke_depth := 4; ke_pool_len := VALUE_POOL_SIZE; ke_chunk_tokens := 16;
     ke_rule := SetFromMiss |}.

(** Three chunks of sixteen tokens and two tokens more. *)
Definition example_request : Request := {| req_id := 1; timestamp := 0; input_tokens := 50; chunks := [5; 6; 7] |}.

Definition example_reply (len : option Z) : Round :=
  {| rd_fired_at := 10;
     rd_reply := Ok {| o_ok := true; o_len := len; o_latency := 5; o_error := None |}; rd_end := 20 |}.

(** Two chunks exist; the second chunk's first GET brings nothing. *)
Definition example_script : Script :=
  {| sc_fired_at := 0; sc_lookup := LookupValues [Some 1; Some 1; Some 1; Some 1; Some 0; Some 1];
     sc_lookup_end := 9; sc_load_start := 9;
     sc_load := [example_reply (Some 4096); example_reply (Some 4096); example_reply None;
                 example_reply (Some 4096); example_reply None; example_reply None];
     sc_store_start := 10; sc_store := replicate 6 (example_reply None) |}.

Definition example_kv_run : @KvRun counting_rng simple_client :=
  {| kr_client := {| sc_pending := []; sc_unflushed := 0; sc_alive := true |} : @client simple_client;
     kr_rng := 0 : @rng counting_rng; kr_inflight := new_inflight 0; kr_next := 0; kr_done := 0; kr_now := 0;
     kr_out := default_outcome; kr_log := [] |}.

Lemma example_request_start :
  @request_start counting_rng simple_client example_mapper example_kv_env example_request example_script example_kv_run.
Proof. constructor; try done; [cbn; lia|by intros vs [= <-]]. Qed.

Abbreviation example_kv_result :=
  (@run_request counting_rng simple_client example_mapper example_kv_env example_request example_script
     example_kv_run).

Definition run_ok `{Rng} `{Client} (x : option (KvRun * RunEnd)) : option KvOutcome :=
  match x with Some (_, RunOk o) => Some o | _ => None end.

Lemma run_ok_inv `{Rng} `{Client} (x : option (KvRun * RunEnd)) o :
  run_ok x = Some o -> exists s', x = Some (s', RunOk o).
Proof. destruct x as [[s' [o'| |]]|]; cbn; try done. intros [= ->]. by exists s'. Qed.

(** One chunk is loaded whole: 16 of 50 tokens are cached. *)
Definition example_kv_outcome : KvOutcome :=
  {| lookup_hit := 2; o_hit := 1; o_cached := 16; o_new := 34; full_hit := false; o_gets := 4; get_nil := 1;
     o_sets := 2; lookup_ns := 9; load_ns := 11; store_ns := 10 |}.

Lemma example_kv_runs : run_ok example_kv_result = Some example_kv_outcome.
Proof. vm_compute. reflexivity. Qed.


Lemma kv_request_completes_witness :
  exists s' e, example_kv_result = Some (s', e) /\ e <> RunWaiting.
Proof.
  apply (@kv_request_completes counting_rng counting_rng_laws simple_client simple_client_laws example_mapper
    example_mapper_laws example_kv_env example_request example_script example_kv_run example_request_start);
    cbn; lia.
Defined.
