(* ===== verification/KvDispatch.v ===== *)
(** KvDispatch: which request of a KV-cache trace runs where and when
    ([src/src/kvreplay.rs]: the reader thread, [KvDispatcher], [run_dispatcher]
    and [drive]).

    A reader thread sends the requests into a bounded channel.  Each worker's
    dispatcher claims one when a connection of the worker waits, holds it until
    it is due and hands it over; a connection found closed hands its request
    back.  What a connection does with a request is [KvRequest.run_request].
    Time is the nanoseconds of a monotonic clock; a wait of an executor task is
    a state of the model, a wake-up of it a flag. *)

From S2P Require Import Prelude F64 Config Keys KeyDist Limiter Dispatch Metrics InFlight Reply Workload Trace KvRequest.
Open Scope Z_scope.

Definition READ_AHEAD : nat := Z.to_nat 16384.

Definition START_POLL : Z := from_millis 1.

(** ** What the workers share: [KvReplay] and [ReaderState]

    [k_rows] is the [requests_out] file's rows, [None] without the file. *)
Record KvShared := {
  k_requests : list Request;
  k_tx_open : bool;
  k_sent : Z;
  k_stopped : bool;
  k_error : option string;
  k_first_ts : Z;
  k_speedup : f64;
  k_start : option Z;
  k_finished : Z;
  k_rows : option (list (Request * option Z * KvOutcome * bool));
  k_log : list metric;
}.

#[export] Instance eta_KvShared : Settable KvShared := fun x =>
  {| k_requests := k_requests x; k_tx_open := k_tx_open x; k_sent := k_sent x; k_stopped := k_stopped x;
     k_error := k_error x; k_first_ts := k_first_ts x; k_speedup := k_speedup x; k_start := k_start x;
     k_finished := k_finished x; k_rows := k_rows x; k_log := k_log x |}.

(** [KvReplay::load], once the trace and the geometry are read. *)
Definition kv_load (first : Request) (speedup : f64) (with_log : bool) : KvShared :=
  {| k_requests := []; k_tx_open := true; k_sent := 0; k_stopped := false; k_error := None;
     k_first_ts := timestamp first; k_speedup := speedup; k_start := None; k_finished := 0;
     k_rows := if with_log then Some [] else None; k_log := [] |}.

Definition k_note (ms : list metric) (k : KvShared) : KvShared := k <| k_log := k_log k ++ ms |>.

Definition closed_loop (k : KvShared) : bool := f64_eq (k_speedup k) f64_zero.

(** [start_at]: later calls do nothing. *)
Definition start_at (at_ : Z) (k : KvShared) : KvShared := k <| k_start := Some (default at_ (k_start k)) |>.

(** [is_finished]. *)
Definition kv_is_finished (k : KvShared) : bool := k_stopped k && (k_sent k <=? k_finished k).

Inductive Claim := ClaimRequest (req : Request) | ClaimNotReady | ClaimExhausted.

(** [claim]. *)
Definition claim (k : KvShared) : KvShared * Claim :=
  match k_requests k with
  | req :: rest => (k <| k_requests := rest |>, ClaimRequest req)
  | [] => (k, if k_tx_open k then ClaimNotReady else ClaimExhausted)
  end.

(** [scheduled_at]: [i64] saturating subtraction, then the division in f64. *)
Definition scheduled_at (start : Z) (req : Request) (k : KvShared) : option Z :=
  if closed_loop k then None
  else
    let trace_ns := f64_of_Z (clampZ (timestamp req - k_first_ts k) (- 2 ^ 63) (2 ^ 63 - 1)) in
    Some (start + f64_to_u64 (f64_div trace_ns (k_speedup k))).

(** [mark_finished]. *)
Definition mark_finished (k : KvShared) : KvShared := k <| k_finished := wrap64 (k_finished k + 1) |>.

(** A request counted as failed. *)
Definition mark_failed (k : KvShared) : KvShared := k_note [Count KV_REQUESTS_FAILED 1] (mark_finished k).

(** [write_row]. *)
Definition write_row (req : Request) (lag : option Z) (o : KvOutcome) (recorded : bool) (k : KvShared) : KvShared :=
  match k_rows k with
  | Some rows => k <| k_rows := Some (rows ++ [(req, lag, o, recorded)]) |>
  | None => k
  end.

(** ** The reader thread: [kt_sending] is counted and its [send] not done *)
Record KvReader := { kt_rest : list (result string Request); kt_sending : option Request }.

#[export] Instance eta_KvReader : Settable KvReader := fun x =>
  {| kt_rest := kt_rest x; kt_sending := kt_sending x |}.

(** One step of the thread; [alive]: the receiver is not dropped. *)
Definition kv_reader_step (path : string) (alive : bool) (t : KvReader) (k : KvShared) : KvReader * KvShared :=
  match kt_sending t with
  | Some req =>
      if negb alive then ({| kt_rest := []; kt_sending := None |}, k)
      else if (length (k_requests k) <? READ_AHEAD)%nat then
        (t <| kt_sending := None |>, k <| k_requests := k_requests k ++ [req] |>)
      else (t, k)
  | None =>
      match kt_rest t with
      | Ok req :: rest =>
          ({| kt_rest := rest; kt_sending := Some req |}, k <| k_sent := wrap64 (k_sent k + 1) |>)
      | Err e :: _ =>
          (t <| kt_rest := [] |>,
           k <| k_error := Some (default ("kv_replay trace " +:+ path +:+ ": " +:+ e) (k_error k)) |>)
      | [] => (t, if k_stopped k then k <| k_tx_open := false |> else k <| k_stopped := true |>)
      end
  end.

(** ** Jobs and slots *)

Record KvJob := { job_req : Request; scheduled : option Z; retried : bool; dead_handovers : Z }.

#[export] Instance eta_KvJob : Settable KvJob := fun x =>
  {| job_req := job_req x; scheduled := scheduled x; retried := retried x; dead_handovers := dead_handovers x |}.

Definition new_job (req : Request) (scheduled : option Z) : KvJob :=
  {| job_req := req; scheduled := scheduled; retried := false; dead_handovers := 0 |}.

Inductive HandBack := Unsent | LookupSent.

(** [KvSlot]; [ks_waker] is whether a waker is stored, [ks_woken] whether it
    was woken since it was last stored. *)
Record KvSlot := { ks_job : option KvJob; ks_done : bool; ks_waker : bool; ks_woken : bool }.

(** [KvDispatcher]; a slot is its index.  [kd_idle]: the dispatcher's waker is
    stored; [kd_woken]: it was woken since. *)
Record KvDispatcher := {
  kd_slots : list KvSlot;
  kd_waiting : list nat;
  kd_closed : bool;
  kd_idle : bool;
  kd_woken : bool;
  kd_returned : list (KvJob * Z);
  wants_slot : bool;
  connections : Z;
  live : Z;
  connect_failures : Z;
}.

#[export] Instance eta_KvDispatcher : Settable KvDispatcher := fun x =>
  {| kd_slots := kd_slots x; kd_waiting := kd_waiting x; kd_closed := kd_closed x; kd_idle := kd_idle x;
     kd_woken := kd_woken x; kd_returned := kd_returned x; wants_slot := wants_slot x;
     connections := connections x; live := live x; connect_failures := connect_failures x |}.

(** [start_dispatcher]. *)
Definition start_dispatcher (conns : Z) : KvDispatcher :=
  {| kd_slots := []; kd_waiting := []; kd_closed := false; kd_idle := false; kd_woken := false; kd_returned := [];
     wants_slot := false; connections := conns; live := 0; connect_failures := 0 |}.

(** [KvSlot::complete]. *)
Definition complete_slot (job : option KvJob) (s : KvSlot) : KvSlot :=
  {| ks_job := job; ks_done := true; ks_waker := false; ks_woken := ks_waker s || ks_woken s |}.

Definition kd_complete (i : nat) (job : option KvJob) (d : KvDispatcher) : KvDispatcher :=
  match kd_slots d !! i with
  | Some s => d <| kd_slots := <[i := complete_slot job s]> (kd_slots d) |>
  | None => d
  end.

(** Wake the dispatcher if its waker is stored: [idle.take()]. *)
Definition kd_wake (d : KvDispatcher) : KvDispatcher :=
  if kd_idle d then d <| kd_idle := false |> <| kd_woken := true |> else d.

(** [close]: the waiting slots are drained, oldest first. *)
Definition kd_close (d : KvDispatcher) : KvDispatcher :=
  foldl (fun d i => kd_complete i None (d <| kd_waiting := tail (kd_waiting d) |>)) (d <| kd_closed := true |>)
    (kd_waiting d).

(** [give_back]: whether the request was kept. *)
Definition kd_give_back (job : KvJob) (why : HandBack) (d : KvDispatcher) : KvDispatcher * bool :=
  let job := match why with
             | Unsent =>
                 if Z.max (connections d) 1 <=? dead_handovers job then None
                 else Some (job <| dead_handovers := (dead_handovers job + 1) mod 2 ^ 32 |>)
             | LookupSent => if retried job then None else Some (job <| retried := true |>)
             end in
  match job with
  | None => (d, false)
  | Some job => (kd_wake (d <| kd_returned := kd_returned d ++ [(job, connect_failures d)] |>), true)
  end.

(** [note_connect_failed]. *)
Definition note_connect_failed (d : KvDispatcher) : KvDispatcher :=
  d <| connect_failures := wrap64 (connect_failures d + 1) |>.

(** ** The dispatcher task *)

(** Running its loop; asleep until the clock starts; waiting ([needs_slot],
    until when); returned. *)
Inductive Mode := MLoop | MStart (until : Z) | MWait (needs_slot : bool) (until : Z) | MDone.

Record KvTask := { exhausted : bool; kt_pending : option KvJob; mode : Mode }.

#[export] Instance eta_KvTask : Settable KvTask := fun x =>
  {| exhausted := exhausted x; kt_pending := kt_pending x; mode := mode x |}.

Definition is_nonempty {A} (l : list A) : bool := match l with [] => false | _ => true end.

(** A held request that is due while no connection is live joins those handed
    back. *)
Definition return_due (now : Z) (d : KvDispatcher) (t : KvTask) : KvDispatcher * KvTask :=
  match kt_pending t with
  | Some job =>
      if (live d =? 0) && match scheduled job with None => true | Some at_ => at_ <=? now end
      then (d <| kd_returned := kd_returned d ++ [(job, connect_failures d)] |>, t <| kt_pending := None |>)
      else (d, t)
  | None => (d, t)
  end.

(** The handed-back requests that a failed reconnect attempt fails. *)
Fixpoint fail_front (failures : Z) (returned : list (KvJob * Z)) (k : KvShared) : list (KvJob * Z) * KvShared :=
  match returned with
  | (job, at_) :: rest => if at_ <? failures then fail_front failures rest (mark_failed k) else (returned, k)
  | [] => ([], k)
  end.

Definition fail_returned (d : KvDispatcher) (k : KvShared) : KvDispatcher * KvShared :=
  if live d =? 0 then
    let (returned, k) := fail_front (connect_failures d) (kd_returned d) k in (d <| kd_returned := returned |>, k)
  else (d, k).

(** How long until the held request is due. *)
Definition due_in (now : Z) (t : KvTask) : option Z :=
  match kt_pending t with
  | Some job => Some match scheduled job with Some at_ => sat_sub at_ now | None => 0 end
  | None => None
  end.

(** The end of a wait. *)
Definition end_wait (d : KvDispatcher) (t : KvTask) : KvDispatcher * KvTask :=
  (d <| wants_slot := false |> <| kd_idle := false |>, t <| mode := MLoop |>).

(** One poll of the dispatcher's wait. *)
Definition kv_poll (now : Z) (d : KvDispatcher) (t : KvTask) : KvDispatcher * KvTask :=
  match mode t with
  | MWait needs until =>
      if (is_nonempty (kd_returned d) && is_nonempty (kd_waiting d)) || (needs && is_nonempty (kd_waiting d))
      then end_wait d t
      else
        let d := d <| kd_idle := true |> <| kd_woken := false |> in
        if until <=? now then end_wait d t else (d, t)
  | MStart until => if until <=? now then (d, t <| mode := MLoop |>) else (d, t)
  | _ => (d, t)
  end.

(** The start of a wait, up to its first poll. *)
Definition begin_wait (now : Z) (reader_behind has_slot : bool) (d : KvDispatcher) (t : KvTask)
    : KvDispatcher * KvTask :=
  let due := due_in now t in
  let needs := negb has_slot &&
    (bool_decide (due = Some 0) || is_nonempty (kd_returned d) ||
     (bool_decide (kt_pending t = None) && negb (exhausted t))) in
  let nap := match due with
             | Some n => if n =? 0 then if reader_behind then START_POLL else IDLE_SLEEP_MAX
                         else Z.min n IDLE_SLEEP_MAX
             | None => if reader_behind then START_POLL else IDLE_SLEEP_MAX
             end in
  kv_poll now (d <| wants_slot := needs |>) (t <| mode := MWait needs (now + nap) |>).

(** The rest of an iteration, [waiting] as it is. *)
Definition hand_or_wait (now : Z) (reader_behind : bool) (d : KvDispatcher) (t : KvTask)
    : KvDispatcher * KvTask :=
  match kd_waiting d, due_in now t with
  | i :: ws, Some 0 => (kd_complete i (kt_pending t) (d <| kd_waiting := ws |>), t <| kt_pending := None |>)
  | ws, _ => begin_wait now reader_behind (is_nonempty ws) d t
  end.

(** The part of an iteration after the handed-back requests were offered to the
    waiting connections. *)
Definition claim_or_wait (start now1 now2 : Z) (d : KvDispatcher) (t : KvTask) (k : KvShared)
    : KvDispatcher * KvTask * KvShared :=
  let (d, t) := return_due now1 d t in
  let (d, k) := fail_returned d k in
  if is_nonempty (kd_waiting d) && bool_decide (kt_pending t = None) && negb (exhausted t) then
    let (k, c) := claim k in
    match c with
    | ClaimRequest req => (d, t <| kt_pending := Some (new_job req (scheduled_at start req k)) |>, k)
    | ClaimExhausted => (d, t <| exhausted := true |>, k)
    | ClaimNotReady => (hand_or_wait now2 true d t, k_note [Count KV_TRACE_READ_WAITS 1] k)
    end
  else (hand_or_wait now2 false d t, k).

(** One iteration of [run_dispatcher]'s loop.  The clock is read twice, first
    for a held request that is due. *)
Definition kv_iterate (should_stop : bool) (now1 now2 : Z) (d : KvDispatcher) (t : KvTask) (k : KvShared)
    : KvDispatcher * KvTask * KvShared :=
  if should_stop then (kd_close d, t <| mode := MDone |>, k)
  else
    match k_start k with
    | None => (d, t <| mode := MStart (now2 + START_POLL) |>, k)
    | Some start =>
        match kd_waiting d, kd_returned d with
        | i :: ws, (job, _) :: rest =>
            (kd_complete i (Some job) (d <| kd_waiting := ws |> <| kd_returned := rest |>), t, k)
        | _, _ => claim_or_wait start now1 now2 d t k
        end
    end.

(** ** A connection: [drive] *)

(** Not in [drive]; at the top of its loop; waiting on a slot; asleep; running
    a request, with its lag.  [ran]: it has run a request. *)
Inductive KConn :=
| KOut
| KTop (ran : bool)
| KWaiting (slot : nat) (ran : bool)
| KNap (until : Z) (ran : bool)
| KRunning (job : KvJob) (lag : option Z).

(** [Live::new] and the start of [drive]. *)
Definition kv_enter (d : KvDispatcher) : KvDispatcher * KConn := (d <| live := live d + 1 |>, KTop false).

(** [drive] returns: [Live] is dropped. *)
Definition kv_leave (d : KvDispatcher) : KvDispatcher * KConn := (d <| live := live d - 1 |>, KOut).

(** [next_job] gave no request. *)
Definition kv_no_job (should_stop : bool) (now : Z) (ran : bool) (d : KvDispatcher) : KvDispatcher * KConn :=
  if should_stop then kv_leave d else (d, KNap (now + IDLE_SLEEP_MAX) ran).

(** The top of the loop, up to the first poll of [next_job]'s wait; the phase
    is read again when the dispatcher is closed. *)
Definition kv_top (should_stop alive should_stop' : bool) (now : Z) (ran : bool) (d : KvDispatcher)
    : KvDispatcher * KConn :=
  if should_stop then kv_leave d
  else if negb alive then kv_leave (if ran then d else note_connect_failed d)
  else if kd_closed d then kv_no_job should_stop' now ran d
  else
    let i := length (kd_slots d) in
    let d := d <| kd_slots := kd_slots d ++ [{| ks_job := None; ks_done := false; ks_waker := true; ks_woken := false |}] |>
               <| kd_waiting := kd_waiting d ++ [i] |> in
    (if wants_slot d then kd_wake d else d, KWaiting i ran).

(** A poll of the wait on slot [i], and what follows when it is done. *)
Definition kv_slot_poll (should_stop alive : bool) (now : Z) (i : nat) (ran : bool) (d : KvDispatcher) (k : KvShared)
    : option (KvDispatcher * KConn * KvShared) :=
  s ← kd_slots d !! i;
  if negb (ks_done s) then
    let s := {| ks_job := ks_job s; ks_done := false; ks_waker := true; ks_woken := false |} in
    Some (d <| kd_slots := <[i := s]> (kd_slots d) |>, KWaiting i ran, k)
  else
    let d := d <| kd_slots := <[i := {| ks_job := None; ks_done := true; ks_waker := ks_waker s;
                                        ks_woken := ks_woken s |}]> (kd_slots d) |> in
    Some match ks_job s with
         | None => (kv_no_job should_stop now ran d, k)
         | Some job =>
             if negb alive then
               let (d, kept) := kd_give_back job Unsent d in
               (kv_leave d, if kept then k else mark_failed k)
             else (d, KRunning job match scheduled job with Some due => Some (sat_sub now due) | None => None end, k)
         end.

(** The end [e] of the request of [job]. *)
Definition kv_end (e : RunEnd) (running : bool) (job : KvJob) (lag : option Z) (d : KvDispatcher) (k : KvShared)
    : KvDispatcher * KConn * KvShared :=
  match e with
  | RunWaiting => (d, KRunning job lag, k)
  | RunFailed FailClosed =>
      let (d, kept) := kd_give_back job LookupSent d in
      (kv_leave d, if kept then k else mark_failed k)
  | RunFailed FailRequest => (d, KTop true, mark_failed k)
  | RunFailed (FailDisconnect _) => (kv_leave d, mark_failed k)
  | RunOk o =>
      (d, KTop true,
       write_row (job_req job) lag o running
         (k_note (match lag with Some l => [Sample KV_SCHEDULE_LAG l] | None => [] end ++
                  record_outcome (job_req job) o) (mark_finished k)))
  end.

(** ** The system *)

Record KvWorker := { kw_d : KvDispatcher; kw_t : KvTask; kw_conns : list KConn }.

Record KvSys := { ky_reader : KvReader; ky_k : KvShared; ky_workers : list KvWorker; ky_clock : Z }.

Definition kv_set (S : KvSys) (w : nat) (d : KvDispatcher) (t : KvTask) (cs : list KConn) (k : KvShared) (clock : Z)
    : KvSys :=
  {| ky_reader := ky_reader S; ky_k := k;
     ky_workers := <[w := {| kw_d := d; kw_t := t; kw_conns := cs |}]> (ky_workers S); ky_clock := clock |}.

Section system.
Context `{Rng} `{Client} `{Mapper}.

(** One step; [clock] is the time after it. *)
Inductive kvstep (path : string) (S : KvSys) : KvSys -> Prop :=
| kvs_reader t k :
    kv_reader_step path true (ky_reader S) (ky_k S) = (t, k) ->
    kvstep path S {| ky_reader := t; ky_k := k; ky_workers := ky_workers S; ky_clock := ky_clock S |}
| kvs_start clock :
    ky_clock S <= clock ->
    kvstep path S {| ky_reader := ky_reader S; ky_k := start_at clock (ky_k S); ky_workers := ky_workers S;
                     ky_clock := clock |}
| kvs_iterate w W stop now1 clock d t k :
    ky_workers S !! w = Some W -> mode (kw_t W) = MLoop -> ky_clock S <= now1 <= clock ->
    kv_iterate stop now1 clock (kw_d W) (kw_t W) (ky_k S) = (d, t, k) ->
    kvstep path S (kv_set S w d t (kw_conns W) k clock)
| kvs_poll w W clock d t :
    ky_workers S !! w = Some W -> ky_clock S <= clock -> kv_poll clock (kw_d W) (kw_t W) = (d, t) ->
    kvstep path S (kv_set S w d t (kw_conns W) (ky_k S) clock)
| kvs_connect_failed w W :
    ky_workers S !! w = Some W ->
    kvstep path S (kv_set S w (note_connect_failed (kw_d W)) (kw_t W) (kw_conns W) (ky_k S) (ky_clock S))
| kvs_enter w W i d c :
    ky_workers S !! w = Some W -> kw_conns W !! i = Some KOut -> kv_enter (kw_d W) = (d, c) ->
    kvstep path S (kv_set S w d (kw_t W) (<[i := c]> (kw_conns W)) (ky_k S) (ky_clock S))
| kvs_top w W i ran stop alive stop' clock d c :
    ky_workers S !! w = Some W -> kw_conns W !! i = Some (KTop ran) -> ky_clock S <= clock ->
    kv_top stop alive stop' clock ran (kw_d W) = (d, c) ->
    kvstep path S (kv_set S w d (kw_t W) (<[i := c]> (kw_conns W)) (ky_k S) clock)
| kvs_slot w W i slot ran stop alive clock d c k :
    ky_workers S !! w = Some W -> kw_conns W !! i = Some (KWaiting slot ran) -> ky_clock S <= clock ->
    kv_slot_poll stop alive clock slot ran (kw_d W) (ky_k S) = Some (d, c, k) ->
    kvstep path S (kv_set S w d (kw_t W) (<[i := c]> (kw_conns W)) k clock)
| kvs_woken w W i until ran clock :
    ky_workers S !! w = Some W -> kw_conns W !! i = Some (KNap until ran) -> ky_clock S <= clock -> until <= clock ->
    kvstep path S (kv_set S w (kw_d W) (kw_t W) (<[i := KTop ran]> (kw_conns W)) (ky_k S) clock)
| kvs_end w W i job lag env sc s s' e running clock d c k :
    ky_workers S !! w = Some W -> kw_conns W !! i = Some (KRunning job lag) -> ky_clock S <= clock ->
    run_request env (job_req job) sc s = Some (s', e) ->
    kv_end e running job lag (kw_d W) (ky_k S) = (d, c, k) ->
    kvstep path S (kv_set S w d (kw_t W) (<[i := c]> (kw_conns W)) k clock).

End system.

(** Before the first step: [conns] connections on each worker, none in
    [drive]. *)
Definition kv_sys_start (first : Request) (rest : list (result string Request)) (speedup : f64) (with_log : bool)
    (conns : list nat) (clock : Z) : KvSys :=
  {| ky_reader := {| kt_rest := Ok first :: rest; kt_sending := None |};
     ky_k := kv_load first speedup with_log;
     ky_workers := map (fun n => {| kw_d := start_dispatcher (Z.of_nat n);
                                    kw_t := {| exhausted := false; kt_pending := None; mode := MLoop |};
                                    kw_conns := replicate n KOut |}) conns;
     ky_clock := clock |}.

(** The requests of a trace: those before the first read error. *)
Fixpoint trace_requests (entries : list (result string Request)) : list Request :=
  match entries with
  | Ok req :: entries => req :: trace_requests entries
  | _ => []
  end.

(** ** Where the jobs are *)

Definition slot_jobs (slots : list KvSlot) : list KvJob := concat (map (fun s => option_list (ks_job s)) slots).

Definition conn_jobs (c : KConn) : list KvJob := match c with KRunning job _ => [job] | _ => [] end.

(** The jobs handed out or back, and those with the held one. *)
Definition handed_jobs (d : KvDispatcher) : list KvJob := map fst (kd_returned d) ++ slot_jobs (kd_slots d).

Definition disp_jobs (d : KvDispatcher) (t : KvTask) : list KvJob := option_list (kt_pending t) ++ handed_jobs d.

Definition worker_jobs (W : KvWorker) : list KvJob :=
  disp_jobs (kw_d W) (kw_t W) ++ concat (map conn_jobs (kw_conns W)).

(** The requests read and not finished, wherever they are. *)
Definition outstanding (S : KvSys) : list Request :=
  option_list (kt_sending (ky_reader S)) ++ k_requests (ky_k S) ++
  map job_req (concat (map worker_jobs (ky_workers S))).

(** ** Invariant of a worker *)

Definition is_due (clock : Z) (j : KvJob) : Prop :=
  match scheduled j with Some at_ => at_ <= clock | None => True end.

Definition backs_ok (conns : Z) (j : KvJob) : Prop := 0 <= dead_handovers j <= Z.max conns 1.

(** A slot whose connection is not forgotten: its waker is stored until it is
    done, and woken then. *)
Definition awaited (s : KvSlot) : Prop := (if ks_done s then ks_woken s else ks_waker s) = true.

(** What a dispatcher waits for reaches it. *)
Definition wait_ok (clock : Z) (d : KvDispatcher) (t : KvTask) : Prop :=
  match mode t with
  | MWait needs until =>
      wants_slot d = needs /\ until <= clock + IDLE_SLEEP_MAX /\ kd_idle d || kd_woken d = true /\
      (needs = true -> kd_waiting d <> [] -> kd_woken d = true)
  | _ => wants_slot d = false
  end.

Record dwf (clock : Z) (d : KvDispatcher) (t : KvTask) : Prop := {
  dw_nodup : NoDup (kd_waiting d);
  dw_slots : Forall (fun i => exists s, kd_slots d !! i = Some s /\ ks_job s = None /\ ks_done s = false) (kd_waiting d);
  dw_due : Forall (is_due clock) (handed_jobs d);
  dw_backs : Forall (backs_ok (connections d)) (disp_jobs d t);
  dw_conns : connections d < 2 ^ 32;
  dw_wait : wait_ok clock d t;
}.

(** A running request started when it was due or later, and its lag is the
    difference. *)
Definition ran_at (clock : Z) (j : KvJob) (lag : option Z) : Prop :=
  match scheduled j with
  | Some due => exists started, due <= started <= clock /\ lag = Some (started - due)
  | None => lag = None
  end.

Definition conn_ok (clock : Z) (d : KvDispatcher) (c : KConn) : Prop :=
  match c with
  | KWaiting i _ => exists s, kd_slots d !! i = Some s /\ awaited s
  | KRunning j lag => ran_at clock j lag /\ backs_ok (connections d) j
  | _ => True
  end.

(** What a dispatcher may become without its connections noticing. *)
Record grows (d d' : KvDispatcher) : Prop := {
  gr_slots i s : kd_slots d !! i = Some s -> exists s', kd_slots d' !! i = Some s' /\ (awaited s -> awaited s');
  gr_conns : connections d' = connections d;
}.

(** Requests settled, by the counters. *)
Definition kv_settled (log : list metric) : Z := counted KV_REQUESTS log + counted KV_REQUESTS_FAILED log.

(** Holding jobs [a] with shared state [k] becomes holding [b] with [k'], and
    the requests [gone] were settled and counted. *)
Record moves (a : list KvJob) (k : KvShared) (b : list KvJob) (k' : KvShared) (gone : list Request) : Prop := {
  mv_jobs : map job_req a ++ k_requests k ≡ₚ gone ++ map job_req b ++ k_requests k';
  mv_finished : is_u64 (k_finished k) -> k_finished k' = wrap64 (k_finished k + Z.of_nat (length gone));
  mv_count : kv_settled (k_log k') = kv_settled (k_log k) + Z.of_nat (length gone);
  mv_reader : k_sent k' = k_sent k /\ k_stopped k' = k_stopped k /\ k_tx_open k' = k_tx_open k;
}.

(** ** Lemmas: what moves *)

Lemma moves_trans a1 k1 a2 k2 a3 k3 g1 g2 :
  moves a1 k1 a2 k2 g1 -> moves a2 k2 a3 k3 g2 -> moves a1 k1 a3 k3 (g1 ++ g2).
Proof.
  intros [P1 F1 C1 (A1 & B1 & D1)] [P2 F2 C2 (A2 & B2 & D2)]. split.
  - by rewrite P1, P2, app_assoc.
  - intros R. rewrite F2, F1 by (try rewrite F1 by done; try apply wrap64_range; done).
    rewrite wrap64_add_l, length_app. f_equal. lia.
  - rewrite C2, C1, length_app. lia.
  - split_and!; congruence.
Qed.

(** Metrics that settle nothing. *)
Lemma kv_settled_app l1 l2 : kv_settled (l1 ++ l2) = kv_settled l1 + kv_settled l2.
Proof. unfold kv_settled. rewrite !counted_app. lia. Qed.

Lemma moves_still a k b ms : a ≡ₚ b -> kv_settled ms = 0 -> moves a k b (k_note ms k) [].
Proof.
  intros P Q. split; cbn; try done.
  - by rewrite (fmap_Permutation job_req _ _ P).
  - intros R. rewrite Z.add_0_r. by rewrite wrap64_small.
  - rewrite kv_settled_app, Q. lia.
Qed.

Lemma k_note_nil k : k_note [] k = k.
Proof. destruct k. unfold k_note; cbn. by rewrite app_nil_r. Qed.

Lemma moves_refl a k b : a ≡ₚ b -> moves a k b k [].
Proof. intros P. rewrite <- (k_note_nil k) at 2. by apply moves_still. Qed.

(** A request of [a] that failed. *)
Lemma moves_failed a k j b : a ≡ₚ j :: b -> moves a k b (mark_failed k) [job_req j].
Proof.
  intros P. split; cbn; try done.
  - by rewrite (fmap_Permutation job_req _ _ P).
  - by rewrite kv_settled_app.
Qed.

Lemma settled_outcome req o : kv_settled (record_outcome req o) = 1.
Proof.
  unfold record_outcome. destruct (chunks req); [done|]. by repeat case_match_goal.
Qed.

Lemma moves_completed a k j lag o row b :
  a ≡ₚ j :: b ->
  moves a k b (write_row (job_req j) lag o row
    (k_note (match lag with Some l => [Sample KV_SCHEDULE_LAG l] | None => [] end ++ record_outcome (job_req j) o)
       (mark_finished k))) [job_req j].
Proof.
  intros P. unfold write_row. destruct (k_rows _); split; cbn -[kv_settled record_outcome]; try done.
  1, 3: by rewrite (fmap_Permutation job_req _ _ P).
  all: rewrite !kv_settled_app, settled_outcome; by destruct lag.
Qed.

(** ** Lemmas: slots *)

Lemma grows_refl d d' : kd_slots d' = kd_slots d -> connections d' = connections d -> grows d d'.
Proof. intros E1 E2. split; [|done]. intros i s Ei. exists s. by rewrite E1. Qed.

Lemma grows_self d : grows d d.
Proof. by apply grows_refl. Qed.

#[local] Hint Resolve grows_self : core.

Lemma grows_trans d1 d2 d3 : grows d1 d2 -> grows d2 d3 -> grows d1 d3.
Proof.
  intros [S1 C1] [S2 C2]. split; [|congruence]. intros i s E.
  destruct (S1 _ _ E) as (s' & E' & A'). destruct (S2 _ _ E') as (s2 & E2 & A2). exists s2. auto.
Qed.

Lemma conn_ok_grows clock clock' d d' c : clock <= clock' -> grows d d' -> conn_ok clock d c -> conn_ok clock' d' c.
Proof.
  intros L [GS GC]. destruct c as [| |i r| |j lag]; cbn; try done.
  - intros (s & E & A). destruct (GS _ _ E) as (s' & E' & A'). eauto.
  - intros [R B]. rewrite GC. split; [|done]. unfold ran_at in *. destruct (scheduled j); [|done].
    destruct R as (st & ? & ->). exists st. split; [lia|done].
Qed.

Lemma awaited_complete job s : awaited s -> awaited (complete_slot job s).
Proof. unfold awaited; cbn. destruct (ks_done s); intros ->; [apply orb_true_r|done]. Qed.

Lemma slot_jobs_insert slots i s s' :
  slots !! i = Some s -> slot_jobs (<[i := s']> slots) ++ option_list (ks_job s) ≡ₚ
                         option_list (ks_job s') ++ slot_jobs slots.
Proof.
  intros E. unfold slot_jobs. rewrite list_fmap_insert. apply concat_insert. by rewrite list_lookup_fmap, E.
Qed.

(** Replacing a slot by one that keeps its connection's promise. *)
Lemma grows_insert d i s s' :
  kd_slots d !! i = Some s -> (awaited s -> awaited s') -> grows d (d <| kd_slots := <[i := s']> (kd_slots d) |>).
Proof.
  intros E A. split; [|done]. cbn. intros j sj Ej. destruct (decide (i = j)) as [<-|N].
  - assert (sj = s) as -> by congruence. exists s'. by rewrite list_lookup_insert_eq by (by eapply lookup_lt_Some).
  - exists sj. rewrite list_lookup_insert_ne by done. by split.
Qed.

(** Completing the first waiting slot hands its job over and nothing else. *)
Lemma kd_complete_spec clock d t i ws job :
  dwf clock d t -> kd_waiting d = i :: ws -> mode t = MLoop ->
  Forall (is_due clock) (option_list job) -> Forall (backs_ok (connections d)) (option_list job) ->
  let d' := kd_complete i job (d <| kd_waiting := ws |>) in
  dwf clock d' t /\ grows d d' /\ disp_jobs d' t ≡ₚ option_list job ++ disp_jobs d t /\ live d' = live d.
Proof.
  intros W EW M Fd Fb. set (d1 := d <| kd_waiting := ws |>). destruct W as [N S D B C Wt]. rewrite EW in *.
  apply NoDup_cons in N as [Ni N]. apply Forall_cons in S as [(s & Es & Ej & En) S].
  assert (kd_complete i job d1 = d1 <| kd_slots := <[i := complete_slot job s]> (kd_slots d1) |>) as ->
    by (unfold kd_complete; cbn; by rewrite Es).
  pose proof (slot_jobs_insert _ _ _ (complete_slot job s) Es) as P. rewrite Ej in P.
  cbn [option_list ks_job complete_slot] in P. rewrite app_nil_r in P.
  set (d2 := d1 <| kd_slots := _ |>).
  assert (disp_jobs d2 t ≡ₚ option_list job ++ disp_jobs d t) as PD.
  { unfold disp_jobs, handed_jobs; cbn. rewrite P. solve_Permutation. }
  assert (grows d d1) as G by (by apply grows_refl).
  pose proof (grows_insert d1 i s (complete_slot job s) Es (awaited_complete job s)) as G'.
  split_and!; [|exact (grows_trans _ _ _ G G')|exact PD|done]. clear G G'. split; try done.
  - cbn. rewrite Forall_forall in *. intros j Hj. destruct (S j Hj) as (sj & Esj & ?).
    exists sj. rewrite list_lookup_insert_ne by (by intros ->). by split.
  - unfold handed_jobs; cbn. rewrite P. unfold handed_jobs in D. rewrite Forall_app in D. rewrite !Forall_app. naive_solver.
  - rewrite PD. by apply Forall_app.
  - unfold wait_ok in *. rewrite M in *. exact Wt.
Qed.

(** A dispatcher whose jobs only went. *)
Lemma dwf_jobs clock d t d' t' :
  dwf clock d t -> kd_slots d' = kd_slots d -> kd_waiting d' = kd_waiting d -> connections d' = connections d ->
  Forall (is_due clock) (map fst (kd_returned d')) ->
  Forall (backs_ok (connections d)) (option_list (kt_pending t') ++ map fst (kd_returned d')) ->
  wait_ok clock d' t' -> dwf clock d' t'.
Proof.
  intros [N S D B C Wt] E1 E2 E3 F1 F2 W'. unfold handed_jobs, disp_jobs in *. unfold handed_jobs in *.
  rewrite Forall_app in D. rewrite !Forall_app in *.
  split; unfold handed_jobs, disp_jobs; unfold handed_jobs; rewrite ?E1, ?E2, ?E3, ?Forall_app; naive_solver.
Qed.

Lemma kd_close_spec clock d t :
  dwf clock d t -> mode t = MLoop ->
  dwf clock (kd_close d) (t <| mode := MDone |>) /\ grows d (kd_close d) /\
  disp_jobs (kd_close d) t ≡ₚ disp_jobs d t /\ live (kd_close d) = live d /\ kd_waiting (kd_close d) = [] /\
  kd_closed (kd_close d) = true.
Proof.
  intros W M. unfold kd_close. set (d0 := d <| kd_closed := true |>).
  assert (dwf clock d0 t) as W0 by (by destruct W).
  change (kd_waiting d) with (kd_waiting d0).
  assert (kd_closed d0 = true) as C0 by done.
  assert (grows d d0) as G0 by (by apply grows_refl).
  assert (disp_jobs d0 t ≡ₚ disp_jobs d t) as P0 by done.
  assert (live d0 = live d) as L0 by done. clearbody d0.
  remember (kd_waiting d0) as ws eqn:EW. symmetry in EW. revert d0 EW W0 C0 G0 P0 L0.
  induction ws as [|i ws IH]; intros d0 EW W0 C0 G0 P0 L0; cbn [foldl].
  - split_and!; try done. destruct W0. split; try done. unfold wait_ok in *. by rewrite M in *.
  - rewrite EW. cbn [tail].
    destruct (kd_complete_spec clock d0 t i ws None W0 EW M) as (W1 & G1 & P1 & L1); [done..|].
    apply IH; try done.
    + unfold kd_complete; cbn. by destruct (kd_slots d0 !! i).
    + unfold kd_complete; cbn. by destruct (kd_slots d0 !! i).
    + by eapply grows_trans.
    + by rewrite P1.
    + by rewrite L1.
Qed.

(** ** Lemmas: the dispatcher task *)

Lemma is_nonempty_spec {A} (l : list A) : is_nonempty l = true <-> l <> [].
Proof. by destruct l. Qed.

Lemma wait_ok_mono clock clock' d t : clock <= clock' -> wait_ok clock d t -> wait_ok clock' d t.
Proof. intros L. unfold wait_ok. destruct (mode t); try done. intros (A & B & C & D). split_and!; try done. lia. Qed.

Lemma dwf_mono clock clock' d t : clock <= clock' -> dwf clock d t -> dwf clock' d t.
Proof.
  intros L [N S D B C Wt]. split; try done; [|by eapply wait_ok_mono].
  eapply Forall_impl; [exact D|]. intros j. unfold is_due. destruct (scheduled j); [lia|done].
Qed.

(** The parts of a dispatcher its waits leave alone. *)
Record same_disp (d d' : KvDispatcher) : Prop := {
  sd_slots : kd_slots d' = kd_slots d;
  sd_waiting : kd_waiting d' = kd_waiting d;
  sd_returned : kd_returned d' = kd_returned d;
  sd_conns : connections d' = connections d;
  sd_live : live d' = live d;
}.

Lemma same_disp_trans d1 d2 d3 : same_disp d1 d2 -> same_disp d2 d3 -> same_disp d1 d3.
Proof. intros [] []. split; congruence. Qed.

Lemma same_disp_jobs d t d' t' :
  same_disp d d' -> kt_pending t' = kt_pending t -> disp_jobs d' t' = disp_jobs d t.
Proof. intros [A B C D E] P. unfold disp_jobs, handed_jobs. by rewrite A, C, P. Qed.

Lemma dwf_same clock d t d' t' :
  dwf clock d t -> same_disp d d' -> kt_pending t' = kt_pending t -> wait_ok clock d' t' -> dwf clock d' t'.
Proof.
  intros [N S D B C Wt] SD P W'. pose proof (same_disp_jobs _ _ _ _ SD P) as EJ. destruct SD as [A1 A2 A3 A4 A5].
  unfold handed_jobs in *. split; unfold handed_jobs; rewrite ?EJ, ?A1, ?A2, ?A3, ?A4; done.
Qed.

(** A poll leaves the dispatcher running, or waiting with its waker stored and
    nothing it waits for at hand. *)
Lemma kv_poll_wait clock d t needs until d' t' :
  mode t = MWait needs until -> wants_slot d = needs -> until <= clock + IDLE_SLEEP_MAX ->
  kv_poll clock d t = (d', t') -> same_disp d d' /\ kt_pending t' = kt_pending t /\ wait_ok clock d' t'.
Proof.
  intros M Wn U. unfold kv_poll. rewrite M. destruct (_ || _) eqn:R.
  - intros [= <- <-]. by split_and!.
  - apply orb_false_iff in R as [_ R]. destruct (until <=? clock); intros [= <- <-]; [by split_and!|].
    split_and!; [done|done|]. unfold wait_ok. rewrite M; cbn. split_and!; try done.
    intros -> NE. cbn in R. by apply is_nonempty_spec in NE as E; rewrite E in R.
Qed.

Lemma kv_poll_spec clock d t d' t' :
  dwf clock d t -> kv_poll clock d t = (d', t') ->
  dwf clock d' t' /\ same_disp d d' /\ kt_pending t' = kt_pending t.
Proof.
  intros W E. assert (same_disp d d' /\ kt_pending t' = kt_pending t /\ wait_ok clock d' t') as (A & B & C).
  { pose proof (dw_wait _ _ _ W) as Wt. unfold wait_ok in Wt. destruct (mode t) as [|u|needs u|] eqn:M.
    - unfold kv_poll in E. rewrite M in E. injection E as <- <-. unfold wait_ok. by rewrite M.
    - unfold kv_poll in E. rewrite M in E. destruct (u <=? clock); injection E as <- <-; split_and!; try done.
      unfold wait_ok. by rewrite M.
    - destruct Wt as (Wn & U & _). by eapply kv_poll_wait.
    - unfold kv_poll in E. rewrite M in E. injection E as <- <-. unfold wait_ok. by rewrite M. }
  split_and!; [by eapply dwf_same|done|done].
Qed.

Lemma begin_wait_spec now behind has d t d' t' :
  begin_wait now behind has d t = (d', t') ->
  same_disp d d' /\ kt_pending t' = kt_pending t /\ wait_ok now d' t'.
Proof.
  unfold begin_wait. set (needs := _ && _). set (nap := match due_in now t with Some _ => _ | None => _ end).
  intros E. eapply kv_poll_wait in E as (A & B & C); [|done|done|].
  - split_and!; [|done|done]. eapply same_disp_trans; [|exact A]. done.
  - assert (nap <= IDLE_SLEEP_MAX); [|lia]. unfold nap. assert (START_POLL <= IDLE_SLEEP_MAX) by done.
    repeat case_match_goal; lia.
Qed.

(** What an iteration did to a dispatcher: the jobs [a] became [b]. *)
Record disp_step (clock : Z) (d : KvDispatcher) (d' : KvDispatcher) (t' : KvTask) : Prop := {
  ds_wf : dwf clock d' t';
  ds_grows : grows d d';
  ds_live : live d' = live d;
}.

Lemma same_grows d d' : same_disp d d' -> grows d d'.
Proof. intros []. by apply grows_refl. Qed.

Lemma hand_or_wait_spec now behind d t d' t' :
  dwf now d t -> mode t = MLoop -> hand_or_wait now behind d t = (d', t') ->
  disp_step now d d' t' /\ disp_jobs d' t' ≡ₚ disp_jobs d t.
Proof.
  intros W M E. assert (forall has, begin_wait now behind has d t = (d', t') ->
    disp_step now d d' t' /\ disp_jobs d' t' ≡ₚ disp_jobs d t) as BW.
  { intros has EB. apply begin_wait_spec in EB as (A & B & C). split.
    - split; [by eapply dwf_same|by apply same_grows|by destruct A].
    - by rewrite (same_disp_jobs _ _ _ _ A B). }
  unfold hand_or_wait in E. destruct (kd_waiting d) as [|i ws] eqn:EW; [by eapply BW|].
  destruct (due_in now t) as [n|] eqn:ED; [|by eapply BW].
  destruct n; [|by eapply BW..]. injection E as <- <-. unfold due_in in ED.
  destruct (kt_pending t) as [job|] eqn:EP; [|done]. injection ED as ED.
  set (t0 := t <| kt_pending := None |>).
  pose proof (dw_backs _ _ _ W) as FB. unfold disp_jobs in FB. rewrite EP in FB.
  apply Forall_cons in FB as [Fj FB].
  assert (dwf now d t0) as W0.
  { destruct W. split; try done. }
  destruct (kd_complete_spec now d t0 i ws (Some job) W0 EW M) as (W1 & G1 & P1 & L1).
  - constructor; [|done]. unfold is_due. destruct (scheduled job); [ulia|done].
  - by constructor.
  - split; [by split|]. rewrite P1. unfold disp_jobs. by rewrite EP.
Qed.

Lemma fail_front_spec failures returned k r' k' :
  fail_front failures returned k = (r', k') ->
  exists gone, moves (map fst returned) k (map fst r') k' gone /\ exists n, r' = drop n returned.
Proof.
  revert k. induction returned as [|[job at_] rest IH]; intros k; cbn [fail_front].
  - intros [= <- <-]. exists []. split; [by apply moves_refl|by exists 0%nat].
  - destruct (at_ <? failures).
    + intros E. apply IH in E as (gone & MV & n & EN). exists ([job_req job] ++ gone). split; [|by exists (S n)].
      eapply moves_trans; [|exact MV]. by apply moves_failed.
    + intros [= <- <-]. exists []. split; [by apply moves_refl|by exists 0%nat].
Qed.

(** Jobs that stay put beside those that move. *)
Lemma moves_frame a k b k' gone c d :
  moves a k b k' gone -> c ≡ₚ d -> moves (a ++ c) k (b ++ d) k' gone.
Proof.
  intros [P F C R] E. split; try done. rewrite !map_app, (fmap_Permutation job_req _ _ E).
  transitivity ((map job_req a ++ k_requests k) ++ map job_req d); [solve_Permutation|]. rewrite P. solve_Permutation.
Qed.

Lemma moves_proper a a' k b b' k' gone : a ≡ₚ a' -> b ≡ₚ b' -> moves a' k b' k' gone -> moves a k b k' gone.
Proof.
  intros Ea Eb [P F C R]. split; try done.
  by rewrite (fmap_Permutation job_req _ _ Ea), (fmap_Permutation job_req _ _ Eb).
Qed.

Lemma return_due_spec now clock d t d' t' :
  dwf clock d t -> mode t = MLoop -> now <= clock -> return_due now d t = (d', t') ->
  dwf clock d' t' /\ mode t' = MLoop /\ kd_waiting d' = kd_waiting d /\ grows d d' /\ live d' = live d /\
  disp_jobs d' t' ≡ₚ disp_jobs d t.
Proof.
  intros W M L. unfold return_due. destruct (kt_pending t) as [job|] eqn:EP; [|by intros [= <- <-]].
  destruct (_ && _) eqn:B; [|by intros [= <- <-]]. apply andb_true_iff in B as [_ B]. intros [= <- <-].
  pose proof W as [N S D F C Wt]. unfold disp_jobs, handed_jobs in *. rewrite EP in F.
  split_and!; try done.
  - eapply dwf_jobs; [exact W|done..| | |].
    + cbn. rewrite map_app. apply Forall_app in D as [D _]. apply Forall_app. split; [done|].
      constructor; [|done]. unfold is_due. cbn. destruct (scheduled job); [lia|done].
    + cbn. rewrite map_app. rewrite !Forall_app in F. cbn. rewrite Forall_app. naive_solver.
    + unfold wait_ok in *. cbn. by rewrite M in *.
  - by apply grows_refl.
  - cbn. rewrite EP, map_app. solve_Permutation.
Qed.

Lemma fail_returned_spec clock d t k d' k' :
  dwf clock d t -> mode t = MLoop -> fail_returned d k = (d', k') ->
  dwf clock d' t /\ kd_waiting d' = kd_waiting d /\ grows d d' /\ live d' = live d /\
  exists gone, moves (disp_jobs d t) k (disp_jobs d' t) k' gone.
Proof.
  intros W M. unfold fail_returned.
  destruct (live d =? 0); [|intros [= <- <-]; split_and!; try done; exists []; by apply moves_refl].
  destruct (fail_front _ _ _) as [r k1] eqn:E. intros [= <- <-].
  apply fail_front_spec in E as (gone & MV & n & ->). split_and!; try done.
  - pose proof W as [N S D F C Wt]. unfold disp_jobs, handed_jobs in *.
    rewrite !Forall_app in F. apply Forall_app in D as [D _].
    assert (forall P, Forall P (map fst (kd_returned d)) -> Forall P (map fst (drop n (kd_returned d)))) as SUB.
    { intros P FP. rewrite <- (take_drop n (kd_returned d)), map_app in FP. by apply Forall_app in FP as [_ FP]. }
    eapply dwf_jobs; [exact W|done..| | |]; cbn; [by apply SUB| |].
    + apply Forall_app. split; [apply F|]. apply SUB. apply F.
    + unfold wait_ok in *. by rewrite M in *.
  - by apply grows_refl.
  - exists gone. unfold disp_jobs, handed_jobs; cbn.
    eapply moves_proper; [| |exact (moves_frame _ _ _ _ _ (option_list (kt_pending t) ++ slot_jobs (kd_slots d)) _ MV (reflexivity _))];
      solve_Permutation.
Qed.

Lemma claim_spec k k' c :
  claim k = (k', c) ->
  map job_req [] ++ k_requests k = match c with ClaimRequest req => [req] | _ => [] end ++ k_requests k' /\
  k_finished k' = k_finished k /\ k_log k' = k_log k /\
  (k_sent k' = k_sent k /\ k_stopped k' = k_stopped k /\ k_tx_open k' = k_tx_open k).
Proof.
  unfold claim. destruct (k_requests k) as [|req rest] eqn:E.
  - destruct (k_tx_open k) eqn:T; intros [= <- <-]; by rewrite E.
  - by intros [= <- <-].
Qed.

Lemma claim_or_wait_spec start now1 clock d t k d' t' k' :
  dwf clock d t -> mode t = MLoop -> now1 <= clock ->
  claim_or_wait start now1 clock d t k = (d', t', k') ->
  disp_step clock d d' t' /\ exists gone, moves (disp_jobs d t) k (disp_jobs d' t') k' gone.
Proof.
  intros W M L. unfold claim_or_wait.
  destruct (return_due now1 d t) as [d1 t1] eqn:E1. destruct (fail_returned d1 k) as [d2 k2] eqn:E2.
  destruct (return_due_spec _ clock _ _ _ _ W M L E1) as (W1 & M1 & A1 & G1 & L1 & P1).
  destruct (fail_returned_spec clock _ _ _ _ _ W1 M1 E2) as (W2 & A2 & G2 & L2 & gone & MV).
  assert (grows d d2) as G12 by (by eapply grows_trans). assert (live d2 = live d) as L12 by congruence.
  apply (moves_proper (disp_jobs d t) _ _ (disp_jobs d2 t1) (disp_jobs d2 t1)) in MV; [|by rewrite P1|done].
  clear P1 G1 G2 L1 L2 A1 A2 W1 E1 E2.
  assert (forall d3 t3 behind k3, hand_or_wait clock behind d2 t1 = (d3, t3) -> moves [] k2 [] k3 [] ->
    disp_step clock d d3 t3 /\ exists gone, moves (disp_jobs d t) k (disp_jobs d3 t3) k3 gone) as HW.
  { intros d3 t3 behind k3 E3 MK. destruct (hand_or_wait_spec _ _ _ _ _ _ W2 M1 E3) as [[W3 G3 L3] P3]. split.
    - split; [done|by eapply grows_trans|congruence].
    - exists (gone ++ []). eapply moves_trans; [exact MV|]. exact (moves_frame _ _ _ _ _ _ _ MK (symmetry P3)). }
  destruct (_ && _ && _) eqn:B.
  2:{ destruct (hand_or_wait _ _ _ _) as [d3 t3] eqn:E3. intros [= <- <- <-]. eapply HW; [exact E3|by apply moves_refl]. }
  apply andb_true_iff in B as [B _]. apply andb_true_iff in B as [_ B]. apply bool_decide_eq_true_1 in B.
  destruct (claim k2) as [k3 c] eqn:E3. pose proof (claim_spec _ _ _ E3) as (PC & FC & LC & RC).
  destruct c as [req| |].
  - intros [= <- <- <-]. split; [split; [|done|done]|].
    + pose proof W2 as [N S D F C Wt]. unfold handed_jobs, disp_jobs, handed_jobs in D, F.
      rewrite Forall_app in D. rewrite !Forall_app in F. eapply dwf_jobs; [exact W2|done..|apply D| |].
      * cbn. constructor; [unfold backs_ok; cbn; lia|]. apply F.
      * unfold wait_ok in *. cbn. by rewrite M1 in *.
    + exists (gone ++ []). eapply moves_trans; [exact MV|]. unfold disp_jobs. rewrite B. split; [|..].
      * cbn in *. rewrite PC. solve_Permutation.
      * intros R. rewrite FC. cbn. rewrite Z.add_0_r. by rewrite wrap64_small.
      * rewrite LC. cbn. lia.
      * done.
  - destruct (hand_or_wait _ _ _ _) as [d4 t4] eqn:E4. intros [= <- <- <-].
    unfold claim in E3. destruct (k_requests k2); [|done]. injection E3 as <- _.
    eapply HW; [exact E4|by apply moves_still].
  - intros [= <- <- <-]. unfold claim in E3. destruct (k_requests k2); [|done]. injection E3 as <- _.
    split; [|by exists gone]. split; [|done|done]. eapply dwf_same; [exact W2|done..|].
    pose proof (dw_wait _ _ _ W2) as Wt. unfold wait_ok in *. cbn. by rewrite M1 in *.
Qed.

Lemma kv_iterate_spec stop now1 clock d t k d' t' k' :
  dwf clock d t -> mode t = MLoop -> now1 <= clock ->
  kv_iterate stop now1 clock d t k = (d', t', k') ->
  disp_step clock d d' t' /\ exists gone, moves (disp_jobs d t) k (disp_jobs d' t') k' gone.
Proof.
  intros W M L. unfold kv_iterate. destruct stop.
  { intros [= <- <- <-]. destruct (kd_close_spec clock d t W M) as (W' & G & P & Lv & _). split; [by split|].
    exists []. apply moves_refl. by rewrite <- P. }
  destruct (k_start k) as [start|].
  2:{ intros [= <- <- <-]. split; [|exists []; by apply moves_refl]. split; [|by apply grows_refl|done].
      eapply dwf_same; [exact W|done..|]. pose proof (dw_wait _ _ _ W) as Wt. unfold wait_ok in *. by rewrite M in Wt. }
  destruct (kd_waiting d) as [|i ws] eqn:EW; [by apply claim_or_wait_spec|].
  destruct (kd_returned d) as [|[job at_] rest] eqn:ER; [by apply claim_or_wait_spec|].
  intros [= <- <- <-]. set (d0 := d <| kd_returned := rest |>).
  assert (dwf clock d0 t /\ is_due clock job /\ backs_ok (connections d) job) as (W0 & Dj & Bj).
  { pose proof W as [N S D F C Wt]. unfold handed_jobs, disp_jobs, handed_jobs in D, F. rewrite ER in D, F.
    cbn in D, F. apply Forall_cons in D as [Dj D]. rewrite Forall_app in D, F. destruct F as [F1 F2].
    apply Forall_cons in F2 as [Bj F2]. apply Forall_app in F2 as [F2 _]. split_and!; try done.
    eapply dwf_jobs; [exact W|done..|apply D|by apply Forall_app|]. unfold wait_ok in *. by rewrite M in *. }
  destruct (kd_complete_spec clock d0 t i ws (Some job) W0 EW M) as (W1 & G1 & P1 & L1); [by constructor..|].
  split; [split; [exact W1| |exact L1]|].
  - eapply grows_trans; [|exact G1]. by apply grows_refl.
  - exists []. apply moves_refl. etransitivity; [|symmetry; exact P1].
    unfold disp_jobs, handed_jobs; cbn. rewrite ER; cbn. solve_Permutation.
Qed.

(** ** Lemmas: a connection *)

Definition inside (c : KConn) : Z := match c with KOut => 0 | _ => 1 end.

(** What a connection's step did to its dispatcher. *)
Record conn_step (clock : Z) (t : KvTask) (d : KvDispatcher) (c : KConn) (k : KvShared)
    (d' : KvDispatcher) (c' : KConn) (k' : KvShared) : Prop := {
  cs_wf : dwf clock d' t;
  cs_grows : grows d d';
  cs_conn : conn_ok clock d' c';
  cs_live : live d' - inside c' = live d - inside c;
  cs_moves : exists gone, moves (disp_jobs d t ++ conn_jobs c) k (disp_jobs d' t ++ conn_jobs c') k' gone;
}.

Lemma kd_wake_same d : same_disp d (kd_wake d).
Proof. unfold kd_wake. by destruct (kd_idle d). Qed.

Lemma kd_wake_wait clock d t : wait_ok clock d t -> wait_ok clock (kd_wake d) t.
Proof.
  unfold wait_ok, kd_wake. destruct (kd_idle d) eqn:EI; [|by rewrite EI]. intros W. destruct (mode t); try exact W.
  destruct W as (A & B & C & D). by split_and!.
Qed.

Lemma kd_wake_woken d : kd_idle d || kd_woken d = true -> kd_woken (kd_wake d) = true.
Proof. unfold kd_wake. by destruct (kd_idle d) eqn:E. Qed.

Lemma kd_give_back_spec clock d t job why d' kept :
  dwf clock d t -> is_due clock job -> backs_ok (connections d) job -> kd_give_back job why d = (d', kept) ->
  dwf clock d' t /\ grows d d' /\ live d' = live d /\
  map job_req (disp_jobs d' t) ≡ₚ (if kept then [job_req job] else []) ++ map job_req (disp_jobs d t).
Proof.
  intros W Dj Bj. unfold kd_give_back. set (o := match why with Unsent => _ | LookupSent => _ end).
  assert (forall job', o = Some job' -> is_due clock job' /\ backs_ok (connections d) job' /\ job_req job' = job_req job) as OK.
  { intros job'. unfold o, backs_ok in *. pose proof (dw_conns _ _ _ W). destruct why.
    - destruct (_ <=? _) eqn:L; [done|]. intros [= <-]. split_and!; cbn; try done.
      all: rewrite Z.mod_small by lia; lia.
    - destruct (retried job); [done|]. by intros [= <-]. }
  destruct o as [job'|]; [|by intros [= <- <-]]. destruct (OK job' eq_refl) as (D' & B' & R').
  intros [= <- <-]. set (d1 := d <| kd_returned := _ |>). pose proof W as [N S D F C Wt].
  unfold disp_jobs, handed_jobs in D, F. rewrite Forall_app in D. rewrite !Forall_app in F.
  assert (dwf clock d1 t) as W1.
  { eapply dwf_jobs; [exact W|done..| | |]; cbn; rewrite ?map_app, ?Forall_app; cbn; [|naive_solver|].
    - split; [apply D|by constructor].
    - unfold wait_ok in *. by destruct (mode t). }
  assert (same_disp d1 (kd_wake d1)) as SW by apply kd_wake_same. split_and!.
  - eapply dwf_same; [exact W1|exact SW|done|]. by apply kd_wake_wait, dw_wait.
  - eapply grows_trans; [|by apply same_grows]. by apply grows_refl.
  - by destruct SW.
  - rewrite (same_disp_jobs _ t _ t SW eq_refl). unfold disp_jobs, handed_jobs; cbn. rewrite !map_app. cbn.
    rewrite R'. solve_Permutation.
Qed.

Lemma dwf_live clock d t n : dwf clock d t -> dwf clock (d <| live := n |>) t.
Proof. intros [N S D F C Wt]. by split. Qed.

(** Leaving the replay loop. *)
Lemma leave_spec clock t d c k d1 k1 gone :
  dwf clock d1 t -> grows d d1 -> live d1 - 1 = live d - inside c ->
  moves (disp_jobs d t ++ conn_jobs c) k (disp_jobs d1 t) k1 gone ->
  conn_step clock t d c k (d1 <| live := live d1 - 1 |>) KOut k1.
Proof.
  intros W G L M. split; try done.
  - by apply dwf_live.
  - eapply grows_trans; [exact G|]. by apply grows_refl.
  - cbn. lia.
  - exists gone. cbn [conn_jobs]. by rewrite app_nil_r.
Qed.

Lemma no_job_spec clock t d c k stop ran d1 d2 c2 gone :
  dwf clock d1 t -> grows d d1 -> live d1 - 1 = live d - inside c ->
  moves (disp_jobs d t ++ conn_jobs c) k (disp_jobs d1 t) k gone ->
  kv_no_job stop clock ran d1 = (d2, c2) -> conn_step clock t d c k d2 c2 k.
Proof.
  intros W G L M. unfold kv_no_job. destruct stop; intros [= <- <-]; [by eapply leave_spec|].
  split; try done. exists gone. cbn [conn_jobs]. by rewrite app_nil_r.
Qed.

Lemma fail_noted clock d t : dwf clock d t ->
  dwf clock (note_connect_failed d) t /\ grows d (note_connect_failed d).
Proof.
  intros [N S D F C Wt]. split; [|by apply grows_refl]. by split.
Qed.

Lemma kv_top_spec clock t d k stop alive stop' ran d' c' :
  dwf clock d t -> kv_top stop alive stop' clock ran d = (d', c') -> conn_step clock t d (KTop ran) k d' c' k.
Proof.
  intros W. unfold kv_top.
  assert (moves (disp_jobs d t ++ conn_jobs (KTop ran)) k (disp_jobs d t) k []) as M0
    by (apply moves_refl; cbn; by rewrite app_nil_r).
  destruct stop; [intros [= <- <-]; apply (leave_spec clock t d _ k d k [] W (grows_self d)); [done|exact M0]|].
  destruct alive; cbn [negb].
  2:{ destruct (fail_noted _ _ _ W) as [W1 G1].
      destruct ran; intros [= <- <-].
      - apply (leave_spec clock t d _ k d k [] W (grows_self d)); [done|exact M0].
      - apply (leave_spec clock t d _ k (note_connect_failed d) k [] W1 G1); [done|exact M0]. }
  destruct (kd_closed d); [by eapply no_job_spec|].
  set (i := length (kd_slots d)). set (s := {| ks_job := None; ks_done := false; ks_waker := true; ks_woken := false |}).
  set (d1 := d <| kd_slots := _ |> <| kd_waiting := _ |>).
  pose proof W as [N S D F C Wt].
  assert (slot_jobs (kd_slots d1) = slot_jobs (kd_slots d)) as EJ.
  { unfold slot_jobs; cbn. rewrite map_app, concat_app. cbn. by rewrite app_nil_r. }
  assert (forall j x, kd_slots d !! j = Some x -> kd_slots d1 !! j = Some x) as EL
    by (intros j x Ej; cbn; by apply lookup_app_l_Some).
  assert (grows d d1) as G1 by (split; [intros j x Ej; exists x; split; [by apply EL|done]|done]).
  assert (forall d2, same_disp d1 d2 -> wait_ok clock d2 t -> conn_step clock t d (KTop ran) k d2 (KWaiting i ran) k) as FIN.
  { intros d2 SD W2. pose proof (same_disp_jobs _ t _ t SD eq_refl) as PJ.
    assert (disp_jobs d1 t = disp_jobs d t) as PD by (unfold disp_jobs, handed_jobs; by rewrite EJ).
    pose proof SD as [A1 A2 A3 A4 A5]. split.
    - split; try done.
      + rewrite A2. cbn. apply NoDup_app. split_and!; [done| |apply NoDup_singleton].
        intros x Hx [= ->]%list_elem_of_singleton. rewrite Forall_forall in S. destruct (S _ Hx) as (y & Ey & _).
        apply lookup_lt_Some in Ey. lia.
      + rewrite A1, A2. cbn. apply Forall_app. split.
        * eapply Forall_impl; [exact S|]. intros x (y & Ey & ?). exists y. split; [by apply lookup_app_l_Some|done].
        * constructor; [|done]. exists s. split; [by apply list_lookup_middle|done].
      + unfold handed_jobs. rewrite A1, A3, EJ. exact D.
      + by rewrite PJ, PD, A4.
      + by rewrite A4.
    - eapply grows_trans; [exact G1|by apply same_grows].
    - cbn. exists s. rewrite A1. split; [by apply list_lookup_middle|done].
    - cbn. rewrite A5. cbn. lia.
    - exists []. apply moves_refl. by rewrite PJ, PD. }
  change (wants_slot d1) with (wants_slot d).
  destruct (wants_slot d) eqn:EW; intros [= <- <-]; apply FIN.
  - apply kd_wake_same.
  - unfold wait_ok in Wt |- *. rewrite EW in Wt. destruct (mode t) as [|u|needs u|]; try done.
    destruct Wt as (<- & U & IW & _). unfold kd_wake.
    destruct (kd_idle d1) eqn:EI; cbn in EI |- *; rewrite EW; split_and!; try done; intros; by rewrite EI in IW.
  - done.
  - unfold wait_ok in Wt |- *. rewrite EW in Wt. destruct (mode t) as [|u|needs u|]; try done.
    destruct Wt as (<- & U & IW & _). cbn. by split_and!.
Qed.

(** A connection hands its job back and leaves. *)
Lemma hand_back_spec clock t d c k d1 job why d2 kept d3 c3 :
  dwf clock d1 t -> grows d d1 -> live d1 = live d -> inside c = 1 ->
  disp_jobs d t ++ conn_jobs c ≡ₚ job :: disp_jobs d1 t ->
  is_due clock job -> backs_ok (connections d1) job ->
  kd_give_back job why d1 = (d2, kept) -> kv_leave d2 = (d3, c3) ->
  conn_step clock t d c k d3 c3 (if kept then k else mark_failed k).
Proof.
  intros W G L In P D B E [= <- <-]. destruct (kd_give_back_spec _ _ _ _ _ _ _ W D B E) as (W2 & G2 & L2 & P2).
  assert (exists gone, moves (disp_jobs d t ++ conn_jobs c) k (disp_jobs d2 t) (if kept then k else mark_failed k) gone)
    as [gone M].
  { destruct kept.
    - exists []. destruct (moves_refl (disp_jobs d t ++ conn_jobs c) k _ P) as [_ F C R]. split; try done.
      rewrite (fmap_Permutation job_req _ _ P), P2. done.
    - exists [job_req job]. destruct (moves_failed _ k _ _ P) as [J F C R]. split; try done. rewrite J, P2. done. }
  eapply leave_spec; [exact W2|by eapply grows_trans|rewrite L2, L; lia|exact M].
Qed.

(** Rewriting slot [i] with [s'], which keeps its connection's promise. *)
Lemma set_slot_spec clock d t i s s' :
  dwf clock d t -> kd_slots d !! i = Some s -> (awaited s -> awaited s') -> (ks_done s = false -> ks_job s' = ks_job s /\ ks_done s' = false) ->
  (ks_job s' = ks_job s \/ ks_job s' = None) ->
  let d' := d <| kd_slots := <[i := s']> (kd_slots d) |> in
  dwf clock d' t /\ grows d d' /\ disp_jobs d' t ++ option_list (ks_job s) ≡ₚ option_list (ks_job s') ++ disp_jobs d t.
Proof.
  intros W Es A ND J d'. pose proof W as [N S D F C Wt].
  pose proof (slot_jobs_insert _ _ _ s' Es) as P.
  assert (disp_jobs d' t ++ option_list (ks_job s) ≡ₚ option_list (ks_job s') ++ disp_jobs d t) as PD.
  { unfold disp_jobs, handed_jobs, d'; cbn. rewrite <- !app_assoc, P. solve_Permutation. }
  split_and!; [|exact (grows_insert d i s s' Es A)|exact PD].
  assert (forall Q, Forall Q (slot_jobs (kd_slots d)) -> Forall Q (slot_jobs (kd_slots d'))) as SUB.
  { intros Q FQ. unfold d'; cbn. assert (Forall Q (slot_jobs (<[i:=s']> (kd_slots d)) ++ option_list (ks_job s))) as H.
    - rewrite P. apply Forall_app. split; [|done]. destruct J as [->| ->]; [|done].
      unfold slot_jobs in FQ. apply (Forall_concat Q) in FQ. eapply (Forall_lookup_1 _ _ i) in FQ; [exact FQ|].
      by rewrite list_lookup_fmap, Es.
    - by apply Forall_app in H as [H _]. }
  split; try done.
  - cbn. rewrite Forall_forall in *. intros j Hj. destruct (S j Hj) as (x & Ex & Jx & Dx).
    destruct (decide (i = j)) as [<-|NE].
    + assert (x = s) as -> by congruence. destruct (ND Dx) as [J' D']. exists s'.
      rewrite list_lookup_insert_eq by (by eapply lookup_lt_Some). split_and!; [done|congruence|done].
    + exists x. rewrite list_lookup_insert_ne by done. done.
  - unfold handed_jobs in *. rewrite Forall_app in *. split; [apply D|]. apply SUB, D.
  - unfold disp_jobs, handed_jobs in *. rewrite !Forall_app in *. split_and!; try apply F. apply SUB, F.
Qed.

Lemma kv_slot_poll_spec clock t d k stop alive i ran d' c' k' :
  dwf clock d t -> kv_slot_poll stop alive clock i ran d k = Some (d', c', k') ->
  conn_step clock t d (KWaiting i ran) k d' c' k'.
Proof.
  intros W. unfold kv_slot_poll. destruct (kd_slots d !! i) as [s|] eqn:Es; [|done]. cbn [mbind option_bind].
  destruct (ks_done s) eqn:ED; cbn [negb].
  2:{ set (s' := {| ks_job := ks_job s; ks_done := false; ks_waker := true; ks_woken := false |}).
      intros [= <- <- <-]. destruct (set_slot_spec clock d t i s s' W Es) as (W' & G & P); [done|done|by left|].
      split; try done.
      - cbn. exists s'. by rewrite list_lookup_insert_eq by (by eapply lookup_lt_Some).
      - exists []. apply moves_refl. cbn. rewrite !app_nil_r.
        apply (Permutation_app_inv_r (option_list (ks_job s))). rewrite P. apply Permutation_app_comm. }
  set (s' := {| ks_job := None; ks_done := true; ks_waker := ks_waker s; ks_woken := ks_woken s |}).
  set (d1 := d <| kd_slots := <[i := s']> (kd_slots d) |>).
  destruct (set_slot_spec clock d t i s s' W Es) as (W1 & G1 & P1);
    [unfold awaited; by rewrite ED|by rewrite ED|by right|]. fold d1 in W1, G1, P1. cbn in P1.
  destruct (ks_job s) as [job|] eqn:EJ; cbn in P1.
  2:{ rewrite app_nil_r in P1. destruct (kv_no_job _ _ _ _) as [d2 c2] eqn:E2. intros [= <- <- <-].
      eapply no_job_spec; [exact W1|exact G1|done| |exact E2]. apply moves_refl. cbn. by rewrite app_nil_r, P1. }
  assert (is_due clock job /\ backs_ok (connections d) job) as [Dj Bj].
  { pose proof W as [N S D F C Wt]. unfold handed_jobs in D. rewrite Forall_app in D. destruct D as [_ D].
    unfold disp_jobs, handed_jobs in F. rewrite !Forall_app in F. destruct F as (_ & _ & F).
    assert (map (fun s => option_list (ks_job s)) (kd_slots d) !! i = Some [job]) as El by (by rewrite list_lookup_fmap, Es; cbn; rewrite EJ).
    unfold slot_jobs in D, F. apply (Forall_concat (is_due clock)) in D. apply (Forall_concat (backs_ok (connections d))) in F.
    pose proof (Forall_lookup_1 _ _ _ _ D El) as D1. pose proof (Forall_lookup_1 _ _ _ _ F El) as F1.
    apply Forall_cons in D1 as [? _]. apply Forall_cons in F1 as [? _]. done. }
  destruct alive; cbn [negb].
  - intros [= <- <- <-]. split; try done.
    + cbn. split; [|done]. unfold ran_at, is_due in *. destruct (scheduled job) as [due|]; [|done].
      exists clock. split; [lia|]. f_equal. ulia.
    + exists []. apply moves_refl. cbn. rewrite app_nil_r, <- P1. done.
  - destruct (kd_give_back job Unsent d1) as [d2 kept] eqn:EG. destruct (kv_leave d2) as [d3 c3] eqn:EL.
    intros [= <- <- <-]. eapply hand_back_spec; [exact W1|exact G1|done|done| |exact Dj|exact Bj|exact EG|exact EL].
    cbn. rewrite app_nil_r, <- P1. symmetry. apply Permutation_cons_append.
Qed.

Lemma kv_end_spec clock t d k e running job lag d' c' k' :
  dwf clock d t -> conn_ok clock d (KRunning job lag) -> kv_end e running job lag d k = (d', c', k') ->
  conn_step clock t d (KRunning job lag) k d' c' k'.
Proof.
  intros W [Rj Bj]. assert (disp_jobs d t ++ conn_jobs (KRunning job lag) ≡ₚ job :: disp_jobs d t) as P
    by (symmetry; apply Permutation_cons_append).
  assert (is_due clock job) as Dj.
  { unfold is_due, ran_at in *. destruct (scheduled job); [|done]. destruct Rj as (st & ? & _). lia. }
  destruct e as [o|[r| |]|]; cbn [kv_end].
  - intros [= <- <- <-]. split; try done. exists [job_req job]. cbn [conn_jobs]. rewrite app_nil_r.
    by apply moves_completed.
  - intros [= <- <- <-]. eapply leave_spec; [exact W|done|done|]. by apply moves_failed.
  - intros [= <- <- <-]. split; try done. exists [job_req job]. cbn [conn_jobs]. rewrite app_nil_r. by apply moves_failed.
  - destruct (kd_give_back job LookupSent d) as [d2 kept] eqn:EG. destruct (kv_leave d2) as [d3 c3] eqn:EL.
    intros [= <- <- <-]. by eapply hand_back_spec.
  - intros [= <- <- <-]. split; try done. exists []. by apply moves_refl.
Qed.

(** ** Invariant of the system *)

Definition sum_inside (cs : list KConn) : Z := fold_right (fun c n => inside c + n) 0 cs.

Record worker_ok (clock : Z) (W : KvWorker) : Prop := {
  wo_disp : dwf clock (kw_d W) (kw_t W);
  wo_conns : Forall (conn_ok clock (kw_d W)) (kw_conns W);
  wo_live : live (kw_d W) = sum_inside (kw_conns W);
}.

(** [reqs] are the requests of the trace. *)
Record kinv (reqs : list Request) (S : KvSys) : Prop := {
  ki_workers : Forall (worker_ok (ky_clock S)) (ky_workers S);
  ki_settled : exists settled,
    reqs ≡ₚ settled ++ outstanding S ++ trace_requests (kt_rest (ky_reader S)) /\
    k_finished (ky_k S) = wrap64 (Z.of_nat (length settled)) /\
    kv_settled (k_log (ky_k S)) = Z.of_nat (length settled) /\
    k_sent (ky_k S) = wrap64 (Z.of_nat (length settled + length (outstanding S)));
  ki_stopped : k_stopped (ky_k S) = true -> kt_rest (ky_reader S) = [] /\ kt_sending (ky_reader S) = None;
}.

Lemma worker_ok_mono clock clock' W : clock <= clock' -> worker_ok clock W -> worker_ok clock' W.
Proof.
  intros L [D C V]. split; [by eapply dwf_mono| |done].
  eapply Forall_impl; [exact C|]. intros c. by apply conn_ok_grows.
Qed.

Lemma sum_inside_insert cs i c c' :
  cs !! i = Some c -> sum_inside (<[i := c']> cs) + inside c = sum_inside cs + inside c'.
Proof.
  revert i. induction cs as [|x cs IH]; intros [|i] E; [done|done| |].
  - cbn in E. injection E as ->. cbn. lia.
  - cbn in E. specialize (IH _ E). change (<[S i:=c']> (x :: cs)) with (x :: <[i:=c']> cs).
    unfold sum_inside in *. cbn [fold_right]. lia.
Qed.

(** A worker that moved jobs keeps the invariant. *)
Lemma kv_set_inv reqs S w W d t cs k clock gone :
  kinv reqs S -> ky_workers S !! w = Some W -> ky_clock S <= clock ->
  worker_ok clock {| kw_d := d; kw_t := t; kw_conns := cs |} ->
  moves (worker_jobs W) (ky_k S) (worker_jobs {| kw_d := d; kw_t := t; kw_conns := cs |}) k gone ->
  kinv reqs (kv_set S w d t cs k clock).
Proof.
  intros [WS (settled & P & F & C & N) St] E L O [PJ FM CM (R1 & R2 & R3)].
  set (W' := {| kw_d := d; kw_t := t; kw_conns := cs |}) in *.
  assert (map worker_jobs (ky_workers S) !! w = Some (worker_jobs W)) as EJ by (by rewrite list_lookup_fmap, E).
  pose proof (concat_insert _ _ _ (worker_jobs W') EJ) as PC.
  assert (outstanding S ≡ₚ gone ++ outstanding (kv_set S w d t cs k clock)) as PO.
  { unfold outstanding, kv_set; cbn. fold W'. rewrite list_fmap_insert.
    apply (Permutation_app_inv_r (map job_req (worker_jobs W))).
    apply (fmap_Permutation job_req) in PC. rewrite !map_app in PC.
    transitivity (option_list (kt_sending (ky_reader S)) ++ (map job_req (worker_jobs W) ++ k_requests (ky_k S)) ++
                  map job_req (concat (map worker_jobs (ky_workers S)))); [solve_Permutation|].
    rewrite PJ.
    transitivity (gone ++ option_list (kt_sending (ky_reader S)) ++ k_requests k ++
                  (map job_req (worker_jobs W') ++ map job_req (concat (map worker_jobs (ky_workers S)))));
      [solve_Permutation|]. rewrite <- PC. solve_Permutation. }
  split; cbn [kv_set ky_workers ky_clock ky_k ky_reader].
  - apply Forall_insert; [|exact O]. eapply Forall_impl; [exact WS|]. intros x. by apply worker_ok_mono.
  - exists (settled ++ gone). split_and!.
    + rewrite P, PO. solve_Permutation.
    + rewrite FM by (rewrite F; apply wrap64_range). rewrite F, wrap64_add_l, length_app. f_equal. lia.
    + rewrite CM, C, length_app. lia.
    + rewrite R1, N. apply Permutation_length in PO. rewrite length_app in PO. rewrite length_app. f_equal. lia.
  - rewrite R2. exact St.
Qed.

(** A step of connection [i]. *)
Lemma conn_step_inv reqs S w W i c d c' k clock :
  kinv reqs S -> ky_workers S !! w = Some W -> kw_conns W !! i = Some c -> ky_clock S <= clock ->
  (worker_ok clock W -> conn_step clock (kw_t W) (kw_d W) c (ky_k S) d c' k) ->
  kinv reqs (kv_set S w d (kw_t W) (<[i := c']> (kw_conns W)) k clock).
Proof.
  intros I E Ec L CS. pose proof (Forall_lookup_1 _ _ _ _ (ki_workers _ _ I) E) as O.
  apply (worker_ok_mono _ clock) in O; [|done]. destruct (CS O) as [W' G C Lv [gone M]]. destruct O as [D Cs V].
  eapply (kv_set_inv _ _ _ _ _ _ _ _ _ gone I E L).
  - split; cbn [kw_d kw_t kw_conns]; [done| |].
    + apply Forall_insert; [|done]. eapply Forall_impl; [exact Cs|]. intros x. by apply conn_ok_grows.
    + pose proof (sum_inside_insert _ _ _ c' Ec). lia.
  - assert (map conn_jobs (kw_conns W) !! i = Some (conn_jobs c)) as EJ by (by rewrite list_lookup_fmap, Ec).
    unfold worker_jobs; cbn [kw_d kw_t kw_conns]. set (js := map conn_jobs (kw_conns W)) in *.
    rewrite list_fmap_insert. fold js. rewrite insert_take_drop by (by eapply lookup_lt_Some).
    rewrite <- (take_drop_middle _ _ _ EJ) at 1. rewrite !concat_app; cbn [concat].
    eapply moves_proper; [| |exact (moves_frame _ _ _ _ _ (concat (take i js) ++ concat (drop (Datatypes.S i) js)) _ M (reflexivity _))];
      solve_Permutation.
Qed.

Lemma kv_reader_inv reqs S path t k :
  kinv reqs S -> kv_reader_step path true (ky_reader S) (ky_k S) = (t, k) ->
  kinv reqs {| ky_reader := t; ky_k := k; ky_workers := ky_workers S; ky_clock := ky_clock S |}.
Proof.
  intros [WS (settled & P & F & C & N) St]. unfold kv_reader_step. destruct (kt_sending (ky_reader S)) as [req|] eqn:ES.
  - cbn [negb]. destruct (_ <? _)%nat; intros [= <- <-]; split; try done.
    + exists settled. unfold outstanding in *; cbn. rewrite ES in *. cbn in *.
      split_and!; [|done|done|]; rewrite ?P, ?N, ?length_app in *; cbn; [solve_Permutation|]. f_equal. lia.
    + intros X. by destruct (St X) as [_ Y].
    + exists settled. unfold outstanding in *; cbn. by rewrite ES in *.
    + intros X. by destruct (St X) as [_ Y].
  - destruct (kt_rest (ky_reader S)) as [|[req|e] rest] eqn:ER.
    + intros [= <- <-]. destruct (k_stopped (ky_k S)) eqn:EK; (split; [done| |]); cbn; rewrite ?ER; try done;
        exists settled; unfold outstanding in *; cbn in *; rewrite ?ER in *; by rewrite ES in *.
    + intros [= <- <-]. split; cbn; [done| |].
      * exists settled. unfold outstanding in *; cbn in *. rewrite ES in *. cbn in *.
        split_and!; [|done|done|]; [rewrite P; solve_Permutation|].
        rewrite N, wrap64_add_l. f_equal. lia.
      * intros X. by destruct (St X) as [Y _].
    + intros [= <- <-]. split; cbn; [done| |].
      * exists settled. unfold outstanding in *; cbn in *. by rewrite ES in *.
      * intros X. by destruct (St X) as [Y _].
Qed.

Lemma kinv_same reqs S k clock :
  kinv reqs S -> ky_clock S <= clock ->
  k_requests k = k_requests (ky_k S) -> k_finished k = k_finished (ky_k S) -> k_log k = k_log (ky_k S) ->
  k_sent k = k_sent (ky_k S) -> k_stopped k = k_stopped (ky_k S) ->
  kinv reqs {| ky_reader := ky_reader S; ky_k := k; ky_workers := ky_workers S; ky_clock := clock |}.
Proof.
  intros [WS (settled & P & F & C & N) St] L E1 E2 E3 E4 E5. split; cbn [ky_workers ky_clock ky_k ky_reader].
  - eapply Forall_impl; [exact WS|]. intros x. by apply worker_ok_mono.
  - exists settled. unfold outstanding in *; cbn. rewrite E1, E2, E3, E4. by split_and!.
  - by rewrite E5.
Qed.

Section step.
Context `{Rng} `{Client} `{Mapper}.

Lemma kinv_step reqs path S S' : kvstep path S S' -> kinv reqs S -> kinv reqs S'.
Proof.
  intros St I. destruct St as [t k E|clock L|w W stop now1 clock d t k E M L It|w W clock d t E L Po|w W E
    |w W i d c E Ec En|w W i ran stop alive stop' clock d c E Ec L To|w W i slot ran stop alive clock d c k E Ec L Sl
    |w W i until ran clock E Ec L U|w W i job lag env sc s s' e running clock d c k E Ec L Ru En].
  - by eapply kv_reader_inv.
  - by apply kinv_same.
  - pose proof (Forall_lookup_1 _ _ _ _ (ki_workers _ _ I) E) as O.
    apply (worker_ok_mono _ clock) in O; [|lia]. destruct O as [D Cs V].
    destruct (kv_iterate_spec _ _ _ _ _ _ _ _ _ D M (proj2 L) It) as [[D' G Lv] [gone MV]].
    eapply (kv_set_inv _ _ _ _ _ _ _ _ _ gone I E (Z.le_trans _ _ _ (proj1 L) (proj2 L))).
    + split; cbn [kw_d kw_t kw_conns]; [done| |congruence]. eapply Forall_impl; [exact Cs|].
      intros x. by apply conn_ok_grows.
    + by apply moves_frame.
  - pose proof (Forall_lookup_1 _ _ _ _ (ki_workers _ _ I) E) as O.
    apply (worker_ok_mono _ clock) in O; [|lia]. destruct O as [D Cs V].
    destruct (kv_poll_spec _ _ _ _ _ D Po) as (D' & SD & Pe).
    eapply (kv_set_inv _ _ _ _ _ _ _ _ _ [] I E L).
    + split; cbn [kw_d kw_t kw_conns]; [done| |by destruct SD; congruence]. eapply Forall_impl; [exact Cs|].
      intros x. apply conn_ok_grows; [done|by apply same_grows].
    + apply moves_refl. unfold worker_jobs; cbn. by rewrite (same_disp_jobs _ _ _ _ SD Pe).
  - pose proof (Forall_lookup_1 _ _ _ _ (ki_workers _ _ I) E) as [D Cs V].
    destruct (fail_noted _ _ _ D) as [D' G].
    eapply (kv_set_inv _ _ _ _ _ _ _ _ _ [] I E (Z.le_refl _)); [|by apply moves_refl].
    split; cbn [kw_d kw_t kw_conns]; [done| |done]. eapply Forall_impl; [exact Cs|].
    intros x. by apply conn_ok_grows.
  - eapply conn_step_inv; [done..| |]; [lia|]. intros [D Cs V]. injection En as <- <-.
    split; try done.
    + by apply dwf_live.
    + by apply grows_refl.
    + cbn. lia.
    + exists []. by apply moves_refl.
  - eapply conn_step_inv; [done..| |]; [lia|]. intros [D Cs V]. by eapply kv_top_spec.
  - eapply conn_step_inv; [done..| |]; [lia|]. intros [D Cs V]. by eapply kv_slot_poll_spec.
  - eapply conn_step_inv; [done..| |]; [lia|]. intros [D Cs V]. split; try done. exists []. by apply moves_refl.
  - eapply conn_step_inv; [done..| |]; [lia|]. intros [D Cs V]. eapply kv_end_spec; [done| |exact En].
    exact (Forall_lookup_1 _ _ _ _ Cs Ec).
Qed.

Lemma idle_worker_ok clock n :
  Z.of_nat n < 2 ^ 32 ->
  worker_ok clock {| kw_d := start_dispatcher (Z.of_nat n);
                     kw_t := {| exhausted := false; kt_pending := None; mode := MLoop |};
                     kw_conns := replicate n KOut |}.
Proof.
  intros L. split; cbn [kw_d kw_t kw_conns].
  - split; try done. constructor.
  - by apply Forall_replicate.
  - clear. induction n as [|n IH]; [done|exact IH].
Qed.

Lemma idle_jobs (conns : list nat) :
  concat (map worker_jobs (map (fun n => {| kw_d := start_dispatcher (Z.of_nat n);
    kw_t := {| exhausted := false; kt_pending := None; mode := MLoop |}; kw_conns := replicate n KOut |}) conns)) = [].
Proof.
  induction conns as [|n ns IH]; [done|]. cbn. rewrite IH, app_nil_r. unfold worker_jobs; cbn.
  clear. by induction n.
Qed.

Lemma kinv_start first rest speedup with_log conns clock :
  Forall (fun n => Z.of_nat n < 2 ^ 32) conns ->
  kinv (trace_requests (Ok first :: rest)) (kv_sys_start first rest speedup with_log conns clock).
Proof.
  intros F. split; [|exists []; unfold outstanding; cbn; by rewrite idle_jobs|done].
  cbn. apply Forall_map. eapply Forall_impl; [exact F|]. intros n. apply idle_worker_ok.
Qed.

Lemma kinv_reachable path first rest speedup with_log conns clock S :
  Forall (fun n => Z.of_nat n < 2 ^ 32) conns ->
  rtc (kvstep path) (kv_sys_start first rest speedup with_log conns clock) S ->
  kinv (trace_requests (Ok first :: rest)) S.
Proof.
  intros F R. pose proof (kinv_start first rest speedup with_log conns clock F) as I. revert I.
  induction R as [|S1 S2 S3 St _ IH]; [done|]. intros I. by eapply IH, kinv_step.
Qed.

End step.

(** ** Properties *)

Section properties.
Context `{Rng} `{Client} `{Mapper}.

Lemma trace_requests_length entries : (length (trace_requests entries) <= length entries)%nat.
Proof. induction entries as [|[r|e] es IH]; cbn; lia. Qed.

(** C16: every request of a KV trace is settled exactly once.  In every state of
    a replay, whatever connections close, reconnect or fail, the requests
    before the first read error are, each once, settled (replayed or counted
    failed), outstanding (in the channel, held by a dispatcher, handed back, on
    a connection's slot or running) or unread; the count that ends the replay
    and the request metrics count exactly the settled ones; and the replay
    reports that it is finished exactly when the reader has stopped and nothing
    is outstanding. *)
Theorem kv_requests_settled_once path first rest speedup with_log conns clock S :
  Z.of_nat (length rest) < u64_max -> Forall (fun n => Z.of_nat n < 2 ^ 32) conns ->
  rtc (kvstep path) (kv_sys_start first rest speedup with_log conns clock) S ->
  exists settled,
    trace_requests (Ok first :: rest) ≡ₚ settled ++ outstanding S ++ trace_requests (kt_rest (ky_reader S)) /\
    k_finished (ky_k S) = Z.of_nat (length settled) /\
    counted KV_REQUESTS (k_log (ky_k S)) + counted KV_REQUESTS_FAILED (k_log (ky_k S)) = Z.of_nat (length settled) /\
    (kv_is_finished (ky_k S) = true <-> k_stopped (ky_k S) = true /\ outstanding S = []).
Proof.
  intros B F R. destruct (kinv_reachable _ _ _ _ _ _ _ _ F R) as [_ (settled & P & Fi & C & N) _].
  exists settled. pose proof (Permutation_length P) as L. rewrite !length_app in L.
  pose proof (trace_requests_length (Ok first :: rest)) as L'. cbn [length] in L'.
  rewrite wrap64_small in Fi, N by (unfold u64_max in *; lia). split_and!; [done|done|done|].
  unfold kv_is_finished. rewrite andb_true_iff, Z.leb_le, Fi, N.
  split; intros [E1 E2]; split; try done; [apply nil_length_inv; lia|rewrite E2; cbn; lia].
Qed.

(** No request runs before it is due.  A request that runs on a connection
    in open loop started at its time on the trace's schedule or later, and the
    lag that is recorded is exactly how much later; a request that is handed
    out or back is due already. *)
Theorem kv_never_before_due path first rest speedup with_log conns clock S w W :
  Forall (fun n => Z.of_nat n < 2 ^ 32) conns ->
  rtc (kvstep path) (kv_sys_start first rest speedup with_log conns clock) S ->
  ky_workers S !! w = Some W ->
  (forall i job lag, kw_conns W !! i = Some (KRunning job lag) ->
     match scheduled job with
     | Some due => exists started, due <= started <= ky_clock S /\ lag = Some (started - due)
     | None => lag = None
     end) /\
  (forall job due, job ∈ handed_jobs (kw_d W) -> scheduled job = Some due -> due <= ky_clock S).
Proof.
  intros F R E. pose proof (ki_workers _ _ (kinv_reachable _ _ _ _ _ _ _ _ F R)) as WS.
  destruct (Forall_lookup_1 _ _ _ _ WS E) as [D C _]. split.
  - intros i job lag Ec. by destruct (Forall_lookup_1 _ _ _ _ C Ec).
  - intros job due Hj Es. pose proof (dw_due _ _ _ D) as Du. rewrite Forall_forall in Du.
    specialize (Du _ Hj). unfold is_due in Du. by rewrite Es in Du.
Qed.

(** How often a request may still be handed back. *)
Definition handbacks_left (conns : Z) (job : KvJob) : Z :=
  (Z.max conns 1 - dead_handovers job) + (if retried job then 0 else 1).

(** A request is not handed back forever.  Every job of a worker has a
    bounded number of hand-backs left, at most one per connection and one
    more; a connection that gives its job back either uses one up and queues
    the same request with the same schedule, or is refused, and then counts it
    failed. *)
Theorem kv_handbacks_bounded path first rest speedup with_log conns clock S w W job why :
  Forall (fun n => Z.of_nat n < 2 ^ 32) conns ->
  rtc (kvstep path) (kv_sys_start first rest speedup with_log conns clock) S ->
  ky_workers S !! w = Some W -> job ∈ worker_jobs W ->
  0 <= handbacks_left (connections (kw_d W)) job <= Z.max (connections (kw_d W)) 1 + 1 /\
  match kd_give_back job why (kw_d W) with
  | (d, true) =>
      exists job', kd_returned d = kd_returned (kw_d W) ++ [(job', connect_failures (kw_d W))] /\
        job_req job' = job_req job /\ scheduled job' = scheduled job /\
        handbacks_left (connections (kw_d W)) job' = handbacks_left (connections (kw_d W)) job - 1
  | (d, false) => d = kw_d W /\ (retried job = true \/ dead_handovers job = Z.max (connections (kw_d W)) 1)
  end.
Proof.
  intros F R E Hj. pose proof (ki_workers _ _ (kinv_reachable _ _ _ _ _ _ _ _ F R)) as WS.
  destruct (Forall_lookup_1 _ _ _ _ WS E) as [D C _]. pose proof (dw_conns _ _ _ D) as LC.
  assert (backs_ok (connections (kw_d W)) job) as B.
  { unfold worker_jobs in Hj. apply elem_of_app in Hj as [Hj|Hj].
    - pose proof (dw_backs _ _ _ D) as Fb. rewrite Forall_forall in Fb. by apply Fb.
    - apply list_elem_of_In, in_concat in Hj as (l & Hl & Hj). apply in_map_iff in Hl as (c & <- & Hc).
      rewrite Forall_forall in C. specialize (C c (proj2 (list_elem_of_In _ _) Hc)).
      destruct c as [| | | |j lag]; cbn in Hj; try done. destruct Hj as [<-|[]]. apply C. }
  unfold backs_ok in B. split; [unfold handbacks_left; destruct (retried job); lia|].
  unfold kd_give_back. destruct why.
  - destruct (_ <=? _) eqn:L; [split; [done|right; lia]|]. eexists. split; [unfold kd_wake; cbn; by destruct (kd_idle _)|].
    split_and!; try done. unfold handbacks_left; cbn. rewrite Z.mod_small by lia. lia.
  - destruct (retried job) eqn:ER; [by split; [|left]|]. eexists. split; [unfold kd_wake; cbn; by destruct (kd_idle _)|].
    split_and!; try done. unfold handbacks_left; cbn. rewrite ER. lia.
Qed.

(** Nobody waits on a wake-up that was lost.  A dispatcher that waits is
    woken when it needs a connection and one asks, and sleeps at most
    [IDLE_SLEEP_MAX] otherwise; a connection that waits has its waker stored
    until its slot is done, and has been woken then. *)
Theorem kv_wakeups_reach path first rest speedup with_log conns clock S w W :
  Forall (fun n => Z.of_nat n < 2 ^ 32) conns ->
  rtc (kvstep path) (kv_sys_start first rest speedup with_log conns clock) S ->
  ky_workers S !! w = Some W ->
  match mode (kw_t W) with
  | MWait needs until =>
      until <= ky_clock S + IDLE_SLEEP_MAX /\
      (needs = true -> kd_waiting (kw_d W) <> [] -> kd_woken (kw_d W) = true)
  | _ => True
  end /\
  (forall i slot ran, kw_conns W !! i = Some (KWaiting slot ran) ->
     exists s, kd_slots (kw_d W) !! slot = Some s /\ (if ks_done s then ks_woken s else ks_waker s) = true).
Proof.
  intros F R E. pose proof (ki_workers _ _ (kinv_reachable _ _ _ _ _ _ _ _ F R)) as WS.
  destruct (Forall_lookup_1 _ _ _ _ WS E) as [D C _]. split.
  - pose proof (dw_wait _ _ _ D) as Wt. unfold wait_ok in Wt. destruct (mode (kw_t W)); try done.
    by destruct Wt as (_ & ? & _ & ?).
  - intros i slot ran Ec. exact (Forall_lookup_1 _ _ _ _ C Ec).
Qed.

End properties.

(** A hand-back does not always end the dispatcher's sleep.  While it sleeps
    needing no connection and none waits, a request that comes back wakes it
    only to sleep again, and the connection that asks next does not wake it:
    the request and the connection wait for the timer. *)
Lemma kv_hand_back_sleeps d t job until now ran :
  mode t = MWait false until -> now < until -> wants_slot d = false -> kd_waiting d = [] -> kd_closed d = false ->
  retried job = false ->
  let '(d1, kept) := kd_give_back job LookupSent d in
  let '(d2, t2) := kv_poll now d1 t in
  let '(d3, c) := kv_top false true false now ran d2 in
  kept = true /\ t2 = t /\ is_nonempty (kd_returned d3) = true /\ is_nonempty (kd_waiting d3) = true /\
  kd_woken d3 = false.
Proof.
  intros M L Wn EW C Rt. unfold kd_give_back. rewrite Rt.
  set (d0 := d <| kd_returned := _ |>). pose proof (kd_wake_same d0) as [A1 A2 A3 A4 A5].
  assert (wants_slot (kd_wake d0) = false /\ kd_closed (kd_wake d0) = false) as [Wn1 C1]
    by (unfold kd_wake; by destruct (kd_idle d0)).
  unfold kv_poll. rewrite M, A2, A3. change (kd_waiting d0) with (kd_waiting d). rewrite EW.
  rewrite andb_false_r, (proj2 (Z.leb_gt _ _)) by lia. cbn [orb andb is_nonempty].
  unfold kv_top. cbn [negb set_field kd_closed wants_slot kd_waiting]. rewrite C1, Wn1, A2.
  split_and!; try done; cbn; [rewrite A3; cbn; by destruct (kd_returned d)|].
  change (kd_waiting d0) with (kd_waiting d). by rewrite EW.
Qed.

(** *** Witnesses *)

Definition example_kv_start : KvSys := kv_sys_start example_request [] f64_one true [1%nat] 100.

Lemma rtc_here {A} (R : relation A) x y : x = y -> rtc R x y.
Proof. by intros ->. Qed.

(** The request is read, the clock starts, a connection asks, the dispatcher
    claims the request and hands it over, the connection takes it. *)
Definition example_kv_running : KvSys :=
  let k := ky_k example_kv_start in
  {| ky_reader := {| kt_rest := []; kt_sending := None |};
     ky_k := k <| k_sent := 1 |> <| k_start := Some 100 |>;
     ky_workers := [{|
       kw_d := (start_dispatcher 1) <| live := 1 |>
         <| kd_slots := [{| ks_job := None; ks_done := true; ks_waker := false; ks_woken := true |}] |>;
       kw_t := {| exhausted := false; kt_pending := None; mode := MLoop |};
       kw_conns := [KRunning (new_job example_request (Some 100)) (Some 20)] |}];
     ky_clock := 120 |}.

Lemma example_kv_reaches :
  rtc (@kvstep counting_rng simple_client example_mapper "t") example_kv_start example_kv_running.
Proof.
  eapply rtc_l. { eapply kvs_reader. vm_compute; reflexivity. }
  eapply rtc_l. { eapply kvs_reader. vm_compute; reflexivity. }
  eapply rtc_l. { apply (kvs_start _ _ 100). cbn. lia. }
  eapply rtc_l. { eapply (kvs_enter _ _ 0%nat _ 0%nat); [reflexivity|reflexivity|vm_compute; reflexivity]. }
  eapply rtc_l. { eapply (kvs_top _ _ 0%nat _ 0%nat _ false true false 110);
    [reflexivity|reflexivity|cbn; lia|vm_compute; reflexivity]. }
  eapply rtc_l. { eapply (kvs_iterate _ _ 0%nat _ false 110 110); [reflexivity|reflexivity|cbn; lia|vm_compute; reflexivity]. }
  eapply rtc_l. { eapply (kvs_iterate _ _ 0%nat _ false 110 110); [reflexivity|reflexivity|cbn; lia|vm_compute; reflexivity]. }
  eapply rtc_l. { eapply (kvs_slot _ _ 0%nat _ 0%nat _ _ false true 120);
    [reflexivity|reflexivity|cbn; lia|vm_compute; reflexivity]. }
  apply rtc_here. vm_compute. reflexivity.
Qed.

Lemma example_kv_conns : Forall (fun n => Z.of_nat n < 2 ^ 32) [1%nat].
Proof. repeat constructor. Qed.

Lemma kv_requests_settled_once_witness :
  exists settled, [example_request] ≡ₚ settled ++ [example_request] ++ [] /\ 0 = Z.of_nat (length settled).
Proof.
  destruct (@kv_requests_settled_once counting_rng simple_client example_mapper "t" example_request [] f64_one true
    [1%nat] 100 example_kv_running eq_refl example_kv_conns example_kv_reaches) as (settled & P & F & _).
  exists settled. split; [exact P|exact F].
Defined.

Lemma kv_never_before_due_witness : exists started, 100 <= started <= 120 /\ Some 20 = Some (started - 100).
Proof.
  exact (proj1 (@kv_never_before_due counting_rng simple_client example_mapper "t" example_request [] f64_one true
    [1%nat] 100 example_kv_running 0%nat _ example_kv_conns example_kv_reaches eq_refl) 0%nat _ _ eq_refl).
Defined.

Lemma kv_handbacks_bounded_witness :
  0 <= handbacks_left 1 (new_job example_request (Some 100)) <= Z.max 1 1 + 1.
Proof.
  exact (proj1 (@kv_handbacks_bounded counting_rng simple_client example_mapper "t" example_request [] f64_one true
    [1%nat] 100 example_kv_running 0%nat _ (new_job example_request (Some 100)) Unsent example_kv_conns
    example_kv_reaches eq_refl ltac:(apply list_elem_of_In; cbn; tauto))).
Defined.

(** The dispatcher waits for a connection; one asks. *)
Definition example_kv_asked : KvSys :=
  {| ky_reader := ky_reader example_kv_start;
     ky_k := start_at 100 (ky_k example_kv_start);
     ky_workers := [{|
       kw_d := (start_dispatcher 1) <| live := 1 |> <| kd_waiting := [0%nat] |> <| kd_woken := true |>
         <| wants_slot := true |>
         <| kd_slots := [{| ks_job := None; ks_done := false; ks_waker := true; ks_woken := false |}] |>;
       kw_t := {| exhausted := false; kt_pending := None; mode := MWait true (100 + IDLE_SLEEP_MAX) |};
       kw_conns := [KWaiting 0 false] |}];
     ky_clock := 110 |}.

Lemma example_kv_asks :
  rtc (@kvstep counting_rng simple_client example_mapper "t") example_kv_start example_kv_asked.
Proof.
  eapply rtc_l. { apply (kvs_start _ _ 100). cbn. lia. }
  eapply rtc_l. { eapply (kvs_iterate _ _ 0%nat _ false 100 100); [reflexivity|reflexivity|cbn; lia|vm_compute; reflexivity]. }
  eapply rtc_l. { eapply (kvs_enter _ _ 0%nat _ 0%nat); [reflexivity|reflexivity|vm_compute; reflexivity]. }
  eapply rtc_l. { eapply (kvs_top _ _ 0%nat _ 0%nat _ false true false 110);
    [reflexivity|reflexivity|cbn; lia|vm_compute; reflexivity]. }
  apply rtc_here. vm_compute. reflexivity.
Qed.

Lemma kv_wakeups_reach_witness :
  100 + IDLE_SLEEP_MAX <= 110 + IDLE_SLEEP_MAX /\ (true = true -> [0%nat] <> [] -> true = true).
Proof.
  exact (proj1 (@kv_wakeups_reach counting_rng simple_client example_mapper "t" example_request
    [] f64_one true [1%nat] 100 example_kv_asked 0%nat _ example_kv_conns example_kv_asks eq_refl)).
Defined.
