(* ===== verification/Startup.v ===== *)
(** Startup: which worker and endpoint each connection serves, and what the
    workers and the runner share ([src/src/worker.rs], [SharedState],
    [my_connection_endpoints], [key_share_endpoints], [create_for_worker],
    [on_start], [on_tick]; [src/src/runner.rs], [check_node_counts]). *)

From S2P Require Import Prelude F64 Config Validate Keys KeyDist Limiter Workload.
Open Scope Z_scope.

(** ** [SharedState] *)

(** [Phase as u8] and [Phase::from_u8]. *)
Definition phase_as_u8 (p : Phase) : Z :=
  match p with Connect => 0 | Precheck => 1 | Prefill => 2 | Warmup => 3 | Running => 4 | Stop => 5 end.

Definition phase_from_u8 (v : Z) : Phase :=
  match v with 0 => Connect | 1 => Precheck | 2 => Prefill | 3 => Warmup | 4 => Running | _ => Stop end.

Definition is_recording (p : Phase) : bool := bool_decide (p = Running).

Definition should_stop (p : Phase) : bool := bool_decide (p = Stop).

(** [SharedState]: the phase's byte and the counts. *)
Record SharedState := {
  ss_phase : Z;
  workers_started : Z;
  ss_precheck_done : Z;
  prefill_complete : Z;
  ss_prefill_confirmed : Z;
  prefill_keys_total : Z;
  append_keys_confirmed : Z;
  append_keys_total : Z;
}.

#[export] Instance eta_SharedState : Settable SharedState := fun x =>
  {| ss_phase := ss_phase x; workers_started := workers_started x; ss_precheck_done := ss_precheck_done x;
     prefill_complete := prefill_complete x; ss_prefill_confirmed := ss_prefill_confirmed x;
     prefill_keys_total := prefill_keys_total x; append_keys_confirmed := append_keys_confirmed x;
     append_keys_total := append_keys_total x |}.

Definition new_shared : SharedState :=
  {| ss_phase := phase_as_u8 Connect; workers_started := 0; ss_precheck_done := 0; prefill_complete := 0;
     ss_prefill_confirmed := 0; prefill_keys_total := 0; append_keys_confirmed := 0; append_keys_total := 0 |}.

Definition phase (s : SharedState) : Phase := phase_from_u8 (ss_phase s).

Definition set_phase (p : Phase) (s : SharedState) : SharedState := s <| ss_phase := phase_as_u8 p |>.

Definition mark_worker_started (s : SharedState) : SharedState :=
  s <| workers_started := wrap64 (workers_started s + 1) |>.

Definition mark_precheck_complete (s : SharedState) : SharedState :=
  s <| ss_precheck_done := wrap64 (ss_precheck_done s + 1) |>.

Definition mark_prefill_complete (s : SharedState) : SharedState :=
  s <| prefill_complete := wrap64 (prefill_complete s + 1) |>.

Definition add_prefill_confirmed (n : Z) (s : SharedState) : SharedState :=
  s <| ss_prefill_confirmed := wrap64 (ss_prefill_confirmed s + n) |>.

Definition add_prefill_total (n : Z) (s : SharedState) : SharedState :=
  s <| prefill_keys_total := wrap64 (prefill_keys_total s + n) |>.

Definition add_append_total (n : Z) (s : SharedState) : SharedState :=
  s <| append_keys_total := wrap64 (append_keys_total s + n) |>.

(** ** [key_share_endpoints] *)

(** [max_by] with [total_cmp] of [gap]: the last of the greatest; [min_by]: the
    first of the least. *)
Definition max_by (gap : nat -> f64) (l : list nat) : option nat :=
  foldl (fun best e => match best with
                       | None => Some e
                       | Some b => if f64_total_lt (gap e) (gap b) then best else Some e
                       end) None l.

Definition min_by (gap : nat -> f64) (l : list nat) : option nat :=
  foldl (fun best e => match best with
                       | None => Some e
                       | Some b => if f64_total_lt (gap e) (gap b) then Some e else best
                       end) None l.

Definition sum_counts (count : list Z) : Z := fold_right Z.add 0 count.

(** How far an endpoint's count is below its target. *)
Definition count_gap (target : list f64) (count : list Z) (e : nat) : f64 :=
  f64_sub (nth e target f64_zero) (f64_of_Z (nth e count 0)).

(** The loop that raises the counts, [steps] times; [expect] is [None]. *)
Fixpoint raise_counts (steps : nat) (live : list nat) (target : list f64) (count : list Z) : option (list Z) :=
  match steps with
  | O => Some count
  | S steps =>
      e ← max_by (count_gap target count) live;
      raise_counts steps live target (<[e := nth e count 0 + 1]> count)
  end.

(** The loop that lowers them. *)
Fixpoint lower_counts (steps : nat) (target : list f64) (count : list Z) : option (list Z) :=
  match steps with
  | O => Some count
  | S steps =>
      e ← min_by (count_gap target count) (filter (fun e => 1 < nth e count 0) (seq 0 (length count)));
      lower_counts steps target (<[e := nth e count 0 - 1]> count)
  end.

(** The order of the sort: by position, then by endpoint. *)
Definition slot_le (a b : f64 * nat) : bool :=
  if f64_total_lt a.1 b.1 then true else if f64_total_lt b.1 a.1 then false else (a.2 <=? b.2)%nat.

Fixpoint insert_slot (x : f64 * nat) (l : list (f64 * nat)) : list (f64 * nat) :=
  match l with
  | [] => [x]
  | y :: l => if slot_le x y then x :: y :: l else y :: insert_slot x l
  end.

Definition sort_slots (l : list (f64 * nat)) : list (f64 * nat) := fold_right insert_slot [] l.

(** The positions of endpoint [e]'s [c] connections. *)
Definition endpoint_slots (e : nat) (c : Z) : list (f64 * nat) :=
  map (fun k => (f64_div (f64_add (f64_of_Z (Z.of_nat k)) (f64_lit 1 2)) (f64_of_Z c), e)) (seq 0 (Z.to_nat c)).

Definition has_share (shares : list f64) (e : nat) : bool := f64_lt f64_zero (nth e shares f64_zero).

(** The endpoints that own keys. *)
Definition live_endpoints (shares : list f64) : list nat := filter (fun e => has_share shares e = true) (seq 0 (length shares)).

Definition first_counts (shares target : list f64) : list Z :=
  map (fun e => if has_share shares e then Z.max (f64_to_u64 (f64_floor (nth e target f64_zero))) 1 else 0)
    (seq 0 (length shares)).

(** [key_share_endpoints]. *)
Definition key_share_endpoints (shares : list f64) (total : nat) : option (list nat) :=
  let n := length shares in
  let live := live_endpoints shares in
  if bool_decide (live = []) || (total <? length live)%nat then
    let pool := match live with [] => seq 0 (Nat.max n 1) | _ => live end in
    Some (map (fun i => nth (i mod length pool) pool 0%nat) (seq 0 total))
  else
    let target := map (fun s => f64_mul s (f64_of_Z (Z.of_nat total))) shares in
    let count := first_counts shares target in
    let sum := sum_counts count in
    count ← raise_counts (Z.to_nat (Z.of_nat total - sum)) live target count;
    count ← lower_counts (Z.to_nat (sum - Z.of_nat total)) target count;
    Some (map snd (sort_slots (concat (imap endpoint_slots count)))).

(** [connection_endpoints]. *)
Definition connection_endpoints `{Rng} (allocation : EndpointAllocation) (key_dist : KeyDist) (total num_endpoints : nat)
    : option (list nat) :=
  match allocation, endpoint_sampler key_dist with
  | KeyShare, Some z => key_share_endpoints (shares z) total
  | _, _ => Some (map (fun i => i mod num_endpoints)%nat (seq 0 total))
  end.

(** [my_connection_endpoints]: the global index of a worker's first connection
    and the endpoints its connections serve; slicing out of range panics. *)
Definition my_connection_endpoints `{Rng} (allocation : EndpointAllocation) (key_dist : KeyDist)
    (total threads num_endpoints worker_id : Z) : option (Z * list nat) :=
  let (mine, start) := connection_share total threads worker_id in
  assignment ← connection_endpoints allocation key_dist (Z.to_nat total) (Z.to_nat num_endpoints);
  if (Z.to_nat start + Z.to_nat mine <=? length assignment)%nat
  then Some (start, take (Z.to_nat mine) (drop (Z.to_nat start) assignment))
  else None.

(** [spawn_append_tasks]: the endpoints a worker's append writers serve. *)
Definition writer_endpoints (connections threads num_endpoints worker_id : Z) : list nat :=
  let (mine, start) := connection_share connections threads worker_id in
  map (fun i => (Z.to_nat start + i) mod Z.to_nat (Z.max num_endpoints 1))%nat (seq 0 (Z.to_nat mine)).

(** The connections of each node on a worker: [per_node] of [on_start]. *)
Definition per_node (num_endpoints : nat) (endpoints : list nat) : list nat :=
  map (fun e => length (filter (fun x => x = e) endpoints)) (seq 0 (Nat.max num_endpoints 1)).

(** ** [check_node_counts] *)

Definition check_node_counts (c : Config.t) (num_endpoints : Z) : result string unit :=
  let w := Config.workload c in
  let total := total_connections (Config.connection c) in
  let threads := General.threads (Config.general c) in
  if Workload.prefill w && (1 <? num_endpoints) && (total <? num_endpoints) then
    Err ("cluster prefill needs at least one connection per node, but --connections=" +:+ show_Z total +:+ " < " +:+
         show_Z num_endpoints +:+ " cluster nodes. Increase --connections to >= " +:+ show_Z num_endpoints +:+
         " (ideally >= threads x nodes for an even spread).")
  else if bool_decide (Workload.routing w = Routed) && (1 <? num_endpoints) && (total <? sat_mul threads num_endpoints) then
    Err ("routing = " +:+ quoted "routed" +:+ " needs connections (" +:+ show_Z total +:+ ") >= threads (" +:+
         show_Z threads +:+ ") x nodes (" +:+ show_Z num_endpoints +:+ ") = " +:+
         show_Z (sat_mul threads num_endpoints) +:+ ", so every worker has a connection to every node")
  else
    match Workload.append w with
    | Some a =>
        if (1 <? num_endpoints) && (Append.connections a <? num_endpoints) then
          Err ("append.connections (" +:+ show_Z (Append.connections a) +:+ ") must be >= the number of nodes (" +:+
               show_Z num_endpoints +:+ ") so every node's append queue has a writer draining it")
        else Ok ()
    | None => Ok ()
    end.

(** ** A worker: [SharedWorkerState] and [BenchHandler] *)

Record WorkerState := { ws_my_connections : Z; ws_precheck_done : bool; ws_recording : bool; ws_last_phase : Phase }.

#[export] Instance eta_WorkerState : Settable WorkerState := fun x =>
  {| ws_my_connections := ws_my_connections x; ws_precheck_done := ws_precheck_done x;
     ws_recording := ws_recording x; ws_last_phase := ws_last_phase x |}.

(** [create_for_worker]: the worker's state and what it shares. *)
Definition create_for_worker (total threads id : Z) (recording : bool) (s : SharedState) : WorkerState * SharedState :=
  let mine := fst (connection_share total threads id) in
  ({| ws_my_connections := mine; ws_precheck_done := mine =? 0; ws_recording := recording; ws_last_phase := Connect |},
   if mine =? 0 then mark_precheck_complete s else s).

(** [mark_precheck_done]: only the first connection of a worker counts. *)
Definition mark_precheck_done (w : WorkerState) (s : SharedState) : WorkerState * SharedState :=
  if ws_precheck_done w then (w, s) else (w <| ws_precheck_done := true |>, mark_precheck_complete s).

(** [on_tick]: whether shutdown was requested. *)
Definition on_tick (w : WorkerState) (s : SharedState) : WorkerState * bool :=
  let p := phase s in
  let w := if bool_decide (p = ws_last_phase w) then w
           else w <| ws_recording := is_recording p |> <| ws_last_phase := p |> in
  (w, should_stop p).

(** [on_start]: the dispatchers a worker installs before its connections. *)
Inductive WorkerDispatcher := RoutedDispatcher (per_node : list nat) (pipeline_depth : Z) | RateDispatcher | KvReplayDispatcher.

Definition on_start_dispatchers (routing : Routing) (rate_limited kv : bool) (num_endpoints : nat)
    (my_endpoints : list nat) (pipeline_depth : Z) : list WorkerDispatcher :=
  (match routing, rate_limited with
   | Routed, true => [RoutedDispatcher (per_node num_endpoints my_endpoints) pipeline_depth]
   | _, true => [RateDispatcher]
   | _, false => []
   end) ++ (if kv then [KvReplayDispatcher] else []).

(** [spawn_protocol_tasks]: one task per connection: its endpoint and its
    seed. *)
Definition spawn_protocol_tasks (seed worker_id : Z) (my_endpoints : list nat) : list (nat * Z) :=
  imap (fun i e => (e, connection_seed seed SeedReader worker_id (Z.of_nat i))) my_endpoints.

(** Workers starting, their connections passing the precheck, in any order. *)
Inductive precheck_step (total threads : Z) :
    list (option WorkerState) * SharedState -> list (option WorkerState) * SharedState -> Prop :=
| ps_start ws s i recording w s' :
    ws !! i = Some None -> create_for_worker total threads (Z.of_nat i) recording s = (w, s') ->
    precheck_step total threads (ws, s) (<[i := Some w]> ws, s')
| ps_precheck ws s i w w' s' :
    ws !! i = Some (Some w) -> 0 < ws_my_connections w -> mark_precheck_done w s = (w', s') ->
    precheck_step total threads (ws, s) (<[i := Some w']> ws, s')
| ps_tick ws s i w w' stop :
    ws !! i = Some (Some w) -> on_tick w s = (w', stop) ->
    precheck_step total threads (ws, s) (<[i := Some w']> ws, s)
| ps_started ws s :
    precheck_step total threads (ws, s) (ws, mark_worker_started s)
| ps_phase ws s p :
    precheck_step total threads (ws, s) (ws, set_phase p s).

(** Workers that have passed. *)
Definition has_passed (w : option WorkerState) : Z :=
  match w with Some w => if ws_precheck_done w then 1 else 0 | None => 0 end.

Definition passed (ws : list (option WorkerState)) : Z := sum_counts (has_passed <$> ws).

(** ** Lemmas: key shares *)

Lemma max_by_elem gap l e : max_by gap l = Some e -> e ∈ l.
Proof.
  unfold max_by. assert (forall best, (forall b, best = Some b -> b ∈ l) -> forall l', (forall x, x ∈ l' -> x ∈ l) ->
    foldl (fun best e => match best with None => Some e
      | Some b => if f64_total_lt (gap e) (gap b) then best else Some e end) best l' = Some e -> e ∈ l) as G.
  { intros best Hb l'. revert best Hb. induction l' as [|x l' IH]; intros best Hb Hl; cbn; [apply Hb|].
    apply IH; [|intros y Hy; apply Hl; by right]. intros b Eb.
    destruct best as [b0|]; [|injection Eb as <-; apply Hl; by left].
    destruct (f64_total_lt _ _); [by apply Hb|injection Eb as <-; apply Hl; by left]. }
  by apply (G None).
Qed.

Lemma max_by_some gap l : l <> [] -> is_Some (max_by gap l).
Proof.
  unfold max_by. assert (forall l' b, is_Some (foldl (fun best e => match best with None => Some e
      | Some b => if f64_total_lt (gap e) (gap b) then best else Some e end) (Some b) l')) as G.
  { induction l' as [|x l' IH]; intros b; cbn; [done|]. by destruct (f64_total_lt _ _). }
  destruct l as [|x l]; [done|]. intros _. apply G.
Qed.

Lemma min_by_elem gap l e : min_by gap l = Some e -> e ∈ l.
Proof.
  unfold min_by. assert (forall best, (forall b, best = Some b -> b ∈ l) -> forall l', (forall x, x ∈ l' -> x ∈ l) ->
    foldl (fun best e => match best with None => Some e
      | Some b => if f64_total_lt (gap e) (gap b) then Some e else best end) best l' = Some e -> e ∈ l) as G.
  { intros best Hb l'. revert best Hb. induction l' as [|x l' IH]; intros best Hb Hl; cbn; [apply Hb|].
    apply IH; [|intros y Hy; apply Hl; by right]. intros b Eb.
    destruct best as [b0|]; [|injection Eb as <-; apply Hl; by left].
    destruct (f64_total_lt _ _); [injection Eb as <-; apply Hl; by left|by apply Hb]. }
  by apply (G None).
Qed.

Lemma min_by_some gap l : l <> [] -> is_Some (min_by gap l).
Proof.
  unfold min_by. assert (forall l' b, is_Some (foldl (fun best e => match best with None => Some e
      | Some b => if f64_total_lt (gap e) (gap b) then Some e else best end) (Some b) l')) as G.
  { induction l' as [|x l' IH]; intros b; cbn; [done|]. by destruct (f64_total_lt _ _). }
  destruct l as [|x l]; [done|]. intros _. apply G.
Qed.

Lemma sum_counts_insert count e v :
  (e < length count)%nat -> sum_counts (<[e := v]> count) = sum_counts count - nth e count 0 + v.
Proof.
  revert e. induction count as [|c count IH]; intros [|e] L; cbn in L; [lia|lia|unfold sum_counts; cbn; lia|].
  change (<[S e:=v]> (c :: count)) with (c :: <[e:=v]> count). unfold sum_counts in *. cbn [fold_right nth].
  rewrite IH by lia. lia.
Qed.

Lemma nth_insert (count : list Z) e v i :
  (e < length count)%nat -> nth i (<[e := v]> count) 0 = if decide (i = e) then v else nth i count 0.
Proof.
  intros L. rewrite !nth_lookup. destruct (decide (i = e)) as [->|N].
  - by rewrite list_lookup_insert_eq.
  - by rewrite list_lookup_insert_ne.
Qed.

(** The counts of a connection assignment: as many as [shares], none for
    endpoints without keys, at least one for the others. *)
Record counts_ok (shares : list f64) (count : list Z) : Prop := {
  co_length : length count = length shares;
  co_count e : (e < length shares)%nat -> if has_share shares e then 1 <= nth e count 0 else nth e count 0 = 0;
}.

Lemma counts_insert shares count e v :
  counts_ok shares count -> (e < length shares)%nat -> has_share shares e = true -> 1 <= v ->
  counts_ok shares (<[e := v]> count).
Proof.
  intros [L C] He Hs Hv. split; [by rewrite length_insert|]. intros i Hi. rewrite nth_insert by lia.
  destruct (decide (i = e)) as [->|]; [by rewrite Hs|by apply C].
Qed.

Lemma raise_counts_spec shares target steps count :
  counts_ok shares count -> live_endpoints shares <> [] ->
  exists count', raise_counts steps (live_endpoints shares) target count = Some count' /\
    counts_ok shares count' /\ sum_counts count' = sum_counts count + Z.of_nat steps.
Proof.
  revert count. induction steps as [|steps IH]; intros count C N; cbn [raise_counts].
  - exists count. split_and!; [done|done|lia].
  - destruct (max_by_some (count_gap target count) (live_endpoints shares) N) as [e Ee]. rewrite Ee.
    apply max_by_elem, list_elem_of_filter in Ee as [Hs He%elem_of_seq]. cbn [mbind option_bind].
    pose proof C as [L Cc]. specialize (Cc e ltac:(lia)). rewrite Hs in Cc.
    destruct (IH (<[e := nth e count 0 + 1]> count)) as (c' & -> & C' & S'); [apply counts_insert; try done; lia|done|].
    exists c'. split_and!; [done|done|]. rewrite S', sum_counts_insert by lia. lia.
Qed.

(** Counts that are all at most one sum to the number of live endpoints. *)
Lemma sum_counts_small count :
  (forall e, (e < length count)%nat -> nth e count 0 <= 1) ->
  sum_counts count <= Z.of_nat (length (filter (fun c => 1 <= c) count)).
Proof.
  induction count as [|c count IH]; intros B; [done|]. pose proof (B 0%nat ltac:(cbn; lia)) as B0. cbn in B0.
  specialize (IH (fun e He => B (S e) ltac:(cbn; lia))). unfold sum_counts in *. cbn [fold_right].
  rewrite filter_cons. destruct (decide (1 <= c)); cbn [length]; lia.
Qed.

Lemma live_count shares count :
  counts_ok shares count -> length (filter (fun c => 1 <= c) count) = length (live_endpoints shares).
Proof.
  intros [L C]. unfold live_endpoints. rewrite <- L.
  assert (forall k, (forall e, (e < length count)%nat -> (1 <= nth e count 0) <-> has_share shares (k + e) = true) ->
    length (filter (fun c => 1 <= c) count) = length (filter (fun e => has_share shares e = true) (seq k (length count)))) as G.
  { clear C L. induction count as [|c count IH]; intros k B; [done|]. cbn [length seq]. rewrite !filter_cons.
    pose proof (B 0%nat ltac:(cbn; lia)) as B0. rewrite Nat.add_0_r in B0. cbn [nth] in B0.
    assert (forall e, (e < length count)%nat -> 1 <= nth e count 0 <-> has_share shares (S k + e) = true) as B'
      by (intros e He; rewrite Nat.add_succ_comm; apply (B (S e)); cbn; lia).
    specialize (IH (S k) B'). destruct (decide (1 <= c)), (decide (has_share shares k = true)); cbn [length]; try tauto; congruence. }
  apply (G 0%nat). intros e He. cbn [Nat.add]. specialize (C e ltac:(lia)). destruct (has_share shares e); [split; [done|lia]|].
  split; [lia|done].
Qed.

Lemma lower_counts_spec shares target steps count :
  counts_ok shares count -> Z.of_nat (length (live_endpoints shares)) + Z.of_nat steps <= sum_counts count ->
  exists count', lower_counts steps target count = Some count' /\
    counts_ok shares count' /\ sum_counts count' = sum_counts count - Z.of_nat steps.
Proof.
  revert count. induction steps as [|steps IH]; intros count C N; cbn [lower_counts].
  - exists count. split_and!; [done|done|lia].
  - pose proof C as [L Cc]. destruct (min_by_some (count_gap target count)
      (filter (fun e => 1 < nth e count 0) (seq 0 (length count)))) as [e Ee].
    { intros EF. pose proof (sum_counts_small count) as SS. rewrite (live_count _ _ C) in SS.
      enough (sum_counts count <= Z.of_nat (length (live_endpoints shares))) by lia. apply SS.
      intros e He. destruct (decide (1 < nth e count 0)) as [G|]; [|lia]. exfalso.
      assert (e ∈ filter (fun e => 1 < nth e count 0) (seq 0 (length count))) as H
        by (apply list_elem_of_filter; split; [done|apply elem_of_seq; lia]).
      rewrite EF in H. by apply not_elem_of_nil in H. }
    rewrite Ee. apply min_by_elem, list_elem_of_filter in Ee as [Hg He%elem_of_seq]. cbn [mbind option_bind].
    assert (has_share shares e = true) as Hs.
    { specialize (Cc e ltac:(lia)). destruct (has_share shares e); [done|lia]. }
    destruct (IH (<[e := nth e count 0 - 1]> count)) as (c' & -> & C' & S').
    + apply counts_insert; try done; lia.
    + rewrite sum_counts_insert by lia. lia.
    + exists c'. split_and!; [done|done|]. rewrite S', sum_counts_insert by lia. lia.
Qed.

Lemma insert_slot_perm x l : insert_slot x l ≡ₚ x :: l.
Proof.
  induction l as [|y l IH]; cbn; [done|]. destruct (slot_le x y); [done|]. rewrite IH. apply Permutation_swap.
Qed.

Lemma sort_slots_perm l : sort_slots l ≡ₚ l.
Proof. induction l as [|x l IH]; cbn; [done|]. by rewrite insert_slot_perm, IH. Qed.

Lemma endpoint_slots_snd e c : map snd (endpoint_slots e c) = replicate (Z.to_nat c) e.
Proof.
  unfold endpoint_slots. rewrite map_map. cbn. generalize 0%nat. induction (Z.to_nat c) as [|m IH]; intros k; cbn; [done|].
  by rewrite IH.
Qed.

(** The connections of each endpoint, before they are sorted. *)
Lemma slots_elem count k e :
  e ∈ map snd (concat (imap (fun i => endpoint_slots (k + i)) count)) <->
  (k <= e)%nat /\ 1 <= nth (e - k) count 0.
Proof.
  revert k. induction count as [|c count IH]; intros k; cbn [imap concat map].
  - split; [by intros ?%not_elem_of_nil|]. intros [_ H]. destruct (e - k)%nat; cbn in H; lia.
  - rewrite map_app, elem_of_app, Nat.add_0_r, endpoint_slots_snd.
    assert (imap ((fun i => endpoint_slots (k + i)) ∘ S) count = imap (fun i => endpoint_slots (S k + i)) count) as E
      by (apply imap_ext; intros i x _; cbn; by rewrite Nat.add_succ_r).
    rewrite E, IH, elem_of_replicate. split.
    + intros [[-> H]|[L H]].
      * split; [done|]. rewrite Nat.sub_diag. cbn. lia.
      * split; [lia|]. replace (e - k)%nat with (S (e - S k)) by lia. exact H.
    + intros [L H]. destruct (decide (e = k)) as [->|N].
      * left. rewrite Nat.sub_diag in H. cbn in H. split; [done|lia].
      * right. replace (e - k)%nat with (S (e - S k)) in H by lia. split; [lia|exact H].
Qed.

Lemma slots_length count k :
  Forall (fun c => 0 <= c) count ->
  Z.of_nat (length (concat (imap (fun i => endpoint_slots (k + i)) count))) = sum_counts count.
Proof.
  intros F. revert k. induction F as [|c count Fc F IH]; intros k; [done|]. cbn [imap concat].
  assert (imap ((fun i => endpoint_slots (k + i)) ∘ S) count = imap (fun i => endpoint_slots (S k + i)) count) as E
    by (apply imap_ext; intros i x _; cbn; by rewrite Nat.add_succ_r).
  rewrite E, length_app, Nat2Z.inj_add, IH. unfold endpoint_slots. rewrite length_map, length_seq.
  unfold sum_counts; cbn [fold_right]. lia.
Qed.

(** [key_share] assigns exactly the connections there are, never to an
    endpoint that owns no keys (unless none owns any), and at least one to each
    endpoint that does when there are enough; no [expect] of it fails. *)
Theorem key_share_serves shares total :
  exists l, key_share_endpoints shares total = Some l /\ length l = total /\
    Forall (fun e => (e < Nat.max (length shares) 1)%nat) l /\
    (live_endpoints shares <> [] -> Forall (fun e => has_share shares e = true) l) /\
    (live_endpoints shares <> [] -> (length (live_endpoints shares) <= total)%nat ->
     forall e, e ∈ live_endpoints shares -> e ∈ l).
Proof.
  unfold key_share_endpoints. set (live := live_endpoints shares).
  assert (Forall (fun e => (e < length shares)%nat /\ has_share shares e = true) live) as FL.
  { apply Forall_forall. intros e [H1 H2%elem_of_seq]%list_elem_of_filter. split; [lia|done]. }
  destruct (bool_decide (live = []) || _) eqn:B.
  - set (pool := match live with [] => _ | _ => _ end).
    assert (length pool <> 0%nat /\ Forall (fun e => (e < Nat.max (length shares) 1)%nat) pool /\
            (live <> [] -> pool = live)) as (NP & FP & PL).
    { unfold pool. destruct live as [|e0 live'] eqn:EL.
      - rewrite length_seq. split_and!; [lia| |done]. apply Forall_forall. intros e He%elem_of_seq. lia.
      - split_and!; [done| |done]. eapply Forall_impl; [exact FL|]. intros e [? _]. lia. }
    assert (forall P, Forall P pool -> Forall P (map (fun i => nth (i mod length pool) pool 0%nat) (seq 0 total))) as FM.
    { intros P FPP. apply Forall_map, Forall_forall. intros i _. rewrite Forall_forall in FPP. apply FPP.
      apply list_elem_of_In, nth_In. by apply Nat.mod_upper_bound. }
    eexists. split_and!; [done|by rewrite length_map, length_seq|by apply FM| |].
    + intros N. apply FM. rewrite PL by done. eapply Forall_impl; [exact FL|]. by intros e [_ ?].
    + intros N L. apply orb_true_iff in B as [B%bool_decide_eq_true|B%Nat.ltb_lt]; [done|lia].
  - apply orb_false_iff in B as [N%bool_decide_eq_false B%Nat.ltb_ge].
    set (target := map _ shares). set (count := first_counts shares target). cbv zeta.
    assert (counts_ok shares count) as C.
    { unfold count, first_counts. split; [by rewrite length_map, length_seq|]. intros e He.
      rewrite nth_lookup, list_lookup_fmap, (lookup_seq_lt _ _ _ He). cbn.
      destruct (has_share shares e); [lia|done]. }
    destruct (raise_counts_spec shares target (Z.to_nat (Z.of_nat total - sum_counts count)) count C N) as (c1 & E1 & C1 & S1).
    fold live in E1. rewrite E1. cbn [mbind option_bind].
    destruct (lower_counts_spec shares target (Z.to_nat (sum_counts count - Z.of_nat total)) c1 C1) as (c2 & E2 & C2 & S2).
    { fold live. rewrite S1. lia. }
    rewrite E2. cbn [mbind option_bind]. eexists. split; [done|].
    set (l := concat (imap endpoint_slots c2)).
    assert (map snd (sort_slots l) ≡ₚ map snd l) as P by (apply Permutation_map, sort_slots_perm).
    assert (forall e, e ∈ map snd (sort_slots l) <-> 1 <= nth e c2 0) as EL.
    { intros e. rewrite P. pose proof (slots_elem c2 0 e) as SE. cbn in SE. rewrite Nat.sub_0_r in SE.
      unfold l. change (imap endpoint_slots c2) with (imap (fun i => endpoint_slots (0 + i)) c2). rewrite SE.
      split; [by intros [_ ?]|split; [lia|done]]. }
    destruct C2 as [L2 Cc2].
    assert (forall e, 1 <= nth e c2 0 -> (e < length shares)%nat /\ has_share shares e = true) as IN.
    { intros e He. destruct (decide (e < length c2)%nat) as [D|D]; [|rewrite nth_overflow in He by lia; lia].
      split; [lia|]. specialize (Cc2 e ltac:(lia)). destruct (has_share shares e); [done|lia]. }
    split_and!.
    + rewrite (Permutation_length P), length_map. pose proof (slots_length c2 0) as SL. cbn in SL. fold l in SL.
      assert (Forall (fun c => 0 <= c) c2) as F2.
      { apply Forall_lookup. intros e c Ec. pose proof (lookup_lt_Some _ _ _ Ec) as He. specialize (Cc2 e ltac:(lia)).
        rewrite nth_lookup, Ec in Cc2. cbn in Cc2. destruct (has_share shares e); lia. }
      specialize (SL F2). change (imap (fun i => endpoint_slots i) c2) with (imap endpoint_slots c2) in SL. fold l in SL. lia.
    + apply Forall_forall. intros e He. apply EL, IN in He as [? _]. lia.
    + intros _. apply Forall_forall. intros e He. by apply EL, IN in He as [_ ?].
    + intros _ _ e He. rewrite Forall_forall in FL. destruct (FL e He) as [Le Hs]. apply EL.
      specialize (Cc2 e Le). by rewrite Hs in Cc2.
Qed.

(** ** Lemmas: slices of the connections *)

Lemma share_slices total threads w :
  0 <= total -> 0 < threads -> 0 <= w < threads ->
  fst (connection_share total threads w) = snd (connection_share total threads (w + 1)) - snd (connection_share total threads w) /\
  total / threads <= fst (connection_share total threads w) /\ 0 <= snd (connection_share total threads w) /\
  snd (connection_share total threads 0) = 0 /\ snd (connection_share total threads threads) = total.
Proof.
  intros Ht Hn Hw. unfold connection_share. rewrite Z.max_l by lia.
  pose proof (Z.div_mod total threads ltac:(lia)) as E.
  pose proof (Z.mod_pos_bound total threads Hn) as R.
  pose proof (Z.div_pos total threads Ht Hn) as D.
  set (b := total / threads) in *. set (m := total mod threads) in *. clearbody b m.
  cbn [fst snd]. rewrite (proj2 (Z.ltb_ge threads m)) by lia.
  destruct (w <? m) eqn:E1, (w + 1 <? m) eqn:E2, (0 <? m) eqn:E3; split_and!; nia.
Qed.

(** Every connection belongs to a worker. *)
Lemma share_covers total threads i :
  0 < threads -> 0 <= i < total ->
  exists w, 0 <= w < threads /\ snd (connection_share total threads w) <= i <
            snd (connection_share total threads w) + fst (connection_share total threads w).
Proof.
  intros Hn Hi. set (start w := snd (connection_share total threads w)).
  assert (forall k, 0 <= k -> k <= threads -> i < start k -> exists w, 0 <= w < threads /\ start w <= i < start (w + 1)) as G.
  { intros k Hk. pattern k. apply natlike_ind; [|clear k Hk; intros k Hk IH|done].
    - intros _. unfold start. destruct (share_slices total threads 0) as (_ & _ & _ & S0 & _); lia.
    - intros Lk Li. destruct (decide (i < start k)) as [D|D]; [apply IH; lia|]. exists k. split; [lia|].
      unfold Z.succ in Li. lia. }
  destruct (share_slices total threads 0) as (_ & _ & _ & _ & S1); [lia..|].
  destruct (G threads ltac:(lia) ltac:(lia)) as (w & Hw & L); [unfold start; lia|]. exists w. split; [done|].
  destruct (share_slices total threads w) as (F & _); [lia..|]. unfold start in L. lia.
Qed.

(** As many consecutive connections as endpoints reach every endpoint. *)
Lemma slice_covers (start mine n e : nat) :
  (e < n)%nat -> (n <= mine)%nat -> e ∈ map (fun i => i mod n)%nat (seq start mine).
Proof.
  intros He Hm. apply list_elem_of_In, in_map_iff. exists (start + (e + (n - start mod n)) mod n)%nat.
  pose proof (Nat.mod_upper_bound start n ltac:(lia)). split.
  - rewrite Nat.Div0.add_mod_idemp_r. pose proof (Nat.div_mod start n ltac:(lia)) as E.
    replace (start + (e + (n - start mod n)))%nat with (e + (start / n + 1) * n)%nat by nia.
    rewrite Nat.Div0.mod_add. by apply Nat.mod_small.
  - apply in_seq. pose proof (Nat.mod_upper_bound (e + (n - start mod n)) n ltac:(lia)). lia.
Qed.

Lemma in_slice (start mine n i : nat) :
  (start <= i < start + mine)%nat -> (i mod n)%nat ∈ map (fun i => i mod n)%nat (seq start mine).
Proof. intros B. apply list_elem_of_In, (in_map (fun i => i mod n)%nat). apply in_seq. lia. Qed.

(** A worker's round-robin connections. *)
Lemma even_slice `{Rng} d total threads n w :
  0 <= total -> 0 < threads -> 0 <= w < threads ->
  my_connection_endpoints Even d total threads n w =
    Some (snd (connection_share total threads w),
          map (fun i => i mod Z.to_nat n)%nat
            (seq (Z.to_nat (snd (connection_share total threads w))) (Z.to_nat (fst (connection_share total threads w))))).
Proof.
  intros Ht Hn Hw. pose proof (share_slices total threads w Ht Hn Hw) as (F & F1 & F2 & F3 & F4).
  pose proof (Z.div_pos total threads Ht Hn).
  assert (snd (connection_share total threads w) + fst (connection_share total threads w) <= total) as B.
  { assert (forall k, 0 <= k -> w + 1 + k <= threads ->
      snd (connection_share total threads (w + 1)) <= snd (connection_share total threads (w + 1 + k))) as G.
    { intros k Hk. pattern k. apply natlike_ind; [|clear k Hk; intros k Hk IH|done]; intros Lk.
      - by rewrite Z.add_0_r.
      - specialize (IH ltac:(lia)). destruct (share_slices total threads (w + 1 + k)) as (A & A1 & _); [lia..|].
        replace (w + 1 + Z.succ k) with (w + 1 + k + 1) by lia. lia. }
    specialize (G (threads - (w + 1)) ltac:(lia) ltac:(lia)).
    replace (w + 1 + (threads - (w + 1))) with threads in G by lia. lia. }
  unfold my_connection_endpoints. destruct (connection_share total threads w) as [mine start]. cbn [fst snd] in *.
  unfold connection_endpoints. cbn [mbind option_bind]. rewrite length_map, length_seq.
  rewrite (proj2 (Nat.leb_le _ _)) by lia. do 2 f_equal.
  rewrite skipn_map, firstn_map, drop_seq, take_seq. f_equal. f_equal; lia.
Qed.

(** ** Properties *)

(** Once the node counts pass their check, no queue is left without a
    connection that drains it: with round-robin allocation every node's prefill
    queue is served by some worker, in a routed run every worker has a
    connection to every node, and every node's append queue has a writer. *)
Theorem node_counts_cover `{Rng} c d n :
  check_node_counts c n = Ok () -> 1 < n <= u64_max ->
  let total := total_connections (Config.connection c) in
  let threads := General.threads (Config.general c) in
  0 <= total < u64_max -> 0 < threads ->
  (forall w, 0 <= w < threads -> exists start es, my_connection_endpoints Even d total threads n w = Some (start, es) /\
     (Workload.routing (Config.workload c) = Routed -> forall e, (e < Z.to_nat n)%nat -> e ∈ es)) /\
  (Workload.prefill (Config.workload c) = true -> forall e, (e < Z.to_nat n)%nat ->
     exists w start es, 0 <= w < threads /\ my_connection_endpoints Even d total threads n w = Some (start, es) /\ e ∈ es) /\
  (forall a, Workload.append (Config.workload c) = Some a -> forall e, (e < Z.to_nat n)%nat ->
     exists w, 0 <= w < threads /\ e ∈ writer_endpoints (Append.connections a) threads n w).
Proof.
  intros CK Hn total threads Ht Hth. unfold check_node_counts in CK. fold total threads in CK.
  rewrite (proj2 (Z.ltb_lt 1 n)), !andb_true_r in CK by lia. cbn [andb] in CK.
  destruct (Workload.prefill _ && _) eqn:EP; [done|]. destruct (bool_decide _ && _) eqn:ER; [done|].
  assert (forall conns e, n <= conns -> (e < Z.to_nat n)%nat -> exists w, 0 <= w < threads /\
            e ∈ map (fun i => i mod Z.to_nat n)%nat (seq (Z.to_nat (snd (connection_share conns threads w)))
                                                         (Z.to_nat (fst (connection_share conns threads w))))) as COV.
  { intros conns e Hc He. destruct (share_covers conns threads (Z.of_nat e)) as (w & Hw & B); [lia|lia|].
    exists w. split; [done|]. destruct (share_slices conns threads w) as (_ & F1 & F2 & _); [lia..|].
    rewrite <- (Nat.mod_small e (Z.to_nat n) He). apply in_slice. lia. }
  split_and!.
  - intros w Hw. eexists _, _. split; [apply even_slice; lia|]. intros R e He.
    rewrite bool_decide_true in ER by done. cbn [andb] in ER. apply Z.ltb_ge in ER.
    apply slice_covers; [done|]. destruct (share_slices total threads w) as (_ & F1 & _); [lia..|].
    assert (threads * n <= total) as M by ulia. assert (n <= total / threads) by (apply Z.div_le_lower_bound; lia). lia.
  - intros P e He. rewrite P in EP. cbn [andb] in EP. apply Z.ltb_ge in EP.
    destruct (COV total e EP He) as (w & Hw & El). exists w. eexists _, _. split_and!; [lia|lia|apply even_slice; lia|done].
  - intros a EA e He. rewrite EA in CK. destruct (Append.connections a <? n) eqn:EC; [done|]. apply Z.ltb_ge in EC.
    destruct (COV _ e EC He) as (w & Hw & El). exists w. split; [done|]. unfold writer_endpoints.
    destruct (connection_share _ _ _) as [mine start]. cbn [fst snd] in El. rewrite Z.max_l by lia.
    rewrite <- (map_map (fun i => Z.to_nat start + i)%nat (fun i => i mod Z.to_nat n)%nat).
    pose proof (fmap_add_seq (Z.to_nat start) 0 (Z.to_nat mine)) as FS. rewrite Nat.add_0_r in FS.
    by rewrite <- FS in El.
Qed.

Lemma passed_insert ws i x y :
  ws !! i = Some x ->
  passed (<[i := y]> ws) = passed ws - has_passed x + has_passed y.
Proof.
  intros E. unfold passed. rewrite list_fmap_insert, sum_counts_insert by (rewrite length_map; by eapply lookup_lt_Some).
  assert (nth i (has_passed <$> ws) 0 = has_passed x) as -> by (by rewrite nth_lookup, list_lookup_fmap, E). lia.
Qed.

Lemma passed_le ws : 0 <= passed ws <= Z.of_nat (length ws).
Proof.
  induction ws as [|w ws IH]; [done|].
  change (passed (w :: ws)) with (has_passed w + passed ws). cbn [length].
  destruct w as [w|]; cbn [has_passed]; [destruct (ws_precheck_done w)|]; lia.
Qed.

(** All have passed when the count says so. *)
Lemma passed_all ws :
  passed ws = Z.of_nat (length ws) <->
  forall i, (i < length ws)%nat -> exists w, ws !! i = Some (Some w) /\ ws_precheck_done w = true.
Proof.
  induction ws as [|x ws IH]; cbn [length].
  { split; [intros _ i H; lia|done]. }
  pose proof (passed_le ws) as PL. change (passed (x :: ws)) with (has_passed x + passed ws).
  assert (has_passed x <= 1 /\ (has_passed x = 1 <-> exists w, x = Some w /\ ws_precheck_done w = true)) as [X1 X2].
  { destruct x as [w|]; cbn; [destruct (ws_precheck_done w) eqn:D|]; (split; [lia|]).
    - split; [intros _; by exists w|done].
    - split; [lia|]. intros (w' & [= <-] & ?). congruence.
    - split; [lia|]. by intros (w' & ? & _). }
  split.
  + intros E. destruct (proj1 X2 ltac:(lia)) as (w & -> & D). intros [|i] Hi; [by exists w|].
    apply (proj1 IH); [lia|lia].
  + intros H. destruct (H 0%nat ltac:(lia)) as (w & [= ->] & D).
    rewrite (proj2 X2) by (by exists w). rewrite (proj2 IH); [lia|]. intros i Hi. by apply (H (S i) ltac:(lia)).
Qed.

(** The count of workers that passed, and who can have passed. *)
Definition precheck_inv (total threads : Z) (st : list (option WorkerState) * SharedState) : Prop :=
  ss_precheck_done st.2 = passed st.1 /\
  forall i w, st.1 !! i = Some (Some w) ->
    ws_my_connections w = fst (connection_share total threads (Z.of_nat i)) /\
    (ws_my_connections w = 0 -> ws_precheck_done w = true).

Lemma precheck_inv_step total threads st st' :
  Z.of_nat (length st.1) <= u64_max -> precheck_step total threads st st' -> precheck_inv total threads st ->
  precheck_inv total threads st' /\ length st'.1 = length st.1.
Proof.
  intros B St [P W]. assert (forall ws i x (y : WorkerState) n, ws !! i = Some x -> Z.of_nat (length ws) <= u64_max -> 
    n = passed ws - has_passed x + has_passed (Some y) -> wrap64 n = passed (<[i := Some y]> ws)) as K.
  { intros ws i x y n E L ->. rewrite (passed_insert _ _ _ _ E). apply wrap64_small.
    rewrite <- (passed_insert _ _ _ (Some y) E). pose proof (passed_le (<[i:=Some y]> ws)).
    rewrite length_insert in *. lia. }
  destruct St as [ws s i recording w s' E C|ws s i w w' s' E M C|ws s i w w' stop E C|ws s|ws s p]; cbn [fst snd] in *.
  - split; [|by rewrite length_insert]. unfold create_for_worker in C.
    remember (fst (connection_share total threads (Z.of_nat i))) as m eqn:Em. injection C as <- <-. split; cbn [fst snd].
    + destruct (m =? 0) eqn:Z0; cbn.
      * eapply K; [exact E|done|]. rewrite P. cbn. lia.
      * rewrite (passed_insert _ _ _ _ E), P. cbn. lia.
    + intros j x Ej. destruct (decide (i = j)) as [<-|N].
      * rewrite list_lookup_insert_eq in Ej by (by eapply lookup_lt_Some). injection Ej as <-. cbn. split; [done|].
        by intros ->.
      * rewrite list_lookup_insert_ne in Ej by done. by apply W.
  - split; [|by rewrite length_insert]. unfold mark_precheck_done in C.
    destruct (ws_precheck_done w) eqn:D; injection C as <- <-; split; cbn [fst snd].
    + by rewrite list_insert_id.
    + by rewrite list_insert_id.
    + cbn. eapply K; [exact E|done|]. rewrite P. cbn. rewrite D. cbn. lia.
    + intros j x Ej. destruct (decide (i = j)) as [<-|N].
      * rewrite list_lookup_insert_eq in Ej by (by eapply lookup_lt_Some). injection Ej as <-. cbn. split; [|done].
        by apply W.
      * rewrite list_lookup_insert_ne in Ej by done. by apply W.
  - split; [|by rewrite length_insert].
    assert (ws_precheck_done w' = ws_precheck_done w /\ ws_my_connections w' = ws_my_connections w) as [D1 D2].
    { unfold on_tick in C. injection C as <- _. by destruct (bool_decide _). }
    split; cbn [fst snd].
    + rewrite (passed_insert _ _ _ _ E), P. cbn. rewrite D1. lia.
    + intros j x Ej. destruct (decide (i = j)) as [<-|N].
      * rewrite list_lookup_insert_eq in Ej by (by eapply lookup_lt_Some). injection Ej as <-. rewrite D1, D2. by apply W.
      * rewrite list_lookup_insert_ne in Ej by done. by apply W.
  - by split.
  - by split.
Qed.

Lemma precheck_inv_reachable total threads st st' :
  Z.of_nat (length st.1) <= u64_max -> rtc (precheck_step total threads) st st' -> precheck_inv total threads st ->
  precheck_inv total threads st' /\ length st'.1 = length st.1.
Proof.
  intros B R. induction R as [|s1 s2 s3 St _ IH]; [done|]. intros I.
  destruct (precheck_inv_step _ _ _ _ B St I) as [I2 L2]. rewrite <- L2 in B. destruct (IH B I2) as [I3 L3]. split; [done|congruence].
Qed.

Lemma precheck_inv_start total threads workers : precheck_inv total threads (replicate workers None, new_shared).
Proof.
  split; cbn; [|intros i w Ei; apply lookup_replicate_1 in Ei as [? _]; done].
  unfold passed. induction workers as [|n IH]; [done|]. cbn. exact IH.
Qed.

(** The precheck count is exact.  However worker starts, successful
    prechecks and phase changes interleave, the count the runner waits for is
    the number of workers that have passed, each once however many of its
    connections succeed; it reaches the number of workers exactly when all have
    passed, and a worker without connections does not hold it up. *)
Theorem precheck_count_exact total threads workers ws s :
  Z.of_nat workers <= u64_max ->
  rtc (precheck_step total threads) (replicate workers None, new_shared) (ws, s) ->
  ss_precheck_done s = passed ws /\
  (ss_precheck_done s = Z.of_nat workers <->
   forall i, (i < workers)%nat -> exists w, ws !! i = Some (Some w) /\ ws_precheck_done w = true) /\
  (forall i w, ws !! i = Some (Some w) -> fst (connection_share total threads (Z.of_nat i)) = 0 -> ws_precheck_done w = true).
Proof.
  intros B R. rewrite <- (length_replicate workers (@None WorkerState)) in B.
  destruct (precheck_inv_reachable total threads (replicate workers None, new_shared) _ B R) as [[P W] L].
  { apply precheck_inv_start. }
  cbn [fst snd] in *. rewrite length_replicate in L. split_and!; [done| |].
  - rewrite P, <- L. apply passed_all.
  - intros i w Ei Z0. destruct (W _ _ Ei) as [E1 E2]. apply E2. congruence.
Qed.

(** *** Witnesses *)

Definition example_nodes_config : Config.t :=
  (minimal_config 4 [] MemcacheBinary)
    <| Config.connection := Connection_default <| Connection.connections := 8 |> |>.

Lemma node_counts_cover_witness :
  exists start es, @my_connection_endpoints counting_rng Even (KUniform 8) 8 4 3 0 = Some (start, es).
Proof.
  destruct (proj1 (@node_counts_cover counting_rng example_nodes_config (KUniform 8) 3 ltac:(vm_compute; reflexivity)
    ltac:(unfold u64_max; lia) ltac:(vm_compute; split; [discriminate|reflexivity]) ltac:(vm_compute; reflexivity)) 0
    ltac:(vm_compute; split; [discriminate|reflexivity])) as (start & es & E & _).
  exists start, es. exact E.
Defined.

(** Two workers, one connection: worker 1 has none. *)
Definition example_workers : list (option WorkerState) :=
  [None; Some {| ws_my_connections := 0; ws_precheck_done := true; ws_recording := false; ws_last_phase := Connect |}].

Lemma precheck_count_exact_witness : ss_precheck_done (mark_precheck_complete new_shared) = 1.
Proof.
  assert (rtc (precheck_step 1 2) (replicate 2 None, new_shared) (example_workers, mark_precheck_complete new_shared)) as R.
  { eapply rtc_l; [apply (ps_start 1 2 _ _ 1%nat false); [reflexivity|vm_compute; reflexivity]|]. apply rtc_refl. }
  exact (proj1 (precheck_count_exact 1 2 2 example_workers _ ltac:(vm_compute; discriminate) R)).
Defined.

(** Three endpoints with shares one half, none and one half. *)
Definition example_shares : list f64 := [f64_lit 1 2; f64_zero; f64_lit 1 2].

Lemma example_key_share : key_share_endpoints example_shares 5 = Some [2; 0; 2; 0; 2]%nat.
Proof. vm_compute. reflexivity. Qed.

Lemma key_share_serves_witness : exists l, key_share_endpoints example_shares 5 = Some l /\ length l = 5%nat /\ 2%nat ∈ l.
Proof.
  destruct (key_share_serves example_shares 5) as (l & E & L & _ & _ & A). exists l. split; [exact E|]. split; [exact L|].
  assert (live_endpoints example_shares = [0; 2]%nat) as EL by (vm_compute; reflexivity).
  rewrite EL in A. apply A; [discriminate|cbn; lia|right; left].
Defined.
