(* ===== verification/Recorder.v ===== *)
(** Recorder: the admin thread's two tasks, the Parquet recorder and the
    accept loop of the metrics endpoint, and the main thread's shutdown of them
    ([src/src/admin/mod.rs]: [AdminServer::run], [AdminHandle::shutdown],
    [serve_admin], [run_parquet_recorder]).

    The admin thread runs one task at a time up to an await; the main thread
    runs beside it.  A [select!] whose branches are both ready takes either.
    tokio's [Notify] is the class below; the clock, the listener, the file
    system and metriken's encodings are what a step reads. *)

From S2P Require Import Prelude F64 Text Workload Startup.
Open Scope Z_scope.

(** ** [tokio::sync::Notify]

    [notified] makes a future, [notify_waiters] completes those that exist and
    stores nothing for later ones. *)
Class Notify (N F : Type) := {
  notify_new : N;
  notified : N -> F;
  notify_waiters : N -> N;
  fired : N -> F -> bool;
  fired_new : forall n, fired n (notified n) = false;
  fired_waiting : forall n, fired (notify_waiters n) (notified n) = true;
}.

(** A count of the calls, and the count a future began at. *)
#[export] Instance counting_notify : Notify nat nat := {|
  notify_new := 0%nat;
  notified := fun n => n;
  notify_waiters := S;
  fired := fun n f => (f <? n)%nat;
  fired_new := Nat.ltb_irrefl;
  fired_waiting := fun n => proj2 (Nat.ltb_lt n (S n)) (Nat.lt_succ_diag_r n);
|}.

(** ** The staging file *)

(** [to_msgpack]'s answer for a snapshot, and how the write ends: [Some k] is
    an error after [k] bytes. *)
Record StageWrite := { ap_msgpack : option (list Z); ap_fault : option nat }.

Record Staging := { st_bytes : list Z; st_snapshots : Z }.

Definition staging_new : Staging := {| st_bytes := []; st_snapshots := 0 |}.

(** [append_snapshot] and the count of its caller. *)
Definition append_snapshot (a : StageWrite) (s : Staging) : Staging :=
  match ap_msgpack a with
  | None => s
  | Some bytes =>
      match ap_fault a with
      | None => {| st_bytes := st_bytes s ++ bytes; st_snapshots := st_snapshots s + 1 |}
      | Some k => {| st_bytes := st_bytes s ++ take k bytes; st_snapshots := st_snapshots s |}
      end
  end.

(** How [run_parquet_recorder] ends: the file could not be opened, or not
    flushed; nothing to write; the conversion's answer. *)
Inductive Outcome := NotOpened | NotFlushed | Nothing | NotConverted | Written (rows : Z).

(** The end of [run_parquet_recorder], after the last append: the outcome, and
    whether it removes the staging file. *)
Definition convert_staged (flush_ok : bool) (convert : list Z -> option Z) (s : Staging) : Outcome * bool :=
  if negb flush_ok then (NotFlushed, false)
  else if st_snapshots s =? 0 then (Nothing, true)
  else match convert (st_bytes s) with Some rows => (Written rows, true) | None => (NotConverted, true) end.

(** [msgpack_temp_path]. *)
Definition msgpack_temp_path (parquet_path : list Z) : list Z := parquet_path ++ bytes_of ".msgpack.tmp".

(** [parquet_converter]'s metadata; [interval] in nanoseconds. *)
Definition parquet_metadata (interval : Z) (version template : list Z) : list (list Z * list Z) :=
  [(bytes_of "sampling_interval_ms", show (interval / 1000000)); (bytes_of "source", bytes_of "cachecannon");
   (bytes_of "version", version); (bytes_of "service_queries", template)].

(** ** The threads *)

Section recorder.
Context {N F : Type} `{Notify N F}.

(** The recorder: not configured, not polled yet, in the [select!], in the
    branch of the timer, out of the loop, returned. *)
Inductive Rec := RNone | RStart | RSelect (f : F) | RTick | RStopped | REnded (o : Outcome) (removed : bool).

(** The accept loop, in the same way. *)
Inductive Srv := VNone | VStart | VSelect (f : F) | VAccepted | VEnded.

(** The main thread: running, in [join], after it. *)
Inductive Main := MRun | MJoin | MJoined.

Record AdminSys := { sy_notify : N; sy_rec : Rec; sy_staging : Staging; sy_srv : Srv; sy_main : Main }.

Definition set_rec (r : Rec) (s : AdminSys) : AdminSys :=
  {| sy_notify := sy_notify s; sy_rec := r; sy_staging := sy_staging s; sy_srv := sy_srv s; sy_main := sy_main s |}.

Definition set_staging (st : Staging) (s : AdminSys) : AdminSys :=
  {| sy_notify := sy_notify s; sy_rec := sy_rec s; sy_staging := st; sy_srv := sy_srv s; sy_main := sy_main s |}.

Definition set_srv (v : Srv) (s : AdminSys) : AdminSys :=
  {| sy_notify := sy_notify s; sy_rec := sy_rec s; sy_staging := sy_staging s; sy_srv := v; sy_main := sy_main s |}.

Definition set_main (n : N) (m : Main) (s : AdminSys) : AdminSys :=
  {| sy_notify := n; sy_rec := sy_rec s; sy_staging := sy_staging s; sy_srv := sy_srv s; sy_main := m |}.

(** [AdminServer::run]: a task for each configured part. *)
Definition admin_run (listen parquet : bool) : AdminSys :=
  {| sy_notify := notify_new; sy_rec := if parquet then RStart else RNone; sy_staging := staging_new;
     sy_srv := if listen then VStart else VNone; sy_main := MRun |}.

(** What a step reads from outside. *)
Inductive Label :=
| Open_ (ok : bool)
| Elapsed
| Body (phase : Phase) (a : StageWrite)
| Stop_
| Finish (a : StageWrite) (flush_ok : bool) (convert : list Z -> option Z)
| Bind_ (ok : bool)
| Accept_
| Spawned
| StopServer
| Shutdown
| Join.

(** The recorder's steps. *)
Definition rec_step (l : Label) (s : AdminSys) : option AdminSys :=
  match l, sy_rec s with
  | Open_ ok, RStart => Some (set_rec (if ok then RSelect (notified (sy_notify s)) else REnded NotOpened false) s)
  | Elapsed, RSelect _ => Some (set_rec RTick s)
  | Body phase a, RTick =>
      Some (set_rec (RSelect (notified (sy_notify s))) (if is_recording phase then set_staging (append_snapshot a (sy_staging s)) s else s))
  | Stop_, RSelect f => if fired (sy_notify s) f then Some (set_rec RStopped s) else None
  | Finish a flush_ok convert, RStopped =>
      let st := append_snapshot a (sy_staging s) in
      let (o, removed) := convert_staged flush_ok convert st in
      Some (set_rec (REnded o removed) (set_staging st s))
  | _, _ => None
  end.

(** The accept loop's; the task that answers a request is not waited for. *)
Definition srv_step (l : Label) (s : AdminSys) : option AdminSys :=
  match l, sy_srv s with
  | Bind_ ok, VStart => Some (set_srv (if ok then VSelect (notified (sy_notify s)) else VEnded) s)
  | Accept_, VSelect _ => Some (set_srv VAccepted s)
  | Spawned, VAccepted => Some (set_srv (VSelect (notified (sy_notify s))) s)
  | StopServer, VSelect f => if fired (sy_notify s) f then Some (set_srv VEnded s) else None
  | _, _ => None
  end.

Definition rec_over (r : Rec) : bool := match r with RNone | REnded _ _ => true | _ => false end.

Definition srv_over (v : Srv) : bool := match v with VNone | VEnded => true | _ => false end.

(** [AdminHandle::shutdown], which the handle's drop calls once: the
    notification, then the join of the thread, which ends with its tasks. *)
Definition main_step (l : Label) (s : AdminSys) : option AdminSys :=
  match l, sy_main s with
  | Shutdown, MRun => Some (set_main (notify_waiters (sy_notify s)) MJoin s)
  | Join, MJoin => if rec_over (sy_rec s) && srv_over (sy_srv s) then Some (set_main (sy_notify s) MJoined s) else None
  | _, _ => None
  end.

Definition admin_step (s : AdminSys) (l : Label) : option AdminSys :=
  match l with
  | Open_ _ | Elapsed | Body _ _ | Stop_ | Finish _ _ _ => rec_step l s
  | Bind_ _ | Accept_ | Spawned | StopServer => srv_step l s
  | Shutdown | Join => main_step l s
  end.

Fixpoint admin_steps (s : AdminSys) (ls : list Label) : option AdminSys :=
  match ls with
  | [] => Some s
  | l :: ls => s ← admin_step s l; admin_steps s ls
  end.

End recorder.

Arguments Rec : clear implicits.
Arguments Srv : clear implicits.
Arguments AdminSys : clear implicits.

(** ** Lemmas *)

Section facts.
Context {N F : Type} `{NT : Notify N F}.

(** Whether a task that the join waits for can still return. *)
Definition rec_can_end (n : N) (r : Rec F) : bool :=
  match r with RSelect f => fired n f | RTick => false | _ => true end.

Definition srv_can_end (n : N) (v : Srv F) : bool :=
  match v with VSelect f => fired n f | VAccepted => false | _ => true end.

Lemma sys_run_app (s : AdminSys N F) ls1 ls2 : admin_steps s (ls1 ++ ls2) = (s' ← admin_steps s ls1; admin_steps s' ls2).
Proof.
  revert s. induction ls1 as [|l ls1 IH]; intros s; [done|]. cbn. destruct (admin_step s l); [apply IH|done].
Qed.

(** Case analysis of a step. *)
Ltac step_cases E :=
  match type of E with
  | admin_step ?s ?l = Some _ =>
      destruct l; cbn in E; repeat match type of E with
      | context [match ?x with _ => _ end] => destruct x eqn:?; try discriminate E
      end; first [discriminate E | injection E as <-]
  end.

(** While the main thread runs, a task in its [select!] holds a future made
    since the last notification. *)
Definition selects_now (s : AdminSys N F) : Prop :=
  sy_main s = MRun ->
  (forall f, sy_rec s = RSelect f -> f = notified (sy_notify s)) /\ (forall f, sy_srv s = VSelect f -> f = notified (sy_notify s)).

Lemma selects_now_step s l s' : selects_now s -> admin_step s l = Some s' -> selects_now s'.
Proof.
  intros I E. unfold selects_now in *. step_cases E; cbn; intros M; try discriminate M; destruct (I M) as [Ir Is]; split; intros f' Ef;
    try discriminate Ef; try (by injection Ef as <-); try (by apply Ir); try (by apply Is).
Qed.

Lemma selects_now_run s ls s' : selects_now s -> admin_steps s ls = Some s' -> selects_now s'.
Proof.
  revert s. induction ls as [|l ls IH]; intros s I E; cbn in E; [by injection E as <-|].
  destruct (admin_step s l) eqn:E1; [|done]. eapply IH; [by eapply selects_now_step|exact E].
Qed.

Lemma selects_now_start listen parquet : selects_now (admin_run (N := N) (F := F) listen parquet).
Proof. intros _. split; intros f E; [by destruct parquet|by destruct listen]. Qed.

(** After the notification nothing notifies again, and a task that missed it
    goes round its loop for ever. *)
Definition stuck (s : AdminSys N F) : Prop :=
  sy_main s = MJoin /\ (rec_can_end (sy_notify s) (sy_rec s) = false \/ srv_can_end (sy_notify s) (sy_srv s) = false).

Lemma rec_over_can_end n r : rec_over r = true -> rec_can_end n r = true.
Proof. by destruct r. Qed.

Lemma srv_over_can_end n v : srv_over v = true -> srv_can_end n v = true.
Proof. by destruct v. Qed.

Lemma stuck_step s l s' : stuck s -> admin_step s l = Some s' -> stuck s'.
Proof.
  destruct s as [n r st v m]. intros [M Cn] E. cbn in M, Cn. subst m. unfold stuck.
  step_cases E; cbn in *; subst; cbn in *; rewrite ?fired_new; try (split; [done|]); try (destruct Cn as [Cn|Cn]; (congruence || by auto)).
  apply andb_true_iff in Heqb as [Or Ov]. apply (rec_over_can_end n) in Or. apply (srv_over_can_end n) in Ov. destruct Cn; congruence.
Qed.

Lemma stuck_run s ls s' : stuck s -> admin_steps s ls = Some s' -> stuck s'.
Proof.
  revert s. induction ls as [|l ls IH]; intros s I E; cbn in E; [by injection E as <-|].
  destruct (admin_step s l) eqn:E1; [|done]. eapply IH; [by eapply stuck_step|exact E].
Qed.

(** The steps that end a task which can end, whatever the appends do. *)
Definition rec_ending (r : Rec F) : list Label :=
  let finish := Finish {| ap_msgpack := None; ap_fault := None |} true (fun _ => None) in
  match r with RStart => [Open_ false] | RSelect _ => [Stop_; finish] | RStopped => [finish] | _ => [] end.

Definition srv_ending (v : Srv F) : list Label :=
  match v with VStart => [Bind_ false] | VSelect _ => [StopServer] | _ => [] end.

Lemma rec_ends s : rec_can_end (sy_notify s) (sy_rec s) = true -> exists s', admin_steps s (rec_ending (sy_rec s)) = Some s' /\
  rec_over (sy_rec s') = true /\ sy_srv s' = sy_srv s /\ sy_notify s' = sy_notify s /\ sy_main s' = sy_main s.
Proof.
  destruct s as [n r st v m]. cbn. intros C. destruct r; cbn in *; try discriminate C; try (by eexists); rewrite ?C; cbn;
    destruct (st_snapshots st =? 0); by eexists.
Qed.

Lemma srv_ends s : srv_can_end (sy_notify s) (sy_srv s) = true -> exists s', admin_steps s (srv_ending (sy_srv s)) = Some s' /\
  srv_over (sy_srv s') = true /\ sy_rec s' = sy_rec s /\ sy_main s' = sy_main s.
Proof. destruct s as [n r st v m]. cbn. intros C. destruct v; cbn in *; try discriminate C; try (by eexists); rewrite ?C; by eexists. Qed.

(** The join returns on some continuation exactly when both tasks can end. *)
Lemma join_returns s : sy_main s = MJoin ->
  (exists ls s', admin_steps s ls = Some s' /\ sy_main s' = MJoined) <->
  rec_can_end (sy_notify s) (sy_rec s) = true /\ srv_can_end (sy_notify s) (sy_srv s) = true.
Proof.
  intros M. split.
  - intros (ls & s1 & E & M1).
    destruct (rec_can_end _ _) eqn:R, (srv_can_end _ _) eqn:V; try done;
      (destruct (stuck_run s ls s1) as [Mj _]; [split; [exact M|by auto]|exact E|congruence]).
  - intros [R V]. destruct (rec_ends s R) as (s1 & E1 & O1 & V1 & N1 & M1).
    destruct (srv_ends s1) as (s2 & E2 & O2 & R2 & M2); [by rewrite V1, N1|].
    exists (rec_ending (sy_rec s) ++ srv_ending (sy_srv s1) ++ [Join]). rewrite sys_run_app, E1. cbn. rewrite sys_run_app, E2. cbn.
    rewrite M2, M1, M, R2, O1, O2. cbn. by eexists.
Qed.

(** What a run of the threads appends: a snapshot for each turn of the timer
    in the recording phase, and one when the recorder stops. *)
Definition appended (l : Label) : list StageWrite :=
  match l with
  | Body phase a => if is_recording phase then [a] else []
  | Finish a _ _ => [a]
  | _ => []
  end.

Definition appends (ls : list Label) : list StageWrite := concat (map appended ls).

Definition append_bytes (a : StageWrite) : list Z := default [] (ap_msgpack a).

(** An append that is encoded and written whole. *)
Definition whole (a : StageWrite) : Prop := is_Some (ap_msgpack a) /\ ap_fault a = None.

Lemma append_whole a st : whole a ->
  append_snapshot a st = {| st_bytes := st_bytes st ++ append_bytes a; st_snapshots := st_snapshots st + 1 |}.
Proof. intros [[b E] Nf]. unfold append_snapshot, append_bytes. by rewrite E, Nf. Qed.

Lemma appends_snoc ls l : appends (ls ++ [l]) = appends ls ++ appended l.
Proof. unfold appends. rewrite map_app, concat_app. cbn. by rewrite app_nil_r. Qed.

(** Everything appended is staged; the recorder leaves its loop, and ends,
    only after the shutdown, with its last snapshot staged. *)
Record recorded (ls : list Label) (s : AdminSys N F) : Prop := {
  rd_bytes : st_bytes (sy_staging s) = concat (map append_bytes (appends ls));
  rd_count : st_snapshots (sy_staging s) = Z.of_nat (length (appends ls));
  rd_stopped : sy_rec s = RStopped -> sy_main s <> MRun;
  rd_ended : forall o removed, sy_rec s = REnded o removed -> o = NotOpened \/
    sy_main s <> MRun /\ 0 < st_snapshots (sy_staging s) /\
    exists a flush_ok convert, Finish a flush_ok convert ∈ ls /\ convert_staged flush_ok convert (sy_staging s) = (o, removed);
}.

Lemma staging_step s l s' : admin_step s l = Some s' -> sy_staging s' = fold_left (fun st a => append_snapshot a st) (appended l) (sy_staging s).
Proof. intros E. step_cases E; cbn; by rewrite ?Heqb. Qed.

Lemma appends_staged l st : Forall whole l -> let st' := fold_left (fun st a => append_snapshot a st) l st in
  st_bytes st' = st_bytes st ++ concat (map append_bytes l) /\ st_snapshots st' = st_snapshots st + Z.of_nat (length l).
Proof.
  intros W. revert st. induction W as [|a l Wa W IH]; intros st; cbn; [rewrite app_nil_r; split; [done|lia]|].
  destruct (IH (append_snapshot a st)) as [B C]. rewrite B, C, append_whole by done. cbn [st_bytes st_snapshots].
  split; [by rewrite <- app_assoc|lia].
Qed.

Lemma recorded_step ls s l s' :
  selects_now s -> recorded ls s -> Forall whole (appended l) -> admin_step s l = Some s' -> recorded (ls ++ [l]) s'.
Proof.
  intros Sel [B C St En] W E. pose proof (appends_staged (appended l) (sy_staging s) W) as [B' C']. rewrite <- (staging_step _ _ _ E) in B', C'.
  split.
  - by rewrite B', B, appends_snoc, map_app, concat_app.
  - rewrite C', C, appends_snoc, length_app. lia.
  - clear B C B' C' En. unfold selects_now in Sel. step_cases E; cbn in *; try done; auto.
    intros _ M. destruct (Sel M) as [Ir _]. rewrite (Ir _ eq_refl), fired_new in Heqb. done.
  - intros o removed R. assert (Keep : sy_rec s' = sy_rec s -> appended l = [] -> (sy_main s <> MRun -> sy_main s' <> MRun) ->
      o = NotOpened \/ sy_main s' <> MRun /\ 0 < st_snapshots (sy_staging s') /\
      exists a flush_ok convert, Finish a flush_ok convert ∈ ls ++ [l] /\ convert_staged flush_ok convert (sy_staging s') = (o, removed)).
    { intros Same None_ M. rewrite Same in R. rewrite (staging_step _ _ _ E), None_. cbn.
      destruct (En o removed R) as [->|(M' & P & a & fl & conv & I & Cv)]; [by left|]. right. split; [by apply M|]. split; [done|].
      exists a, fl, conv. split; [|done]. apply elem_of_app. by left. }
    step_cases E; cbn in *; try (by apply Keep; [congruence|..]); try discriminate R; [injection R as <- <-; by left|].
    right. injection R as <- <-. split; [by apply St|]. split; [rewrite C', C; lia|].
    exists a, flush_ok, convert. split; [apply elem_of_app; right; by apply list_elem_of_singleton|done].
Qed.

Lemma recorded_run listen ls : forall s, Forall whole (appends ls) -> admin_steps (admin_run (N := N) (F := F) listen true) ls = Some s ->
  recorded ls s.
Proof.
  induction ls as [|l ls IH] using rev_ind; intros s W E.
  - injection E as <-. split; cbn; done.
  - rewrite appends_snoc in W. apply Forall_app in W as [W1 W2]. rewrite sys_run_app in E.
    destruct (admin_steps _ ls) as [s1|] eqn:E1; [|done]. cbn in E. destruct (admin_step s1 l) as [s2|] eqn:E2; [|done]. injection E as <-.
    eapply recorded_step; [eapply selects_now_run; [apply selects_now_start|exact E1]|by apply IH|exact W2|exact E2].
Qed.

(** ** Properties *)


(** A recording is whole.  If every snapshot is encoded and written, a recorder
    that opened its file ends only after the shutdown, with what it converts
    being the snapshots of the recording phase and the last one, in their
    order; there is always that last one, so it is never without rows. *)
Theorem recording_is_whole listen ls (s : AdminSys N F) o removed :
  admin_steps (admin_run listen true) ls = Some s -> Forall whole (appends ls) ->
  sy_rec s = REnded o removed -> o <> NotOpened ->
  sy_main s <> MRun /\ exists a flush_ok convert, Finish a flush_ok convert ∈ ls /\
    (o, removed) = if flush_ok then (match convert (concat (map append_bytes (appends ls))) with Some rows => Written rows | None => NotConverted end, true)
                   else (NotFlushed, false).
Proof.
  intros E W R Op. destruct (recorded_run listen ls s W E) as [B C _ En].
  destruct (En o removed R) as [|(M & P & a & fl & conv & I & Cv)]; [done|]. split; [exact M|]. exists a, fl, conv. split; [exact I|].
  rewrite <- Cv. unfold convert_staged. rewrite (proj2 (Z.eqb_neq _ 0)) by lia. rewrite B. destruct fl; [cbn; by destruct (conv _)|done].
Qed.

End facts.

(** ** Runs *)

Definition example_append (n : Z) : StageWrite := {| ap_msgpack := Some [n]; ap_fault := None |}.

(** Waiting, both tasks end. *)
Definition example_waiting : list Label :=
  [Open_ true; Bind_ true; Elapsed; Body Warmup (example_append 1); Elapsed; Body Running (example_append 2); Accept_; Spawned].

Definition example_sys (ls : list Label) : AdminSys nat nat := default (admin_run true true) (admin_steps (admin_run true true) ls).


(** The snapshot of the warmup is not in the file. *)
Lemma recording_is_whole_witness :
  let ls := example_waiting ++ [Shutdown; Stop_; Finish (example_append 3) true (fun bytes => Some (Z.of_nat (length bytes)))] in
  sy_rec (example_sys ls) = REnded (Written 2) true /\ sy_main (example_sys ls) <> MRun.
Proof.
  intros ls. split; [reflexivity|].
  refine (proj1 (recording_is_whole true ls (example_sys ls) (Written 2) true eq_refl _ eq_refl _)); [|discriminate].
  repeat constructor; eauto.
Defined.

(** An append that fails part of the way leaves its bytes in the file, before
    those of the snapshots that follow. *)
Example torn_append :
  st_bytes (append_snapshot (example_append 7) (append_snapshot {| ap_msgpack := Some [4; 5; 6]; ap_fault := Some 1%nat |} staging_new)) = [4; 7].
Proof. reflexivity. Qed.
