(* ===== verification/Sizing.v ===== *)
(** Sizing: the resources the runner asks ringline for ([src/src/runner.rs]):
    tasks, the receive ring, the zero-copy send slab and the send pool.

    [usize] arithmetic the source writes with [+] and [*] wraps here
    ([wrap64]); the theorems state when it does not. *)

From S2P Require Import Prelude F64 Config Validate Keys KeyDist Workload Trace KvRequest Startup.
Open Scope Z_scope.

Definition RINGLINE_POOL_MAX : Z := 2 ^ 31 - 1.

Definition RINGLINE_POOL_DEFAULT : Z := 256.

Definition POOL_HEADROOM : Z := 16.

Definition RECV_RING_SIZE_DEFAULT : Z := 256.

Definition RECV_BUFFER_SIZE_DEFAULT : Z := 16 * 1024.

Definition TLS_RECORD_PLAINTEXT : Z := 16384.

Definition RINGLINE_SEND_POOL_DEFAULT : Z := 1024.

Definition RINGLINE_SEND_SLAB_DEFAULT : Z := 512.

Definition MAX_GUARDS_PER_SEND : Z := 8.

(** [connections_per_worker]. *)
Definition connections_per_worker (total_connections num_threads : Z) : Z :=
  div_ceil total_connections (Z.max num_threads 1).

(** [standalone_task_capacity]. *)
Definition standalone_task_capacity (total_connections num_threads : Z) : Z :=
  clampZ (sat_add (connections_per_worker total_connections num_threads) POOL_HEADROOM)
    RINGLINE_POOL_DEFAULT RINGLINE_POOL_MAX.

(** [resolved_recv_geometry]. *)
Definition resolved_recv_geometry (c : Config.t) : Z * Z :=
  (default RECV_RING_SIZE_DEFAULT (General.recv_ring_size (Config.general c)),
   default RECV_BUFFER_SIZE_DEFAULT (General.recv_buffer_size (Config.general c))).

(** [effective_warmup], in nanoseconds. *)
Definition effective_warmup (c : Config.t) : Z :=
  if Workload.prefill (Config.workload c)
  then General.warmup (Config.general c) + Workload.prefill_settle (Config.workload c)
  else General.warmup (Config.general c).

(** ** [SendLoad] *)

Record SendLoad := {
  sl_connections : Z;
  sl_pipeline_depth : Z;
  sl_batch_size : Z;
  sl_key_len : Z;
  sl_value_len : Z;
  sl_tls : bool;
  lookup_bytes : Z;
}.

#[export] Instance eta_SendLoad : Settable SendLoad := fun x =>
  {| sl_connections := sl_connections x; sl_pipeline_depth := sl_pipeline_depth x; sl_batch_size := sl_batch_size x;
     sl_key_len := sl_key_len x; sl_value_len := sl_value_len x; sl_tls := sl_tls x; lookup_bytes := lookup_bytes x |}.

(** [SendLoad::main]. *)
Definition main_load (c : Config.t) : SendLoad :=
  {| sl_connections := total_connections (Config.connection c);
     sl_pipeline_depth := Connection.pipeline_depth (Config.connection c);
     sl_batch_size := effective_batch_size c;
     sl_key_len := Keyspace.length (Workload.keyspace (Config.workload c));
     sl_value_len := Values.length (Workload.values (Config.workload c));
     sl_tls := Target.tls (Config.target c);
     lookup_bytes := 0 |}.

(** [SendLoad::kv_replay], of a replay's longest key, largest object and most
    objects. *)
Definition kv_replay_load (c : Config.t) (max_key_len max_object_size max_objects : Z) : SendLoad :=
  (main_load c) <| sl_key_len := max_key_len |> <| sl_value_len := max_object_size |>
    <| lookup_bytes := sat_mul max_objects (wrap64 (max_key_len + REQUEST_FRAMING)) |>.

(** [SendLoad::trace_replay]. *)
Definition trace_replay_load (c : Config.t) (max_key_len max_value_len : Z) : list SendLoad :=
  let copied := (main_load c) <| sl_key_len := max_key_len |>
                  <| sl_value_len := Z.min max_value_len (ZC_VALUE_THRESHOLD - 1) |> in
  if max_value_len <? ZC_VALUE_THRESHOLD then [copied]
  else [copied; copied <| sl_value_len := max_value_len |>].

(** [SendLoad::append]. *)
Definition append_load (c : Config.t) : option SendLoad :=
  a ← Workload.append (Config.workload c);
  Some ((main_load c) <| sl_connections := Append.connections a |>
          <| sl_pipeline_depth := Append.pipeline_depth a |> <| sl_batch_size := 1 |>).

(** [batch]. *)
Definition batch (l : SendLoad) : Z := clampZ (sl_batch_size l) 1 (Z.max (sl_pipeline_depth l) 1).

Definition zero_copy_values (l : SendLoad) : bool := negb (sl_tls l) && (ZC_VALUE_THRESHOLD <=? sl_value_len l).

Definition sends_per_batch (l : SendLoad) : Z :=
  if zero_copy_values l then div_ceil (batch l) MAX_GUARDS_PER_SEND else 1.

(** The batches a pipeline holds. *)
Definition batches_outstanding (l : SendLoad) : Z := div_ceil (Z.max (sl_pipeline_depth l) 1) (batch l).

Definition sends_per_connection (l : SendLoad) : Z := sat_mul (batches_outstanding l) (sends_per_batch l).

(** [slot_bytes]: what a send-pool slot carries. *)
Definition slot_bytes (l : SendLoad) : Z := if sl_tls l then TLS_RECORD_PLAINTEXT else RINGLINE_SEND_SLOT_SIZE.

(** The copied bytes of one request. *)
Definition request_bytes (l : SendLoad) : Z :=
  wrap64 (wrap64 (sl_key_len l + (if zero_copy_values l then 0 else sl_value_len l)) + REQUEST_FRAMING).

Definition slots_per_batch (l : SendLoad) : Z :=
  Z.max (div_ceil (sat_mul (batch l) (request_bytes l)) (slot_bytes l)) (sends_per_batch l).

Definition lookup_slots (l : SendLoad) : Z := div_ceil (lookup_bytes l) (slot_bytes l).

Definition pool_slots_per_connection (l : SendLoad) : Z :=
  sat_add (wrap64 (wrap64 (2 * batches_outstanding l) * slots_per_batch l)) (lookup_slots l).

(** [per_worker_demand] and [per_worker]. *)
Definition per_worker_demand (loads : list SendLoad) (num_threads : Z) (per_connection : SendLoad -> Z) : Z :=
  foldl sat_add POOL_HEADROOM
    (map (fun l => sat_mul (connections_per_worker (sl_connections l) num_threads) (per_connection l)) loads).

Definition per_worker (loads : list SendLoad) (num_threads floor : Z) (per_connection : SendLoad -> Z) : Z :=
  clampZ (per_worker_demand loads num_threads per_connection) floor u16_max.

Definition slab_slots_per_connection (l : SendLoad) : Z :=
  if zero_copy_values l then wrap64 (2 * sends_per_connection l) else 0.

(** [send_slab_slots] and [send_pool_slots]. *)
Definition send_slab_slots (loads : list SendLoad) (num_threads : Z) : Z :=
  per_worker loads num_threads RINGLINE_SEND_SLAB_DEFAULT slab_slots_per_connection.

Definition send_pool_slots (loads : list SendLoad) (num_threads : Z) : Z :=
  per_worker loads num_threads RINGLINE_SEND_POOL_DEFAULT pool_slots_per_connection.

(** ** [check_send_pool] *)

Definition show_bool (b : bool) : string := if b then "true" else "false".

(** The text that names a load. *)
Definition describe (num_threads : Z) (l : SendLoad) : string :=
  show_Z (connections_per_worker (sl_connections l) num_threads) +:+ " connections per worker, pipeline_depth " +:+
  show_Z (sl_pipeline_depth l) +:+ ", batch " +:+ show_Z (batch l) +:+ ", values up to " +:+
  show_Z (sl_value_len l) +:+ " bytes, tls " +:+ show_bool (sl_tls l) +:+
  (if 0 <? lookup_bytes l then
     ", largest kv_replay lookup " +:+ show_Z (lookup_bytes l) +:+ " bytes (" +:+ show_Z (lookup_slots l) +:+
     " slots per connection, " +:+ show_Z (sl_key_len l) +:+ "-byte keys)"
   else "").

Definition check_send_pool (loads : list SendLoad) (num_threads : Z) : result string (option string) :=
  match find (fun l => u16_max <? lookup_slots l) loads with
  | Some l =>
      Err ("kv_replay: the largest request's lookup needs " +:+ show_Z (lookup_slots l) +:+
           " send-pool slots of " +:+ show_Z (slot_bytes l) +:+
           " bytes, more than ringline's per-worker maximum of " +:+ show_Z u16_max +:+
           ", so it can never be sent (" +:+ describe num_threads l +:+ ")")
  | None =>
      let demand := per_worker_demand loads num_threads pool_slots_per_connection in
      if demand <=? u16_max then Ok None
      else Ok (Some ("the send pool needs " +:+ show_Z demand +:+ " slots per worker and ringline allows " +:+
        show_Z u16_max +:+
        ", so it is capped: sends that do not fit fail and are counted in requests_send_failed (kv_replay lookups also in kv_requests_failed). Inputs: "
        +:+ String.concat "; " (map (describe num_threads) loads) +:+
        ". More threads, fewer connections, a smaller pipeline_depth, a larger batch_size or shorter requests lower it"))
  end.

(** ** What the runner asks for *)

(** A KV replay's longest key, largest object and most objects; a trace
    replay's longest key and longest value. *)
Record ReplaySizes := { kv_sizes : option (Z * Z * Z); trace_sizes : option (Z * Z) }.

Definition send_loads (c : Config.t) (r : ReplaySizes) : list SendLoad :=
  match kv_sizes r, trace_sizes r with
  | Some (k, o, n), _ => [kv_replay_load c k o n]
  | None, Some (k, v) => trace_replay_load c k v
  | None, None => [main_load c]
  end ++ option_list (append_load c).

Record Resources := {
  task_capacity : Z; pool_slots : Z; slab_slots : Z; recv_ring : Z; recv_buffer : Z; pool_warning : option string;
}.

(** The sizing of [run_benchmark_full]. *)
Definition ringline_resources (c : Config.t) (r : ReplaySizes) : result string Resources :=
  let threads := General.threads (Config.general c) in
  let loads := send_loads c r in
  match check_send_pool loads threads with
  | Err e => Err e
  | Ok warning =>
      let (ring, buffer) := resolved_recv_geometry c in
      Ok {| task_capacity := standalone_task_capacity (total_connections (Config.connection c)) threads;
            pool_slots := send_pool_slots loads threads; slab_slots := send_slab_slots loads threads;
            recv_ring := ring; recv_buffer := buffer; pool_warning := warning |}
  end.

(** ** Lemmas *)

(** A group of connections with sane sizes, whose need is below [2^64]. *)
Record load_ok (l : SendLoad) : Prop := {
  lo_connections : is_u64 (sl_connections l);
  lo_depth : is_u64 (sl_pipeline_depth l);
  lo_lens : 0 <= sl_key_len l /\ 0 <= sl_value_len l /\ sl_key_len l + sl_value_len l + REQUEST_FRAMING <= u64_max;
  lo_lookup : 0 <= lookup_bytes l;
  lo_bytes : batch l * (sl_key_len l + sl_value_len l + REQUEST_FRAMING) <= u64_max;
  lo_need : 2 * batches_outstanding l * slots_per_batch l + lookup_slots l <= u64_max;
}.

(** The copied bytes of one request: its key, its framing and a value that is
    not sent from the pool. *)
Definition copied_request (l : SendLoad) : Z :=
  sl_key_len l + (if zero_copy_values l then 0 else sl_value_len l) + REQUEST_FRAMING.

Lemma batch_pos l : 1 <= batch l.
Proof. unfold batch, clampZ. repeat case_match_goal; lia. Qed.

Lemma slot_bytes_pos l : 0 < slot_bytes l.
Proof. unfold slot_bytes. by destruct (sl_tls l). Qed.

Lemma batches_cover l : Z.max (sl_pipeline_depth l) 1 <= batch l * batches_outstanding l.
Proof. apply div_ceil_le; [lia|]. pose proof (batch_pos l). lia. Qed.

Lemma request_bytes_eq l : load_ok l -> request_bytes l = copied_request l.
Proof.
  intros [_ _ (K & V & L) _ _ _]. unfold request_bytes, copied_request, REQUEST_FRAMING in *.
  destruct (zero_copy_values l); rewrite (wrap64_small (sl_key_len l + _)) by lia; rewrite wrap64_small; lia.
Qed.

Lemma slots_cover l : load_ok l -> batch l * copied_request l <= slot_bytes l * slots_per_batch l.
Proof.
  intros O. pose proof (request_bytes_eq l O) as E. destruct O as [_ _ (K & V & L) _ B _].
  pose proof (batch_pos l). pose proof (slot_bytes_pos l) as SP.
  assert (0 <= copied_request l <= sl_key_len l + sl_value_len l + REQUEST_FRAMING) as CR
    by (unfold copied_request, REQUEST_FRAMING; destruct (zero_copy_values l); lia).
  assert (batch l * copied_request l <= u64_max) as NB by nia.
  unfold slots_per_batch. rewrite E. unfold sat_mul. rewrite Z.min_l by lia.
  pose proof (div_ceil_le (batch l * copied_request l) (slot_bytes l) ltac:(nia) SP). nia.
Qed.

Lemma slots_nonneg l : load_ok l -> 0 <= slots_per_batch l.
Proof.
  intros O. unfold slots_per_batch. rewrite (request_bytes_eq l O). destruct O as [_ _ (K & V & L) _ _ _].
  pose proof (batch_pos l). pose proof (slot_bytes_pos l).
  assert (0 <= div_ceil (sat_mul (batch l) (copied_request l)) (slot_bytes l)); [|lia].
  apply div_ceil_nonneg; [|done]. unfold sat_mul, copied_request, REQUEST_FRAMING, u64_max.
  destruct (zero_copy_values l); nia.
Qed.

Lemma batches_nonneg l : 0 <= batches_outstanding l.
Proof. apply div_ceil_nonneg; [lia|]. pose proof (batch_pos l). lia. Qed.

Lemma pool_need_eq l :
  load_ok l -> pool_slots_per_connection l = 2 * batches_outstanding l * slots_per_batch l + lookup_slots l.
Proof.
  intros O. pose proof (slots_nonneg l O) as S0. pose proof (batches_nonneg l) as B0. pose proof (slot_bytes_pos l).
  pose proof (slots_cover l O) as SC. pose proof (batch_pos l).
  assert (1 <= slots_per_batch l) as S1.
  { destruct O as [_ _ (K & V & L) _ _ _]. unfold copied_request, REQUEST_FRAMING in SC.
    destruct (zero_copy_values l); nia. }
  destruct O as [_ _ _ LB _ N]. assert (0 <= lookup_slots l) by (apply div_ceil_nonneg; lia).
  unfold pool_slots_per_connection. rewrite (wrap64_small (2 * batches_outstanding l)) by nia.
  rewrite wrap64_small by nia. unfold sat_add. lia.
Qed.

(** A pool slot for every byte a connection can have in flight twice. *)
Lemma connection_need l :
  load_ok l ->
  2 * Z.max (sl_pipeline_depth l) 1 * copied_request l + lookup_bytes l
    <= slot_bytes l * pool_slots_per_connection l.
Proof.
  intros O. rewrite pool_need_eq by done. pose proof (slots_cover l O) as SC. pose proof (batches_cover l) as BC.
  pose proof (slots_nonneg l O). pose proof (batches_nonneg l). pose proof (slot_bytes_pos l). pose proof (batch_pos l).
  destruct O as [_ _ (K & V & L) LB _ _].
  pose proof (div_ceil_le (lookup_bytes l) (slot_bytes l) LB ltac:(done)) as LC.
  assert (0 <= copied_request l) by (unfold copied_request, REQUEST_FRAMING; destruct (zero_copy_values l); lia).
  fold (lookup_slots l) in LC.
  assert (Z.max (sl_pipeline_depth l) 1 * copied_request l <= batches_outstanding l * (batch l * copied_request l)) by nia.
  assert (batches_outstanding l * (batch l * copied_request l) <= batches_outstanding l * (slot_bytes l * slots_per_batch l)) by nia.
  nia.
Qed.

Lemma foldl_sat_add l a :
  0 <= a -> Forall (fun x => 0 <= x) l ->
  foldl sat_add a l = if decide (l = []) then a else Z.min (a + fold_right Z.add 0 l) u64_max.
Proof.
  revert a. induction l as [|x l IH]; intros a A F; [done|]. apply Forall_cons in F as [Fx F]. cbn [foldl fold_right].
  rewrite IH by (unfold sat_add; unfold u64_max; lia || done). destruct (decide (x :: l = [])); [done|].
  assert (0 <= fold_right Z.add 0 l) by (clear -F; induction F; cbn; lia).
  destruct (decide (l = [])) as [->|]; unfold sat_add, u64_max; cbn; lia.
Qed.

Definition sum_over (f : SendLoad -> Z) (loads : list SendLoad) : Z := fold_right (fun l n => f l + n) 0 loads.

(** Below the cap, the demand is the plain sum. *)
Lemma demand_sum loads threads f cap :
  cap < u64_max -> Forall (fun l => 0 <= connections_per_worker (sl_connections l) threads /\ 0 <= f l) loads ->
  per_worker_demand loads threads f <= cap ->
  per_worker_demand loads threads f
    = POOL_HEADROOM + sum_over (fun l => connections_per_worker (sl_connections l) threads * f l) loads.
Proof.
  intros C F. unfold per_worker_demand. rewrite foldl_sat_add; [|done|].
  2:{ apply Forall_map. eapply Forall_impl; [exact F|]. intros l [? ?]. unfold sat_mul, u64_max. cbn. nia. }
  destruct (decide _) as [E|E]; [apply map_eq_nil in E as ->; cbn; lia|]. clear E. intros L.
  assert (forall t, 0 <= t -> t + fold_right Z.add 0 (map (fun l => sat_mul (connections_per_worker (sl_connections l) threads) (f l)) loads) <= cap ->
    fold_right Z.add 0 (map (fun l => sat_mul (connections_per_worker (sl_connections l) threads) (f l)) loads)
    = sum_over (fun l => connections_per_worker (sl_connections l) threads * f l) loads) as G.
  { clear L. induction F as [|l loads [F1 F2] F IH]; intros t T L; [done|]. cbn [map fold_right sum_over] in *.
    assert (0 <= fold_right Z.add 0 (map (fun l => sat_mul (connections_per_worker (sl_connections l) threads) (f l)) loads)).
    { clear -F. induction F as [|x xs [? ?] _ IH]; cbn; [lia|]. unfold sat_mul at 1, u64_max at 1. nia. }
    assert (sat_mul (connections_per_worker (sl_connections l) threads) (f l) = connections_per_worker (sl_connections l) threads * f l) as ->
      by (unfold sat_mul in *; unfold u64_max in *; nia).
    unfold sum_over in IH. rewrite (IH 0) by (unfold sat_mul in *; unfold u64_max in *; nia). done. }
  specialize (G POOL_HEADROOM ltac:(done) ltac:(lia)). lia.
Qed.

Lemma share_le_ceil total threads w :
  0 <= total -> 0 < threads -> 0 <= w < threads ->
  0 <= fst (connection_share total threads w) <= connections_per_worker total threads.
Proof.
  intros Ht Hn Hw. unfold connections_per_worker, connection_share, div_ceil. rewrite Z.max_l by lia.
  pose proof (Z.div_pos total threads Ht Hn). pose proof (Z.mod_pos_bound total threads Hn). cbn [fst].
  repeat case_match_goal; lia.
Qed.

(** The slots every connection of worker [w] can hold at once. *)
Definition worker_need (loads : list SendLoad) (threads w : Z) : Z :=
  sum_over (fun l => fst (connection_share (sl_connections l) threads w) * pool_slots_per_connection l) loads.

Lemma worker_need_le loads threads w :
  Forall load_ok loads -> 0 < threads -> 0 <= w < threads ->
  worker_need loads threads w <= sum_over (fun l => connections_per_worker (sl_connections l) threads * pool_slots_per_connection l) loads.
Proof.
  intros F Hn Hw. unfold worker_need, sum_over. induction F as [|l loads O F IH]; cbn [fold_right]; [lia|].
  destruct (share_le_ceil (sl_connections l) threads w) as [S0 S1]; [apply O|done|done|].
  assert (0 <= pool_slots_per_connection l).
  { rewrite pool_need_eq by done. pose proof (batches_nonneg l). pose proof (slots_nonneg l O).
    assert (0 <= lookup_slots l) by (apply div_ceil_nonneg; [apply O|apply slot_bytes_pos]). nia. }
  nia.
Qed.

(** ** Properties *)


(** [check_send_pool] refuses exactly the loads with a lookup that could
    never be sent, and warns exactly when the demand is above ringline's
    maximum, to which the pool is then capped. *)
Theorem send_pool_verdicts loads threads :
  match check_send_pool loads threads with
  | Err _ => Exists (fun l => u16_max < lookup_slots l) loads
  | Ok warning =>
      Forall (fun l => lookup_slots l <= u16_max) loads /\
      (warning = None <-> per_worker_demand loads threads pool_slots_per_connection <= u16_max) /\
      (is_Some warning -> send_pool_slots loads threads = u16_max)
  end.
Proof.
  unfold check_send_pool. destruct (find _ loads) as [l|] eqn:E.
  - apply find_some in E as [E1 E2]. apply Exists_exists. exists l. split; [by apply list_elem_of_In|lia].
  - assert (Forall (fun l => lookup_slots l <= u16_max) loads) as F.
    { apply Forall_forall. intros l Hl. apply list_elem_of_In in Hl. pose proof (find_none _ _ E l Hl). cbn in *. lia. }
    unfold send_pool_slots, per_worker. set (d := per_worker_demand loads threads pool_slots_per_connection).
    clearbody d. destruct (d <=? u16_max) eqn:L; (split; [done|]; split).
    + split; [lia|done].
    + by intros [? ?].
    + split; [done|lia].
    + intros _. unfold RINGLINE_SEND_POOL_DEFAULT, clampZ. repeat case_match_goal; unfold u16_max in *; lia.
Qed.

(** Every connection of the main workload gets a task.  The task slab a
    worker is given holds its share of the connections with the headroom to
    spare, unless ringline's own maximum is in the way. *)
Theorem every_connection_has_a_task total threads w :
  is_u64 total -> 0 < threads -> 0 <= w < threads ->
  connections_per_worker total threads + POOL_HEADROOM <= RINGLINE_POOL_MAX ->
  fst (connection_share total threads w) + POOL_HEADROOM <= standalone_task_capacity total threads <= RINGLINE_POOL_MAX.
Proof.
  intros Ht Hn Hw L. destruct (share_le_ceil total threads w ltac:(lia) Hn Hw) as [S0 S1].
  unfold standalone_task_capacity. set (m := connections_per_worker total threads) in *. clearbody m.
  unfold RINGLINE_POOL_MAX, RINGLINE_POOL_DEFAULT, POOL_HEADROOM in *. ulia.
Qed.

(** The append writers are tasks too and are not counted: one worker, 1024
    connections and 64 writers are more tasks than the slab holds. *)
Lemma append_writers_uncounted :
  standalone_task_capacity 1024 1 < fst (connection_share 1024 1 0) + fst (connection_share 64 1 0).
Proof. vm_compute. reflexivity. Qed.

(** *** Witnesses *)

(** 256 connections of pipelines of 16 with values of 64 bytes. *)
Definition example_load : SendLoad :=
  {| sl_connections := 256; sl_pipeline_depth := 16; sl_batch_size := 4; sl_key_len := 16; sl_value_len := 64;
     sl_tls := false; lookup_bytes := 0 |}.

Lemma example_load_ok : Forall load_ok [example_load].
Proof. constructor; [|done]. by constructor. Qed.


Lemma every_connection_has_a_task_witness :
  fst (connection_share 4096 8 7) + POOL_HEADROOM <= standalone_task_capacity 4096 8 <= RINGLINE_POOL_MAX.
Proof. exact (every_connection_has_a_task 4096 8 7 ltac:(by vm_compute) ltac:(lia) ltac:(lia) ltac:(by vm_compute)). Defined.
