(* ===== verification/Load.v ===== *)
(** Load: opening a replay ([KvReplay::load] and [geometry] of
    [src/src/kvreplay.rs], [TraceReplay::load] and [footer] of
    [src/src/tracereplay.rs]).

    What is refused before a run starts, and what the rest of the run may rely
    on.  The crates kvtrace (the model geometry, the object mapping), arrow and
    parquet (the file's columns and footer) answer what the operating system
    lets them read: their answers are arguments. *)

From S2P Require Import Prelude F64 Text Config Keys KeyDist Limiter Metrics InFlight Reply Workload Trace KvRequest KvDispatch Sizing.
Open Scope Z_scope.

(** [map_err(|e| format!("{what}: {e}"))]. *)
Definition explain {A} (what : string) (r : result string A) : result string A :=
  match r with Ok a => Ok a | Err e => Err (what +:+ ": " +:+ e) end.

Definition refuse_when (b : bool) (msg : string) : result string () := if b then Err msg else Ok ().

(** ** The model geometry *)

(** kvtrace's sizes of a model, and the object mapping of a geometry; a
    mapping's [ranks] are those of its sharding. *)
Class KvTrace := {
  model_sizes : Type;
  from_config_file : string -> option string -> result string model_sizes;
  explicit : Z -> Z -> model_sizes;
  with_mla : bool -> model_sizes -> model_sizes;
  state_bytes_per_sequence : model_sizes -> Z;
  geometry : Type;
  geometry_new : model_sizes -> geometry;
  with_tp : Z -> geometry -> geometry;
  sharding : geometry -> result string ();
  mapper_new : geometry -> Z -> result string Mapper;
}.

(** What kvtrace documents of a mapping: objects chunk by chunk with [ranks]
    each, none larger than the largest, ids of 64 bits. *)
Class KvTraceLaws `{KvTrace} := {
  mapper_ranks g n m : mapper_new g n = Ok m -> (0 < @ranks m)%nat;
  mapper_length g n m cs : mapper_new g n = Ok m -> length (@objects m cs) = (length cs * @ranks m)%nat;
  mapper_chunk g n m cs i o :
    mapper_new g n = Ok m -> @objects m cs !! i = Some o -> chunk_index o = (i / @ranks m)%nat;
  mapper_size g n m cs i o :
    mapper_new g n = Ok m -> @objects m cs !! i = Some o -> 0 <= kv_size o <= @max_object_size m;
  max_object_size_nonneg g n m : mapper_new g n = Ok m -> 0 <= @max_object_size m;
  mapper_ids g n m cs o : mapper_new g n = Ok m -> o ∈ @objects m cs -> is_u64 (kv_obj_id o);
}.

(** [kvtrace::RequestReader]: what the footer says, and the requests. *)
Record RequestReader := {
  rr_chunk_tokens : Z;
  rr_total : Z;
  rr_max_chunks : result string Z;
  rr_requests : list (result string Request);
}.

(** What opening the trace, creating [requests_out], writing its header and
    starting the thread answer. *)
Record KvFiles := {
  open_trace : string -> result string RequestReader;
  create_out : string -> result string ();
  write_header : result string ();
  spawn_thread : result string ();
}.

(** A [KvReplay] with its reader thread. *)
Record KvLoaded := {
  ld_shared : KvShared;
  ld_reader : KvReader;
  ld_trace_requests : Z;
  ld_chunk_tokens : Z;
  ld_mapper : Mapper;
  ld_prefix : list Z;
  ld_format : KvKeyFormat;
  ld_rule : KvWriteRule;
  ld_max_objects : Z;
}.

Section kv.
Context `{KvTrace}.

Definition kv_sizes_of (cfg : KvReplay.t) : result string model_sizes :=
  match KvReplay.model_config cfg, KvReplay.kv_bytes_per_token cfg with
  | Some path, _ =>
      explain ("kv_replay model_config " +:+ path) (from_config_file path (KvReplay.kv_dtype cfg))
  | None, Some bytes => Ok (with_mla (KvReplay.mla cfg) (explicit bytes 0))
  | None, None => Err "kv_replay: no model geometry"%string
  end.

(** [geometry]. *)
Definition kv_geometry (cfg : KvReplay.t) : result string geometry :=
  sizes ← kv_sizes_of cfg;
  _ ← refuse_when (0 <? state_bytes_per_sequence sizes)
        ("kv_replay: the model is a hybrid with " +:+ show_Z (state_bytes_per_sequence sizes) +:+
         " recurrent-state bytes per sequence. Hybrid models are not supported: kvtrace's hybrid geometry is an approximation (object sizes, chunk length and snapshot count differ from vLLM and LMCache)");
  let g := with_tp (KvReplay.tp cfg) (geometry_new sizes) in
  _ ← explain "kv_replay geometry" (sharding g);
  Ok g.

(** What [KvReplay::load] has read when it turns to [requests_out]: the first
    request, what follows it, and the mapping. *)
Definition kv_checks (files : KvFiles) (cfg : KvReplay.t)
    : result string (RequestReader * Z * Request * list (result string Request) * Mapper) :=
  let trace_err := ("kv_replay trace " +:+ KvReplay.trace cfg)%string in
  g ← kv_geometry cfg;
  reader ← explain trace_err (open_trace files (KvReplay.trace cfg));
  max_chunks ← explain trace_err (rr_max_chunks reader);
  '(first, rest) ←
    match rr_requests reader with
    | [] => Err (trace_err +:+ ": no requests")%string
    | r :: rest => first ← explain trace_err r; Ok (first, rest)
    end;
  m ← explain "kv_replay geometry" (mapper_new g (rr_chunk_tokens reader));
  let object_size := @max_object_size m in
  _ ← refuse_when ((object_size =? 0) || (VALUE_POOL_SIZE <? object_size))
        ("kv_replay: an object is " +:+ show_Z object_size +:+ " bytes (" +:+ show_Z (rr_chunk_tokens reader) +:+
         " tokens per chunk); it must be between 1 and the value pool size (" +:+ show_Z VALUE_POOL_SIZE +:+
         " bytes)");
  Ok (reader, max_chunks, first, rest, m).

(** [load]: whether the [requests_out] file was created (which empties one that
    was there), and the replay or why there is none. *)
Definition kv_open (files : KvFiles) (cfg : KvReplay.t) : bool * result string KvLoaded :=
  match kv_checks files cfg with
  | Err e => (false, Err e)
  | Ok (reader, max_chunks, first, rest, m) =>
      let (created, log) :=
        match KvReplay.requests_out cfg with
        | None => (false, Ok ())
        | Some path =>
            let out_err := ("kv_replay requests_out " +:+ path)%string in
            match explain out_err (create_out files path) with
            | Err e => (false, Err e)
            | Ok _ => (true, explain out_err (write_header files))
            end
        end in
      (created,
       _ ← log;
       _ ← explain "kv_replay: cannot start the trace reader thread" (spawn_thread files);
       Ok {| ld_shared := kv_load first (KvReplay.speedup cfg) (bool_decide (is_Some (KvReplay.requests_out cfg)));
             ld_reader := {| kt_rest := Ok first :: rest; kt_sending := None |};
             ld_trace_requests := rr_total reader; ld_chunk_tokens := rr_chunk_tokens reader; ld_mapper := m;
             ld_prefix := bytes_of (KvReplay.key_prefix cfg); ld_format := KvReplay.key_format cfg;
             ld_rule := KvReplay.write_rule cfg;
             ld_max_objects := sat_mul max_chunks (Z.of_nat (@ranks m)) |})
  end.
End kv.

(** [max_key_len], [max_object_size] and [max_objects] of the replay, as
    [SendLoad::kv_replay] asks for them. *)
Definition kv_load_sizes (ld : KvLoaded) : Z * Z * Z :=
  (replay_key_len (ld_prefix ld) (ld_format ld), @max_object_size (ld_mapper ld), ld_max_objects ld).

(** What a connection's [run_request] runs with. *)
Definition kv_env_of (ld : KvLoaded) (depth : nat) (pool_len : Z) : KvEnv :=
  {| ke_prefix := ld_prefix ld; ke_format := ld_format ld; ke_depth := depth; ke_pool_len := pool_len;
     ke_chunk_tokens := ld_chunk_tokens ld; ke_rule := ld_rule ld |}.

(** The requests the reader thread will send: those before a read error. *)
Fixpoint sent_requests (rest : list (result string Request)) : list Request :=
  match rest with Ok req :: rest => req :: sent_requests rest | _ => [] end.

(** [wait_read_ahead] of either replay over what successive passes read
    ([stopped], [is_full], [running]): the passes that sleep. *)
Fixpoint wait_read_ahead (reads : list (bool * bool * bool)) : nat :=
  match reads with
  | (stopped, full, running) :: reads =>
      if negb stopped && negb full && running then S (wait_read_ahead reads) else O
  | [] => O
  end.

(** ** The footer of an object trace *)

(** The arrow types [footer] tells apart; another is its name. *)
Inductive DataType := UInt64 | UInt32 | UInt8 | OtherType (name : string).

#[export] Instance DataType_eq_dec : EqDecision DataType.
Proof. solve_decision. Defined.

(** [Display] of a type. *)
Definition show_type (t : DataType) : string :=
  match t with UInt64 => "UInt64" | UInt32 => "UInt32" | UInt8 => "UInt8" | OtherType n => n end.

(** The statistics of a column chunk: those of an INT32 column with its
    largest value, if it was written, or those of another kind, or none. *)
Inductive Statistics := Int32Stats (max_opt : option Z) | OtherStats | NoStats.

(** What parquet reads of the footer: the leaf columns, the row count and each
    row group's statistics by column; and before it arrow's fields. *)
Record FileMetaData := { fm_columns : list string; fm_num_rows : Z; fm_row_groups : list (list Statistics) }.

Record FileFooter := { ff_fields : list (string * DataType); ff_meta : result string FileMetaData }.

Definition field_with_name (name : string) (fields : list (string * DataType)) : option DataType :=
  snd <$> find (fun f => bool_decide (f.1 = name)) fields.

Definition check_column (err : string -> string) (fields : list (string * DataType))
    (col : string * DataType * bool) : result string () :=
  let '(name, want, required) := col in
  match field_with_name name fields with
  | Some t =>
      refuse_when (negb (bool_decide (t = want)))
        (err ("column " +:+ name +:+ " is " +:+ show_type t +:+ "; the replay reads " +:+ show_type want +:+
              " (cachetrace's schema)")%string)
  | None => refuse_when required (err ("no " +:+ name +:+ " column")%string)
  end.

Definition replay_columns : list (string * DataType * bool) :=
  [("obj_id", UInt64, true); ("obj_size", UInt32, true); ("op", UInt8, false)]%string.

Fixpoint check_columns (err : string -> string) (fields : list (string * DataType))
    (cols : list (string * DataType * bool)) : result string () :=
  match cols with
  | [] => Ok ()
  | col :: cols => _ ← check_column err fields col; check_columns err fields cols
  end.

(** [find] over the columns' indices. *)
Fixpoint position (name : string) (columns : list string) : option nat :=
  match columns with
  | [] => None
  | c :: columns => if bool_decide (c = name) then Some O else S <$> position name columns
  end.

(** The largest [obj_size] of the row groups; [None] where [column] would
    panic: a row group has as many columns as the schema. *)
Fixpoint groups_max (err : string -> string) (size_col : nat) (groups : list (list Statistics)) (max : Z)
    : option (result string Z) :=
  match groups with
  | [] => Some (Ok max)
  | rg :: groups =>
      stats ← rg !! size_col;
      match stats with
      | Int32Stats (Some m) => groups_max err size_col groups (Z.max max (m mod 2 ^ 32))
      | _ =>
          Some (Err (err
            "no obj_size statistics in the footer, which the replay needs to size its send buffers; rewrite the file with statistics enabled"%string))
      end
  end.

(** The largest size, once the columns have been checked. *)
Definition footer_sizes (err : string -> string) (meta : FileMetaData) : option (result string (Z * Z)) :=
  match position "obj_size" (fm_columns meta) with
  | None => Some (Err (err "no obj_size column"%string))
  | Some size_col =>
      if fm_num_rows meta <? 0 then Some (Err (err "negative row count in the footer"%string))
      else
        r ← groups_max err size_col (fm_row_groups meta) 0;
        Some (max ← r; Ok (fm_num_rows meta, max))
  end.

(** [footer], of what opening the file, [try_new] and then [SerializedFileReader]
    answer. *)
Definition footer (path : string) (file : result string FileFooter) : option (result string (Z * Z)) :=
  let err msg := ("trace_replay trace " +:+ path +:+ ": " +:+ msg)%string in
  match file with
  | Err e => Some (Err (err e))
  | Ok ff =>
      match check_columns err (ff_fields ff) replay_columns, ff_meta ff with
      | Err e, _ => Some (Err e)
      | Ok _, Err e => Some (Err (err e))
      | Ok _, Ok meta => footer_sizes err meta
      end
  end.

Record TraceLoaded := {
  tl_replay : Replay;
  tl_reader : Reader;
  tl_rows : Z;
  tl_max_obj_size : Z;
  tl_prefix : list Z;
  tl_format : KvKeyFormat;
}.

(** [TraceReplay::load]: the footer, then the reader and its thread. *)
Definition trace_open (file : result string FileFooter) (reader : result string (list (result string TraceEntry)))
    (spawn : result string ()) (cfg : TraceReplay.t) : option (result string TraceLoaded) :=
  let path := TraceReplay.trace cfg in
  let what := ("trace_replay trace " +:+ path)%string in
  f ← footer path file;
  Some ('(rows, max) ← f;
        _ ← refuse_when (rows =? 0) (what +:+ ": no rows")%string;
        entries ← explain what reader;
        _ ← explain "trace_replay: cannot start the trace reader thread" spawn;
        Ok {| tl_replay := new_replay; tl_reader := new_reader entries; tl_rows := rows; tl_max_obj_size := max;
              tl_prefix := bytes_of (TraceReplay.key_prefix cfg); tl_format := TraceReplay.key_format cfg |}).

(** ** Lemmas *)

Lemma explain_ok {A} what (r : result string A) a : explain what r = Ok a -> r = Ok a.
Proof. destruct r; cbn; [by intros [= ->]|done]. Qed.

Lemma refuse_when_ok b msg u : refuse_when b msg = Ok u -> b = false.
Proof. by destruct b. Qed.

Lemma sat_mul_nonneg a b : 0 <= a -> 0 <= b -> 0 <= sat_mul a b.
Proof. unfold sat_mul, u64_max. nia. Qed.

(** What a replay that loaded was built from. *)
Lemma kv_open_ok `{KvTrace} files cfg created ld :
  kv_open files cfg = (created, Ok ld) ->
  exists g reader max_chunks first rest,
    kv_geometry cfg = Ok g /\ open_trace files (KvReplay.trace cfg) = Ok reader /\
    rr_max_chunks reader = Ok max_chunks /\ rr_requests reader = Ok first :: rest /\
    mapper_new g (rr_chunk_tokens reader) = Ok (ld_mapper ld) /\
    @max_object_size (ld_mapper ld) <> 0 /\ @max_object_size (ld_mapper ld) <= VALUE_POOL_SIZE /\
    ld_shared ld = kv_load first (KvReplay.speedup cfg) (bool_decide (is_Some (KvReplay.requests_out cfg))) /\
    ld_reader ld = {| kt_rest := Ok first :: rest; kt_sending := None |} /\
    ld_max_objects ld = sat_mul max_chunks (Z.of_nat (@ranks (ld_mapper ld))).
Proof.
  unfold kv_open. destruct (kv_checks files cfg) as [[[[[reader mc] first] rest] m]|] eqn:K; [|done].
  unfold kv_checks, mbind, result_bind in K. cbv zeta in K.
  destruct (kv_geometry cfg) as [g|] eqn:G; [|done].
  destruct (explain _ (open_trace _ _)) as [reader'|] eqn:O; [|done]. apply explain_ok in O.
  destruct (explain _ (rr_max_chunks _)) as [mc'|] eqn:M; [|done]. apply explain_ok in M.
  destruct (rr_requests reader') as [|r rest'] eqn:R; [done|].
  destruct (explain _ r) as [first'|] eqn:F; [|done]. apply explain_ok in F as ->.
  destruct (explain _ (mapper_new _ _)) as [m'|] eqn:P; [|done]. apply explain_ok in P.
  destruct (refuse_when _ _) as [u|] eqn:B; [|done]. apply refuse_when_ok in B.
  injection K as -> -> -> -> ->.
  apply orb_false_iff in B as [B1 B2]. apply Z.eqb_neq in B1. apply Z.ltb_ge in B2.
  intros E. exists g, reader, mc, first, rest.
  destruct (match KvReplay.requests_out cfg with None => _ | _ => _ end) as [c log].
  destruct log as [u'|]; [|done]. unfold mbind, result_bind in E. destruct (explain _ (spawn_thread files)); [|done].
  injection E as _ <-. by cbn.
Qed.

(** A key is written with at most twenty digits of length. *)
Lemma decimal_len_u64 n : is_u64 n -> decimal_len n <= 20.
Proof.
  intros B. rewrite decimal_len_show. unfold show_Z.
  pose proof (dec_digits_length (S (Z.to_nat (Z.log2 n))) n "" 19 ltac:(unfold u64_max in B; cbn; lia)) as L.
  cbn [String.length] in L. lia.
Qed.

(** The EXISTS commands of a request take at most the framing and the longest
    key each. *)
Lemma exists_bytes_le env (objs : list KvObject) :
  Forall (fun o => is_u64 (kv_obj_id o)) objs -> replay_key_len (ke_prefix env) (ke_format env) <= u64_max ->
  exists_bytes env objs
    <= Z.of_nat (length objs) * (replay_key_len (ke_prefix env) (ke_format env) + REQUEST_FRAMING).
Proof.
  intros F B. induction F as [|o objs ID _ IH]; [cbn; lia|]. cbn [exists_bytes fold_right length].
  fold (exists_bytes env objs). cbv zeta. pose proof (replay_key_length (ke_prefix env) (ke_format env) _ ID) as K.
  fold (kv_key env o) in K. pose proof (decimal_len_u64 (Z.of_nat (length (kv_key env o))) ltac:(lia)).
  unfold REQUEST_FRAMING in *. lia.
Qed.

Lemma foldl_sat_add_ge x l a :
  0 <= a -> Forall (fun y => 0 <= y) l -> x <= a \/ x ∈ l -> x <= u64_max -> x <= foldl sat_add a l.
Proof.
  revert a. induction l as [|y l IH]; intros a A F HX B; cbn [foldl].
  - by destruct HX as [?|[]%not_elem_of_nil].
  - apply Forall_cons in F as [Fy F]. apply IH; unfold sat_add; [unfold u64_max; lia|done| |done].
    destruct HX as [?|[->|?]%elem_of_cons]; [left; lia|left; lia|by right].
Qed.

(** A pool is never smaller than the largest lookup of a connection, if that
    is no more than ringline's maximum. *)
Lemma pool_holds_lookup loads threads l :
  Forall (fun l => 0 <= sl_connections l /\ 0 <= lookup_bytes l) loads -> l ∈ loads -> 0 < sl_connections l ->
  lookup_slots l <= u16_max -> lookup_slots l <= send_pool_slots loads threads.
Proof.
  intros F I P S.
  assert (forall l, 0 <= sl_connections l /\ 0 <= lookup_bytes l ->
    0 <= lookup_slots l /\ 0 <= connections_per_worker (sl_connections l) threads) as N.
  { intros l' [? ?]. pose proof (slot_bytes_pos l').
    split; [by apply div_ceil_nonneg|apply div_ceil_nonneg; lia]. }
  assert (forall l, 0 <= sl_connections l /\ 0 <= lookup_bytes l -> 0 <= pool_slots_per_connection l /\
    Z.min (lookup_slots l) u64_max <= pool_slots_per_connection l) as PS.
  { intros l' H'. destruct (N l' H') as [? _]. unfold pool_slots_per_connection, sat_add.
    pose proof (wrap64_range (wrap64 (2 * batches_outstanding l') * slots_per_batch l')). unfold u64_max in *. lia. }
  assert (lookup_slots l <= per_worker_demand loads threads pool_slots_per_connection) as D.
  { unfold per_worker_demand.
    pose proof (proj1 (Forall_forall _ _) F l I) as L. destruct (PS l L) as [P0 P1]. destruct (N l L) as [N0 N1].
    assert (1 <= connections_per_worker (sl_connections l) threads) as C.
    { unfold connections_per_worker. pose proof (div_ceil_le (sl_connections l) (Z.max threads 1) ltac:(lia) ltac:(lia)).
      unfold connections_per_worker in N1. nia. }
    transitivity (Z.min (sat_mul (connections_per_worker (sl_connections l) threads) (pool_slots_per_connection l)) u64_max).
    { unfold sat_mul, u64_max, u16_max in *. nia. }
    apply foldl_sat_add_ge; [done| | |lia].
    - apply Forall_map. eapply Forall_impl; [exact F|]. intros l' H'. destruct (PS l' H'), (N l' H'). unfold sat_mul, u64_max. cbn. nia.
    - right. apply list_elem_of_fmap. exists l. split; [|done]. unfold sat_mul. lia. }
  unfold send_pool_slots, per_worker, clampZ. clear -D S. repeat case_match_goal; unfold u16_max, RINGLINE_SEND_POOL_DEFAULT in *; lia.
Qed.

(** The sizes a replay hands over make its largest lookup at least the bytes
    of any request with no more chunks than the footer says. *)
Lemma lookup_bytes_cover env (objs : list KvObject) c size max_chunks rk :
  Forall (fun o => is_u64 (kv_obj_id o)) objs ->
  replay_key_len (ke_prefix env) (ke_format env) + REQUEST_FRAMING <= u64_max ->
  Z.of_nat (length objs) <= max_chunks * rk ->
  let l := kv_replay_load c (replay_key_len (ke_prefix env) (ke_format env)) size (sat_mul max_chunks rk) in
  lookup_bytes l < u64_max -> exists_bytes env objs <= lookup_bytes l.
Proof.
  intros ID K N l. pose proof (exists_bytes_le env objs ID ltac:(unfold REQUEST_FRAMING in *; lia)) as E.
  subst l. unfold kv_replay_load. cbn -[sat_mul wrap64 REQUEST_FRAMING replay_key_len].
  assert (0 <= replay_key_len (ke_prefix env) (ke_format env)) as R by (unfold replay_key_len; destruct (ke_format env); lia).
  rewrite wrap64_small by (unfold REQUEST_FRAMING in *; lia).
  set (k := _ + REQUEST_FRAMING) in *. assert (1 <= k) by (unfold k, REQUEST_FRAMING; lia). clearbody k.
  unfold sat_mul. intros L. nia.
Qed.

(** A mapping the replay loaded with obeys the laws [run_request] needs. *)
Lemma loaded_mapper_laws `{KvTraceLaws} files cfg created ld :
  kv_open files cfg = (created, Ok ld) -> @MapperLaws (ld_mapper ld).
Proof.
  intros L. destruct (kv_open_ok _ _ _ _ L) as (g & reader & mc & first & rest & _ & _ & _ & _ & M & Z0 & B & _).
  split; intros.
  - by eapply mapper_ranks.
  - by eapply mapper_length.
  - by eapply mapper_chunk.
  - by eapply mapper_size.
  - pose proof (max_object_size_nonneg _ _ _ M). lia.
Qed.

Lemma sent_requests_of rest req : req ∈ sent_requests rest -> Ok req ∈ rest.
Proof.
  induction rest as [|[r|e] rest IH]; cbn; [by intros ?%not_elem_of_nil| |by intros ?%not_elem_of_nil].
  intros [->|I]%elem_of_cons; [left|right; by apply IH].
Qed.

(** C24: A KV replay that loads leaves nothing to fail over sizes.  Its first
    request is the zero of trace time and is the first one sent; its mapping
    has the object sizes and the order that running a request relies on; and
    once the runner has sized ringline by it, the EXISTS commands of any
    request the reader thread sends fit together in the worker's send pool. *)
Theorem loaded_replay_fits `{KvTraceLaws} files cfg created ld c traces res depth pool_len :
  kv_open files cfg = (created, Ok ld) ->
  ringline_resources c {| kv_sizes := Some (kv_load_sizes ld); trace_sizes := traces |} = Ok res ->
  0 < total_connections (Config.connection c) ->
  (forall a, Workload.append (Config.workload c) = Some a -> 0 <= Append.connections a) ->
  Z.of_nat (length (ld_prefix ld)) < 2 ^ 63 ->
  (forall reader n req, open_trace files (KvReplay.trace cfg) = Ok reader -> rr_max_chunks reader = Ok n ->
     Ok req ∈ rr_requests reader -> Z.of_nat (length (chunks req)) <= n) ->
  @MapperLaws (ld_mapper ld) /\
  (exists first rest, kt_rest (ld_reader ld) = Ok first :: rest /\ k_first_ts (ld_shared ld) = timestamp first) /\
  Forall (fun req =>
      exists_bytes (kv_env_of ld depth pool_len) (@objects (ld_mapper ld) (chunks req))
        <= pool_slots res * (if Target.tls (Config.target c) then TLS_RECORD_PLAINTEXT else RINGLINE_SEND_SLOT_SIZE))
    (sent_requests (kt_rest (ld_reader ld))).
Proof.
  intros L R C A P MC. pose proof (loaded_mapper_laws _ _ _ _ L) as ML.
  destruct (kv_open_ok _ _ _ _ L) as (g & reader & mc & first & rest & _ & O & M & RQ & MP & _ & _ & SH & RD & MO).
  split; [done|]. split; [exists first, rest; by rewrite RD, SH|].
  apply Forall_forall. intros req I. rewrite RD in I. apply sent_requests_of in I. cbn [kt_rest] in I.
  rewrite <- RQ in I. pose proof (MC _ _ _ O M I) as LC.
  set (l := kv_replay_load c (replay_key_len (ld_prefix ld) (ld_format ld)) (@max_object_size (ld_mapper ld))
              (ld_max_objects ld)).
  unfold ringline_resources in R. change (send_loads c _) with ([l] ++ option_list (append_load c)) in R.
  pose proof (send_pool_verdicts ([l] ++ option_list (append_load c)) (General.threads (Config.general c))) as V.
  destruct (check_send_pool _ _) as [w|]; [|done]. destruct (resolved_recv_geometry c). injection R as <-.
  destruct V as [V _]. apply Forall_cons in V as [V _]. cbn [pool_slots].
  assert (0 <= lookup_bytes l) as LB.
  { subst l. unfold kv_replay_load. cbn -[sat_mul wrap64]. rewrite MO.
    apply sat_mul_nonneg; [apply sat_mul_nonneg; lia|apply wrap64_range]. }
  assert (lookup_slots l <= send_pool_slots ([l] ++ option_list (append_load c)) (General.threads (Config.general c))) as PS.
  { apply pool_holds_lookup; [|by left|done|done]. constructor; [split; [cbn; lia|done]|].
    unfold append_load. destruct (Workload.append _) as [a|]; cbn; constructor; [|done]. split; [by apply A|done]. }
  change (if Target.tls _ then _ else _) with (slot_bytes l).
  pose proof (slot_bytes_pos l) as SP.
  pose proof (div_ceil_le (lookup_bytes l) (slot_bytes l) LB SP) as DC. fold (lookup_slots l) in DC.
  transitivity (lookup_bytes l); [|clear -PS DC SP; cbn [app] in PS; nia].
  assert (slot_bytes l <= RINGLINE_SEND_SLOT_SIZE) as SB by (unfold slot_bytes; by destruct (sl_tls l)).
  subst l. unfold kv_load_sizes in *. rewrite MO in *.
  apply (lookup_bytes_cover (kv_env_of ld depth pool_len)).
  - apply Forall_forall. intros o IO. by eapply mapper_ids.
  - cbn. unfold replay_key_len, REQUEST_FRAMING, u64_max. destruct (ld_format ld); lia.
  - rewrite (objects_length (MapperLaws := ML)). nia.
  - eapply Z.le_lt_trans; [exact DC|]. clear -SB V SP. unfold RINGLINE_SEND_SLOT_SIZE, u16_max, u64_max in *. nia.
Qed.

(** *** The footer of an object trace *)

Lemma groups_max_spec err col groups m0 m :
  groups_max err col groups m0 = Some (Ok m) ->
  m0 <= m /\ Forall (fun rg => exists s, rg !! col = Some (Int32Stats (Some s)) /\ s mod 2 ^ 32 <= m) groups.
Proof.
  revert m0. induction groups as [|rg groups IH]; intros m0; cbn [groups_max]; [by intros [= ->]|].
  destruct (rg !! col) as [s|] eqn:S; [|done]. cbn [mbind option_bind].
  destruct s as [[s|]| |]; [|done..]. intros E. destruct (IH _ E) as [L F].
  split; [lia|]. constructor; [|done]. exists s. split; [done|lia].
Qed.

Lemma check_column_ok err fields name want required u :
  check_column err fields (name, want, required) = Ok u ->
  field_with_name name fields = Some want \/ required = false /\ field_with_name name fields = None.
Proof.
  unfold check_column. destruct (field_with_name name fields) as [t|]; intros E; apply refuse_when_ok in E.
  - left. apply negb_false_iff, bool_decide_eq_true in E. by subst.
  - by right.
Qed.

Lemma replay_columns_ok err fields u :
  check_columns err fields replay_columns = Ok u ->
  field_with_name "obj_id" fields = Some UInt64 /\ field_with_name "obj_size" fields = Some UInt32 /\
  (field_with_name "op" fields = Some UInt8 \/ field_with_name "op" fields = None).
Proof.
  unfold replay_columns. cbn [check_columns]. unfold mbind, result_bind.
  destruct (check_column err fields ("obj_id"%string, UInt64, true)) eqn:E1; [|done].
  destruct (check_column err fields ("obj_size"%string, UInt32, true)) eqn:E2; [|done].
  destruct (check_column err fields ("op"%string, UInt8, false)) eqn:E3; [|done]. intros _.
  apply check_column_ok in E1 as [?|[? _]], E2 as [?|[? _]], E3 as [?|[_ ?]]; try done; auto.
Qed.

(** What a trace that loaded was read from. *)
Lemma trace_open_ok ff reader spawn cfg ld :
  trace_open (Ok ff) reader spawn cfg = Some (Ok ld) ->
  exists err meta col u entries,
    check_columns err (ff_fields ff) replay_columns = Ok u /\ ff_meta ff = Ok meta /\ reader = Ok entries /\
    position "obj_size" (fm_columns meta) = Some col /\ 0 < fm_num_rows meta /\ tl_rows ld = fm_num_rows meta /\
    groups_max err col (fm_row_groups meta) 0 = Some (Ok (tl_max_obj_size ld)) /\
    tl_replay ld = new_replay /\ tl_reader ld = new_reader entries.
Proof.
  unfold trace_open, footer. cbv zeta.
  destruct (check_columns _ _ _) as [u|] eqn:CC; [|done].
  destruct (ff_meta ff) as [meta|] eqn:FM; [|done]. unfold footer_sizes.
  destruct (position _ _) as [col|] eqn:PC; [|done].
  destruct (fm_num_rows meta <? 0) eqn:NR; [done|]. apply Z.ltb_ge in NR.
  destruct (groups_max _ _ _ _) as [[m|]|] eqn:GM; [|done..]. cbn.
  destruct (fm_num_rows meta =? 0) eqn:NZ; [done|]. apply Z.eqb_neq in NZ. cbn.
  destruct reader as [entries|]; [|done]. cbn. destruct (explain _ spawn); [|done].
  intros [= <-]. eexists _, meta, col, u, entries. split; [exact CC|]. do 3 (split; [done|]). split; [lia|done].
Qed.

(** An object trace that loads has the columns the replay reads, of the types it
    reads; at least one row; and a largest size in its footer that is the
    size the send pool is asked for: no SET of the replay has a longer value,
    if each row group's largest value is one. *)
Theorem trace_footer_bounds_values `{TraceOps} ff entries spawn cfg ld groups :
  trace_open (Ok ff) (Ok entries) spawn cfg = Some (Ok ld) ->
  (forall meta col, ff_meta ff = Ok meta -> position "obj_size" (fm_columns meta) = Some col ->
     Forall2 (fun stats rows => forall m e,
         stats !! col = Some (Int32Stats (Some m)) -> e ∈ rows -> entry_size e <= m mod 2 ^ 32)
       (fm_row_groups meta) groups) ->
  (forall e, Ok e ∈ entries -> e ∈ concat groups) ->
  (field_with_name "obj_id" (ff_fields ff) = Some UInt64 /\ field_with_name "obj_size" (ff_fields ff) = Some UInt32 /\
   (field_with_name "op" (ff_fields ff) = Some UInt8 \/ field_with_name "op" (ff_fields ff) = None)) /\
  0 < tl_rows ld /\
  forall e row, Ok e ∈ entries -> from_entry e VALUE_POOL_SIZE = Some row -> op row = RowSet ->
    size row <= max_value_len (tl_max_obj_size ld).
Proof.
  intros L ST EN. destruct (trace_open_ok _ _ _ _ _ L) as (err & meta & col & u & _ & CC & FM & _ & PC & NR & -> & GM & _).
  split; [by eapply replay_columns_ok|]. split; [done|]. intros e row I F O.
  destruct (groups_max_spec _ _ _ _ _ GM) as [_ G].
  assert (entry_size e <= tl_max_obj_size ld) as B.
  { apply EN in I. apply list_elem_of_In, in_concat in I as (rows & R & I). apply list_elem_of_In in R, I.
    apply list_elem_of_lookup in R as [i R].
    destruct (Forall2_lookup_r _ _ _ _ _ (ST _ _ FM PC) R) as (stats & S & B).
    destruct (Forall_lookup_1 _ _ _ _ G S) as (s & S1 & S2). etransitivity; [by eapply B|done]. }
  unfold from_entry in F. destruct (from_trace (entry_op e)) as [o|]; [|done]. cbn [mbind option_bind] in F.
  destruct (bool_decide (o = RowSet)) eqn:OS, (VALUE_POOL_SIZE <? entry_size e) eqn:VP; cbn in F; try done;
    injection F as <-; cbn in *; unfold max_value_len; [apply Z.ltb_ge in VP; lia|..].
  all: apply bool_decide_eq_false in OS; done.
Qed.

(** [wait_read_ahead] has returned by the first pass that finds the thread
    stopped, the read-ahead full, or the run interrupted. *)
Lemma wait_read_ahead_ends reads k stopped full running :
  reads !! k = Some (stopped, full, running) -> stopped || full || negb running = true ->
  (wait_read_ahead reads <= k)%nat.
Proof.
  revert k. induction reads as [|[[s f] r] reads IH]; intros k; [done|]. destruct k as [|k]; cbn.
  - intros [= -> -> ->]. by destruct stopped, full, running.
  - intros I B. destruct (negb s && negb f && r); [|lia]. specialize (IH k I B). lia.
Qed.

(** *** Witnesses *)

(** A model of [b] bytes per token, in chunks of [n] tokens over two ranks. *)
Definition example_mapping (b n : Z) : Mapper := {|
  objects cs := imap (fun i id => {| kv_obj_id := wrap64 id; kv_size := Z.max 0 (b * n); chunk_index := (i / 2)%nat |})
                  (concat (map (fun c => [2 * c; 2 * c + 1]) cs));
  ranks := 2; max_object_size := Z.max 0 (b * n) |}.

Definition example_kvtrace : KvTrace := {|
  model_sizes := Z; from_config_file _ _ := Err "no such file"%string; explicit b _ := b; with_mla _ s := s;
  state_bytes_per_sequence _ := 0; geometry := Z; geometry_new s := s; with_tp _ g := g; sharding _ := Ok ();
  mapper_new g n := Ok (example_mapping g n) |}.

Lemma example_kvtrace_laws : @KvTraceLaws example_kvtrace.
Proof.
  constructor; cbn; intros g n m; [intros [= <-]; cbn; lia|intros cs [= <-]|intros cs i o [= <-]|intros cs i o [= <-]
    |intros [= <-]; cbn; lia|intros cs o [= <-]]; cbn.
  - rewrite length_imap. induction cs as [|c cs IH]; cbn; [done|]. rewrite IH. lia.
  - intros (id & _ & ->)%list_lookup_imap_Some. done.
  - intros (id & _ & ->)%list_lookup_imap_Some. cbn. lia.
  - intros I. apply list_elem_of_lookup in I as (i & (id & _ & ->)%list_lookup_imap_Some). apply wrap64_range.
Qed.

Definition example_files : KvFiles := {|
  open_trace _ := Ok {| rr_chunk_tokens := 16; rr_total := 2; rr_max_chunks := Ok 3;
                        rr_requests := [Ok example_request; Ok (Build_Request 2 9 16 [5])] |};
  create_out _ := Ok (); write_header := Ok (); spawn_thread := Ok () |}.

Definition example_kv_config : KvReplay.t := {|
  KvReplay.trace := "kv.parquet"; KvReplay.speedup := f64_one; KvReplay.model_config := None; KvReplay.kv_dtype := None;
  KvReplay.kv_bytes_per_token := Some 256; KvReplay.mla := false; KvReplay.tp := 1; KvReplay.write_rule := SetFromMiss;
  KvReplay.key_prefix := "kv:"; KvReplay.key_format := KvHex; KvReplay.requests_out := None |}.

Definition example_kv_loaded : KvLoaded := {|
  ld_shared := kv_load example_request f64_one false;
  ld_reader := {| kt_rest := [Ok example_request; Ok (Build_Request 2 9 16 [5])]; kt_sending := None |};
  ld_trace_requests := 2; ld_chunk_tokens := 16; ld_mapper := example_mapping 256 16; ld_prefix := bytes_of "kv:";
  ld_format := KvHex; ld_rule := SetFromMiss; ld_max_objects := 6 |}.

Lemma loaded_replay_fits_witness :
  @kv_open example_kvtrace example_files example_kv_config = (false, Ok example_kv_loaded) /\
  @MapperLaws (example_mapping 256 16).
Proof.
  assert (@kv_open example_kvtrace example_files example_kv_config = (false, Ok example_kv_loaded)) as L by reflexivity.
  split; [exact L|].
  assert (is_ok (ringline_resources (minimal_config 1 [] Resp_)
                   {| kv_sizes := Some (kv_load_sizes example_kv_loaded); trace_sizes := None |}) = true) as R
    by (vm_compute; reflexivity).
  destruct (ringline_resources _ _) as [res|] eqn:E; [clear R|done].
  refine (proj1 (@loaded_replay_fits example_kvtrace example_kvtrace_laws example_files example_kv_config false _
    (minimal_config 1 [] Resp_) None res 4 VALUE_POOL_SIZE L E _ _ _ _)); try reflexivity; [done|].
  intros reader n req [= <-] [= <-]. cbn. intros [[= ->]|[[= ->]|[]%not_elem_of_nil]%elem_of_cons]%elem_of_cons; cbn; lia.
Defined.

(** Two row groups, the second with the larger objects. *)
Definition example_footer : FileFooter := {|
  ff_fields := [("obj_id", UInt64); ("obj_size", UInt32); ("op", UInt8)]%string;
  ff_meta := Ok {| fm_columns := ["obj_id"; "obj_size"; "op"]%string; fm_num_rows := 2;
                   fm_row_groups := [[OtherStats; Int32Stats (Some 64); NoStats];
                                     [OtherStats; Int32Stats (Some 4096); NoStats]] |} |}.

Definition example_rows : list (list TraceEntry) :=
  [[{| entry_id := 1; entry_size := 64; entry_op := Some 1 |}]; [{| entry_id := 2; entry_size := 4096; entry_op := Some 1 |}]].

Definition example_trace_config : TraceReplay.t :=
  {| TraceReplay.trace := "t.parquet"; TraceReplay.key_prefix := ""; TraceReplay.key_format := KvHex |}.

Lemma trace_footer_bounds_values_witness :
  exists ld, trace_open (Ok example_footer) (Ok (map Ok (concat example_rows))) (Ok ()) example_trace_config = Some (Ok ld) /\
    tl_max_obj_size ld = 4096 /\ 0 < tl_rows ld.
Proof.
  eexists. split; [vm_compute; reflexivity|]. split; [reflexivity|].
  refine (proj1 (proj2 (@trace_footer_bounds_values example_trace_ops example_footer (map Ok (concat example_rows)) (Ok ())
    example_trace_config _ example_rows _ _ _))); [vm_compute; reflexivity|..].
  - intros meta col [= <-] [= <-]. cbn.
    do 2 (apply Forall2_cons; split; [intros m e [= <-] [->|[]%not_elem_of_nil]%elem_of_cons; by vm_compute|]).
    apply Forall2_nil; done.
  - intros e [[= ->]|[[= ->]|[]%not_elem_of_nil]%elem_of_cons]%elem_of_cons; [left|right; left].
Defined.

(** A hybrid model, a signed id column and an object larger than the pool are
    refused. *)
Example hybrid_refused :
  @kv_geometry {| model_sizes := Z; from_config_file _ _ := Ok 1; explicit b _ := b; with_mla _ s := s;
                  state_bytes_per_sequence s := s; geometry := Z; geometry_new s := s; with_tp _ g := g;
                  sharding _ := Ok (); mapper_new _ _ := Ok example_mapper |}
    (example_kv_config <| KvReplay.model_config := Some "m.json"%string |>)
  = Err "kv_replay: the model is a hybrid with 1 recurrent-state bytes per sequence. Hybrid models are not supported: kvtrace's hybrid geometry is an approximation (object sizes, chunk length and snapshot count differ from vLLM and LMCache)"%string.
Proof. reflexivity. Qed.

Example signed_id_refused :
  footer "t" (Ok {| ff_fields := [("obj_id", OtherType "Int64"); ("obj_size", UInt32)]%string; ff_meta := Err ""%string |})
  = Some (Err "trace_replay trace t: column obj_id is Int64; the replay reads UInt64 (cachetrace's schema)"%string).
Proof. reflexivity. Qed.

Example oversize_refused :
  is_ok (snd (@kv_open example_kvtrace example_files (example_kv_config <| KvReplay.kv_bytes_per_token := Some VALUE_POOL_SIZE |>)))
  = false.
Proof. vm_compute. reflexivity. Qed.
