(* ===== verification/Tls.v ===== *)
(** Tls: the TLS client configuration ([build_tls_client_config] and
    [NoCertificateVerification] of [src/src/runner.rs]) and the name a server is
    verified under ([resolve_tls_server_name] of [src/src/worker.rs]).

    Two axes, set apart: which certificates the server is verified against, and
    which one the client presents.  Reading PEM files, rustls's trust anchors
    and its check of a certificate chain are the class [Rustls]. *)

From S2P Require Import Prelude F64 Text Config Keys Load.
Open Scope Z_scope.

Class Rustls := {
  cert : Type;
  key : Type;
  (** [pem_file_iter]: the file's certificates, any of which may not parse. *)
  pem_file_iter : string -> result string (list (result string cert));
  key_from_pem_file : string -> result string key;
  (** Whether [add_parsable_certificates] takes a certificate. *)
  parsable : cert -> bool;
  with_client_auth_cert : list cert -> key -> result string ();
  public_roots : list cert;
  (** The chain a server presents, against the trust anchors. *)
  server_chain : Type;
  webpki_verify : list cert -> server_chain -> bool;
}.

(** rustls's own verifier over a root store, or [NoCertificateVerification]. *)
Inductive Verifier `{Rustls} := WebPki (roots : list cert) | NoCertificateVerification.

Record TlsConfig `{Rustls} := { verifier : Verifier; client_auth : option (list cert * key) }.

Section tls.
Context `{Rustls}.

(** [verify_server_cert]. *)
Definition verify_server_cert (v : Verifier) (chain : server_chain) : bool :=
  match v with WebPki roots => webpki_verify roots chain | NoCertificateVerification => true end.

(** [collect::<Result<_, _>>()]: the first error, or all of them. *)
Fixpoint collect (certs : list (result string cert)) : result string (list cert) :=
  match certs with
  | [] => Ok []
  | c :: certs => c ← c; cs ← collect certs; Ok (c :: cs)
  end.

(** The certificates of a file, each error with the option and the path. *)
Definition read_certs (option_path : string) (path : string) : result string (list cert) :=
  certs ← explain option_path (pem_file_iter path); explain option_path (collect certs).

(** The root store. *)
Definition root_store (target : Target.t) : result string (list cert) :=
  match Target.tls_ca_file target with
  | None => Ok public_roots
  | Some path =>
      let what := ("tls_ca_file " +:+ path)%string in
      certs ← read_certs what path;
      _ ← refuse_when (bool_decide (certs = [])) (what +:+ " contains no certificates")%string;
      let added := base.filter (fun c => parsable c = true) certs in
      let ignored := Z.of_nat (length certs) - Z.of_nat (length added) in
      _ ← refuse_when (bool_decide (length added = O))
            (what +:+ " contains no usable CA certificates (" +:+ show_Z ignored +:+ " rejected)")%string;
      Ok added
  end.

(** The certificate the client presents. *)
Definition client_identity (target : Target.t) : result string (option (list cert * key)) :=
  match Target.tls_cert_file target, Target.tls_key_file target with
  | Some cert_path, Some key_path =>
      let what := ("tls_cert_file " +:+ cert_path)%string in
      chain ← read_certs what cert_path;
      _ ← refuse_when (bool_decide (chain = [])) (what +:+ " contains no certificates")%string;
      k ← explain ("tls_key_file " +:+ key_path) (key_from_pem_file key_path);
      _ ← explain "client certificate rejected" (with_client_auth_cert chain k);
      Ok (Some (chain, k))
  | _, _ => Ok None
  end.

(** [build_tls_client_config]. *)
Definition build_tls_client_config (target : Target.t) : result string TlsConfig :=
  roots ← root_store target;
  let v := if Target.tls_verify target then WebPki roots else NoCertificateVerification in
  identity ← client_identity target;
  Ok {| verifier := v; client_auth := identity |}.

(** [resolve_tls_server_name] of an endpoint, as a worker keeps the target's
    [tls] and [tls_hostname]. *)
Definition resolve_tls_server_name (tls_enabled : bool) (tls_server_name : option string) (endpoint : SocketAddr)
    : option string :=
  if negb tls_enabled then None else Some (default (sa_ip endpoint) tls_server_name).

(** ** Properties *)

(** The certificates of a PEM file that parses whole. *)
Definition pem_holds (path : string) (certs : list cert) : Prop := pem_file_iter path = Ok (map Ok certs).

(** What a target's options mean. *)
Definition trusted (target : Target.t) (roots : list cert) : Prop :=
  match Target.tls_ca_file target with
  | None => roots = public_roots
  | Some path => exists certs, pem_holds path certs /\ roots = base.filter (fun c => parsable c = true) certs /\ roots <> []
  end.

Definition presents (target : Target.t) (identity : option (list cert * key)) : Prop :=
  match Target.tls_cert_file target, Target.tls_key_file target with
  | Some cert_path, Some key_path =>
      exists chain k, identity = Some (chain, k) /\ pem_holds cert_path chain /\ chain <> [] /\
        key_from_pem_file key_path = Ok k /\ is_ok (with_client_auth_cert chain k) = true
  | _, _ => identity = None
  end.

Lemma collect_certs_ok certs cs : collect certs = Ok cs <-> certs = map Ok cs.
Proof.
  split; [|intros ->; induction cs as [|c cs IH]; cbn; [done|]; by rewrite IH].
  revert cs. induction certs as [|[c|e] certs IH]; intros cs; cbn; [by intros [= <-]| |done].
  destruct (collect certs) as [cs'|]; cbn; [|done]. intros [= <-]. by rewrite (IH cs').
Qed.

Lemma explain_ok_iff {A} what (r : result string A) a : explain what r = Ok a <-> r = Ok a.
Proof. split; [apply explain_ok|by intros ->]. Qed.

Lemma read_certs_ok what path cs : read_certs what path = Ok cs <-> pem_holds path cs.
Proof.
  unfold read_certs, pem_holds, mbind, result_bind. destruct (pem_file_iter path) as [certs|]; cbn; [|done].
  rewrite explain_ok_iff, collect_certs_ok. split; [by intros ->|by intros [= ->]].
Qed.

Lemma root_store_ok target roots : root_store target = Ok roots <-> trusted target roots.
Proof.
  unfold root_store, trusted. destruct (Target.tls_ca_file target) as [path|]; [|split; [by intros [= <-]|by intros ->]].
  cbv zeta. unfold mbind, result_bind. split.
  - destruct (read_certs _ path) as [certs|] eqn:R; [|done]. apply read_certs_ok in R.
    destruct (refuse_when _ _); [|done].
    destruct (refuse_when _ _) eqn:U; [|done]. apply refuse_when_ok, bool_decide_eq_false in U.
    intros [= <-]. exists certs. split; [done|]. split; [done|]. intros E. by rewrite E in U.
  - intros (certs & R & -> & N). apply (read_certs_ok ("tls_ca_file " +:+ path)) in R. rewrite R.
    destruct certs as [|c certs]; [done|]. cbn [bool_decide refuse_when].
    rewrite (bool_decide_eq_false_2 (c :: certs = [])) by done. cbn [refuse_when].
    rewrite bool_decide_eq_false_2; [done|]. intros L. by apply length_zero_iff_nil in L.
Qed.

Lemma client_identity_ok target i : client_identity target = Ok i <-> presents target i.
Proof.
  unfold client_identity, presents.
  destruct (Target.tls_cert_file target) as [cp|]; [|split; [by intros [= <-]|by intros ->]].
  destruct (Target.tls_key_file target) as [kp|]; [|split; [by intros [= <-]|by intros ->]].
  cbv zeta. unfold mbind, result_bind. split.
  - destruct (read_certs _ cp) as [chain|] eqn:R; [|done]. apply read_certs_ok in R.
    destruct (refuse_when _ _) eqn:U; [|done]. apply refuse_when_ok, bool_decide_eq_false in U.
    destruct (explain _ (key_from_pem_file kp)) as [k|] eqn:K; [|done]. apply explain_ok in K.
    destruct (explain _ (with_client_auth_cert chain k)) as [u|] eqn:A; [|done]. apply explain_ok in A.
    intros [= <-]. exists chain, k. by rewrite A.
  - intros (chain & k & -> & R & N & K & A). apply (read_certs_ok ("tls_cert_file " +:+ cp)) in R. rewrite R, K.
    rewrite bool_decide_eq_false_2 by done. cbn. by destruct (with_client_auth_cert chain k).
Qed.

(** A TLS client configuration is built exactly when the files the options name
    can be used, and then means what they say.  A CA file's certificates
    replace the public roots, and never leave an empty store; without
    one the server is verified against the public roots; with [tls_verify] off any
    server is accepted.  The client's certificate depends on the
    certificate and key files alone, so it is presented on both paths. *)
Theorem tls_config_exact target cfg :
  build_tls_client_config target = Ok cfg <->
  (exists roots, trusted target roots /\
     verifier cfg = (if Target.tls_verify target then WebPki roots else NoCertificateVerification)) /\
  presents target (client_auth cfg).
Proof.
  unfold build_tls_client_config, mbind, result_bind. cbv zeta. split.
  - destruct (root_store target) as [roots|] eqn:R; [|done]. destruct (client_identity target) as [i|] eqn:I; [|done].
    intros [= <-]. cbn. split; [exists roots; split; [by apply root_store_ok|done]|by apply client_identity_ok].
  - intros ((roots & R & V) & I). apply root_store_ok in R as ->. apply client_identity_ok in I as ->.
    destruct cfg as [v i]. cbn in *. by rewrite V.
Qed.

(** What the server's certificate is held to. *)
Theorem server_held_to_its_ca target cfg chain :
  build_tls_client_config target = Ok cfg ->
  verify_server_cert (verifier cfg) chain =
    (if Target.tls_verify target then
       match root_store target with Ok roots => webpki_verify roots chain | Err _ => false end
     else true).
Proof.
  unfold build_tls_client_config, mbind, result_bind. cbv zeta.
  destruct (root_store target) as [roots|]; [|done]. destruct (client_identity target); [|done].
  intros [= <-]. cbn. by destruct (Target.tls_verify target).
Qed.
End tls.

(** *** Witnesses *)

(** Certificates are their issuers' names; a server presents one. *)
Definition example_rustls : Rustls := {|
  cert := string; key := string;
  pem_file_iter p := if bool_decide (p = "ca.pem"%string) then Ok [Ok "corp"; Ok "bad"]%string
                     else if bool_decide (p = "me.pem"%string) then Ok [Ok "me"%string]
                     else if bool_decide (p = "empty.pem"%string) then Ok [] else Err "not found"%string;
  key_from_pem_file _ := Ok "key"%string; parsable c := negb (bool_decide (c = "bad"%string));
  with_client_auth_cert _ _ := Ok (); public_roots := ["public"%string]; server_chain := string;
  webpki_verify roots c := bool_decide (c ∈ roots) |}.

Definition example_target : Target.t := {|
  Target.endpoints := []; Target.protocol := Resp_; Target.tls := true; Target.tls_hostname := None;
  Target.tls_verify := true; Target.tls_ca_file := Some "ca.pem"%string; Target.tls_cert_file := Some "me.pem"%string;
  Target.tls_key_file := Some "me.key"%string; Target.cluster := false; Target.auto_discovery := false |}.

(** A private CA: its certificates are trusted, the public ones are not. *)
Lemma server_held_to_its_ca_witness :
  exists cfg, @build_tls_client_config example_rustls example_target = Ok cfg /\
    @verify_server_cert example_rustls (verifier cfg) "corp"%string = true /\
    @verify_server_cert example_rustls (verifier cfg) "public"%string = false.
Proof.
  eexists. split; [reflexivity|].
  split; (etransitivity; [by apply (@server_held_to_its_ca example_rustls example_target)|]); reflexivity.
Defined.

Example empty_ca_refused :
  @build_tls_client_config example_rustls (example_target <| Target.tls_ca_file := Some "empty.pem"%string |>)
  = Err "tls_ca_file empty.pem contains no certificates"%string.
Proof. reflexivity. Qed.
