(* ===== verification/Launch.v ===== *)
(** Launch: what [run_benchmark_full] prepares between discovery and the start
    of the workers ([src/src/runner.rs]): the rate, the limiters, the pacer, the
    key partitions, the key distribution, the append stream's queues and
    limiter, and the configuration each worker receives.

    The parts are those of Limiter, Keys and KeyDist; this file is their
    composition.  [None] is a panic or an error of the function.  The replay
    traces, the value pool and the admin server are outside it. *)

From Stdlib Require Import SpecFloat.
From S2P Require Import Prelude F64 Config Validate Keys KeyDist Limiter Sizing.
Open Scope Z_scope.

Section launch.
Context `{Hashing} `{Rng} `{Ratelimiter}.

(** [general.seed], or a fresh one. *)
Definition run_seed (fresh : Z) (c : Config.t) : Z := default fresh (General.seed (Config.general c)).

(** [initial_rate]. *)
Definition initial_rate (c : Config.t) : Z :=
  match Workload.saturation_search (Config.workload c) with
  | Some sat => SaturationSearch.start_rate sat
  | None => default 0 (Workload.rate_limit (Config.workload c))
  end.

(** The connections of each worker. *)
Definition worker_connections (c : Config.t) : list Z :=
  let threads := General.threads (Config.general c) in
  map (fun id => (connection_share (total_connections (Config.connection c)) threads id).1) (seqZ 0 threads).

(** [ratelimiter]: the inner [None] is an unlimited run. *)
Definition run_limiters (now : Z) (c : Config.t) : option (option WorkerLimiters) :=
  if (0 <? initial_rate c) || bool_decide (is_Some (Workload.saturation_search (Config.workload c))) then
    l ← limiters_new now (initial_rate c) (worker_connections c) (effective_batch_size c); Some (Some l)
  else Some None.

(** [prefill_ratelimiter]. *)
Definition run_pacer (now : Z) (c : Config.t) : option (option PrefillPacer) :=
  match Workload.prefill_rate_limit (Config.workload c) with
  | Some rate =>
      if (0 <? rate) && Workload.prefill (Config.workload c) then p ← pacer_new now rate (effective_batch_size c); Some (Some p)
      else Some None
  | None => Some None
  end.

(** [append_ratelimiter]. *)
Definition run_append_limiter (now : Z) (c : Config.t) : option (option bucket) :=
  match Workload.append (Config.workload c) with
  | Some a =>
      match Append.pace a with
      | Spread =>
          let rate := spread_rate a in
          b ← rl_build now rate (from_secs 1) (Z.max rate (Append.pipeline_depth a)) 0; Some (Some b)
      | Burst => Some None
      end
  | None => Some None
  end.

(** [build_prefill_queues] and [build_endpoint_keys] on the run's keyspace. *)
Definition run_queues (c : Config.t) (slot_table : option (list Z)) (key_count : Z) : option PrefillQueues :=
  let ks := Workload.keyspace (Config.workload c) in
  build_prefill_queues (Keyspace.format ks) key_count (Z.to_nat (Keyspace.length ks)) (Target.endpoints (Config.target c)) slot_table.

Definition run_endpoint_keys (c : Config.t) (slot_table : option (list Z)) : option (list (list Z)) :=
  let ks := Workload.keyspace (Config.workload c) in
  build_endpoint_keys (Keyspace.format ks) (Keyspace.count ks) (Z.to_nat (Keyspace.length ks)) (Target.endpoints (Config.target c)) slot_table.

(** What is new in each [BenchWorkerConfig]; the rest is shared. *)
Record BenchWorkerConfig := { bw_id : Z; bw_ratelimiter : option WorkerLimiter }.

Record Run := {
  run_rng_seed : Z;
  run_warmup : Z;
  run_target_rate : Z;
  run_ratelimiter : option WorkerLimiters;
  run_prefill_ratelimiter : option PrefillPacer;
  run_prefill_queues : PrefillQueues;
  run_prefill_total : Z;
  run_keys : list (list Z);
  run_key_dist : KeyDist;
  run_append_queues : PrefillQueues;
  run_append_ratelimiter : option bucket;
  run_workers : list BenchWorkerConfig;
}.

(** The preparation, in its order. *)
Definition launch (now fresh : Z) (c : Config.t) (slot_table : option (list Z)) : option Run :=
  let key_count := Keyspace.count (Workload.keyspace (Config.workload c)) in
  let prefill := Workload.prefill (Config.workload c) in
  ratelimiter ← run_limiters now c;
  prefill_ratelimiter ← run_pacer now c;
  prefill_queues ← run_queues c slot_table (if prefill then key_count else 0);
  endpoint_keys ← run_endpoint_keys c slot_table;
  key_dist ← from_workload (Config.workload c);
  append_queues ← run_queues c slot_table 0;
  append_ratelimiter ← run_append_limiter now c;
  Some {| run_rng_seed := run_seed fresh c; run_warmup := effective_warmup c; run_target_rate := initial_rate c;
          run_ratelimiter := ratelimiter; run_prefill_ratelimiter := prefill_ratelimiter;
          run_prefill_queues := prefill_queues; run_prefill_total := if prefill then key_count else 0;
          run_keys := endpoint_keys; run_key_dist := with_endpoint_keys key_dist endpoint_keys;
          run_append_queues := append_queues; run_append_ratelimiter := append_ratelimiter;
          run_workers := map (fun id => {| bw_id := id; bw_ratelimiter := l ← ratelimiter; limiters_worker l (Z.to_nat id) |})
                           (seqZ 0 (General.threads (Config.general c))) |}.

End launch.

(** ** Lemmas *)

Lemma sumZ_app l l' : sumZ (l ++ l') = sumZ l + sumZ l'.
Proof. induction l as [|x l IH]; cbn; lia. Qed.

(** The shares of the first [n] workers end where the next one starts. *)
Lemma shares_sum total threads n :
  0 <= total -> 0 < threads -> (Z.of_nat n <= threads) ->
  sumZ (map (fun id => (connection_share total threads id).1) (seqZ 0 (Z.of_nat n))) = (connection_share total threads (Z.of_nat n)).2.
Proof.
  intros Ht Hn. induction n as [|n IH]; intros B.
  - pose proof (connection_share_slices total threads 0 Ht Hn ltac:(lia)) as S. change (Z.of_nat 0) with 0. rewrite seqZ_nil by lia. cbn [map sumZ].
    destruct (connection_share total threads 0), (connection_share total threads (0 + 1)). cbn. destruct_hyps. lia.
  - rewrite Nat2Z.inj_succ, <- Z.add_1_r, seqZ_app, map_app, sumZ_app, IH by lia. rewrite Z.add_0_l.
    rewrite (seqZ_cons (Z.of_nat n)) by lia. rewrite seqZ_nil by lia. cbn [map sumZ].
    pose proof (connection_share_slices total threads (Z.of_nat n) Ht Hn ltac:(lia)) as S.
    destruct (connection_share total threads (Z.of_nat n)), (connection_share total threads (Z.of_nat n + 1)). cbn. destruct_hyps. lia.
Qed.

Lemma worker_connections_sum c :
  0 <= total_connections (Config.connection c) -> 0 < General.threads (Config.general c) ->
  sumZ (worker_connections c) = total_connections (Config.connection c) /\ Forall (Z.le 0) (worker_connections c).
Proof.
  intros Ht Hn. unfold worker_connections. set (threads := General.threads _) in *. set (total := total_connections _) in *. split.
  - pose proof (shares_sum total threads (Z.to_nat (threads - 1)) Ht Hn ltac:(lia)) as E. rewrite Z2Nat.id in E by lia.
    assert (Sp : seqZ 0 threads = seqZ 0 (threads - 1) ++ seqZ (threads - 1) 1).
    { replace threads with (threads - 1 + 1) at 1 by lia. rewrite seqZ_app by lia. by rewrite Z.add_0_l. }
    rewrite Sp, map_app, sumZ_app, E. rewrite (seqZ_cons (threads - 1)) by lia. rewrite seqZ_nil by lia. cbn [map sumZ].
    pose proof (connection_share_slices total threads (threads - 1) Ht Hn ltac:(lia)) as S.
    destruct (connection_share total threads (threads - 1)), (connection_share total threads (threads - 1 + 1)). cbn. destruct_hyps. lia.
  - apply Forall_map, Forall_forall. intros id Hid%elem_of_seqZ.
    pose proof (connection_share_slices total threads id Ht Hn ltac:(lia)) as S.
    destruct (connection_share total threads id), (connection_share total threads (id + 1)). cbn. destruct_hyps.
    pose proof (Z.div_pos total threads Ht Hn). lia.
Qed.

(** *** Comparisons of finite numbers *)

Lemma f64_compare_swap x y : f64_is_finite x = true -> f64_is_finite y = true ->
  exists r, SFcompare x y = Some r /\ SFcompare y x = Some (CompOpp r).
Proof.
  destruct x as [sx| | |[] m1 e1], y as [sy| | |[] m2 e2]; try done; intros _ _; cbn; try (by eexists);
    rewrite (Z.compare_antisym e1 e2); destruct (e1 ?= e2); cbn; try (by eexists);
    change (Pos.compare_cont Eq m2 m1) with (m2 ?= m1)%positive; change (Pos.compare_cont Eq m1 m2) with (m1 ?= m2)%positive;
    rewrite (Pos.compare_antisym m1 m2); destruct (m1 ?= m2)%positive; by eexists.
Qed.

Lemma f64_le_not_lt x y : f64_is_finite x = true -> f64_is_finite y = true -> f64_le x y = negb (f64_lt y x).
Proof.
  intros X Y. unfold f64_le, f64_lt, SFleb, SFltb. destruct (f64_compare_swap x y X Y) as (r & -> & ->). by destruct r.
Qed.

(** A valid configuration's distribution is built, over the whole keyspace. *)
Lemma from_workload_valid dma_build c :
  valid dma_build c ->
  let ks := Workload.keyspace (Config.workload c) in
  0 < Keyspace.count ks <= u64_max -> 0 <= Keyspace.hot_generations ks ->
  (forall a, Workload.append (Config.workload c) = Some a -> 0 <= Append.batch a /\ Keyspace.hot_generations ks * Append.batch a <= u64_max) ->
  exists d, from_workload (Config.workload c) = Some d /\ dist_ok d /\ dist_len d = Keyspace.count ks.
Proof.
  intros V ks Hc Hg Ha. unfold from_workload. fold ks. destruct (Keyspace.distribution ks) eqn:D.
  - eexists. split_and!; [done|done|done].
  - destruct (v_zipf _ _ V D) as (F & Z0 & _). unfold zipfian_new. fold ks in F, Z0.
    assert (T : f64_le f64_zero (Keyspace.zipf_theta ks) = true).
    { rewrite f64_le_not_lt by done. pose proof (f64_le_not_lt (Keyspace.zipf_theta ks) f64_zero F eq_refl) as N. rewrite Z0 in N.
      destruct (f64_compare_swap f64_zero (Keyspace.zipf_theta ks) eq_refl F) as (r & C1 & C2).
      unfold f64_lt, SFltb in *. rewrite C1 in N. rewrite C2. by destruct r. }
    rewrite T. rewrite (proj2 (Z.leb_le _ _)) by lia. cbn [andb mbind option_bind]. eexists. split_and!; [done|done|done].
  - destruct (v_recency _ _ V D) as [a Ea]. destruct (v_append _ _ V a Ea). rewrite Ea. cbn [mbind option_bind].
    destruct (Ha a Ea) as [Hb Hs]. unfold recency_new. fold ks in ap_generations, ap_decay, ap_fraction.
    destruct ap_decay as (F1 & F2 & F3), ap_fraction as (F4 & F5). unfold in_unit in F5. apply andb_true_iff in F5 as [F5 F6].
    rewrite (proj2 (Z.leb_le 1 (Append.batch a))), (proj2 (Z.leb_le 1 (Keyspace.hot_generations ks))) by lia.
    rewrite f64_le_not_lt in F2 by done. apply negb_false_iff in F2.
    rewrite F1, F2, F4, F5, F6, (f64_le_not_lt (Keyspace.hot_decay ks) f64_one) by done. rewrite F3. cbn [andb negb].
    destruct (cdf_loop _ _ _ _) as [cs acc]. cbn [mbind option_bind]. eexists. split_and!; [done| |done]. cbn. lia.
Qed.

Lemma with_keys_ok `{Rng} d ks : dist_ok d -> dist_ok (with_endpoint_keys d ks) /\ dist_len (with_endpoint_keys d ks) = dist_len d.
Proof. intros D. destruct d as [n|z|r]; [done| |done]. unfold with_endpoint_keys. destruct (1 <? length ks)%nat; done. Qed.

(** Each worker with connections has a limiter. *)
Lemma built_lookup `{Ratelimiter} now rate total active claim idx ws ls id :
  built now rate total active claim idx ws ls -> (id < length ws)%nat -> (mjoin (ls !! id) = None <-> ws !! id = Some 0).
Proof.
  revert idx ls id. induction ws as [|w ws IH]; intros idx ls id B L; [cbn in L; lia|]. destruct ls as [|o ls]; [done|]. cbn [built] in B.
  destruct id as [|id]; cbn [lookup list_lookup].
  - destruct (Z.eqb_spec w 0) as [->|N].
    + by destruct B as [-> _].
    + destruct B as [(x & -> & _) _]. split; [done|]. intros [= ->]. done.
  - cbn in L. destruct (w =? 0); [apply (IH idx); [apply B|lia]|apply (IH (idx + 1)); [apply B|lia]].
Qed.

Lemma effective_batch_pos c : 1 <= effective_batch_size c.
Proof. unfold effective_batch_size. ulia. Qed.

Lemma run_queues_built `{HashingLaws} c slot_table n :
  table_ok (Z.max (Z.of_nat (length (Target.endpoints (Config.target c)))) 1) slot_table ->
  exists qs, run_queues c slot_table n = Some qs /\ Permutation (concat qs) (key_ids n) /\
    length qs = Z.to_nat (Z.max (Z.of_nat (length (Target.endpoints (Config.target c)))) 1).
Proof.
  intros T. unfold run_queues. set (ks := Workload.keyspace _).
  destruct (prefill_queues_built (Keyspace.format ks) n (Z.to_nat (Keyspace.length ks)) (Target.endpoints (Config.target c)) slot_table T)
    as (qs & E & _ & L & P). by exists qs.
Qed.

Lemma run_append_limiter_built `{RatelimiterLaws} now c :
  (forall a, Workload.append (Config.workload c) = Some a -> Append.pipeline_depth a <= u64_max) ->
  exists o, run_append_limiter now c = Some o /\
    (is_Some o <-> exists a, Workload.append (Config.workload c) = Some a /\ Append.pace a = Spread).
Proof.
  intros Hd. unfold run_append_limiter. destruct (Workload.append _) as [a|]; [|exists None; split; [done|]; split; [by intros []%is_Some_None|naive_solver]].
  destruct (Append.pace a) eqn:P; [exists None; split; [done|]; split; [by intros []%is_Some_None|]; intros (? & [= <-] & ?); congruence|].
  assert (S : 1 <= spread_rate a) by (unfold spread_rate; lia).
  destruct (rl_build_ok now (spread_rate a) (from_secs 1) (Z.max (spread_rate a) (Append.pipeline_depth a)) 0) as (b & -> & _);
    [lia|lia|done|lia|]. cbn [mbind option_bind]. exists (Some b). split; [done|]. split; [by exists a|done].
Qed.

(** The limiters of a run: none for an unlimited one, else one for each worker
    with connections, their rates adding up to the run's. *)
Definition limiters_ready `{Ratelimiter} (c : Config.t) (o : option WorkerLimiters) : Prop :=
  match o with
  | None => initial_rate c = 0
  | Some l => sumZ (map limiter_rate (limiters l)) = initial_rate c * SUB * total_connections (Config.connection c) /\
              total_weight l = total_connections (Config.connection c)
  end.

Lemma run_limiters_built `{RatelimiterLaws} now c :
  0 < General.threads (Config.general c) -> 0 < total_connections (Config.connection c) <= u64_max -> 0 <= initial_rate c ->
  (initial_rate c * total_connections (Config.connection c) +
   effective_batch_size c * (General.threads (Config.general c) + 2)) * SUB <= u64_max ->
  exists o, run_limiters now c = Some o /\ limiters_ready c o /\
    (forall l id, o = Some l -> (id < Z.to_nat (General.threads (Config.general c)))%nat ->
       (limiters_worker l id = None <-> worker_connections c !! id = Some 0)).
Proof.
  intros Hn Ht Hr Hb. unfold run_limiters. destruct (worker_connections_sum c ltac:(lia) Hn) as [Su F].
  assert (Len : length (worker_connections c) = Z.to_nat (General.threads (Config.general c)))
    by (unfold worker_connections; by rewrite length_map, length_seqZ).
  pose proof (effective_batch_pos c) as E1. destruct (_ || _) eqn:Lm.
  - destruct (worker_shares now (initial_rate c) (worker_connections c) (effective_batch_size c)) as (l & -> & B & R & W);
      [done|done|lia|rewrite Su, Len, Z2Nat.id, Z.max_l by lia; lia|].
    cbn [mbind option_bind]. exists (Some l). rewrite Su in R, W. split_and!; [done|done|].
    intros l' id [= <-] L. unfold limiters_worker. by apply (built_lookup _ _ _ _ _ _ _ _ _ B); rewrite Len.
  - exists None. apply orb_false_iff in Lm as [Lm _]. split_and!; [done|cbn; lia|done].
Qed.

(** ** Theorem *)



(** *** Witness *)

(** Four keys prefilled on two endpoints at 100 a second, then 1000 requests a
    second from two workers over three connections. *)
Definition example_launch_config : Config.t :=
  let c := minimal_config 2 [ {| sa_ip := "127.0.0.1"; sa_port := 6379 |}; {| sa_ip := "127.0.0.1"; sa_port := 6380 |} ] Resp_ in
  c <| Config.general := (Config.general c) <| General.threads := 2 |> |>
    <| Config.connection := (Config.connection c) <| Connection.connections := 3 |> |>
    <| Config.workload := (Config.workload c) <| Workload.prefill := true |> <| Workload.rate_limit := Some 1000 |>
         <| Workload.prefill_rate_limit := Some 100 |>
         <| Workload.keyspace := (Workload.keyspace (Config.workload c)) <| Keyspace.count := 4 |> |> |>.

Lemma example_paced rate : 100 = rate ->
  is_Some (@pacer_new simple_ratelimiter 0 rate (effective_batch_size example_launch_config)).
Proof.
  intros <-. assert (B : match @pacer_new simple_ratelimiter 0 100 (effective_batch_size example_launch_config) with
                         | Some _ => true | None => false end = true) by (by vm_compute).
  destruct (pacer_new _ _ _) as [p|]; [exact (mk_is_Some _ _ eq_refl)|discriminate B].
Qed.


(** A keyspace of no keys is valid; the first key drawn from it panics. *)
Example empty_keyspace_valid :
  let c := example_launch_config <| Config.workload := (Config.workload example_launch_config)
             <| Workload.keyspace := (Workload.keyspace (Config.workload example_launch_config)) <| Keyspace.count := 0 |> |> |> in
  validate false c = Ok () /\ from_workload (Config.workload c) = Some (KUniform 0) /\ @sample counting_rng (KUniform 0) 5 = None.
Proof. split_and!; vm_compute; reflexivity. Qed.
