(* ===== verification/Pool.v ===== *)
(** Pool: the window of the value pool each SET in flight reads
    ([src/src/worker.rs], [make_value_guard], [value_slice],
    [ValuePoolGuard::as_ptr_len]).

    A guard hands the kernel a pointer into the pool without a check; what
    makes that sound is where the offsets come from.  Here the checks of
    Validate are followed through the loops of Workload and Append to every
    request a client holds. *)

From S2P Require Import Prelude F64 Text Config Validate Keys Limiter Dispatch Metrics InFlight KeyDist Routed Reply Workload Prefill Append Launch.
Open Scope Z_scope.

(** [as_ptr_len]: the [len] bytes from [offset] on are the pool's. *)
Definition as_ptr_len (value_len pool_len : Z) (f : Fire) : Prop :=
  match f with
  | FireSet _ offset len _ | FireSetWithGuard _ offset len _ => len = value_len /\ 0 <= offset /\ offset + len <= pool_len
  | FireGet _ _ | FireDel _ _ => True
  end.

Section pool.
Context `{Ratelimiter} `{RngLaws} `{Hashing} `{CL : ClientLaws} `{AddrParse}.
Variable env : Env.
Hypothesis LEN : 0 < value_len_ env <= pool_len env.
Hypothesis POOL : pool_len env < 2 ^ 32.

Definition inside : Fire -> Prop := as_ptr_len (value_len_ env) (pool_len env).

Definition holds_inside (c : client) : Prop := Forall inside (pending c).

(** ** Every SET that is built *)

Lemma set_fire_inside k ud r r' f : set_fire env k ud r = Some (r', f) -> inside f.
Proof.
  unfold set_fire, value_offset, range_draw. rewrite wrap64_small by (unfold u64_max; lia).
  rewrite (proj2 (Z.ltb_lt _ _)) by lia. cbn [mbind option_bind].
  pose proof (random_range_in 0 (pool_len env - value_len_ env + 1) r ltac:(lia)) as R.
  destruct (random_range _ _ r) as [r1 o]. cbn [snd] in R. intros E.
  repeat case_match_hyp E; simplify_eq; cbn; rewrite ?Z.mod_small by lia; lia.
Qed.

Lemma choose_fire_inside k r r' f : choose_fire env k r = Some (r', f) -> inside f.
Proof.
  unfold choose_fire. destruct (range_draw 0 100 r) as [[r1 x]|]; [|done]. cbn [mbind option_bind].
  destruct (_ <? _); [by intros [= _ <-]|]. destruct (_ <? _); [by intros [= _ <-]|]. apply set_fire_inside.
Qed.

(** ** What a client holds *)

Lemma take_inside n l : Forall inside l -> Forall inside (take n l).
Proof. apply Forall_take. Qed.

Lemma fire_inside f c c' ok : inside f -> holds_inside c -> fire f c = (c', ok) -> holds_inside c'.
Proof.
  unfold holds_inside. intros I C E. destruct ok.
  - destruct (fire_ok f c c' E) as [-> _]. apply Forall_app. by repeat constructor.
  - destruct (fire_err f c c' E) as [-> _]. by apply take_inside.
Qed.

Lemma flush_inside c c' ok : holds_inside c -> flush c = (c', ok) -> holds_inside c'.
Proof.
  unfold holds_inside. intros C E. destruct ok.
  - by destruct (flush_ok c c' E) as [-> _].
  - destruct (flush_err c c' E) as [-> _]. by apply take_inside.
Qed.

Lemma take_reply_inside c : holds_inside c -> holds_inside (take_reply c).
Proof. unfold holds_inside. rewrite take_reply_tail. apply Forall_tail. Qed.

Lemma do_fire_inside f s s' ok d : inside f -> holds_inside (cl s) -> do_fire f s = (s', ok, d) -> holds_inside (cl s').
Proof.
  unfold do_fire. intros I C E. destruct (fire f (cl s)) as [c b] eqn:Ef. pose proof (fire_inside f _ _ _ I C Ef).
  repeat case_match_hyp E; by simplify_eq.
Qed.

(** Goes through the code of a hypothesis, from its head on. *)
Ltac through E :=
  cbv zeta in E;
  repeat match type of E with
  | None = Some _ => discriminate E
  | Some _ = Some _ => injection E as E; simplify_eq; cbn [cl w_client set_field] in *
  | mbind _ _ = Some _ => let x := fresh "x" in let B := fresh "B" in apply bind_Some in E as (x & B & E); cbv zeta beta in E
  | (match ?x with _ => _ end) = Some _ => destruct x eqn:?; cbv zeta in E
  end.

(** *** Steps that leave the client alone *)

Lemma take_backfill_client now s s' k : take_backfill now s = (s', k) -> cl s' = cl s.
Proof. unfold take_backfill. intros E. repeat case_match_hyp E; by simplify_eq. Qed.

Lemma token_budget_client now s s' n b : token_budget env now s = (s', n, b) -> cl s' = cl s.
Proof. unfold token_budget. intros E. repeat case_match_hyp E; by simplify_eq. Qed.

Lemma reject_pick_client n : forall s s' k, reject_pick env n s = Some (s', k) -> cl s' = cl s.
Proof.
  induction n as [|n IH]; intros s s' k E; cbn [reject_pick] in E; [by simplify_eq|].
  through E; try done. by rewrite (IH _ _ _ E).
Qed.

Lemma pick_key_client s s' k : pick_key env s = Some (s', k) -> cl s' = cl s.
Proof. unfold pick_key. intros E. through E; try done; by eapply reject_pick_client. Qed.

Lemma drain_prefill_client s s' : drain_prefill env s = Some s' -> cl s' = cl s.
Proof. unfold drain_prefill. intros E. by through E. Qed.

Lemma drop_refusal_client s : cl (drop_refusal s) = cl s.
Proof. unfold drop_refusal. by destruct (refused s). Qed.

Lemma publish_slip_client now s : cl (publish_slip now s) = cl s.
Proof. unfold publish_slip. by destruct (limiter_ s). Qed.

Lemma on_reply_client r s s' : on_reply env r s = Some s' -> cl s' = cl s.
Proof.
  unfold on_reply. intros E. destruct (pop _) as [x q]. rewrite <- (drop_refusal_client s).
  apply bind_Some in E as (s1 & E1 & E). apply bind_Some in E as (s2 & E2 & E).
  assert (cl s1 = cl (drop_refusal s)) as <- by (unfold on_prefill_reply in E1; by through E1).
  assert (cl s2 = cl (on_backfill_reply env r s1)) as E3 by (unfold on_redirect in E2; by through E2).
  assert (cl (on_backfill_reply env r s1) = cl s1) as <- by (unfold on_backfill_reply; by repeat case_match_goal).
  rewrite <- E3. injection E as <-. by destruct (routed _).
Qed.

(** What was built and fired on the way, and the rest of a loop by [IH]. *)
Ltac inside_tac IH :=
  try done;
  try match goal with E : _ = Some _ |- _ => apply IH in E; [exact E|] end;
  repeat match goal with
  | |- holds_inside (cl (set_field _ _)) => cbn [cl set_field]
  | |- holds_inside (cl (note _ _)) => unfold note; cbn
  | D : do_fire ?f ?s = (?s1, _, _) |- holds_inside (cl ?s1) => eapply do_fire_inside; [|cbn|exact D]
  | P : pick_key env _ = Some (?s1, _) |- holds_inside (cl ?s1) => rewrite (pick_key_client _ _ _ P)
  | B : set_fire env _ _ _ = Some (_, ?f) |- inside ?f => eapply set_fire_inside; exact B
  | B : choose_fire env _ _ = Some (_, ?f) |- inside ?f => eapply choose_fire_inside; exact B
  end; try done.

Lemma fill_prefill_inside fuel now fa : forall s fc s' fc',
  fill_prefill_loop env fuel now fa s fc = Some (s', fc') -> holds_inside (cl s) -> holds_inside (cl s').
Proof.
  induction fuel as [|fuel IH]; intros s fc s' fc' E C; [done|]. cbn [fill_prefill_loop] in E.
  through E; inside_tac IH.
Qed.

(** *** The loops *)

Lemma fill_routed_inside fuel now fa : forall s fc s' fc' failed,
  fill_routed_loop env fuel now fa s fc = Some (s', fc', failed) -> holds_inside (cl s) -> holds_inside (cl s').
Proof.
  induction fuel as [|fuel IH]; intros s fc s' fc' failed E C; [done|]. cbn [fill_routed_loop] in E.
  destruct (take_backfill (now fuel) s) as [s1 k] eqn:T. pose proof C as C1. rewrite <- (take_backfill_client _ _ _ _ T) in C1. clear T.
  through E; inside_tac IH.
Qed.

Lemma fill_warm_inside budget fa slip : forall s fc s' fc',
  fill_warm_loop env budget fa slip s fc = Some (s', fc') -> holds_inside (cl s) -> holds_inside (cl s').
Proof.
  induction budget as [|budget IH]; intros s fc s' fc' E C; cbn [fill_warm_loop] in E; [by simplify_eq|].
  through E; inside_tac IH.
Qed.

Lemma fill_inside phase done_ fuel now s s' fc starved failed :
  fill env phase done_ fuel now s = Some (s', fc, starved, failed) -> holds_inside (cl s) -> holds_inside (cl s').
Proof.
  unfold fill. intros E C. destruct (_ && negb done_).
  - through E; try done. by eapply fill_prefill_inside.
  - destruct (serving phase && _); [|by simplify_eq]. destruct (routed s).
    + through E. by eapply fill_routed_inside.
    + destruct (token_budget env (now 0%nat) s) as [[s1 n] b] eqn:T. through E. eapply fill_warm_inside; [eassumption|].
      by rewrite publish_slip_client, (token_budget_client _ _ _ _ _ T).
Qed.

Lemma flush_batch_inside phase s fc s' : flush_batch env phase s fc = Some s' -> holds_inside (cl s) -> holds_inside (cl s').
Proof.
  unfold flush_batch. intros E C. destruct (flush (cl s)) as [c ok] eqn:Fl. pose proof (flush_inside _ _ _ C Fl).
  through E; [done|]. by through B.
Qed.

Lemma iterate_inside phase done_ dispatcher fuel now s s' next :
  iterate env phase done_ dispatcher fuel now s = Some (s', next) -> holds_inside (cl s) -> holds_inside (cl s').
Proof.
  unfold iterate. rewrite <- (drop_refusal_client s). intros E C. destruct (bool_decide _); [by simplify_eq|]. destruct (_ && _).
  - through E. by rewrite (drain_prefill_client _ _ B).
  - through E. rewrite publish_slip_client. eapply flush_batch_inside; [eassumption|]. by eapply fill_inside.
Qed.

Lemma writer_discard_client before c w w' : writer_discard env before c w = Some w' -> w_client w' = c.
Proof. unfold writer_discard. intros E. by through E. Qed.

Lemma append_fill_inside fuel fa : forall budget w w', append_fill env fuel fa budget w = Some w' -> holds_inside (w_client w) -> holds_inside (w_client w').
Proof.
  induction fuel as [|fuel IH]; intros budget w w' E C; [done|]. cbn [append_fill] in E. through E; try done.
  - by apply IH in E.
  - apply IH in E; [done|]. eapply fire_inside; [|exact C|eassumption]. by eapply set_fire_inside.
  - rewrite (writer_discard_client _ _ _ _ E). eapply fire_inside; [|exact C|eassumption]. by eapply set_fire_inside.
Qed.

Lemma writer_iterate_inside stop fuel now w w' next :
  writer_iterate env stop fuel now w = Some (w', next) -> holds_inside (w_client w) -> holds_inside (w_client w').
Proof.
  unfold writer_iterate. intros E C. destruct stop; [by simplify_eq|]. destruct (_ && _).
  - apply bind_Some in E as (w1 & B & E). simplify_eq. unfold requeue_drained_append in B. by through B.
  - apply bind_Some in E as (w1 & B & E). assert (C1 : holds_inside (w_client w1)).
    { unfold writer_fill in B. through B; try done. by eapply append_fill_inside. }
    destruct (flush (w_client w1)) as [c ok] eqn:Fl. pose proof (flush_inside _ _ _ C1 Fl).
    apply bind_Some in E as (w2 & B2 & E). simplify_eq. destruct ok; [by simplify_eq|]. by rewrite (writer_discard_client _ _ _ _ B2).
Qed.

Lemma writer_reply_client r w w' : writer_reply env r w = Some w' -> w_client w' = w_client w.
Proof.
  unfold writer_reply. intros E. apply bind_Some in E as (w1 & B & E).
  assert (w_client w1 = w_client w) as <- by (by through B). by through E.
Qed.

(** ** Histories of a connection

    A connection iterates, handles the replies its client took, and after a
    loss goes on with a new client; in between others may change what they
    share with it, but not its client. *)
Inductive conn_turn : Conn -> Conn -> Prop :=
| ct_iterate s s' phase done_ dispatcher fuel now next :
    iterate env phase done_ dispatcher fuel now s = Some (s', next) -> conn_turn s s'
| ct_reply s s' r : on_reply env r (s <| cl := take_reply (cl s) |>) = Some s' -> conn_turn s s'
| ct_lost s s' c : on_disconnect env s = Some s' -> pending c = [] -> conn_turn s (s' <| cl := c |>)
| ct_shared s s' : cl s' = cl s -> conn_turn s s'.

Inductive writer_turn : Writer -> Writer -> Prop :=
| wt_iterate w w' stop fuel now next : writer_iterate env stop fuel now w = Some (w', next) -> writer_turn w w'
| wt_reply w w' r : writer_reply env r (w <| w_client := take_reply (w_client w) |>) = Some w' -> writer_turn w w'
| wt_lost w c : pending c = [] -> writer_turn w (w <| w_client := c |>)
| wt_shared w w' : w_client w' = w_client w -> writer_turn w w'.

Lemma conn_turn_inside s s' : conn_turn s s' -> holds_inside (cl s) -> holds_inside (cl s').
Proof.
  destruct 1 as [s s' ph dn di fu now nx E|s s' r E|s s' c E Pc|s s' E]; intros C.
  - by eapply iterate_inside.
  - rewrite (on_reply_client _ _ _ E). by apply take_reply_inside.
  - unfold holds_inside. cbn. rewrite Pc. constructor.
  - by rewrite E.
Qed.

Lemma writer_turn_inside w w' : writer_turn w w' -> holds_inside (w_client w) -> holds_inside (w_client w').
Proof.
  destruct 1 as [w w' st fu now nx E|w w' r E|w c Pc|w w' E]; intros C.
  - by eapply writer_iterate_inside.
  - rewrite (writer_reply_client _ _ _ E). by apply take_reply_inside.
  - unfold holds_inside. cbn. rewrite Pc. constructor.
  - by rewrite E.
Qed.

Lemma inside_history {T} (turn : T -> T -> Prop) (cl_of : T -> client) s s' :
  (forall a b, turn a b -> holds_inside (cl_of a) -> holds_inside (cl_of b)) ->
  rtc turn s s' -> pending (cl_of s) = [] -> holds_inside (cl_of s').
Proof.
  intros Step R P. assert (C : holds_inside (cl_of s)) by (unfold holds_inside; rewrite P; constructor).
  clear P. induction R as [s|s s1 s' T1 R IH]; [done|]. apply IH. by eapply Step.
Qed.

End pool.

(** ** Properties *)


(** ** Witness *)

Definition example_pool_env : @Env example_hashing :=
  {| flavor := Resp; key_format := Hex; key_len := 4%nat;
     hash_ring := ["a"; "b"]%string : @ring example_hashing; num_endpoints := 2; endpoint_idx := 0;
     pipeline_depth := 4; batch_size := 2; get_ratio := 80; delete_ratio := 0; value_len_ := 64;
     pool_len := VALUE_POOL_SIZE; backfill_on_miss := true; key_dist := KUniform 8;
     endpoint_keys := [[0; 2; 4; 6]; [1; 3; 5; 7]]; endpoints := example_nodes |}.

