(* ===== verification/Results.v ===== *)
(** Results: what a run reports ([src/src/output/mod.rs]: the records of the
    results and their methods; [src/src/runner.rs], [delta_latency_stats];
    [src/src/kvreplay.rs], [KvBaseline] and [results]).

    Every counter runs from the start of the process.  What is reported is the
    growth since the baseline read as recording began. *)

From S2P Require Import Prelude F64 Config RateSearch Limiter Metrics Saturation Trace KvRequest KvDispatch.
Open Scope Z_scope.

(** ** Records *)

(** [PrefillSample]. *)
Record PrefillSample := {
  ps_elapsed : Z; ps_confirmed : Z; ps_total : Z; ps_set_per_sec : f64; ps_err_per_sec : f64;
  ps_conns_active : Z; ps_reconnects : Z;
}.

(** [Sample], without its wall-clock timestamp. *)
Record Sample := {
  sm_req_per_sec : f64; sm_err_per_sec : f64; sm_hit_pct : f64;
  sm_p50 : f64; sm_p90 : f64; sm_p99 : f64; sm_p999 : f64; sm_p9999 : f64; sm_max : f64;
}.

(** [LatencyStats]. *)
Record LatencyStats := {
  ls_p50 : f64; ls_p90 : f64; ls_p99 : f64; ls_p999 : f64; ls_p9999 : f64; ls_max : f64;
}.

Definition no_latency : LatencyStats :=
  {| ls_p50 := f64_zero; ls_p90 := f64_zero; ls_p99 := f64_zero; ls_p999 := f64_zero;
     ls_p9999 := f64_zero; ls_max := f64_zero |}.

(** [PrefillStallCause]. *)
Inductive PrefillStallCause :=
| NoConnections
| NoResponses
| Stalled
| TooSlow (estimated_remaining : Z)
| Unknown.

(** [fmt::Display] of the cause. *)
Definition stall_cause_text (c : PrefillStallCause) : string :=
  match c with
  | NoConnections => "no connections established"
  | NoResponses => "connections established but no responses received"
  | Stalled => "progress stalled"
  | TooSlow d => ("too slow (estimated " ++ fmt_f64 0 (as_secs_f64 d) ++ "s remaining)")%string
  | Unknown => "unknown"
  end.

(** [PrefillDiagnostics]. *)
Record PrefillDiagnostics := {
  pd_workers_complete : Z; pd_workers_total : Z; pd_keys_confirmed : Z; pd_keys_total : Z;
  pd_elapsed : Z; pd_conns_active : Z; pd_conns_failed : Z; pd_bytes_rx : Z; pd_requests_sent : Z;
  pd_likely_cause : PrefillStallCause;
}.

(** [KvReplayResults]. *)
Record KvReplayResults := {
  kvr_closed_loop : bool; kvr_speedup : f64; kvr_write_rule : string; kvr_trace_requests : Z;
  kvr_requests : Z; kvr_requests_failed : Z; kvr_input_tokens : Z; kvr_cached_tokens : Z;
  kvr_new_tokens : Z; kvr_full_hits : Z; kvr_chunk0_misses : Z; kvr_no_full_chunk : Z;
  kvr_get_nil : Z; kvr_exists : Z; kvr_lookups : Z; kvr_loads : Z; kvr_stores : Z;
  kvr_loads_with_cached : Z;
  kvr_lookup_time : LatencyStats; kvr_load_time : LatencyStats; kvr_store_time : LatencyStats;
  kvr_load_time_per_1k : LatencyStats; kvr_schedule_lag : LatencyStats;
}.

(** [Results]. *)
Record Results := {
  rs_duration_secs : f64;
  rs_requests : Z; rs_responses : Z; rs_errors : Z; rs_timeouts : Z; rs_hits : Z; rs_misses : Z;
  rs_bytes_tx : Z; rs_bytes_rx : Z; rs_get_count : Z; rs_set_count : Z;
  rs_get_latencies : LatencyStats; rs_get_ttfb : LatencyStats; rs_set_latencies : LatencyStats;
  rs_backfill_set_count : Z; rs_backfill_set_latencies : LatencyStats;
  rs_append_set_count : Z; rs_append_set_latencies : LatencyStats; rs_append_batches : Z;
  rs_conns_active : Z; rs_conns_failed : Z; rs_conns_total : Z;
  rs_requests_dropped : Z; rs_requests_send_failed : Z; rs_routed_queue_dropped : Z;
  rs_schedule_slip : LatencyStats; rs_perceived_latency : LatencyStats;
  rs_kv_replay : option KvReplayResults; rs_trace_replay : option TraceReplayResults;
}.

(** ** Methods of the results *)

(** [n / d], 0 when [d] is. *)
Definition ratio (n d : Z) : f64 :=
  if 0 <? d then f64_div (f64_of_Z n) (f64_of_Z d) else f64_zero.

(** [n / d] as a percentage. *)
Definition percent (n d : Z) : f64 :=
  if 0 <? d then f64_mul (f64_div (f64_of_Z n) (f64_of_Z d)) (f64_of_Z 100) else f64_zero.

Definition per_second (n : Z) (secs : f64) : f64 :=
  if f64_lt f64_zero secs then f64_div (f64_of_Z n) secs else f64_zero.

(** [KvReplayResults::cached_fraction]. *)
Definition cached_fraction (r : KvReplayResults) : f64 := ratio (kvr_cached_tokens r) (kvr_input_tokens r).

(** [KvReplayResults::timing]. *)
Definition timing (r : KvReplayResults) : string :=
  if kvr_closed_loop r then "closed-loop" else "open-loop".

Definition throughput (r : Results) : f64 := per_second (rs_responses r) (rs_duration_secs r).

Definition err_pct (r : Results) : f64 := percent (rs_errors r) (rs_responses r).

Definition hit_pct (r : Results) : f64 := percent (rs_hits r) (wrap64 (rs_hits r + rs_misses r)).

Definition bits_per_second (bytes : Z) (secs : f64) : f64 :=
  if f64_lt f64_zero secs then f64_mul (f64_div (f64_of_Z bytes) secs) (f64_of_Z 8) else f64_zero.

Definition rx_bps (r : Results) : f64 := bits_per_second (rs_bytes_rx r) (rs_duration_secs r).

Definition tx_bps (r : Results) : f64 := bits_per_second (rs_bytes_tx r) (rs_duration_secs r).

Definition offered (r : Results) : Z :=
  wrap64 (rs_requests r + rs_requests_dropped r + rs_requests_send_failed r + rs_routed_queue_dropped r).

Definition overload_pct (r : Results) : f64 := percent (rs_requests_dropped r) (offered r).

(** ** What is measured *)

Section measured.
Context `{Histograms}.

(** The metrics at one moment: [value] and [load]. *)
Record Snapshot := {
  sn_counter : Counter -> Z;
  sn_hist : Histogram -> option hist;
}.

(** [percentile_from_histogram] and [max_from_histogram] of the runner, in
    microseconds. *)
Definition percentile_us (h : hist) (p : f64) : f64 :=
  f64_div (match hist_quantile h p with Some e => f64_of_Z e | None => f64_zero end) (f64_of_Z 1000).

Definition max_us (h : hist) : f64 :=
  f64_div (match hist_max h with Some e => f64_of_Z e | None => f64_zero end) (f64_of_Z 1000).

Definition latency_stats (h : hist) : LatencyStats :=
  {| ls_p50 := percentile_us h (f64_lit 50 100); ls_p90 := percentile_us h (f64_lit 90 100);
     ls_p99 := percentile_us h (f64_lit 99 100); ls_p999 := percentile_us h (f64_lit 999 1000);
     ls_p9999 := percentile_us h (f64_lit 9999 10000); ls_max := max_us h |}.

(** [delta_latency_stats]. *)
Definition delta_latency_stats (current baseline : option hist) : LatencyStats :=
  match window current baseline with Some d => latency_stats d | None => no_latency end.

(** [kv_counters]. *)
Definition kv_counters (value : Counter -> Z) : list Z :=
  map value
    [KV_REQUESTS; KV_REQUESTS_FAILED; KV_INPUT_TOKENS; KV_CACHED_TOKENS; KV_NEW_TOKENS; KV_FULL_HITS;
     KV_CHUNK0_MISSES; KV_NO_FULL_CHUNK; KV_GET_NIL; KV_EXISTS_COUNT; KV_LOOKUPS; KV_LOADS; KV_STORES;
     KV_LOADS_WITH_CACHED].

(** [KvBaseline]. *)
Record KvBaseline := {
  kb_counters : list Z;
  kb_lookup : option hist; kb_load : option hist; kb_store : option hist;
  kb_load_per_1k : option hist; kb_lag : option hist;
}.

(** [KvBaseline::take]. *)
Definition kv_baseline_take (s : Snapshot) : KvBaseline :=
  {| kb_counters := kv_counters (sn_counter s);
     kb_lookup := sn_hist s KV_LOOKUP_TIME; kb_load := sn_hist s KV_LOAD_TIME;
     kb_store := sn_hist s KV_STORE_TIME; kb_load_per_1k := sn_hist s KV_LOAD_TIME_PER_1K_TOKENS;
     kb_lag := sn_hist s KV_SCHEDULE_LAG |}.

(** [KvReplay::results]. *)
Definition kv_results (rule : KvWriteRule) (trace_requests : Z) (k : KvShared) (s : Snapshot) (base : KvBaseline)
    : KvReplayResults :=
  let d i := sat_sub (nth i (kv_counters (sn_counter s)) 0) (nth i (kb_counters base) 0) in
  {| kvr_closed_loop := closed_loop k; kvr_speedup := k_speedup k; kvr_write_rule := KvWriteRule_as_str rule;
     kvr_trace_requests := trace_requests;
     kvr_requests := d 0%nat; kvr_requests_failed := d 1%nat; kvr_input_tokens := d 2%nat;
     kvr_cached_tokens := d 3%nat; kvr_new_tokens := d 4%nat; kvr_full_hits := d 5%nat;
     kvr_chunk0_misses := d 6%nat; kvr_no_full_chunk := d 7%nat; kvr_get_nil := d 8%nat;
     kvr_exists := d 9%nat; kvr_lookups := d 10%nat; kvr_loads := d 11%nat; kvr_stores := d 12%nat;
     kvr_loads_with_cached := d 13%nat;
     kvr_lookup_time := delta_latency_stats (sn_hist s KV_LOOKUP_TIME) (kb_lookup base);
     kvr_load_time := delta_latency_stats (sn_hist s KV_LOAD_TIME) (kb_load base);
     kvr_store_time := delta_latency_stats (sn_hist s KV_STORE_TIME) (kb_store base);
     kvr_load_time_per_1k :=
       delta_latency_stats (sn_hist s KV_LOAD_TIME_PER_1K_TOKENS) (kb_load_per_1k base);
     kvr_schedule_lag := delta_latency_stats (sn_hist s KV_SCHEDULE_LAG) (kb_lag base) |}.

End measured.

(** ** Lemmas *)

(** A growth below [2^64] survives the wrap of the counters. *)
Lemma wrap64_growth a n : is_u64 n -> wrap64 (wrap64 (a + n) - wrap64 a) = n.
Proof.
  unfold wrap64, u64_max. intros. rewrite <- Zminus_mod.
  replace (a + n - a) with n by lia. apply Z.mod_small. lia.
Qed.
