(* ===== verification/Runner.v ===== *)
(** Runner: the main thread of a run ([src/src/runner.rs],
    [run_benchmark_full]).

    The main thread wakes every 100 ms; [tick] is one pass of its loop.  It
    drives the phases, reports once a second, opens append batches and steps
    the saturation search.  What it reads of the rest of the program is a
    [View]; what it does to the rest is a list of [Effect]s in order. *)

From S2P Require Import Prelude F64 Config RateSearch Keys KeyDist Limiter Metrics Workload Append Saturation Trace KvRequest KvDispatch Startup Sizing Results.
Open Scope Z_scope.

(** ** What one pass reads

    [v_now n] and [v_metrics n] are the [n]-th reading of the clock and of the
    metrics in the pass.  Each other field is read at most once in a pass.
    [v_running] is the flag at the top of the loop, [v_running_kv] and
    [v_running_trace] after the wait for the reader thread of a replay. *)
Section runner.
Context `{Ratelimiter} `{Hashing} `{Histograms}.

Record View := {
  v_now : nat -> Z;
  v_metrics : nat -> Snapshot;
  v_conns_active : Z;
  v_running : bool;
  v_running_kv : bool;
  v_running_trace : bool;
  v_shared : SharedState;
  v_all_workers_finished : bool;
  v_limiters : option WorkerLimiters;
  v_pacer : bool;
  v_kv : option KvShared;
  v_trace : option Replay;
  v_append_queues : PrefillQueues;
}.

(** ** What it does *)

Inductive Effect :=
| SetPhase (p : Phase)
| RestartLimiters
| RestartPacer
| KvStart (at_ : Z)
| TraceStart
| SetRate (rate : Z)
| SetAppendQueues (qs : PrefillQueues)
| AddAppendTotal (n : Z)
| SetHead (id : Z)
| SetDroppedGauge (n : Z)
| Shutdown
| PrintPrecheckOk (elapsed : Z)
| PrintPrecheckFailed (elapsed conns_failed : Z)
| PrintPrefill (count : Z)
| PrintPrefillHeader
| PrintPrefillSample (s : PrefillSample)
| PrintWarmup (d : Z)
| PrintRunning (d : Z)
| PrintHeader
| PrintSample (s : Sample)
| PrintPrefillTimeout (d : PrefillDiagnostics)
| PrintResults (r : Results)
| PrintSaturationResults (r : SaturationResults).

(** [continue] or the end of the body, [break], or [return Err]. *)
Inductive Outcome := Continue | Break | Fail (e : string).

(** ** State *)

(** The [last_*] variables of the periodic report. *)
Record Last := {
  l_report : Z; l_responses : Z; l_errors : Z; l_conn_failures : Z; l_hits : Z; l_misses : Z;
  l_histogram : option hist;
}.

(** The [baseline_*] variables: the counters and histograms read as recording
    began, and the two that are not metrics. *)
Record Baseline := { b_metrics : Snapshot; b_append_batches : Z; b_dropped : Z }.

(** The variables of prefill's progress. *)
Record PrefillProgress := {
  pf_start : Z; pf_confirmed : Z; pf_progress_time : Z; pf_report : Z;
  pf_confirmed_snapshot : Z; pf_errors : Z; pf_conn_failures : Z;
}.

Record Runner := {
  current_phase : Phase;
  actual_duration : Z;
  warmup_start : option Z;
  running_start : option Z;
  precheck_start : option Z;
  progress : PrefillProgress;
  prefill_timeout_diag : option PrefillDiagnostics;
  last : Last;
  baseline : Baseline;
  kv_base : option KvBaseline;
  trace_base : option (list Z);
  saturation_state : option SatState;
  append_state : AppendRunner;
}.

#[export] Instance eta_PrefillProgress : Settable PrefillProgress := fun x =>
  {| pf_start := pf_start x; pf_confirmed := pf_confirmed x; pf_progress_time := pf_progress_time x;
     pf_report := pf_report x; pf_confirmed_snapshot := pf_confirmed_snapshot x;
     pf_errors := pf_errors x; pf_conn_failures := pf_conn_failures x |}.

#[export] Instance eta_Runner : Settable Runner := fun x =>
  {| current_phase := current_phase x; actual_duration := actual_duration x; warmup_start := warmup_start x;
     running_start := running_start x; precheck_start := precheck_start x; progress := progress x;
     prefill_timeout_diag := prefill_timeout_diag x; last := last x; baseline := baseline x;
     kv_base := kv_base x; trace_base := trace_base x; saturation_state := saturation_state x;
     append_state := append_state x |}.

Definition no_metrics : Snapshot := {| sn_counter := fun _ => 0; sn_hist := fun _ => None |}.

(** The variables before the loop, [now] being the clock there. *)
Definition runner_start (cfg : Config.t) (now : Z) : Runner :=
  {| current_phase := Precheck; actual_duration := General.duration (Config.general cfg);
     warmup_start := None; running_start := None; precheck_start := None;
     progress := {| pf_start := now; pf_confirmed := 0; pf_progress_time := now; pf_report := now;
                    pf_confirmed_snapshot := 0; pf_errors := 0; pf_conn_failures := 0 |};
     prefill_timeout_diag := None;
     last := {| l_report := now; l_responses := 0; l_errors := 0; l_conn_failures := 0; l_hits := 0;
                l_misses := 0; l_histogram := None |};
     baseline := {| b_metrics := no_metrics; b_append_batches := 0; b_dropped := 0 |};
     kv_base := None; trace_base := None; saturation_state := None;
     append_state := append_start (Keyspace.count (Workload.keyspace (Config.workload cfg))) |}.

Definition REPORT_INTERVAL : Z := from_secs 1.

Definition PREFILL_STALL : Z := from_secs 30.

Definition num_threads (cfg : Config.t) : Z := General.threads (Config.general cfg).

Definition key_count (cfg : Config.t) : Z := Keyspace.count (Workload.keyspace (Config.workload cfg)).

Definition precheck_timeout (cfg : Config.t) : Z := Connection.connect_timeout (Config.connection cfg).

(** ** Precheck *)

(** After a replay's first requests were waited for: [Some true] on a read
    error, [Some false] on an interrupt, [None] to go on. *)
Definition kv_precheck (v : View) : option bool :=
  match v_kv v with
  | Some kv =>
      if bool_decide (is_Some (k_error kv)) then Some true
      else if negb (v_running_kv v) then Some false
      else None
  | None => None
  end.

Definition trace_precheck (v : View) : option bool :=
  match v_trace v with
  | Some t =>
      if bool_decide (is_Some (rd_error t)) then Some true
      else if negb (v_running_trace v) then Some false
      else None
  | None => None
  end.

(** Start the replay clocks as warmup starts, if there is one. *)
Definition kv_start_warmup (cfg : Config.t) (at_ : Z) (v : View) : list Effect :=
  if bool_decide (is_Some (v_kv v)) && negb (effective_warmup cfg =? 0) then [KvStart at_] else [].

Definition trace_start_warmup (cfg : Config.t) (v : View) : list Effect :=
  if bool_decide (is_Some (v_trace v)) && negb (effective_warmup cfg =? 0) then [TraceStart] else [].

Definition restart_limiters (v : View) : list Effect :=
  if bool_decide (is_Some (v_limiters v)) then [RestartLimiters] else [].

Definition enter_prefill (cfg : Config.t) (v : View) (r : Runner) : Runner * list Effect :=
  (r <| current_phase := Prefill |>
     <| progress := (progress r) <| pf_start := v_now v 1%nat |> <| pf_progress_time := v_now v 2%nat |>
          <| pf_confirmed_snapshot := 0 |> <| pf_errors := sn_counter (v_metrics v 0%nat) REQUEST_ERRORS |>
          <| pf_conn_failures := sn_counter (v_metrics v 0%nat) CONNECTIONS_FAILED |> |>,
   (if v_pacer v then [RestartPacer] else []) ++
   [SetPhase Prefill; PrintPrefill (key_count cfg); PrintPrefillHeader]).

(** Both transitions to warmup; [trace] is whether this one starts the trace
    replay. *)
Definition enter_warmup (cfg : Config.t) (trace : bool) (at_ began : Z) (v : View) (r : Runner)
    : Runner * list Effect :=
  (r <| current_phase := Warmup |> <| warmup_start := Some began |>,
   kv_start_warmup cfg at_ v ++ (if trace then trace_start_warmup cfg v else []) ++
   restart_limiters v ++ [SetPhase Warmup; PrintWarmup (effective_warmup cfg)]).

(** The time since the event loops were up, once they are. *)
Definition precheck_begin (cfg : Config.t) (v : View) (r : Runner) : option Z :=
  match precheck_start r with
  | Some t => Some t
  | None =>
      if num_threads cfg <=? workers_started (v_shared v) then Some (v_now v 0%nat)
      else if v_all_workers_finished v then Some (v_now v 0%nat - precheck_timeout cfg)
      else None
  end.

Definition precheck_pass (cfg : Config.t) (v : View) (r : Runner) : Runner * list Effect * Outcome :=
  if num_threads cfg <=? ss_precheck_done (v_shared v) then
    let ok := [PrintPrecheckOk (match precheck_start r with Some t => since (v_now v 0%nat) t | None => 0 end)] in
    let stopped := (r <| actual_duration := 0 |>, ok ++ [SetPhase Stop], Break) in
    match kv_precheck v with
    | Some true => stopped
    | Some false => (r, ok, Continue)
    | None =>
        match trace_precheck v with
        | Some true => stopped
        | Some false => (r, ok, Continue)
        | None =>
            let '(r, es) :=
              if Workload.prefill (Config.workload cfg) then enter_prefill cfg v r
              else enter_warmup cfg true (v_now v 1%nat) (v_now v 2%nat) v r in
            (r, ok ++ es, Continue)
        end
    end
  else
    match precheck_begin cfg v r with
    | None => (r, [], Continue)
    | Some t =>
        let r := r <| precheck_start := Some t |> in
        let elapsed := since (v_now v 1%nat) t in
        if precheck_timeout cfg <=? elapsed then
          (r, [PrintPrecheckFailed elapsed (sn_counter (v_metrics v 0%nat) CONNECTIONS_FAILED);
               SetPhase Stop; Shutdown],
           Fail "precheck failed: no connectivity")
        else (r, [], Continue)
    end.

(** ** Prefill *)

(** The progress line, at most once a second. *)
Definition prefill_report (elapsed confirmed total : Z) (v : View) (p : PrefillProgress)
    : PrefillProgress * list Effect :=
  if (REPORT_INTERVAL <=? since (v_now v 1%nat) (pf_report p)) && (0 <? total) then
    let secs := as_secs_f64 (since (v_now v 2%nat) (pf_report p)) in
    let errors := sn_counter (v_metrics v 0%nat) REQUEST_ERRORS in
    let conn_failures := sn_counter (v_metrics v 0%nat) CONNECTIONS_FAILED in
    (p <| pf_confirmed_snapshot := confirmed |> <| pf_errors := errors |>
       <| pf_conn_failures := conn_failures |> <| pf_report := v_now v 3%nat |>,
     [PrintPrefillSample
        {| ps_elapsed := elapsed; ps_confirmed := confirmed; ps_total := total;
           ps_set_per_sec := f64_div (f64_of_Z (wrap64 (confirmed - pf_confirmed_snapshot p))) secs;
           ps_err_per_sec := f64_div (f64_of_Z (wrap64 (errors - pf_errors p))) secs;
           ps_conns_active := v_conns_active v;
           ps_reconnects := wrap64 (conn_failures - pf_conn_failures p) |}])
  else (p, []).

Definition note_progress (confirmed : Z) (v : View) (p : PrefillProgress) : PrefillProgress :=
  if pf_confirmed p <? confirmed
  then p <| pf_confirmed := confirmed |> <| pf_progress_time := v_now v 4%nat |>
  else p.

(** Why prefill did not finish; [None] where [from_secs_f64] panics. *)
Definition likely_cause (stalled : bool) (elapsed confirmed total conns_active bytes_rx : Z)
    : option PrefillStallCause :=
  if conns_active =? 0 then Some NoConnections
  else if bytes_rx =? 0 then Some NoResponses
  else if stalled then Some Stalled
  else if (0 <? confirmed) && (confirmed <? total) then
    let rate := f64_div (f64_of_Z confirmed) (as_secs_f64 elapsed) in
    d ← (if f64_lt f64_zero rate
         then duration_from_secs_f64 (f64_div (f64_of_Z (total - confirmed)) rate)
         else Some 0);
    Some (TooSlow d)
  else Some Unknown.

Definition prefill_pass (cfg : Config.t) (v : View) (r : Runner) : option (Runner * list Effect * Outcome) :=
  let confirmed := ss_prefill_confirmed (v_shared v) in
  let total := prefill_keys_total (v_shared v) in
  let timeout := Workload.prefill_timeout (Config.workload cfg) in
  if (0 <? total) && (total <=? confirmed) then
    let '(r, es) := enter_warmup cfg false (v_now v 0%nat) (v_now v 1%nat) v r in Some (r, es, Continue)
  else
    let elapsed := since (v_now v 0%nat) (pf_start (progress r)) in
    let '(p, es) := prefill_report elapsed confirmed total v (progress r) in
    let p := note_progress confirmed v p in
    let r := r <| progress := p |> in
    let stalled := PREFILL_STALL <=? since (v_now v 5%nat) (pf_progress_time p) in
    let timed_out := negb (timeout =? 0) && (timeout <=? elapsed) in
    if stalled || timed_out then
      let m := sn_counter (v_metrics v 1%nat) in
      cause ← likely_cause stalled elapsed confirmed total (v_conns_active v) (m BYTES_RX);
      Some (r <| prefill_timeout_diag :=
                   Some {| pd_workers_complete := prefill_complete (v_shared v);
                           pd_workers_total := num_threads cfg; pd_keys_confirmed := confirmed;
                           pd_keys_total := total; pd_elapsed := elapsed;
                           pd_conns_active := v_conns_active v; pd_conns_failed := m CONNECTIONS_FAILED;
                           pd_bytes_rx := m BYTES_RX; pd_requests_sent := m REQUESTS_SENT;
                           pd_likely_cause := cause |} |>,
            es, Break)
    else Some (r, es, Continue).

(** ** Warmup and running *)

(** Whether the run is over. *)
Definition run_done (cfg : Config.t) (v : View) (elapsed : Z) (r : Runner) : bool * bool :=
  let saturation_done := match saturation_state r with Some s => st_completed s | None => false end in
  let time_done := effective_warmup cfg + General.duration (Config.general cfg) <=? elapsed in
  let kv_done := match v_kv v with Some k => kv_is_finished k | None => false end
                 || match v_trace v with Some t => is_finished t | None => false end in
  (kv_done,
   saturation_done || kv_done
   || (time_done && bool_decide (Workload.saturation_search (Config.workload cfg) = None))).

Definition finish (kv_done : bool) (v : View) (r : Runner) : Runner :=
  match running_start r with
  | Some rs => r <| actual_duration := since (v_now v 1%nat) rs |>
  | None => if kv_done then r <| actual_duration := 0 |> else r
  end.

(** The [last_*] variables as recording begins. *)
Definition first_last (v : View) : Last :=
  let c := sn_counter (v_metrics v 1%nat) in
  let again := v_metrics v 2%nat in
  {| l_report := v_now v 2%nat; l_responses := c RESPONSES_RECEIVED; l_errors := c REQUEST_ERRORS;
     l_conn_failures := sn_counter again CONNECTIONS_FAILED; l_hits := c CACHE_HITS; l_misses := c CACHE_MISSES;
     l_histogram := sn_hist again RESPONSE_LATENCY |}.

(** The transition to [Running]: the baselines. *)
Definition enter_running (cfg : Config.t) (v : View) (r : Runner) : Runner * list Effect :=
  (r <| current_phase := Running |>
     <| kv_base := if bool_decide (is_Some (v_kv v)) then Some (kv_baseline_take (v_metrics v 0%nat)) else kv_base r |>
     <| trace_base := if bool_decide (is_Some (v_trace v))
                      then Some (trace_baseline (sn_counter (v_metrics v 0%nat))) else trace_base r |>
     <| running_start := Some (v_now v 1%nat) |>
     <| baseline := {| b_metrics := v_metrics v 1%nat; b_append_batches := batches_committed (append_state r);
                       b_dropped := match v_limiters v with Some l => limiters_dropped l | None => 0 end |} |>
     <| last := first_last v |>
     <| saturation_state :=
          match Workload.saturation_search (Config.workload cfg), v_limiters v with
          | Some sat, Some l => Some (new_saturation (v_now v 4%nat) sat l)
          | _, _ => saturation_state r
          end |>,
   [SetPhase Running; PrintRunning (General.duration (Config.general cfg)); PrintHeader] ++
   (if bool_decide (is_Some (v_kv v)) then [KvStart (v_now v 3%nat)] else []) ++
   (if bool_decide (is_Some (v_trace v)) then [TraceStart] else []) ++
   match Workload.saturation_search (Config.workload cfg), v_limiters v with
   | Some sat, Some _ => [SetRate (SaturationSearch.start_rate sat)]
   | _, _ => []
   end).

(** [head_handle]: only the recency distribution has a head. *)
Definition head_handle (d : KeyDist) : bool := match d with KRecency _ => true | _ => false end.

(** The append stream's turn; what it does to the shared state is read off the
    scheduler's state before and after. *)
Definition append_effects (before after : AppendRunner) (qs qs' : PrefillQueues) : list Effect :=
  if batch_open before then
    if batch_open after then [] else [SetHead (head_id after)]
  else if batch_open after then [SetAppendQueues qs'; AddAppendTotal (wrap64 (next_id after - next_id before))]
  else [].

Definition append_pass (cfg : Config.t) (slot_table : option (list Z)) (d : KeyDist) (v : View) (r : Runner)
    : option (Runner * list Effect) :=
  match Workload.append (Config.workload cfg), head_handle d, warmup_start r with
  | Some a, true, Some ws =>
      '(s, qs) ← append_tick (Keyspace.format (Workload.keyspace (Config.workload cfg)))
                   (Z.to_nat (Keyspace.length (Workload.keyspace (Config.workload cfg))))
                   (Target.endpoints (Config.target cfg)) slot_table
                   (Append.every a) (Append.batch a) ws (v_now v 5%nat)
                   (append_keys_confirmed (v_shared v)) (append_state r) (v_append_queues v);
      Some (r <| append_state := s |>, append_effects (append_state r) s (v_append_queues v) qs)
  | _, _, _ => Some (r, [])
  end.

(** The sample of a report over [secs]. *)
Definition report_sample (m : Snapshot) (secs : f64) (l : Last) : Sample :=
  let c := sn_counter m in
  let delta_hits := wrap64 (c CACHE_HITS - l_hits l) in
  let delta_misses := wrap64 (c CACHE_MISSES - l_misses l) in
  let delta_failures := wrap64 (wrap64 (c REQUEST_ERRORS - l_errors l)
                                + wrap64 (c CONNECTIONS_FAILED - l_conn_failures l)) in
  let lat := delta_latency_stats (sn_hist m RESPONSE_LATENCY) (l_histogram l) in
  {| sm_req_per_sec := f64_div (f64_of_Z (wrap64 (c RESPONSES_RECEIVED - l_responses l))) secs;
     sm_err_per_sec := f64_div (f64_of_Z delta_failures) secs;
     sm_hit_pct := percent delta_hits (wrap64 (delta_hits + delta_misses));
     sm_p50 := ls_p50 lat; sm_p90 := ls_p90 lat; sm_p99 := ls_p99 lat; sm_p999 := ls_p999 lat;
     sm_p9999 := ls_p9999 lat; sm_max := ls_max lat |}.

(** The [last_*] variables after a report. *)
Definition last_at (now : Z) (m : Snapshot) : Last :=
  let c := sn_counter m in
  {| l_report := now; l_responses := c RESPONSES_RECEIVED; l_errors := c REQUEST_ERRORS;
     l_conn_failures := c CONNECTIONS_FAILED; l_hits := c CACHE_HITS; l_misses := c CACHE_MISSES;
     l_histogram := sn_hist m RESPONSE_LATENCY |}.

(** What [check_and_advance] reads of the view. *)
Definition search_reading (v : View) : Reading :=
  let m := v_metrics v 4%nat in
  {| r_now := v_now v 7%nat; r_responses := sn_counter m RESPONSES_RECEIVED;
     r_latency := sn_hist m RESPONSE_LATENCY; r_perceived := sn_hist m PERCEIVED_LATENCY;
     r_slip := sn_hist m SCHEDULE_SLIP |}.

(** The search's turn; its limiters are the workers', as they are now. *)
Definition search_pass (v : View) (r : Runner) : Runner * list Effect :=
  match saturation_state r, v_limiters v with
  | Some s, Some l =>
      let '(s, stepped) := check_and_advance (search_reading v) (s <| st_limiters := l |>) in
      (r <| saturation_state := Some s |>,
       if stepped && negb (st_completed s) then [SetRate (st_rate s)] else [])
  | _, _ => (r, [])
  end.

(** The periodic report. *)
Definition report_pass (v : View) (r : Runner) : Runner * list Effect :=
  let now := v_now v 6%nat in
  if REPORT_INTERVAL <=? since now (l_report (last r)) then
    let m := v_metrics v 3%nat in
    let sample := report_sample m (as_secs_f64 (since now (l_report (last r)))) (last r) in
    let dropped := match v_limiters v with
                   | Some l => [SetDroppedGauge (as_i64 (limiters_dropped l))] | None => [] end in
    let '(r, es) := search_pass v r in
    (r <| last := last_at now m |>,
     [PrintSample sample] ++ dropped ++ es)
  else (r, []).

Definition main_pass (cfg : Config.t) (slot_table : option (list Z)) (d : KeyDist) (started : Z) (v : View) (r : Runner)
    : option (Runner * list Effect * Outcome) :=
  let elapsed := since (v_now v 0%nat) (default started (warmup_start r)) in
  let '(kv_done, over) := run_done cfg v elapsed r in
  if over then Some (finish kv_done v r, [SetPhase Stop], Break)
  else
    let '(r, es) :=
      if bool_decide (current_phase r = Warmup) && (effective_warmup cfg <=? elapsed)
      then enter_running cfg v r else (r, []) in
    '(r, es') ← append_pass cfg slot_table d v r;
    if bool_decide (current_phase r = Running) then
      let '(r, es'') := report_pass v r in Some (r, es ++ es' ++ es'', Continue)
    else Some (r, es ++ es', Continue).

(** ** One pass of the loop; [None] is a panic. *)
Definition tick (cfg : Config.t) (slot_table : option (list Z)) (d : KeyDist) (started : Z) (v : View) (r : Runner)
    : option (Runner * list Effect * Outcome) :=
  if negb (v_running v) then
    Some (r <| actual_duration :=
                 match running_start r with Some rs => since (v_now v 0%nat) rs | None => 0 end |>,
          [SetPhase Stop], Break)
  else
    match current_phase r with
    | Precheck => Some (precheck_pass cfg v r)
    | Prefill => prefill_pass cfg v r
    | _ => main_pass cfg slot_table d started v r
    end.

(** The loop, one view per pass: it goes on after the last one when the
    outcome is [Continue]. *)
Fixpoint run_loop (cfg : Config.t) (slot_table : option (list Z)) (d : KeyDist) (started : Z) (vs : list View) (r : Runner)
    : option (Runner * list Effect * Outcome) :=
  match vs with
  | [] => Some (r, [], Continue)
  | v :: vs =>
      '(r, es, o) ← tick cfg slot_table d started v r;
      match o with
      | Continue => '(r, es', o) ← run_loop cfg slot_table d started vs r; Some (r, es ++ es', o)
      | _ => Some (r, es, o)
      end
  end.

(** ** After the loop

    [e_kv n] and [e_trace n] are the [n]-th look at a replay. *)
Record EndView := {
  e_metrics : Snapshot;
  e_replay_metrics : Snapshot;
  e_conns_active : Z;
  e_limiters : option WorkerLimiters;
  e_kv : option (nat -> KvShared);
  e_kv_requests : Z;
  e_trace : option (nat -> Replay);
  e_trace_rows : Z;
}.

(** The growth of a counter since its baseline. *)
Definition grown (e : EndView) (r : Runner) (c : Counter) : Z :=
  wrap64 (sn_counter (e_metrics e) c - sn_counter (b_metrics (baseline r)) c).

Definition grown_latency (e : EndView) (r : Runner) (h : Histogram) : LatencyStats :=
  delta_latency_stats (sn_hist (e_metrics e) h) (sn_hist (b_metrics (baseline r)) h).

(** The results of the KV replay; a run stopped before recording has no
    baseline. *)
Definition final_kv (cfg : Config.t) (e : EndView) (r : Runner) : option KvReplayResults :=
  match e_kv e, Workload.kv_replay (Config.workload cfg) with
  | Some kv, Some kc =>
      Some (kv_results (KvReplay.write_rule kc) (e_kv_requests e) (kv 0%nat) (e_replay_metrics e)
              (default (kv_baseline_take (e_replay_metrics e)) (kv_base r)))
  | _, _ => None
  end.

Definition final_trace (cfg : Config.t) (e : EndView) (r : Runner) : option TraceReplayResults :=
  match e_trace e, Workload.trace_replay (Config.workload cfg) with
  | Some t, Some tc =>
      let value := sn_counter (e_replay_metrics e) in
      Some (trace_results (TraceReplay.trace tc) (e_trace_rows e) value
              (default (trace_baseline value) (trace_base r)) (t 0%nat))
  | _, _ => None
  end.

Definition final_results (cfg : Config.t) (e : EndView) (r : Runner) : Results :=
  let conn_failures := grown e r CONNECTIONS_FAILED in
  {| rs_duration_secs := as_secs_f64 (actual_duration r);
     rs_requests := grown e r REQUESTS_SENT; rs_responses := grown e r RESPONSES_RECEIVED;
     rs_errors := wrap64 (grown e r REQUEST_ERRORS + conn_failures);
     rs_timeouts := grown e r REQUEST_TIMEOUTS; rs_hits := grown e r CACHE_HITS;
     rs_misses := grown e r CACHE_MISSES; rs_bytes_tx := grown e r BYTES_TX; rs_bytes_rx := grown e r BYTES_RX;
     rs_get_count := grown e r GET_COUNT; rs_set_count := grown e r SET_COUNT;
     rs_get_latencies := grown_latency e r GET_LATENCY; rs_get_ttfb := grown_latency e r GET_TTFB;
     rs_set_latencies := grown_latency e r SET_LATENCY;
     rs_backfill_set_count := grown e r BACKFILL_SET_COUNT;
     rs_backfill_set_latencies := grown_latency e r BACKFILL_SET_LATENCY;
     rs_append_set_count := grown e r APPEND_SET_COUNT;
     rs_append_set_latencies := grown_latency e r APPEND_SET_LATENCY;
     rs_append_batches := wrap64 (batches_committed (append_state r) - b_append_batches (baseline r));
     rs_conns_active := e_conns_active e; rs_conns_failed := conn_failures;
     rs_conns_total := total_connections (Config.connection cfg);
     rs_requests_dropped :=
       match e_limiters e with Some l => sat_sub (limiters_dropped l) (b_dropped (baseline r)) | None => 0 end;
     rs_requests_send_failed := grown e r REQUESTS_SEND_FAILED;
     rs_routed_queue_dropped := grown e r ROUTED_QUEUE_DROPPED;
     rs_schedule_slip := grown_latency e r SCHEDULE_SLIP;
     rs_perceived_latency := grown_latency e r PERCEIVED_LATENCY;
     rs_kv_replay := final_kv cfg e r; rs_trace_replay := final_trace cfg e r |}.

Definition KV_NOTHING : string :=
  "kv_replay: the trace finished before recording started, so nothing was recorded; lower general.warmup".

Definition TRACE_NOTHING : string :=
  "trace_replay: the trace finished before recording started, so nothing was recorded; lower general.warmup".

Definition TRACE_SKIPPED : string :=
  "trace_replay: every row of the trace was skipped (an op code of 15 or more, or a SET larger than the value pool)".

(** The error of a run that reported its results. *)
Definition kv_verdict (e : EndView) (res : Results) : option string :=
  match e_kv e with
  | None => None
  | Some kv =>
      match k_error (kv 1%nat) with
      | Some err => Some err
      | None =>
          if match rs_kv_replay res with
             | Some k => wrap64 (kvr_requests k + kvr_requests_failed k) =? 0 | None => false end
             && kv_is_finished (kv 2%nat)
          then Some KV_NOTHING else None
      end
  end.

Definition trace_verdict (e : EndView) (res : Results) : option string :=
  match e_trace e with
  | None => None
  | Some t =>
      match rd_error (t 1%nat) with
      | Some err => Some err
      | None =>
          match rs_trace_replay res with
          | Some k =>
              if trr_all_skipped k then Some TRACE_SKIPPED
              else if (wrap64 (trr_rows k + trr_rows_failed k) =? 0) && is_finished (t 2%nat)
              then Some TRACE_NOTHING else None
          | None => None
          end
      end
  end.

(** The end of a run: what it does and its error. *)
Definition run_end (cfg : Config.t) (e : EndView) (r : Runner) (o : Outcome) : list Effect * option string :=
  match o with
  | Fail err => ([], Some err)
  | _ =>
      match prefill_timeout_diag r with
      | Some diag => ([SetPhase Stop; PrintPrefillTimeout diag; Shutdown],
                      Some "prefill failed: timed out or stalled"%string)
      | None =>
          let res := final_results cfg e r in
          ([Shutdown; PrintResults res] ++
           (match saturation_state r with Some s => [PrintSaturationResults (saturation_results s)] | None => [] end),
           match kv_verdict e res with Some err => Some err | None => trace_verdict e res end)
      end
  end.

End runner.

(** ** Facts about one pass *)

Section passes.
Context `{Ratelimiter} `{Hashing} `{Histograms}.
Variables (cfg : Config.t) (slot_table : option (list Z)) (d : KeyDist) (started : Z).

(** The phases published and the starts of the KV ([inr true]) and trace
    ([inr false]) replays, in order. *)
Definition marks_of (es : list Effect) : list (Phase + bool) :=
  omap (fun e => match e with
                 | SetPhase p => Some (inl p)
                 | KvStart _ => Some (inr true)
                 | TraceStart => Some (inr false)
                 | _ => None
                 end) es.

(** The samples printed, in order. *)
Definition samples_of (es : list Effect) : list Sample :=
  omap (fun e => match e with PrintSample s => Some s | _ => None end) es.

(** The phase that may follow [p], stopping apart. *)
Definition next_phase (p q : Phase) : Prop :=
  match p with
  | Precheck => q = (if Workload.prefill (Config.workload cfg) then Prefill else Warmup)
  | Prefill => q = Warmup
  | Warmup => q = Running
  | _ => False
  end.

(** What the phase says about the other variables. *)
Definition phase_ok (r : Runner) : Prop :=
  match current_phase r with
  | Precheck => warmup_start r = None /\ running_start r = None
  | Prefill => warmup_start r = None /\ running_start r = None /\ Workload.prefill (Config.workload cfg) = true
  | Warmup => is_Some (warmup_start r) /\ running_start r = None
  | Running => is_Some (warmup_start r) /\ is_Some (running_start r)
  | _ => False
  end.

Definition starts (b : bool) (which : bool) : list (Phase + bool) := if b then [inr which] else [].

Definition has_kv (v : View) : bool := bool_decide (is_Some (v_kv v)).

Definition has_trace (v : View) : bool := bool_decide (is_Some (v_trace v)).

(** The marks of the move from [p] to [q]: the replays start as warmup does,
    if there is a warmup, and again once recording has begun. *)
Definition stage (kv trace : bool) (p q : Phase) : list (Phase + bool) :=
  match q with
  | Prefill => [inl Prefill]
  | Warmup => (if effective_warmup cfg =? 0 then []
               else starts kv true ++ (if bool_decide (p = Precheck) then starts trace false else [])) ++ [inl Warmup]
  | Running => inl Running :: starts kv true ++ starts trace false
  | _ => []
  end.

(** A pass either stays in its phase, marking nothing, or moves on to the next
    one. *)
Definition moved (v : View) (r r' : Runner) (es : list Effect) : Prop :=
  (marks_of es = [] /\ current_phase r' = current_phase r /\ warmup_start r' = warmup_start r
   /\ running_start r' = running_start r)
  \/ exists p, marks_of es = stage (has_kv v) (has_trace v) (current_phase r) p /\ current_phase r' = p
               /\ next_phase (current_phase r) p /\ phase_ok r'.

Lemma marks_of_app es es' : marks_of (es ++ es') = marks_of es ++ marks_of es'.
Proof. apply omap_app. Qed.

Lemma samples_of_app es es' : samples_of (es ++ es') = samples_of es ++ samples_of es'.
Proof. apply omap_app. Qed.

Lemma append_pass_quiet v r r' es :
  append_pass cfg slot_table d v r = Some (r', es) ->
  marks_of es = [] /\ samples_of es = [] /\ exists s, r' = r <| append_state := s |>.
Proof.
  unfold append_pass.
  assert (Q : exists s, r = r <| append_state := s |>) by (exists (append_state r); by destruct r).
  destruct (Workload.append _) as [a|]; [|by intros [= <- <-]].
  destruct (head_handle d); [|by intros [= <- <-]].
  destruct (warmup_start r); [|by intros [= <- <-]].
  destruct (append_tick _ _ _ _ _ _ _ _ _ _ _) as [[s qs]|]; [|done]. cbn [mbind option_bind].
  intros [= <- <-]. unfold append_effects.
  destruct (batch_open (append_state r)), (batch_open s); by eauto.
Qed.

Lemma search_pass_quiet v r r' es :
  search_pass v r = (r', es) ->
  marks_of es = [] /\ samples_of es = [] /\ exists s, r' = r <| saturation_state := s |>.
Proof.
  unfold search_pass.
  assert (Q : exists s, r = r <| saturation_state := s |>) by (exists (saturation_state r); by destruct r).
  destruct (saturation_state r) as [s|]; [|by intros [= <- <-]].
  destruct (v_limiters v); [|by intros [= <- <-]].
  destruct (check_and_advance _ _) as [s' b]. intros [= <- <-]. destruct (b && _); by eauto.
Qed.

Lemma report_pass_keeps v r r' es :
  report_pass v r = (r', es) ->
  marks_of es = [] /\ current_phase r' = current_phase r /\ warmup_start r' = warmup_start r
  /\ running_start r' = running_start r /\ baseline r' = baseline r
  /\ prefill_timeout_diag r' = prefill_timeout_diag r /\ kv_base r' = kv_base r.
Proof.
  unfold report_pass. destruct (_ <=? _); [|by intros [= <- <-]].
  destruct (search_pass v r) as [r1 es1] eqn:E. intros [= <- <-].
  apply search_pass_quiet in E as (P & _ & s & ->).
  split; [|done]. destruct (v_limiters v); exact P.
Qed.

Lemma enter_warmup_moves trace at_ began v r r' es :
  enter_warmup cfg trace at_ began v r = (r', es) ->
  marks_of es = (if effective_warmup cfg =? 0 then []
                 else starts (has_kv v) true ++ (if trace then starts (has_trace v) false else [])) ++ [inl Warmup]
  /\ r' = r <| current_phase := Warmup |> <| warmup_start := Some began |>.
Proof.
  unfold enter_warmup. intros [= <- <-]. split; [|done].
  unfold kv_start_warmup, trace_start_warmup, restart_limiters, has_kv, has_trace, starts.
  destruct (effective_warmup cfg =? 0), trace, (bool_decide (is_Some (v_kv v))), (bool_decide (is_Some (v_trace v))),
    (bool_decide (is_Some (v_limiters v))); done.
Qed.

Lemma enter_running_moves v r r' es :
  enter_running cfg v r = (r', es) ->
  marks_of es = inl Running :: starts (has_kv v) true ++ starts (has_trace v) false /\
  current_phase r' = Running /\ warmup_start r' = warmup_start r /\
  running_start r' = Some (v_now v 1%nat) /\ prefill_timeout_diag r' = prefill_timeout_diag r /\
  b_metrics (baseline r') = v_metrics v 1%nat /\ last r' = first_last v /\ samples_of es = [].
Proof.
  unfold enter_running. intros [= <- <-]. unfold has_kv, has_trace, starts.
  split; [repeat case_match; done|]. repeat (split; [done|]). repeat case_match; done.
Qed.

(** What a pass comes to. *)
Definition pass_ok (v : View) (r r' : Runner) (es : list Effect) (o : Outcome) : Prop :=
  (o = Continue /\ moved v r r' es /\ prefill_timeout_diag r' = prefill_timeout_diag r) \/
  (o <> Continue /\ marks_of es = [inl Stop] /\ prefill_timeout_diag r' = prefill_timeout_diag r) \/
  (o = Break /\ marks_of es = [] /\ is_Some (prefill_timeout_diag r')).

Lemma pass_stays v r r' es :
  marks_of es = [] -> current_phase r' = current_phase r -> warmup_start r' = warmup_start r ->
  running_start r' = running_start r -> prefill_timeout_diag r' = prefill_timeout_diag r ->
  pass_ok v r r' es Continue.
Proof. intros. left. split; [done|]. split; [|done]. left. done. Qed.

Lemma pass_moves v r r' es p :
  marks_of es = stage (has_kv v) (has_trace v) (current_phase r) p -> current_phase r' = p -> next_phase (current_phase r) p -> phase_ok r' ->
  prefill_timeout_diag r' = prefill_timeout_diag r -> pass_ok v r r' es Continue.
Proof. intros. left. split; [done|]. split; [|done]. right. by exists p. Qed.

Lemma pass_stops v r r' es o :
  marks_of es = [inl Stop] -> o <> Continue -> prefill_timeout_diag r' = prefill_timeout_diag r -> pass_ok v r r' es o.
Proof. intros. right. auto. Qed.

Lemma precheck_pass_ok v r r' es o :
  phase_ok r -> current_phase r = Precheck -> precheck_pass cfg v r = (r', es, o) -> pass_ok v r r' es o.
Proof.
  unfold phase_ok at 1. intros Ok Ph. rewrite Ph in Ok. destruct Ok as [Ws Rs]. unfold precheck_pass.
  destruct (num_threads cfg <=? ss_precheck_done _).
  - destruct (kv_precheck v) as [[]|]; [intros [= <- <- <-]; by apply pass_stops|intros [= <- <- <-]; by apply pass_stays|].
    destruct (trace_precheck v) as [[]|]; [intros [= <- <- <-]; by apply pass_stops|intros [= <- <- <-]; by apply pass_stays|].
    destruct (Workload.prefill _) eqn:Pf.
    + unfold enter_prefill. intros [= <- <- <-]. apply pass_moves with Prefill; [by destruct (v_pacer v)|done| | |].
      * by rewrite Ph; cbn; rewrite Pf.
      * by repeat split.
      * done.
    + destruct (enter_warmup _ _ _ _ _ _) as [r1 es1] eqn:E. apply enter_warmup_moves in E as [E ->].
      intros [= <- <- <-]. apply pass_moves with Warmup; [rewrite Ph; exact E|done| | |].
      * by rewrite Ph; cbn; rewrite Pf.
      * split; [by eexists|done].
      * done.
  - destruct (precheck_begin cfg v r); [|intros [= <- <- <-]; by apply pass_stays].
    destruct (_ <=? _); intros [= <- <- <-]; [by apply pass_stops|by apply pass_stays].
Qed.

Lemma prefill_report_quiet elapsed confirmed total v p p' es :
  prefill_report elapsed confirmed total v p = (p', es) ->
  marks_of es = [] /\ samples_of es = [] /\ pf_start p' = pf_start p.
Proof. unfold prefill_report. destruct (_ && _); by intros [= <- <-]. Qed.

Lemma note_progress_start confirmed v p : pf_start (note_progress confirmed v p) = pf_start p.
Proof. unfold note_progress. by destruct (pf_confirmed p <? confirmed). Qed.

Lemma prefill_pass_ok v r r' es o :
  phase_ok r -> current_phase r = Prefill -> prefill_pass cfg v r = Some (r', es, o) -> pass_ok v r r' es o.
Proof.
  unfold phase_ok at 1. intros Ok Ph. rewrite Ph in Ok. destruct Ok as (Ws & Rs & _). unfold prefill_pass.
  destruct (_ && _).
  - destruct (enter_warmup _ _ _ _ _ _) as [r1 es1] eqn:E. apply enter_warmup_moves in E as [E ->].
    intros [= <- <- <-]. apply pass_moves with Warmup; [rewrite Ph|done|by rewrite Ph| |done].
    { cbn. rewrite app_nil_r in E. by rewrite app_nil_r. }
    split; [by eexists|done].
  - destruct (prefill_report _ _ _ _ _) as [p1 es1] eqn:E. apply prefill_report_quiet in E as (E & _ & _).
    destruct (_ || _).
    + destruct (likely_cause _ _ _ _ _ _); [|done]. intros [= <- <- <-]. right. right. split; [done|]. split; [exact E|by eexists].
    + intros [= <- <- <-]. by apply pass_stays.
Qed.

Lemma finish_keeps kd v r :
  prefill_timeout_diag (finish kd v r) = prefill_timeout_diag r /\ baseline (finish kd v r) = baseline r /\
  last (finish kd v r) = last r /\ running_start (finish kd v r) = running_start r.
Proof. unfold finish. destruct (running_start r) eqn:R, kd; cbn; rewrite ?R; done. Qed.

Lemma main_pass_ok v r r' es o :
  phase_ok r -> current_phase r = Warmup \/ current_phase r = Running ->
  main_pass cfg slot_table d started v r = Some (r', es, o) -> pass_ok v r r' es o.
Proof.
  intros Ok Ph. unfold main_pass.
  destruct (run_done cfg v _ r) as [kd []]; [intros [= <- <- <-]; apply pass_stops; [done..|apply finish_keeps]|].
  destruct (bool_decide (current_phase r = Warmup) && _) eqn:W.
  - apply andb_true_iff in W as [W%bool_decide_eq_true _].
    destruct (enter_running cfg v r) as [r1 es1] eqn:E. apply enter_running_moves in E as (E & Pr & Wr & Rr & Dr & _).
    destruct (append_pass _ _ _ _ _) as [[r2 es2]|] eqn:A; [|done]. cbn [mbind option_bind].
    apply append_pass_quiet in A as (E2 & _ & a & ->).
    rewrite bool_decide_eq_true_2 by exact Pr.
    destruct (report_pass _ _) as [r3 es3] eqn:R. apply report_pass_keeps in R as (E3 & Ph3 & Ws3 & Rs3 & _ & Dg3 & _).
    cbn in Ph3, Ws3, Rs3, Dg3. intros [= <- <- <-]. apply pass_moves with Running.
    + by rewrite !marks_of_app, E, E2, E3, !app_nil_r.
    + by rewrite Ph3.
    + by rewrite W.
    + unfold phase_ok. rewrite Ph3, Pr, Ws3, Wr, Rs3, Rr. unfold phase_ok in Ok. rewrite W in Ok.
      destruct Ok as [Ok _]. split; [exact Ok|by eexists].
    + by rewrite Dg3.
  - destruct (append_pass _ _ _ _ _) as [[r2 es2]|] eqn:A; [|done]. cbn [mbind option_bind].
    apply append_pass_quiet in A as (E2 & _ & a & ->).
    destruct (bool_decide (current_phase _ = Running)).
    + destruct (report_pass _ _) as [r3 es3] eqn:R. apply report_pass_keeps in R as (E3 & Ph3 & Ws3 & Rs3 & _ & Dg3 & _).
      cbn in Ph3, Ws3, Rs3, Dg3. intros [= <- <- <-]. apply pass_stays; [|done..].
      by rewrite marks_of_app, E2, E3.
    + intros [= <- <- <-]. by apply pass_stays.
Qed.

Lemma tick_ok v r r' es o :
  phase_ok r -> tick cfg slot_table d started v r = Some (r', es, o) -> pass_ok v r r' es o.
Proof.
  intros Ok. unfold tick. destruct (negb _); [intros [= <- <- <-]; by apply pass_stops|].
  pose proof Ok as Ok'. unfold phase_ok in Ok'.
  destruct (current_phase r) eqn:Ph; try done.
  - intros [= E]. by eapply precheck_pass_ok.
  - by apply prefill_pass_ok.
  - apply main_pass_ok; auto.
  - apply main_pass_ok; auto.
Qed.

(** [phase_ok] holds as long as the loop goes on. *)
Lemma tick_phase_ok v r r' es :
  phase_ok r -> tick cfg slot_table d started v r = Some (r', es, Continue) -> phase_ok r' /\ moved v r r' es.
Proof.
  intros Ok E. destruct (tick_ok _ _ _ _ _ Ok E) as [(_ & M & _)|[(C & _)|(C & _)]]; [|done..]. split; [|exact M].
  destruct M as [(_ & P & W & R)|(p & _ & _ & _ & Ok')]; [|done].
  unfold phase_ok. rewrite P, W, R. exact Ok.
Qed.

Lemma runner_start_ok now : phase_ok (runner_start cfg now).
Proof. done. Qed.

(** ** Runs *)

Abbreviation pass := (tick cfg slot_table d started).

(** Passes that all go on. *)
Inductive going (r : Runner) : list View -> Runner -> list Effect -> Prop :=
| go_start : going r [] r []
| go_pass vs r1 es v r2 es' :
    going r vs r1 es -> pass v r1 = Some (r2, es', Continue) -> going r (vs ++ [v]) r2 (es ++ es').

Lemma going_cons v r r1 es1 vs r2 es2 :
  pass v r = Some (r1, es1, Continue) -> going r1 vs r2 es2 -> going r (v :: vs) r2 (es1 ++ es2).
Proof.
  intros P. induction 1 as [|vs ra es w rb es' _ IH Q].
  - rewrite app_nil_r. apply (go_pass r [] r [] v r1 es1); [constructor|exact P].
  - rewrite app_assoc. by apply (go_pass r (v :: vs) ra (es1 ++ es) w rb es').
Qed.

(** A run goes on to the end of its views, or a pass of it ends the loop. *)
Lemma run_loop_going vs r r' es o :
  run_loop cfg slot_table d started vs r = Some (r', es, o) ->
  (o = Continue /\ going r vs r' es) \/
  exists vs1 v vs2 r1 es1 es2, vs = vs1 ++ v :: vs2 /\ going r vs1 r1 es1 /\
    pass v r1 = Some (r', es2, o) /\ es = es1 ++ es2 /\ o <> Continue.
Proof.
  revert r es. induction vs as [|v vs IH]; intros r es; cbn [run_loop].
  - intros [= <- <- <-]. left. split; [done|constructor].
  - destruct (pass v r) as [[[r1 es1] o1]|] eqn:P; [|done]. cbn [mbind option_bind].
    destruct o1.
    + destruct (run_loop _ _ _ _ vs r1) as [[[r2 es2] o2]|] eqn:L; [|done]. cbn [mbind option_bind].
      intros [= <- <- <-]. destruct (IH _ _ L) as [[-> G]|(vs1 & w & vs2 & ra & ea & eb & -> & G & Q & -> & N)].
      * left. split; [done|]. by eapply going_cons.
      * right. exists (v :: vs1), w, vs2, ra, (es1 ++ ea), eb. repeat split; [|exact Q|by rewrite app_assoc|exact N].
        by eapply going_cons.
    + intros [= <- <- <-]. right. exists [], v, vs, r, [], es1. by repeat split; [constructor|exact P|..].
    + intros [= <- <- <-]. right. exists [], v, vs, r, [], es1. by repeat split; [constructor|exact P|..].
Qed.

(** The marks of the moves that lead to phase [p]. *)
Definition plan_to (kv trace : bool) (p : Phase) : list (Phase + bool) :=
  let pre := if Workload.prefill (Config.workload cfg) then stage kv trace Precheck Prefill else [] in
  let warm := stage kv trace (if Workload.prefill (Config.workload cfg) then Prefill else Precheck) Warmup in
  match p with
  | Prefill => pre
  | Warmup => pre ++ warm
  | Running => pre ++ warm ++ stage kv trace Warmup Running
  | _ => []
  end.

Lemma plan_step kv trace r q :
  phase_ok r -> next_phase (current_phase r) q ->
  plan_to kv trace q = plan_to kv trace (current_phase r) ++ stage kv trace (current_phase r) q.
Proof.
  unfold phase_ok, plan_to.
  destruct (current_phase r); cbn [next_phase]; [done| | | |done|done]; intros Ok ->.
  - by destruct (Workload.prefill _).
  - destruct Ok as (_ & _ & ->). done.
  - by rewrite app_assoc.
Qed.

Lemma going_plan kv trace vs r r' es :
  phase_ok r -> prefill_timeout_diag r = None ->
  Forall (fun v => has_kv v = kv /\ has_trace v = trace) vs -> going r vs r' es ->
  phase_ok r' /\ prefill_timeout_diag r' = None /\
  plan_to kv trace (current_phase r') = plan_to kv trace (current_phase r) ++ marks_of es.
Proof.
  intros Ok D F G. induction G as [|vs r1 es v r2 es' G IH P]; [by rewrite app_nil_r|].
  apply Forall_app in F as [F [[Hk Ht] _]%Forall_cons].
  destruct (IH F) as (Ok1 & D1 & E1).
  destruct (tick_ok _ _ _ _ _ Ok1 P) as [(_ & M & D2)|[(N & _)|(N & _)]]; [|done..].
  destruct (tick_phase_ok _ _ _ _ Ok1 P) as [Ok2 _].
  split; [exact Ok2|]. split; [congruence|]. rewrite marks_of_app, app_assoc, <- E1.
  destruct M as [(-> & -> & _)|(p & -> & -> & N & _)]; [by rewrite app_nil_r|].
  rewrite Hk, Ht. by apply plan_step.
Qed.

Lemma plan_prefix kv trace p : plan_to kv trace p `prefix_of` plan_to kv trace Running.
Proof.
  unfold plan_to. destruct p; try apply prefix_nil; try done.
  - apply prefix_app_r, reflexivity.
  - rewrite app_assoc. apply prefix_app_r, reflexivity.
Qed.

Lemma run_end_marks e r o :
  (prefill_timeout_diag r = None -> marks_of (run_end cfg e r o).1 = []) /\
  (is_Some (prefill_timeout_diag r) -> o = Break -> marks_of (run_end cfg e r o).1 = [inl Stop]).
Proof.
  unfold run_end. split.
  - intros ->. destruct o; cbn; [|..|done]; by destruct (saturation_state r).
  - intros [x ->] ->. done.
Qed.

(** What the periodic report of a pass comes to. *)
Definition report_step (v : View) (r r' : Runner) (es : list Effect) : Prop :=
  (samples_of es = [] /\ last r' = last r) \/
  (REPORT_INTERVAL <= since (v_now v 6%nat) (l_report (last r)) /\
   samples_of es = [report_sample (v_metrics v 3%nat)
                      (as_secs_f64 (since (v_now v 6%nat) (l_report (last r)))) (last r)] /\
   last r' = last_at (v_now v 6%nat) (v_metrics v 3%nat)).

Lemma report_pass_step v r r' es : report_pass v r = (r', es) -> report_step v r r' es.
Proof.
  unfold report_pass, report_step. destruct (Z.leb_spec REPORT_INTERVAL (since (v_now v 6%nat) (l_report (last r)))).
  - destruct (search_pass v r) as [r1 es1] eqn:E. apply search_pass_quiet in E as (_ & E & x & ->).
    intros [= <- <-]. right. split; [done|]. split; [|done]. cbn. f_equal. by destruct (v_limiters v).
  - intros [= <- <-]. by left.
Qed.

(** What a pass does to the record of the run: nothing before recording; it
    begins recording at the end of warmup; it reports while recording. *)
Definition record_kept (v : View) (r r' : Runner) (es : list Effect) : Prop :=
  running_start r' = running_start r /\ baseline r' = baseline r /\
  match running_start r with
  | None => samples_of es = []
  | Some _ => report_step v r r' es
  end.

Definition record_began (v : View) (r r' : Runner) (es : list Effect) : Prop :=
  running_start r = None /\ running_start r' = Some (v_now v 1%nat) /\
  b_metrics (baseline r') = v_metrics v 1%nat /\
  (exists ws, warmup_start r = Some ws /\ effective_warmup cfg <= since (v_now v 0%nat) ws) /\
  exists r1, last r1 = first_last v /\ report_step v r1 r' es.

Lemma record_quiet v r r' es :
  running_start r' = running_start r -> baseline r' = baseline r -> last r' = last r ->
  samples_of es = [] -> record_kept v r r' es.
Proof. intros E1 E2 E3 E4. split; [done|]. split; [done|]. destruct (running_start r); [by left|done]. Qed.

Lemma enter_warmup_record trace at_ began v r r' es :
  enter_warmup cfg trace at_ began v r = (r', es) -> samples_of es = [].
Proof.
  unfold enter_warmup, kv_start_warmup, trace_start_warmup, restart_limiters. intros [= _ <-].
  repeat case_match; done.
Qed.

Lemma precheck_pass_record v r r' es o :
  precheck_pass cfg v r = (r', es, o) -> record_kept v r r' es.
Proof.
  unfold precheck_pass, enter_prefill.
  destruct (num_threads cfg <=? ss_precheck_done _).
  - destruct (kv_precheck v) as [[]|]; [intros [= <- <- <-]; by apply record_quiet..|].
    destruct (trace_precheck v) as [[]|]; [intros [= <- <- <-]; by apply record_quiet..|].
    destruct (Workload.prefill _).
    + intros [= <- <- <-]. apply record_quiet; [done..|]. by destruct (v_pacer v).
    + destruct (enter_warmup _ _ _ _ _ _) as [r1 es1] eqn:E. pose proof (enter_warmup_record _ _ _ _ _ _ _ E).
      apply enter_warmup_moves in E as [_ ->]. intros [= <- <- <-]. by apply record_quiet.
  - destruct (precheck_begin cfg v r); [|intros [= <- <- <-]; by apply record_quiet].
    destruct (_ <=? _); intros [= <- <- <-]; by apply record_quiet.
Qed.

Lemma prefill_pass_record v r r' es o :
  prefill_pass cfg v r = Some (r', es, o) -> record_kept v r r' es.
Proof.
  unfold prefill_pass. destruct (_ && _).
  - destruct (enter_warmup _ _ _ _ _ _) as [r1 es1] eqn:E. pose proof (enter_warmup_record _ _ _ _ _ _ _ E).
    apply enter_warmup_moves in E as [_ ->]. intros [= <- <- <-]. by apply record_quiet.
  - destruct (prefill_report _ _ _ _ _) as [p1 es1] eqn:E. apply prefill_report_quiet in E as (_ & E & _).
    destruct (_ || _); [|intros [= <- <- <-]; by apply record_quiet].
    destruct (likely_cause _ _ _ _ _ _); [|done]. intros [= <- <- <-]. by apply record_quiet.
Qed.

Lemma report_step_app v r1 r r' es es' :
  samples_of es = [] -> last r1 = last r -> report_step v r r' es' -> report_step v r1 r' (es ++ es').
Proof. unfold report_step. intros E ->. by rewrite samples_of_app, E. Qed.

Lemma main_pass_record v r r' es o :
  phase_ok r -> current_phase r = Warmup \/ current_phase r = Running ->
  main_pass cfg slot_table d started v r = Some (r', es, o) ->
  record_kept v r r' es \/ current_phase r = Warmup /\ record_began v r r' es.
Proof.
  intros Ok Ph. unfold main_pass.
  destruct (run_done cfg v _ r) as [kd []].
  { intros [= <- <- <-]. left. destruct (finish_keeps kd v r) as (_ & B & L & R). by apply record_quiet. }
  destruct (bool_decide (current_phase r = Warmup) && _) eqn:W.
  - apply andb_true_iff in W as [W%bool_decide_eq_true T%Z.leb_le].
    destruct (enter_running cfg v r) as [r1 es1] eqn:E.
    apply enter_running_moves in E as (_ & Pr & _ & Rr & _ & Br & Lr & Sr).
    destruct (append_pass _ _ _ _ _) as [[r2 es2]|] eqn:A; [|done]. cbn [mbind option_bind].
    apply append_pass_quiet in A as (_ & S2 & a & ->). rewrite bool_decide_eq_true_2 by exact Pr.
    destruct (report_pass _ _) as [r3 es3] eqn:R. pose proof (report_pass_step _ _ _ _ R) as St.
    apply report_pass_keeps in R as (_ & _ & _ & R3 & B3 & _). cbn in R3, B3.
    intros [= <- <- <-]. right. split; [exact W|]. unfold phase_ok in Ok. rewrite W in Ok. destruct Ok as [[ws Ws] Rn].
    rewrite Ws in T. split; [exact Rn|]. split; [congruence|]. split; [congruence|]. split; [by exists ws|].
    exists r1. split; [exact Lr|]. rewrite app_assoc. eapply report_step_app; [|reflexivity|exact St].
    by rewrite samples_of_app, Sr, S2.
  - destruct (append_pass _ _ _ _ _) as [[r2 es2]|] eqn:A; [|done]. cbn [mbind option_bind].
    apply append_pass_quiet in A as (_ & S2 & a & ->).
    destruct (decide (current_phase r = Running)) as [Pr|Pr].
    + rewrite bool_decide_eq_true_2 by exact Pr.
      destruct (report_pass _ _) as [r3 es3] eqn:R. pose proof (report_pass_step _ _ _ _ R) as St.
      apply report_pass_keeps in R as (_ & _ & _ & R3 & B3 & _). cbn in R3, B3.
      intros [= <- <- <-]. left. split; [exact R3|]. split; [exact B3|].
      unfold phase_ok in Ok. rewrite Pr in Ok. destruct Ok as [_ [rs ->]].
      eapply report_step_app; [exact S2|reflexivity|exact St].
    + rewrite bool_decide_eq_false_2 by exact Pr. intros [= <- <- <-]. left. by apply record_quiet.
Qed.

Lemma tick_record v r r' es o :
  phase_ok r -> pass v r = Some (r', es, o) ->
  record_kept v r r' es \/ current_phase r = Warmup /\ record_began v r r' es.
Proof.
  intros Ok. unfold tick. destruct (negb _); [intros [= <- <- <-]; left; by apply record_quiet|].
  pose proof Ok as Ok'. unfold phase_ok in Ok'.
  destruct (current_phase r) eqn:Ph; try done.
  - intros [= E]. left. by eapply precheck_pass_record.
  - intros E. left. by eapply prefill_pass_record.
  - intros E. destruct (main_pass_record _ _ _ _ _ Ok (or_introl Ph) E) as [|[_ B]]; auto.
  - intros E. destruct (main_pass_record _ _ _ _ _ Ok (or_intror Ph) E) as [|[W _]]; [auto|congruence].
Qed.

(** The samples of the reports read at [ms] after [l], and the last one's
    readings. *)
Fixpoint tile (l : Last) (ms : list (Z * Snapshot)) : list Sample :=
  match ms with
  | [] => []
  | (now, m) :: ms => report_sample m (as_secs_f64 (since now (l_report l))) l :: tile (last_at now m) ms
  end.

Fixpoint tiled (l : Last) (ms : list (Z * Snapshot)) : Last :=
  match ms with [] => l | (now, m) :: ms => tiled (last_at now m) ms end.

(** Each report at least a second after the one before. *)
Fixpoint spaced (l : Last) (ms : list (Z * Snapshot)) : Prop :=
  match ms with
  | [] => True
  | (now, m) :: ms => REPORT_INTERVAL <= since now (l_report l) /\ spaced (last_at now m) ms
  end.

(** The responses that the samples divide by their lengths. *)
Fixpoint response_counts (l : Last) (ms : list (Z * Snapshot)) : list Z :=
  match ms with
  | [] => []
  | (now, m) :: ms =>
      wrap64 (sn_counter m RESPONSES_RECEIVED - l_responses l) :: response_counts (last_at now m) ms
  end.

Lemma tile_snoc l ms now m :
  tile l (ms ++ [(now, m)])
  = tile l ms ++ [report_sample m (as_secs_f64 (since now (l_report (tiled l ms)))) (tiled l ms)].
Proof. revert l. induction ms as [|[t n] ms IH]; intros l; cbn; [done|]. by rewrite IH. Qed.

Lemma tiled_snoc l ms now m : tiled l (ms ++ [(now, m)]) = last_at now m.
Proof. revert l. induction ms as [|[t n] ms IH]; intros l; cbn; [done|]. by rewrite IH. Qed.

Lemma spaced_snoc l ms now m :
  spaced l ms -> REPORT_INTERVAL <= since now (l_report (tiled l ms)) -> spaced l (ms ++ [(now, m)]).
Proof. revert l. induction ms as [|[t n] ms IH]; intros l; cbn; [done|]. intros [? S] ?. split; [done|]. by apply IH. Qed.

(** No response is in two samples, and none between the first and the last
    report is in none. *)
Lemma response_counts_sum l ms :
  wrap64 (fold_right Z.add 0 (response_counts l ms)) = wrap64 (l_responses (tiled l ms) - l_responses l).
Proof.
  revert l. induction ms as [|[now m] ms IH]; intros l; cbn [response_counts tiled fold_right].
  - by rewrite Z.sub_diag.
  - rewrite wrap64_add_l, <- wrap64_add_r, IH, wrap64_add_r. f_equal. cbn. lia.
Qed.

(** What the record of a run is after the passes [vs]. *)
Definition recorded_by (vs : list View) (r : Runner) (es : list Effect) : Prop :=
  match running_start r with
  | None => samples_of es = [] /\ b_metrics (baseline r) = no_metrics
  | Some rs =>
      exists v ms, v ∈ vs /\ rs = v_now v 1%nat /\ b_metrics (baseline r) = v_metrics v 1%nat /\
        samples_of es = tile (first_last v) ms /\ last r = tiled (first_last v) ms /\ spaced (first_last v) ms
  end.

Lemma report_step_tile l ms v r r' es es' :
  samples_of es = tile l ms -> last r = tiled l ms -> spaced l ms -> report_step v r r' es' ->
  exists ms', samples_of (es ++ es') = tile l ms' /\ last r' = tiled l ms' /\ spaced l ms'.
Proof.
  intros E L S [[E' L']|(G & E' & L')]; rewrite samples_of_app, E, E', L'.
  - exists ms. by rewrite app_nil_r.
  - exists (ms ++ [(v_now v 6%nat, v_metrics v 3%nat)]).
    rewrite tile_snoc, tiled_snoc, L. split; [done|]. split; [done|]. apply spaced_snoc; [exact S|]. by rewrite <- L.
Qed.

Lemma recorded_pass vs v r r' es es' o :
  phase_ok r -> pass v r = Some (r', es', o) -> recorded_by vs r es -> recorded_by (vs ++ [v]) r' (es ++ es').
Proof.
  unfold recorded_by. intros Ok P R. destruct (tick_record _ _ _ _ _ Ok P) as [(E & B & K)|(_ & N & E & B & _ & r1 & L & K)].
  - rewrite E, B. destruct (running_start r) as [rs|].
    + destruct R as (w & ms & Iw & Ew & Bw & S & Lw & Sp).
      destruct (report_step_tile _ _ _ _ _ _ _ S Lw Sp K) as (ms' & ? & ? & ?).
      exists w, ms'. repeat split; [|done..]. by apply elem_of_app; left.
    + destruct R as [S Bn]. by rewrite samples_of_app, S, K.
  - rewrite N in R. destruct R as [S _]. rewrite E.
    destruct (report_step_tile (first_last v) [] v r1 r' es es') as (ms' & ? & ? & ?); [exact S|exact L|done|exact K|].
    exists v, ms'. repeat split; [|done..]. apply elem_of_app; right. by apply list_elem_of_singleton.
Qed.

Lemma going_ok vs r r' es : phase_ok r -> going r vs r' es -> phase_ok r'.
Proof.
  intros Ok G. induction G as [|vs r1 es v r2 es' G IH P]; [done|]. by apply (tick_phase_ok _ _ _ _ IH P).
Qed.

Lemma going_recorded now vs r es : going (runner_start cfg now) vs r es -> recorded_by vs r es.
Proof.
  induction 1 as [|vs r1 es v r2 es' G IH P]; [done|].
  eapply recorded_pass; [|exact P|exact IH]. by apply (going_ok _ _ _ _ (runner_start_ok now) G).
Qed.

Lemma recorded_weaken vs vs' r es : vs ⊆ vs' -> recorded_by vs r es -> recorded_by vs' r es.
Proof.
  unfold recorded_by. intros I. destruct (running_start r); [|done]. intros (v & ms & Iv & R). exists v, ms. split; [by apply I|done].
Qed.

Lemma run_recorded now vs r es o :
  run_loop cfg slot_table d started vs (runner_start cfg now) = Some (r, es, o) -> recorded_by vs r es.
Proof.
  intros L. destruct (run_loop_going _ _ _ _ _ L) as [[-> G]|(vs1 & v & vs2 & r1 & es1 & es2 & -> & G & P & -> & _)].
  - by apply going_recorded with now.
  - apply recorded_weaken with (vs1 ++ [v]).
    + intros w. rewrite !elem_of_app, !elem_of_cons. pose proof (not_elem_of_nil w). tauto.
    + eapply recorded_pass; [|exact P|by eapply going_recorded]. by apply (going_ok _ _ _ _ (runner_start_ok now) G).
Qed.



(** *** What lets a pass go on *)

(** Every worker is connected, and the replays' first reads went well. *)
Definition ready (v : View) : Prop :=
  num_threads cfg <= ss_precheck_done (v_shared v) /\ kv_precheck v = None /\ trace_precheck v = None.

Definition prefilled (v : View) : Prop :=
  0 < prefill_keys_total (v_shared v) <= ss_prefill_confirmed (v_shared v).

Definition interrupted (v : View) : Prop :=
  v_running v = false \/ kv_precheck v = Some false \/ trace_precheck v = Some false.

Definition prefill_timeout (c : Config.t) : Z := Workload.prefill_timeout (Config.workload c).

Definition run_time (c : Config.t) : Z := effective_warmup c + General.duration (Config.general c).

Lemma enter_warmup_starts trace at_ began v r r' es :
  enter_warmup cfg trace at_ began v r = (r', es) ->
  current_phase r' = Warmup /\ warmup_start r' = Some began.
Proof. unfold enter_warmup. by intros [= <- _]. Qed.

Lemma precheck_pass_go v r r' es :
  precheck_pass cfg v r = (r', es, Continue) ->
  (interrupted v /\ r' = r)
  \/ (current_phase r' = current_phase r /\ warmup_start r' = warmup_start r /\
      precheck_start r' = precheck_begin cfg v r /\
      match precheck_begin cfg v r with
      | Some t => since (v_now v 1%nat) t < precheck_timeout cfg
      | None => precheck_start r = None
      end)
  \/ (ready v /\ current_phase r' = Prefill /\ pf_start (progress r') = v_now v 1%nat /\
      warmup_start r' = warmup_start r /\ Workload.prefill (Config.workload cfg) = true)
  \/ (ready v /\ current_phase r' = Warmup /\ warmup_start r' = Some (v_now v 2%nat) /\
      Workload.prefill (Config.workload cfg) = false).
Proof.
  unfold precheck_pass, ready, interrupted.
  destruct (Z.leb_spec (num_threads cfg) (ss_precheck_done (v_shared v))).
  - destruct (kv_precheck v) as [[]|]; [done|intros [= <- _]; auto|].
    destruct (trace_precheck v) as [[]|]; [done|intros [= <- _]; auto|].
    destruct (Workload.prefill _).
    + unfold enter_prefill. intros [= <- _]. right; right; left. done.
    + destruct (enter_warmup _ _ _ _ _ _) as [r1 es1] eqn:E. apply enter_warmup_starts in E as [P W].
      intros [= <- _]. right; right; right. done.
  - destruct (precheck_begin cfg v r) as [t|] eqn:B.
    + destruct (Z.leb_spec (precheck_timeout cfg) (since (v_now v 1%nat) t)); [done|].
      intros [= <- _]. right; left. done.
    + intros [= <- _]. right; left. split; [done|]. split; [done|].
      unfold precheck_begin in B. by destruct (precheck_start r).
Qed.

Lemma prefill_pass_go v r r' es :
  prefill_pass cfg v r = Some (r', es, Continue) ->
  (prefilled v /\ current_phase r' = Warmup /\ warmup_start r' = Some (v_now v 1%nat))
  \/ (current_phase r' = current_phase r /\ warmup_start r' = warmup_start r /\
      pf_start (progress r') = pf_start (progress r) /\
      (prefill_timeout cfg <> 0 -> since (v_now v 0%nat) (pf_start (progress r)) < prefill_timeout cfg)).
Proof.
  unfold prefill_pass, prefilled, prefill_timeout. destruct (_ && _) eqn:C.
  - destruct (enter_warmup _ _ _ _ _ _) as [r1 es1] eqn:E. apply enter_warmup_starts in E as [P W].
    intros [= <- _]. left. split; [lia|done].
  - destruct (prefill_report _ _ _ _ _) as [p1 es1] eqn:E. apply prefill_report_quiet in E as (_ & _ & S).
    destruct (_ || _) eqn:T; [by destruct (likely_cause _ _ _ _ _ _)|].
    intros [= <- _]. right. split; [done|]. split; [done|]. split.
    + rewrite <- S. apply note_progress_start.
    + intros N. apply orb_false_iff in T as [_ T]. lia.
Qed.

Lemma main_pass_go v r r' es :
  main_pass cfg slot_table d started v r = Some (r', es, Continue) ->
  warmup_start r' = warmup_start r /\ (current_phase r' = current_phase r \/ current_phase r' = Running) /\
  (Workload.saturation_search (Config.workload cfg) = None ->
   since (v_now v 0%nat) (default started (warmup_start r)) < run_time cfg).
Proof.
  unfold main_pass, run_done, run_time. set (elapsed := since _ _). cbv zeta.
  destruct (_ || (_ && _)) eqn:O; [done|].
  assert (T : Workload.saturation_search (Config.workload cfg) = None ->
              elapsed < effective_warmup cfg + General.duration (Config.general cfg)).
  { intros N. apply orb_false_iff in O as [_ O]. rewrite bool_decide_eq_true_2 in O by exact N. lia. }
  clear O. intros E. split; [|split; [|exact T]]; revert E.
  all: destruct (bool_decide (current_phase r = Warmup) && _).
  1,3: destruct (enter_running cfg v r) as [r1 es1] eqn:E;
       apply enter_running_moves in E as (_ & Pr & Wr & _).
  all: destruct (append_pass _ _ _ _ _) as [[r2 es2]|] eqn:A; [|done]; cbn [mbind option_bind];
       apply append_pass_quiet in A as (_ & _ & a & ->).
  all: destruct (bool_decide (current_phase _ = Running));
       [destruct (report_pass _ _) as [r3 es3] eqn:R; apply report_pass_keeps in R as (_ & R1 & R2 & _); cbn in R1, R2|].
  all: intros [= <- _].
  all: try congruence; auto.
  all: try (right; congruence). all: left; congruence.
Qed.

(** What must have been seen before a phase is published. *)
Definition gated (vs : list View) (p : Phase) : Prop :=
  match p with
  | Prefill => exists v, v ∈ vs /\ ready v
  | Warmup => (exists v, v ∈ vs /\ ready v) /\
              (Workload.prefill (Config.workload cfg) = true -> exists v, v ∈ vs /\ prefilled v)
  | Running => exists v0 k v, v0 ∈ vs /\ v ∈ vs /\ effective_warmup cfg <= since (v_now v 0%nat) (v_now v0 k)
  | _ => True
  end.

Lemma gated_mono vs vs' p : vs ⊆ vs' -> gated vs p -> gated vs' p.
Proof.
  intros I. destruct p; cbn [gated]; try done.
  - intros (v & ? & ?). exists v. auto.
  - intros ((v & ? & ?) & P). split; [exists v; auto|]. intros Pf. destruct (P Pf) as (w & ? & ?). exists w. auto.
  - intros (v0 & k & v & ? & ? & ?). exists v0, k, v. auto.
Qed.

(** The gates passed so far. *)
Definition gates_passed (vs : list View) (r : Runner) : Prop :=
  match current_phase r with
  | Precheck => True
  | Prefill => gated vs Prefill
  | Warmup => gated vs Warmup /\ exists v0 k, v0 ∈ vs /\ warmup_start r = Some (v_now v0 k)
  | _ => gated vs Warmup /\ gated vs Running
  end.

Lemma gates_mono vs vs' r : vs ⊆ vs' -> gates_passed vs r -> gates_passed vs' r.
Proof.
  unfold gates_passed. intros I. pose proof (gated_mono _ _ Prefill I). pose proof (gated_mono _ _ Warmup I).
  pose proof (gated_mono _ _ Running I). destruct (current_phase r); try tauto.
  intros [? (v0 & k & ? & ?)]. split; [auto|]. exists v0, k. auto.
Qed.

Lemma gates_same vs r r' :
  current_phase r' = current_phase r -> warmup_start r' = warmup_start r ->
  gates_passed vs r -> gates_passed vs r'.
Proof. unfold gates_passed. by intros -> ->. Qed.

(** A pass that goes on, by its phase. *)
Lemma tick_go v r r' es :
  phase_ok r -> pass v r = Some (r', es, Continue) ->
  v_running v = true /\
  match current_phase r with
  | Precheck => precheck_pass cfg v r = (r', es, Continue)
  | Prefill => prefill_pass cfg v r = Some (r', es, Continue)
  | _ => main_pass cfg slot_table d started v r = Some (r', es, Continue)
  end.
Proof.
  unfold tick, phase_ok. intros Ok. destruct (v_running v); cbn [negb]; [|done].
  destruct (current_phase r); try done. intros [= E]. done.
Qed.

(** A pass that goes on passes the gate of the phase it moves to. *)
Lemma pass_gates vs v r r' es :
  phase_ok r -> pass v r = Some (r', es, Continue) -> gates_passed vs r -> gates_passed (vs ++ [v]) r'.
Proof.
  intros Ok P G. apply (gates_mono _ (vs ++ [v])) in G; [|intros x; rewrite elem_of_app; auto].
  assert (Iv : v ∈ vs ++ [v]) by (rewrite elem_of_app, list_elem_of_singleton; auto).
  destruct (tick_phase_ok _ _ _ _ Ok P) as [_ [(_ & Ph & W & _)|(q & _ & Q & N & _)]]; [by eapply gates_same|].
  destruct (tick_go _ _ _ _ Ok P) as [_ E]. unfold gates_passed in *. rewrite Q. pose proof Ok as Ok'.
  unfold phase_ok in Ok'. destruct (current_phase r) eqn:Ph; cbn [next_phase] in N; try done.
  - apply precheck_pass_go in E as [[_ ->]|[(E & _)|[(R & _ & _ & _ & Pf)|(R & _ & W & Pf)]]].
    + destruct (Workload.prefill _); congruence.
    + destruct (Workload.prefill _); congruence.
    + rewrite Pf in N. rewrite N. by exists v.
    + rewrite Pf in N. rewrite N. split; [split; [by exists v|congruence]|]. by exists v, 2%nat.
  - rewrite N. apply prefill_pass_go in E as [(R & _ & W)|(E & _)]; [|congruence].
    split; [|by exists v, 1%nat]. split; [exact G|]. intros _. by exists v.
  - rewrite N in *. destruct (tick_record _ _ _ _ _ Ok P) as [(K & _)|(_ & _ & _ & _ & (ws & W & T) & _)].
    { destruct (tick_phase_ok _ _ _ _ Ok P) as [Ok2 _]. unfold phase_ok in Ok2. rewrite Q in Ok2.
      destruct Ok2 as [_ [x X]]. destruct Ok' as [_ Y]. congruence. }
    destruct G as [G (v0 & k & I0 & W0)]. split; [exact G|]. exists v0, k, v.
    split; [exact I0|]. split; [exact Iv|]. congruence.
Qed.

Lemma going_gates now vs r es : going (runner_start cfg now) vs r es -> gates_passed vs r.
Proof.
  induction 1 as [|vs r1 es v r2 es' G IH P]; [done|].
  eapply pass_gates; [|exact P|exact IH]. by apply (going_ok _ _ _ _ (runner_start_ok now) G).
Qed.

(** C3: A run follows one plan.  What it publishes and starts is a prefix of:
    prefill if it is configured; then, if there is a warmup, the start of the
    replays and warmup; then recording, and the start of the replays after it.
    A run that ends publishes stop once, last.  So no phase is skipped or
    repeated, and without a warmup no replay starts before recording. *)
Theorem run_follows_plan now kv trace vs e r es o :
  Forall (fun v => has_kv v = kv /\ has_trace v = trace) vs ->
  run_loop cfg slot_table d started vs (runner_start cfg now) = Some (r, es, o) ->
  exists l, l `prefix_of` plan_to kv trace Running /\
    marks_of (es ++ match o with Continue => [] | _ => (run_end cfg e r o).1 end)
    = l ++ match o with Continue => [] | _ => [inl Stop] end.
Proof.
  intros F L. pose proof (runner_start_ok now) as Ok.
  destruct (run_loop_going _ _ _ _ _ L) as [[-> G]|(vs1 & v & vs2 & r1 & es1 & es2 & -> & G & P & -> & N)].
  - destruct (going_plan kv trace _ _ _ _ Ok eq_refl F G) as (_ & _ & E).
    exists (marks_of es). split; [|by rewrite !app_nil_r]. cbn in E. rewrite <- E. apply plan_prefix.
  - apply Forall_app in F as [F _]. destruct (going_plan kv trace _ _ _ _ Ok eq_refl F G) as (Ok1 & D1 & E).
    cbn in E. exists (marks_of es1). split; [rewrite <- E; apply plan_prefix|].
    destruct (run_end_marks e r o) as [Q1 Q2].
    destruct (tick_ok _ _ _ _ _ Ok1 P) as [(? & _)|[(_ & S2 & D2)|(-> & S2 & D2)]]; [done|..].
    + rewrite !marks_of_app, S2. destruct o; [done|..]; rewrite Q1 by congruence; by rewrite app_nil_r.
    + rewrite !marks_of_app, S2, app_nil_r. by rewrite Q2.
Qed.

(** No phase begins early.  As long as the loop goes on: prefill begins once
    every worker's connections have answered and the replays' first reads
    succeeded; warmup needs that too and, with prefill, every key confirmed;
    recording needs a full warmup behind it. *)
Theorem phases_gated now vs r es :
  run_loop cfg slot_table d started vs (runner_start cfg now) = Some (r, es, Continue) ->
  match current_phase r with
  | Precheck => True
  | Prefill => gated vs Prefill
  | Warmup => gated vs Warmup
  | Running => gated vs Warmup /\ gated vs Running
  | _ => False
  end.
Proof.
  intros L. destruct (run_loop_going _ _ _ _ _ L) as [[_ G]|(? & ? & ? & ? & ? & ? & ? & ? & ? & ? & []%(fun f => f eq_refl))].
  pose proof (going_ok _ _ _ _ (runner_start_ok now) G) as Ok.
  pose proof (going_gates _ _ _ _ G) as P. unfold gates_passed in P. unfold phase_ok in Ok.
  destruct (current_phase r); try done. by destruct P.
Qed.

(** *** Time *)

(** A run of [vs] that nobody interrupts, its workers' event loops up: pass [i]
    reads the clock between [T i] and [T (i + 1)], and these are at most [g]
    apart. *)
Record timely (g : Z) (T : nat -> Z) (vs : list View) : Prop := {
  ti_gap i : T i <= T (S i) <= T i + g;
  ti_now i v k : vs !! i = Some v -> T i <= v_now v k <= T (S i);
  ti_on v : v ∈ vs -> ~ interrupted v;
  ti_up v : v ∈ vs -> num_threads cfg <= workers_started (v_shared v);
}.

(** When prefill has begun, when warmup has begun, and when the run is over, at
    the latest. *)
Definition prefill_by (g t0 : Z) : Z := t0 + precheck_timeout cfg + 3 * g.

Definition warmup_by (g t0 : Z) : Z :=
  prefill_by g t0 + (if Workload.prefill (Config.workload cfg) then prefill_timeout cfg + 2 * g else 0).

Definition over_by (g t0 : Z) : Z := warmup_by g t0 + run_time cfg.

(** After [n] passes that went on, the last of them at [T (n - 1)]. *)
Definition on_time (g : Z) (T : nat -> Z) (n : nat) (r : Runner) : Prop :=
  match current_phase r with
  | Precheck => (n = 0%nat /\ precheck_start r = None) \/
      exists t, precheck_start r = Some t /\ t <= T 1%nat /\ T (pred n) < t + precheck_timeout cfg
  | Prefill => pf_start (progress r) <= prefill_by g (T 0%nat) /\ T (pred n) < pf_start (progress r) + prefill_timeout cfg
  | _ => exists ws, warmup_start r = Some ws /\ ws <= warmup_by g (T 0%nat) /\ T (pred n) <= ws + run_time cfg
  end.

Section time.
Variables (g : Z) (T : nat -> Z).
Hypothesis (no_search : Workload.saturation_search (Config.workload cfg) = None).
Hypothesis (pre_pos : 0 < precheck_timeout cfg).
Hypothesis (fill_pos : Workload.prefill (Config.workload cfg) = true -> 0 < prefill_timeout cfg).
Hypothesis (run_pos : 0 <= run_time cfg).

Lemma on_time_start now : on_time g T 0 (runner_start cfg now).
Proof. by left. Qed.

Lemma since_lt a b x : since a b < x -> a < b + x.
Proof. unfold since. lia. Qed.

(** A precheck pass that goes on leaves the run on time. *)
Lemma precheck_on_time vs v r r' es :
  timely g T (vs ++ [v]) -> current_phase r = Precheck -> on_time g T (length vs) r ->
  precheck_pass cfg v r = (r', es, Continue) -> on_time g T (S (length vs)) r'.
Proof.
  intros Ti Ph O E.
  assert (At : (vs ++ [v]) !! length vs = Some v) by (by rewrite lookup_app_r, Nat.sub_diag by lia).
  assert (Iv : v ∈ vs ++ [v]) by (rewrite elem_of_app, list_elem_of_singleton; auto).
  pose proof (fun k => ti_now _ _ _ Ti _ _ k At) as Nw. pose proof (ti_gap _ _ _ Ti) as Gap.
  pose proof (ti_on _ _ _ Ti _ Iv) as On. pose proof (ti_up _ _ _ Ti _ Iv) as Up.
  assert (B : exists t, precheck_begin cfg v r = Some t /\ t <= T 1%nat /\
                        (length vs = 0%nat \/ T (pred (length vs)) < t + precheck_timeout cfg)).
  { unfold on_time in O. rewrite Ph in O. unfold precheck_begin.
    destruct O as [[Z0 ->]|(t & -> & L & A)].
    - rewrite (proj2 (Z.leb_le _ _) Up). exists (v_now v 0%nat). split; [done|]. split; [|by left].
      specialize (Nw 0%nat). rewrite Z0 in Nw. apply Nw.
    - exists t. auto. }
  destruct B as (t & B & L & A).
  pose proof (Gap 0%nat). pose proof (Gap (length vs)).
  assert (C : T (S (length vs)) <= prefill_by g (T 0%nat)).
  { unfold prefill_by. destruct (length vs) as [|n]; [lia|]. cbn in A. pose proof (Gap n). destruct A; [done|lia]. }
  apply precheck_pass_go in E as [[? _]|[(P & _ & S & E)|[(_ & P & S & _ & Pf)|(_ & P & W & Pf)]]]; [done|..];
    unfold on_time; rewrite P.
  - rewrite Ph. right. exists t. rewrite S, B. rewrite B in E. split; [done|]. split; [done|].
    apply since_lt in E. cbn. specialize (Nw 1%nat). lia.
  - rewrite S. specialize (Nw 1%nat). specialize (fill_pos Pf). cbn. lia.
  - exists (v_now v 2%nat). specialize (Nw 2%nat). split; [done|]. unfold warmup_by. rewrite Pf. cbn. lia.
Qed.

Lemma prefill_on_time vs v r r' es :
  timely g T (vs ++ [v]) -> phase_ok r -> current_phase r = Prefill -> on_time g T (length vs) r ->
  prefill_pass cfg v r = Some (r', es, Continue) -> on_time g T (S (length vs)) r'.
Proof.
  intros Ti Ok Ph O E.
  assert (At : (vs ++ [v]) !! length vs = Some v) by (by rewrite lookup_app_r, Nat.sub_diag by lia).
  pose proof (fun k => ti_now _ _ _ Ti _ _ k At) as Nw. pose proof (ti_gap _ _ _ Ti) as Gap.
  unfold on_time in O. rewrite Ph in O. destruct O as [O1 O2].
  unfold phase_ok in Ok. rewrite Ph in Ok. destruct Ok as (_ & _ & Pf). specialize (fill_pos Pf).
  pose proof (Gap (length vs)).
  assert (C : T (S (length vs)) <= warmup_by g (T 0%nat)).
  { unfold warmup_by. rewrite Pf. destruct (length vs) as [|n]; cbn in O2; [lia|]. pose proof (Gap n). lia. }
  apply prefill_pass_go in E as [(_ & P & W)|(P & _ & S & E)]; unfold on_time; rewrite P.
  - exists (v_now v 1%nat). specialize (Nw 1%nat). split; [done|]. cbn. lia.
  - rewrite Ph, S. split; [done|]. specialize (E ltac:(lia)). apply since_lt in E. cbn. specialize (Nw 0%nat). lia.
Qed.

Lemma main_on_time vs v r r' es :
  timely g T (vs ++ [v]) -> current_phase r = Warmup \/ current_phase r = Running -> on_time g T (length vs) r ->
  main_pass cfg slot_table d started v r = Some (r', es, Continue) -> on_time g T (S (length vs)) r'.
Proof.
  intros Ti Ph O E.
  assert (At : (vs ++ [v]) !! length vs = Some v) by (by rewrite lookup_app_r, Nat.sub_diag by lia).
  pose proof (ti_now _ _ _ Ti _ _ 0%nat At) as Nw.
  apply main_pass_go in E as (W & P & E). specialize (E no_search).
  assert (O' : exists ws, warmup_start r = Some ws /\ ws <= warmup_by g (T 0%nat)).
  { unfold on_time in O. destruct Ph as [Ph|Ph]; rewrite Ph in O; destruct O as (ws & ? & ? & _); by exists ws. }
  destruct O' as (ws & Ws & L). rewrite Ws in E, W. apply since_lt in E. cbn in E.
  assert (O2 : exists ws, warmup_start r' = Some ws /\ ws <= warmup_by g (T 0%nat) /\ T (length vs) <= ws + run_time cfg).
  { exists ws. split; [done|]. lia. }
  unfold on_time. cbn [pred]. destruct P as [->| ->]; [|exact O2]. by destruct Ph as [-> | ->].
Qed.

Lemma going_on_time now vs r es :
  timely g T vs -> going (runner_start cfg now) vs r es -> on_time g T (length vs) r.
Proof.
  intros Ti G. revert Ti. induction G as [|vs r1 es v r2 es' G IH P]; intros Ti; [apply on_time_start|].
  pose proof (going_ok _ _ _ _ (runner_start_ok now) G) as Ok.
  assert (Ti' : timely g T vs).
  { destruct Ti as [A B C D]. split; [exact A|..].
    - intros i w k L. apply B. by rewrite lookup_app_l by (by eapply lookup_lt_Some).
    - intros w I. apply C. rewrite elem_of_app. auto.
    - intros w I. apply D. rewrite elem_of_app. auto. }
  specialize (IH Ti'). rewrite length_app, Nat.add_1_r.
  destruct (tick_go _ _ _ _ Ok P) as [_ E]. pose proof Ok as Ok'. unfold phase_ok in Ok'.
  destruct (current_phase r1) eqn:Ph; try done.
  - by eapply precheck_on_time.
  - by eapply prefill_on_time.
  - eapply main_on_time; eauto.
  - eapply main_on_time; eauto.
Qed.


End time.

End passes.

(** ** Witnesses

    A KV replay with the default warmup (10 s) and duration (60 s): connected
    after 100 ms, warm at 10.2 s, one report at 11.2 s, over at 70.2 s. *)

Definition example_config : Config.t := minimal_config 1 [] Resp_.

Definition example_metrics (responses : Z) : @Snapshot example_histograms :=
  {| sn_counter := fun c => if decide (c = RESPONSES_RECEIVED) then responses else 0;
     sn_hist := fun _ => None |}.

Definition example_view (connected : bool) (now responses : Z)
    : @View simple_ratelimiter example_histograms :=
  {| v_now := fun _ => from_millis now; v_metrics := fun _ => example_metrics responses; v_conns_active := 1;
     v_running := true; v_running_kv := true; v_running_trace := true;
     v_shared := new_shared <| workers_started := 1 |> <| ss_precheck_done := if connected then 1 else 0 |>;
     v_all_workers_finished := false; v_limiters := None; v_pacer := false;
     v_kv := Some (kv_load example_request f64_one false); v_trace := None; v_append_queues := [] |}.

Definition example_views :=
  [example_view false 0 0; example_view true 100 0; example_view true 10200 500; example_view true 11200 1500;
   example_view true 70200 9000].

Abbreviation example_run_loop vs :=
  (@run_loop simple_ratelimiter example_hashing example_histograms example_config None (KUniform 1) 0 vs
    (@runner_start simple_ratelimiter example_histograms example_config 0)).

(** What the witnesses compute of a run. *)
Definition run_facts (x : option (@Runner simple_ratelimiter example_histograms * list Effect * Outcome))
    : option (Phase * option Z * list (Phase + bool) * Outcome) :=
  match x with Some (r, es, o) => Some (current_phase r, running_start r, marks_of es, o) | None => None end.

Lemma run_facts_inv x p rs ms o :
  run_facts x = Some (p, rs, ms, o) ->
  exists r es, x = Some (r, es, o) /\ current_phase r = p /\ running_start r = rs /\ marks_of es = ms.
Proof. destruct x as [[[r es] o']|]; [|done]. intros [= <- <- <- <-]. by exists r, es. Qed.

Lemma example_run_facts :
  run_facts (example_run_loop example_views)
  = Some (Running, Some (from_millis 10200),
          [inr true; inl Warmup; inl Running; inr true; inl Stop], Break).
Proof. vm_compute. reflexivity. Qed.

Definition example_end : @EndView simple_ratelimiter example_histograms :=
  {| e_metrics := example_metrics 9000; e_replay_metrics := example_metrics 9000; e_conns_active := 1;
     e_limiters := None; e_kv := Some (fun _ => kv_load example_request f64_one false); e_kv_requests := 1;
     e_trace := None; e_trace_rows := 0 |}.

Lemma run_follows_plan_witness :
  exists r es l, example_run_loop example_views = Some (r, es, Break) /\
    l `prefix_of` plan_to example_config true false Running /\
    marks_of (es ++ (run_end example_config example_end r Break).1) = l ++ [inl Stop].
Proof.
  destruct (run_facts_inv _ _ _ _ _ example_run_facts) as (r & es & E & _).
  destruct (@run_follows_plan simple_ratelimiter example_hashing example_histograms example_config None
    (KUniform 1) 0 0 true false example_views example_end r es Break) as (l & P & Q).
  - repeat (constructor; [done|]). constructor.
  - exact E.
  - exists r, es, l. split; [exact E|]. split; [exact P|exact Q].
Defined.

Lemma phases_gated_witness :
  exists v, v ∈ take 2 example_views /\ ready example_config v.
Proof.
  assert (F : run_facts (example_run_loop (take 2 example_views))
              = Some (Warmup, None, [inr true; inl Warmup], Continue)) by (vm_compute; reflexivity).
  destruct (run_facts_inv _ _ _ _ _ F) as (r & es & E & P & _).
  pose proof (@phases_gated simple_ratelimiter example_hashing example_histograms example_config None
    (KUniform 1) 0 0 (take 2 example_views) r es E) as G.
  rewrite P in G. exact (proj1 G).
Defined.



