(* ===== verification/Discovery.v ===== *)
(** Discovery: what is found out before a run — the nodes of a cluster
    ([src/src/cluster.rs]), the nodes behind an ElastiCache configuration
    endpoint ([src/src/autodiscovery.rs]), which endpoints the run then uses
    ([src/src/runner.rs], [resolve_endpoints]) and the CPUs of [cpu_list]
    ([src/src/config/mod.rs], [parse_cpu_list]).

    A connection is what it answers: for each request the reads that follow.
    Errors are values; their wording is left out where it only quotes the
    input. *)

From Stdlib Require Import Sorted.
From S2P Require Import Prelude F64 Text Config Validate Keys KeyDist Limiter Reply Workload Startup.
Open Scope Z_scope.

(** One [read] of a socket. *)
Inductive Read := RBytes (bs : list Z) | RClosed | RTimeout | RError.

(** ** Cluster discovery

    The RESP parser and [CLUSTER SLOTS] reader (crate resp_proto) are a
    class. *)

Record SlotRange := { sr_start : Z; sr_end : Z; sr_primary : string }.

Inductive Parsed (A : Type) := Complete (v : A) | Incomplete | Malformed.
Arguments Complete {A} v.
Arguments Incomplete {A}.
Arguments Malformed {A}.

Class SlotMaps := {
  resp_value : Type;
  value_parse : list Z -> Parsed resp_value;
  value_error : resp_value -> option (list Z);
  from_cluster_slots : resp_value -> option (list SlotRange);
}.

Inductive ClusterError :=
| CeConnect | CeRead | CeClosed | CeParse
| CeServer (msg : list Z)
| CeNoSlotMap | CeEmpty
| CeAddress (a : string)
| CeUnmapped (n : Z)
| CeNoSeeds.

Definition SLOT_COUNT : Z := 16384.

Section cluster.
Context `{AddrParse}.

(** The primaries in the order they are first named; the position of each is
    its index ([addr_to_idx]). *)
Fixpoint primaries (ranges : list SlotRange) (endpoints : list SocketAddr) : result ClusterError (list SocketAddr) :=
  match ranges with
  | [] => Ok endpoints
  | r :: ranges =>
      match parse_addr (sr_primary r) with
      | None => Err (CeAddress (sr_primary r))
      | Some a => primaries ranges (if bool_decide (a ∈ endpoints) then endpoints else endpoints ++ [a])
      end
  end.

(** [addr_to_idx[&addr]], as [u16]. *)
Definition index_of (endpoints : list SocketAddr) (a : SocketAddr) : option Z :=
  '(i, _) ← list_find (eq a) endpoints; Some (Z.of_nat i mod 2 ^ 16).

(** The slots [first], [first + 1], ... ([n] of them) of the table; [None]
    where the index panics. *)
Fixpoint fill_slots (n : nat) (first idx : Z) (table : list Z) : option (list Z) :=
  match n with
  | O => Some table
  | S n =>
      if (0 <=? first) && (first <? Z.of_nat (length table))
      then fill_slots n (first + 1) idx (<[Z.to_nat first := idx]> table)
      else None
  end.

(** The second pass over the ranges. *)
Fixpoint fill_table (ranges : list SlotRange) (endpoints : list SocketAddr) (table : list Z) : option (list Z) :=
  match ranges with
  | [] => Some table
  | r :: ranges =>
      a ← parse_addr (sr_primary r);
      idx ← index_of endpoints a;
      table ← fill_slots (Z.to_nat (sr_end r + 1 - sr_start r)) (sr_start r) idx table;
      fill_table ranges endpoints table
  end.

(** [build_topology] of a slot map's ranges; [None] is a panic. *)
Definition topology (ranges : list SlotRange) : option (result ClusterError (list SocketAddr * list Z)) :=
  match primaries ranges [] with
  | Err e => Some (Err e)
  | Ok endpoints =>
      table ← fill_table ranges endpoints (replicate (Z.to_nat SLOT_COUNT) u16_max);
      let unmapped := Z.of_nat (length (filter (fun s => s = u16_max) table)) in
      Some (if 0 <? unmapped then Err (CeUnmapped unmapped) else Ok (endpoints, table))
  end.

Context `{SlotMaps}.

Definition build_topology (value : resp_value) : option (result ClusterError (list SocketAddr * list Z)) :=
  match value_error value with
  | Some msg => Some (Err (CeServer msg))
  | None =>
      match from_cluster_slots value with
      | None => Some (Err CeNoSlotMap)
      | Some [] => Some (Err CeEmpty)
      | Some ranges => topology ranges
      end
  end.

(** The loop of [try_discover]: [Some None] while the reply is awaited. *)
Fixpoint read_slots (buf : list Z) (reads : list Read) : option (option (result ClusterError (list SocketAddr * list Z))) :=
  match reads with
  | [] => Some None
  | RBytes [] :: _ | RClosed :: _ => Some (Some (Err CeClosed))
  | RTimeout :: _ | RError :: _ => Some (Some (Err CeRead))
  | RBytes bs :: reads =>
      let buf := buf ++ bs in
      match value_parse buf with
      | Complete v => r ← build_topology v; Some (Some r)
      | Incomplete => read_slots buf reads
      | Malformed => Some (Some (Err CeParse))
      end
  end.

(** [discover_topology]: [try_ s] is what [try_discover] answers for the seed
    [s]. *)
Fixpoint discover_topology (try_ : SocketAddr -> result ClusterError (list SocketAddr * list Z))
    (seeds : list SocketAddr) (last : option ClusterError) : result ClusterError (list SocketAddr * list Z) :=
  match seeds with
  | [] => Err (default CeNoSeeds last)
  | s :: seeds => match try_ s with Ok t => Ok t | Err e => discover_topology try_ seeds (Some e) end
  end.

End cluster.

(** ** Auto discovery *)

Definition CONFIG_GET_CLUSTER : list Z := bytes_of "config get cluster" ++ [13; 10].

Definition GET_CLUSTER_KEY : list Z := bytes_of "get AmazonElastiCache:cluster" ++ [13; 10].

Definition MAX_RESPONSE : Z := 1048576.

Definition TRAILER : list Z := [13; 10] ++ bytes_of "END" ++ [13; 10].

Record ClusterConfig := { version : Z; nodes : list SocketAddr }.

Inductive AutoError :=
| AeIo | AeDeadline | AeIncomplete (received : Z) | AeTooLong | AeClosed
| AeUtf8 | AeLength (e : IntError) | AeHeader | AeBlockLength (len : Z) | AeNoEnd
| AeServer (line : list Z) | AeNoConfig | AeNotConfigEndpoint
| AeEmptyConfig | AeVersion (e : IntError) | AeNoNodeList | AeEntry | AePort (e : IntError) | AeIp
| AeResolve | AeNoAddress | AeNoNodes | AeNoSeeds.

(** [Response]. *)
Inductive Response := Data (body : list Z) | EmptyReply | ErrorLine (line : list Z).

(** Parsing an IP address and resolving a host name ([std::net]). *)
Class Resolver := {
  parse_ip : list Z -> option string;
  resolve : list Z -> Z -> option (list SocketAddr);
}.

(** The position of the first CRLF. *)
Fixpoint find_crlf (buf : list Z) : option nat :=
  match buf with
  | a :: (b :: _) as r => if (a =? 13) && (b =? 10) then Some 0%nat else i ← find_crlf r; Some (S i)
  | _ => None
  end.

(** The length in a data header. *)
Definition header_len (header : list Z) : result AutoError Z :=
  let read len := match parse_uint u64_max len with Ok n => Ok n | Err e => Err (AeLength e) end in
  match split_ascii_whitespace header with
  | [a; b; _; len] =>
      if (bool_decide (a = bytes_of "CONFIG") && bool_decide (b = bytes_of "cluster"))
         || bool_decide (a = bytes_of "VALUE")
      then read len else Err AeHeader
  | _ => Err AeHeader
  end.

(** [parse_response]: [Ok None] when it is incomplete. *)
Definition parse_response (buf : list Z) : result AutoError (option Response) :=
  match find_crlf buf with
  | None => Ok None
  | Some eol =>
      match from_utf8 (take eol buf) with
      | None => Err AeUtf8
      | Some header =>
          let rest := drop (eol + 2) buf in
          if bool_decide (header = bytes_of "END") then Ok (Some EmptyReply)
          else if bool_decide (header = bytes_of "ERROR") || starts_with (bytes_of "CLIENT_ERROR") header
                  || starts_with (bytes_of "SERVER_ERROR") header
          then Ok (Some (ErrorLine header))
          else
            match header_len header with
            | Err e => Err e
            | Ok len =>
                if MAX_RESPONSE <? len then Err (AeBlockLength len)
                else if Z.of_nat (length rest) <? len + Z.of_nat (length TRAILER) then Ok None
                else if bool_decide (take (length TRAILER) (drop (Z.to_nat len) rest) = TRAILER)
                then Ok (Some (Data (take (Z.to_nat len) rest)))
                else Err AeNoEnd
            end
      end
  end.

(** The loop of [request]; [None] while the reply is awaited. *)
Fixpoint request_loop (buf : list Z) (reads : list Read) : option (result AutoError Response) :=
  match parse_response buf with
  | Err e => Some (Err e)
  | Ok (Some r) => Some (Ok r)
  | Ok None =>
      if MAX_RESPONSE <? Z.of_nat (length buf) then Some (Err AeTooLong)
      else
        match reads with
        | [] => None
        | RBytes [] :: _ | RClosed :: _ => Some (Err AeClosed)
        | RTimeout :: _ => Some (Err (if bool_decide (buf = []) then AeDeadline else AeIncomplete (Z.of_nat (length buf))))
        | RError :: _ => Some (Err AeIo)
        | RBytes bs :: reads => request_loop (buf ++ bs) reads
        end
  end.

(** A connection: what follows a request, [None] when writing it fails. *)
Abbreviation Connection_ := (list Z -> option (list Read)).

Definition request (c : Connection_) (cmd : list Z) : option (result AutoError Response) :=
  match c cmd with None => Some (Err AeIo) | Some reads => request_loop [] reads end.

Section auto.
Context `{Resolver}.

(** [parse_node]. *)
Definition parse_node (entry : list Z) : result AutoError SocketAddr :=
  match split (Z.eqb 124) entry with
  | [host; ip; port] =>
      match parse_uint u16_max port with
      | Err e => Err (AePort e)
      | Ok port =>
          match ip with
          | [] =>
              match resolve host port with
              | None => Err AeResolve
              | Some [] => Err AeNoAddress
              | Some (a :: _) => Ok a
              end
          | _ =>
              match parse_ip ip with
              | None => Err AeIp
              | Some ip => Ok {| sa_ip := ip; sa_port := port |}
              end
          end
      end
  | _ => Err AeEntry
  end.

Fixpoint parse_nodes (entries : list (list Z)) (ns : list SocketAddr) : result AutoError (list SocketAddr) :=
  match entries with
  | [] => Ok ns
  | e :: entries =>
      a ← parse_node e;
      parse_nodes entries (if bool_decide (a ∈ ns) then ns else ns ++ [a])
  end.

(** [parse_config]. *)
Definition parse_config (body : list Z) : result AutoError ClusterConfig :=
  match from_utf8 body with
  | None => Err AeUtf8
  | Some body =>
      match filter (fun l => l <> []) (map trim (lines body)) with
      | [] => Err AeEmptyConfig
      | v :: rest =>
          match parse_uint u64_max v with
          | Err e => Err (AeVersion e)
          | Ok version =>
              match rest with
              | [] => Err AeNoNodeList
              | l :: _ =>
                  ns ← parse_nodes (split_ascii_whitespace l) [];
                  match ns with
                  | [] => Err AeNoNodes
                  | _ => Ok {| version := version; nodes := ns |}
                  end
              end
          end
      end
  end.

(** [query]. *)
Definition query (c : Connection_) : option (result AutoError ClusterConfig) :=
  r ← request c CONFIG_GET_CLUSTER;
  match r with
  | Err e => Some (Err e)
  | Ok (Data body) => Some (parse_config body)
  | Ok (ErrorLine line) =>
      if bool_decide (line = bytes_of "ERROR") then
        r ← request c GET_CLUSTER_KEY;
        Some (match r with
              | Err e => Err e
              | Ok (Data body) => parse_config body
              | Ok EmptyReply => Err AeNotConfigEndpoint
              | Ok (ErrorLine line) => Err (AeServer line)
              end)
      else Some (Err (AeServer line))
  | Ok EmptyReply => Some (Err AeNoConfig)
  end.

(** [discover]: [try_ s] is what [try_discover] answers for the seed [s]. *)
Fixpoint discover (try_ : SocketAddr -> result AutoError ClusterConfig) (seeds : list SocketAddr)
    (last : option AutoError) : result AutoError ClusterConfig :=
  match seeds with
  | [] => Err (default AeNoSeeds last)
  | s :: seeds => match try_ s with Ok c => Ok c | Err e => discover try_ seeds (Some e) end
  end.

End auto.

(** ** [resolve_endpoints]

    [topo] and [auto] are what the two discoveries answer for the configured
    endpoints. *)
Inductive ResolveError := ReProtocol | ReCluster (e : ClusterError) | ReAuto (e : AutoError) | ReCounts (msg : string).

Definition resolve_endpoints (topo : list SocketAddr -> result ClusterError (list SocketAddr * list Z))
    (auto : list SocketAddr -> result AutoError ClusterConfig) (c : Config.t)
    : result ResolveError (Config.t * option (list Z)) :=
  let t := Config.target c in
  let with_endpoints eps (c : Config.t) :=
    c <| Config.target := (Config.target c) <| Target.endpoints := eps |> |> in
  '(c, table) ←
    (if Target.cluster t then
       match Target.protocol t with
       | Resp_ | Resp3 =>
           match topo (Target.endpoints t) with
           | Err e => Err (ReCluster e)
           | Ok (eps, table) => Ok (with_endpoints eps c, Some table)
           end
       | _ => Err ReProtocol
       end
     else Ok (c, None));
  c ← (if Target.auto_discovery t then
         match auto (Target.endpoints (Config.target c)) with
         | Err e => Err (ReAuto e)
         | Ok cc => Ok (with_endpoints (nodes cc) c)
         end
       else Ok c);
  match check_node_counts c (Z.of_nat (length (Target.endpoints (Config.target c)))) with
  | Err e => Err (ReCounts e)
  | Ok _ => Ok (c, table)
  end.

(** ** [parse_cpu_list] *)

Definition usize_of (s : list Z) : option Z := match parse_uint u64_max s with Ok n => Some n | Err _ => None end.

Inductive CpuError := CpuNumber (s : list Z) | CpuRange (first last : Z).

(** The CPUs one part of the list names. *)
Definition parse_part (part : list Z) : result CpuError (list Z) :=
  match split_once 45 part with
  | Some (a, b) =>
      match usize_of (trim a), usize_of (trim b) with
      | Some a', Some b' => if b' <? a' then Err (CpuRange a' b') else Ok (seqZ a' (b' - a' + 1))
      | None, _ => Err (CpuNumber a)
      | _, None => Err (CpuNumber b)
      end
  | None => match usize_of part with Some n => Ok [n] | None => Err (CpuNumber part) end
  end.

Fixpoint parse_parts (parts : list (list Z)) (cpus : list Z) : result CpuError (list Z) :=
  match parts with
  | [] => Ok cpus
  | p :: parts =>
      match trim p with
      | [] => parse_parts parts cpus
      | p => more ← parse_part p; parse_parts parts (cpus ++ more)
      end
  end.

(** [sort_unstable] and [dedup] of a list of numbers. *)
Fixpoint insert_sorted (x : Z) (l : list Z) : list Z :=
  match l with
  | [] => [x]
  | y :: l => if x <=? y then x :: y :: l else y :: insert_sorted x l
  end.

Definition sort_Z (l : list Z) : list Z := fold_right insert_sorted [] l.

Fixpoint dedup (l : list Z) : list Z :=
  match l with
  | x :: (y :: _) as r => if x =? y then dedup r else x :: dedup r
  | _ => l
  end.

Definition parse_cpu_list (s : list Z) : result CpuError (list Z) :=
  cpus ← parse_parts (split (Z.eqb 44) s) []; Ok (dedup (sort_Z cpus)).

Example cpu_list_example :
  parse_cpu_list (bytes_of "0-3, 8-11,13,2") = Ok [0; 1; 2; 3; 8; 9; 10; 11; 13].
Proof. by vm_compute. Qed.

(** ** Lemmas: the topology *)

Section topology.
Context `{AddrParse}.

Lemma primaries_spec ranges eps0 eps :
  primaries ranges eps0 = Ok eps -> NoDup eps0 ->
  NoDup eps /\ eps0 ⊆ eps /\ forall r, r ∈ ranges -> exists a, parse_addr (sr_primary r) = Some a /\ a ∈ eps.
Proof.
  revert eps0. induction ranges as [|r ranges IH]; intros eps0; cbn [primaries].
  - intros [= ->] N. split; [done|]. split; [done|]. intros r I. by apply not_elem_of_nil in I.
  - destruct (parse_addr (sr_primary r)) as [a|] eqn:P; [|done]. intros E N.
    assert (N' : NoDup (if bool_decide (a ∈ eps0) then eps0 else eps0 ++ [a])).
    { case_bool_decide; [done|]. apply NoDup_app. split; [done|]. split; [|apply NoDup_singleton].
      intros x X ->%list_elem_of_singleton. done. }
    assert (S0 : eps0 ⊆ (if bool_decide (a ∈ eps0) then eps0 else eps0 ++ [a])).
    { case_bool_decide; [done|]. intros x. rewrite elem_of_app. auto. }
    assert (A : a ∈ (if bool_decide (a ∈ eps0) then eps0 else eps0 ++ [a])).
    { case_bool_decide; [done|]. rewrite elem_of_app, list_elem_of_singleton. auto. }
    destruct (IH _ E N') as (? & S1 & R). split; [done|]. split; [intros x X; by apply S1, S0|].
    intros q [->|Q]%elem_of_cons; [|by apply R]. exists a. split; [done|]. by apply S1.
Qed.

Lemma index_of_spec eps a i :
  Z.of_nat (length eps) <= u16_max -> index_of eps a = Some i ->
  0 <= i < Z.of_nat (length eps) /\ eps !! Z.to_nat i = Some a.
Proof.
  unfold index_of, u16_max. intros L E. destruct (list_find (eq a) eps) as [[k b]|] eqn:F; [|done].
  cbn [mbind option_bind] in E. injection E as <-.
  apply list_find_Some in F as (K & <- & _). pose proof (lookup_lt_Some _ _ _ K).
  rewrite Z.mod_small by lia. split; [lia|]. by rewrite Nat2Z.id.
Qed.

Lemma fill_slots_spec n first idx table table' :
  fill_slots n first idx table = Some table' ->
  length table' = length table /\
  forall s : nat, (s < length table)%nat ->
    table' !! s = if decide (first <= Z.of_nat s < first + Z.of_nat n) then Some idx else table !! s.
Proof.
  revert first table. induction n as [|n IH]; intros first table; cbn [fill_slots].
  - intros [= ->]. split; [done|]. intros s _. rewrite decide_False by lia. done.
  - destruct (_ && _) eqn:B; [|done]. intros E. destruct (IH _ _ E) as [L K]. rewrite length_insert in L, K.
    split; [done|]. intros s S. rewrite K by done.
    destruct (decide (Z.of_nat s = first)) as [<-|N].
    + rewrite decide_False by lia. rewrite decide_True by lia. rewrite Nat2Z.id. by apply list_lookup_insert_eq.
    + rewrite list_lookup_insert_ne by lia.
      destruct (decide (first + 1 <= Z.of_nat s < first + 1 + Z.of_nat n));
        [rewrite decide_True by lia|rewrite decide_False by lia]; done.
Qed.

Definition in_range (r : SlotRange) (s : nat) : Prop := sr_start r <= Z.of_nat s <= sr_end r.

#[export] Instance in_range_dec r s : Decision (in_range r s).
Proof. unfold in_range. apply _. Defined.

(** Each slot of the table is of the last range that has it. *)
Lemma fill_table_spec ranges eps table table' :
  fill_table ranges eps table = Some table' ->
  length table' = length table /\
  forall s v, table' !! s = Some v ->
    (table !! s = Some v /\ Forall (fun r => ~ in_range r s) ranges) \/
    exists pre r post a, ranges = pre ++ r :: post /\ in_range r s /\ Forall (fun q => ~ in_range q s) post /\
      parse_addr (sr_primary r) = Some a /\ index_of eps a = Some v.
Proof.
  revert table. induction ranges as [|r ranges IH]; intros table; cbn [fill_table].
  - intros [= ->]. split; [done|]. intros s v E. left. by split.
  - destruct (parse_addr (sr_primary r)) as [a|] eqn:P; [|done]. cbn [mbind option_bind].
    destruct (index_of eps a) as [i|] eqn:I; [|done]. cbn [mbind option_bind].
    destruct (fill_slots _ _ _ _) as [t1|] eqn:F; [|done]. cbn [mbind option_bind]. intros E.
    apply fill_slots_spec in F as [L1 F]. destruct (IH _ E) as [L2 K]. split; [congruence|].
    intros s v V. destruct (K s v V) as [[V1 N]|(pre & q & post & b & -> & R)].
    + pose proof (lookup_lt_Some _ _ _ V1) as Ls. rewrite L1 in Ls. rewrite F in V1 by exact Ls.
      destruct (decide (_ <= _ < _)) as [D|D] in V1.
      * right. injection V1 as <-. exists [], r, ranges, a. unfold in_range. repeat split; [lia..|done|done|done].
      * left. split; [done|]. apply Forall_cons. split; [|done]. unfold in_range. lia.
    + right. exists (r :: pre), q, post, b. done.
Qed.

(** A discovered topology serves every slot.  The slot table has an endpoint
    for each of the 16384 slots, within the list of distinct primaries, and it
    is the primary of the last range that names the slot; so the table is one
    the key partitions and the routing accept. *)
Theorem topology_serves ranges eps table :
  topology ranges = Some (Ok (eps, table)) -> Z.of_nat (length eps) <= u16_max ->
  table_ok (Z.of_nat (length eps)) (Some table) /\ NoDup eps /\
  forall slot : nat, Z.of_nat slot < SLOT_COUNT ->
    exists e a pre r post, table !! slot = Some e /\ eps !! Z.to_nat e = Some a /\
      ranges = pre ++ r :: post /\ in_range r slot /\ Forall (fun q => ~ in_range q slot) post /\
      parse_addr (sr_primary r) = Some a.
Proof.
  unfold topology. destruct (primaries ranges []) as [eps'|] eqn:P; [|done].
  destruct (fill_table _ _ _) as [t|] eqn:F; [|done]. cbn [mbind option_bind].
  set (holes := filter _ t). destruct (Z.ltb_spec 0 (Z.of_nat (length holes))) as [|Z0]; [done|].
  intros [= -> ->] L. destruct (primaries_spec _ _ _ P ltac:(constructor)) as (N & _ & _).
  destruct (fill_table_spec _ _ _ _ F) as [Lt K]. rewrite length_replicate in Lt.
  assert (Full : forall s v, table !! s = Some v ->
    exists a pre r post, 0 <= v < Z.of_nat (length eps) /\ eps !! Z.to_nat v = Some a /\
      ranges = pre ++ r :: post /\ in_range r s /\ Forall (fun q => ~ in_range q s) post /\
      parse_addr (sr_primary r) = Some a).
  { intros s v V. destruct (K s v V) as [[V0 _]|(pre & r & post & a & -> & R & Po & Pa & I)].
    - apply lookup_replicate in V0 as [-> _]. exfalso.
      assert (I : u16_max ∈ holes) by (apply list_elem_of_filter; split; [done|by eapply list_elem_of_lookup_2]).
      destruct holes; [by apply not_elem_of_nil in I|cbn in Z0; lia].
    - destruct (index_of_spec _ _ _ L I). exists a, pre, r, post. done. }
  split; [|split; [exact N|]].
  - split; [by rewrite Lt|]. apply Forall_lookup. intros s v V. destruct (Full s v V) as (? & ? & ? & ? & ? & _). done.
  - intros slot B. unfold SLOT_COUNT in *. destruct (lookup_lt_is_Some_2 table slot ltac:(lia)) as [v V].
    destruct (Full slot v V) as (a & pre & r & post & _ & Q). exists v, a, pre, r, post. done.
Qed.

Lemma fill_slots_total n first idx table :
  0 <= first -> first + Z.of_nat n <= Z.of_nat (length table) -> is_Some (fill_slots n first idx table).
Proof.
  revert first table. induction n as [|n IH]; intros first table A B; cbn [fill_slots]; [by eexists|].
  rewrite (proj2 (Z.leb_le 0 first)), (proj2 (Z.ltb_lt first _)) by lia. apply IH; rewrite ?length_insert; lia.
Qed.

Lemma index_of_total eps a : a ∈ eps -> is_Some (index_of eps a).
Proof.
  intros I. unfold index_of. destruct (list_find_elem_of (eq a) eps a I eq_refl) as [[i b] ->]. by eexists.
Qed.

(** The ranges whose slots exist and whose primaries parse. *)
Definition range_ok (r : SlotRange) : Prop :=
  0 <= sr_start r /\ sr_end r < SLOT_COUNT /\ is_Some (parse_addr (sr_primary r)).

Lemma fill_table_total ranges eps table :
  Forall range_ok ranges -> Z.of_nat (length table) = SLOT_COUNT ->
  (forall r a, r ∈ ranges -> parse_addr (sr_primary r) = Some a -> a ∈ eps) ->
  is_Some (fill_table ranges eps table).
Proof.
  intros F. revert table. induction F as [|r ranges (S & E & [a P]) F IH]; intros table L A; cbn [fill_table]; [by eexists|].
  rewrite P. cbn [mbind option_bind].
  destruct (index_of_total eps a) as [i ->]; [by apply (A r); [left|]|]. cbn [mbind option_bind].
  destruct (decide (sr_start r <= sr_end r + 1)).
  - destruct (fill_slots_total (Z.to_nat (sr_end r + 1 - sr_start r)) (sr_start r) i table) as [t T]; [done|lia|].
    rewrite T. cbn [mbind option_bind]. apply fill_slots_spec in T as [Lt _]. apply IH; [lia|].
    intros q b Q. apply A. by right.
  - replace (Z.to_nat (sr_end r + 1 - sr_start r)) with 0%nat by lia. cbn [fill_slots mbind option_bind].
    apply IH; [done|]. intros q b Q. apply A. by right.
Qed.

(** A reply that covers every slot with ranges that exist is accepted. *)
Lemma topology_complete ranges eps :
  primaries ranges [] = Ok eps -> Forall range_ok ranges -> Z.of_nat (length eps) <= u16_max ->
  (forall slot : nat, Z.of_nat slot < SLOT_COUNT -> Exists (fun r => in_range r slot) ranges) ->
  exists table, topology ranges = Some (Ok (eps, table)).
Proof.
  intros P F L C. unfold topology. rewrite P.
  destruct (primaries_spec _ _ _ P ltac:(constructor)) as (_ & _ & A).
  destruct (fill_table_total ranges eps (replicate (Z.to_nat SLOT_COUNT) u16_max)) as [t T].
  - exact F.
  - rewrite length_replicate. done.
  - intros r a R Pa. destruct (A r R) as (b & Pb & I). congruence.
  - rewrite T. cbn [mbind option_bind]. exists t. set (holes := filter _ t).
    assert (Z0 : holes = []); [|by rewrite Z0].
    destruct holes as [|h l] eqn:Hl; [done|]. exfalso.
    assert (I : h ∈ holes) by (rewrite Hl; left). apply list_elem_of_filter in I as [-> I].
    apply list_elem_of_lookup in I as [s V]. destruct (fill_table_spec _ _ _ _ T) as [Lt K].
    destruct (K s _ V) as [[V0 N]|(pre & r & post & a & -> & R & Po & Pa & Ia)].
    + apply lookup_replicate in V0 as [_ B].
      specialize (C s ltac:(unfold SLOT_COUNT in *; lia)). rewrite Exists_exists in C. destruct C as (r & I & R).
      rewrite Forall_forall in N. by apply (N r).
    + destruct (index_of_spec _ _ _ L Ia) as [B _]. lia.
Qed.

End topology.

(** ** Lemmas: a reply in pieces *)

Lemma find_crlf_cons x y a :
  find_crlf (x :: y :: a) = if (x =? 13) && (y =? 10) then Some 0%nat else i ← find_crlf (y :: a); Some (S i).
Proof. done. Qed.

Lemma find_crlf_app a b i : find_crlf a = Some i -> find_crlf (a ++ b) = Some i.
Proof.
  revert i. induction a as [|x a IH]; intros i; [done|].
  destruct a as [|y a]; [done|]. rewrite <- !app_comm_cons in *. rewrite !find_crlf_cons.
  destruct (_ && _); [done|].
  destruct (find_crlf (y :: a)) as [j|]; [|done]. intros [= <-]. by rewrite (IH j eq_refl).
Qed.

Lemma find_crlf_bound a i : find_crlf a = Some i -> (i + 2 <= length a)%nat.
Proof.
  revert i. induction a as [|x a IH]; intros i; [done|].
  destruct a as [|y a]; [done|]. rewrite find_crlf_cons.
  destruct (_ && _); [intros [= <-]; cbn; lia|].
  destruct (find_crlf (y :: a)) as [j|]; [|done]. intros [= <-].
  specialize (IH j eq_refl). cbn in *. lia.
Qed.

Lemma header_len_nonneg h n : header_len h = Ok n -> 0 <= n.
Proof.
  unfold header_len. cbv zeta. repeat case_match; try done; intros [= <-]; by eapply parse_uint_nonneg.
Qed.

(** A reply that was complete, or bad, stays so whatever follows. *)
Lemma parse_response_app a b x : parse_response a = x -> x <> Ok None -> parse_response (a ++ b) = x.
Proof.
  unfold parse_response. intros E N. destruct (find_crlf a) as [i|] eqn:F; [|by subst].
  rewrite (find_crlf_app _ b _ F). pose proof (find_crlf_bound _ _ F) as B.
  rewrite take_app_le by lia. rewrite drop_app_le by lia. set (rest := drop (i + 2) a) in *.
  destruct (from_utf8 _) as [h|]; [|done]. case_bool_decide; [done|].
  destruct (_ || _ || _); [done|]. destruct (header_len h) as [n|] eqn:Hn; [|done].
  apply header_len_nonneg in Hn. destruct (Z.ltb_spec MAX_RESPONSE n); [done|].
  destruct (Z.ltb_spec (Z.of_nat (length rest)) (n + Z.of_nat (length TRAILER))); [by subst|].
  rewrite length_app. destruct (Z.ltb_spec (Z.of_nat (length rest + length b)) (n + Z.of_nat (length TRAILER))); [lia|].
  rewrite drop_app_le, take_app_le, take_app_le by (rewrite ?length_drop; lia). exact E.
Qed.

(** However the network cuts a reply into reads, [request] answers what the
    whole reply says. *)
Lemma reply_in_pieces pieces x :
  Forall (fun p => p <> []) pieces -> parse_response (concat pieces) = x -> x <> Ok None ->
  Z.of_nat (length (concat pieces)) <= MAX_RESPONSE ->
  request_loop [] (map RBytes pieces) = Some match x with Ok (Some r) => Ok r | Ok None => Err AeIo | Err e => Err e end.
Proof.
  assert (G : forall buf, Forall (fun p => p <> []) pieces -> parse_response (buf ++ concat pieces) = x -> x <> Ok None ->
    Z.of_nat (length (buf ++ concat pieces)) <= MAX_RESPONSE ->
    request_loop buf (map RBytes pieces)
    = Some match x with Ok (Some r) => Ok r | Ok None => Err AeIo | Err e => Err e end); [|by apply (G [])].
  induction pieces as [|p pieces IH]; intros buf F P N L; cbn [map request_loop].
  - cbn in P. rewrite app_nil_r in P. rewrite P. by destruct x as [[]|].
  - assert (Settled : parse_response buf <> Ok None -> parse_response buf = x).
    { intros D. by rewrite <- P, (parse_response_app buf (concat (p :: pieces)) _ eq_refl D). }
    destruct (parse_response buf) as [[r|]|e]; [by rewrite <- Settled| |by rewrite <- Settled].
    clear Settled. cbn [concat] in *. rewrite !length_app in L.
    destruct (Z.ltb_spec MAX_RESPONSE (Z.of_nat (length buf))); [lia|].
    apply Forall_cons in F as [Np F]. destruct p as [|c p]; [done|].
    apply IH; [done| |done|]; rewrite <- app_assoc; [done|]. rewrite !length_app. lia.
Qed.

(** ** Lemmas: the nodes read back *)

(** A node as ElastiCache lists it, and the configuration of [ns]. *)
Definition node_entry (n : list Z * SocketAddr) : list Z :=
  n.1 ++ [124] ++ bytes_of (sa_ip n.2) ++ [124] ++ show (sa_port n.2).

Fixpoint join_spaces (ws : list (list Z)) : list Z :=
  match ws with [] => [] | [w] => w | w :: ws => w ++ [32] ++ join_spaces ws end.

Definition config_body (v : Z) (ns : list (list Z * SocketAddr)) : list Z :=
  show v ++ [10] ++ join_spaces (map node_entry ns) ++ [10].

Definition config_reply (body : list Z) : list Z :=
  bytes_of "CONFIG cluster 0 " ++ show (Z.of_nat (length body)) ++ [13; 10] ++ body ++ TRAILER.

(** Printable, without spaces and bars. *)
Definition plain (c : Z) : Prop := 33 <= c < 124.

Lemma plain_not_ascii_space c : 33 <= c < 128 -> is_ascii_whitespace c = false.
Proof. intros P. unfold is_ascii_whitespace. apply bool_decide_eq_false_2. set_solver by lia. Qed.

Lemma plain_not_space c : 33 <= c < 128 -> is_whitespace c = false.
Proof.
  intros P. unfold is_whitespace. rewrite bool_decide_eq_false_2 by set_solver by lia. lia.
Qed.

Lemma plain_not_bar c : plain c -> (124 =? c) = false.
Proof. unfold plain. lia. Qed.

Lemma Forall_show (P : Z -> Prop) n : (forall c, 48 <= c < 58 -> P c) -> Forall P (show n).
Proof. intros I. eapply Forall_impl; [apply show_digits|exact I]. Qed.

Section nodes.
Context `{Resolver}.

(** What the address texts are taken to be. *)
Record node_ok (n : list Z * SocketAddr) : Prop := {
  no_host : Forall plain n.1;
  no_ip : Forall plain (bytes_of (sa_ip n.2)) /\ bytes_of (sa_ip n.2) <> [];
  no_parse : parse_ip (bytes_of (sa_ip n.2)) = Some (sa_ip n.2);
  no_port : 0 <= sa_port n.2 <= u16_max;
}.

Lemma parse_node_entry n : node_ok n -> parse_node (node_entry n) = Ok n.2.
Proof.
  intros [Hh [Hi Ne] Hp Pt]. unfold parse_node, node_entry. cbn [app].
  rewrite split_word_app by (try (eapply Forall_impl; [exact Hh|apply plain_not_bar]); done).
  rewrite split_word_app by (try (eapply Forall_impl; [exact Hi|apply plain_not_bar]); done).
  rewrite split_word by (apply Forall_show; intros; lia).
  rewrite parse_show by exact Pt.
  destruct (bytes_of (sa_ip n.2)); [done|]. rewrite Hp. by destruct n as [h [ip port]].
Qed.

Lemma node_entry_solid n : node_ok n -> Forall (fun c => 33 <= c < 128) (node_entry n) /\ node_entry n <> [].
Proof.
  intros [Hh [Hi Ne] Hp Pt]. unfold node_entry, plain in *. split; [|by destruct n.1].
  rewrite !Forall_app. repeat split.
  - eapply Forall_impl; [exact Hh|cbn; lia].
  - repeat constructor; lia.
  - eapply Forall_impl; [exact Hi|cbn; lia].
  - repeat constructor; lia.
  - apply Forall_show. lia.
Qed.

Lemma parse_nodes_all ns acc :
  Forall node_ok ns -> NoDup (acc ++ map snd ns) -> parse_nodes (map node_entry ns) acc = Ok (acc ++ map snd ns).
Proof.
  intros F. revert acc. induction F as [|n ns N F IH]; intros acc D; cbn [map parse_nodes].
  - by rewrite app_nil_r.
  - rewrite parse_node_entry by exact N. cbn [mbind result_bind].
    cbn [map] in D. assert (A : n.2 ∉ acc).
    { intros A. apply NoDup_app in D as (_ & D & _). apply (D _ A). set_solver. }
    rewrite bool_decide_eq_false_2 by exact A.
    rewrite IH; rewrite <- app_assoc; done.
Qed.

Lemma split_join ws :
  Forall (fun w => Forall (fun c => 33 <= c < 128) w /\ w <> []) ws -> split_ascii_whitespace (join_spaces ws) = ws.
Proof.
  unfold split_ascii_whitespace. induction 1 as [|w ws [W Ne] F IH]; [done|].
  assert (P : Forall (fun c => is_ascii_whitespace c = false) w)
    by (eapply Forall_impl; [exact W|apply plain_not_ascii_space]).
  destruct ws as [|w' ws].
  - cbn [join_spaces]. rewrite split_word by exact P. by rewrite filter_cons_True, filter_nil by exact Ne.
  - change (join_spaces (w :: w' :: ws)) with (w ++ 32 :: join_spaces (w' :: ws)).
    rewrite split_word_app by done. rewrite filter_cons_True by exact Ne. by rewrite IH.
Qed.

Lemma join_solid ws :
  Forall (fun w => Forall (fun c => 33 <= c < 128) w /\ w <> []) ws -> ws <> [] ->
  Forall (fun c => 32 <= c < 128) (join_spaces ws) /\ join_spaces ws <> [] /\
  starts_solid (join_spaces ws) /\ starts_solid (rev (join_spaces ws)).
Proof.
  induction 1 as [|w ws [W Ne] F IH]; [done|]. intros _.
  assert (S1 : forall s, starts_solid (w ++ s)).
  { destruct w; [done|]. intros s. cbn. apply plain_not_space. by apply Forall_cons in W as [? _]. }
  assert (S2 : starts_solid (rev w)).
  { apply Forall_rev in W. destruct (rev w) as [|c r]; [done|]. apply Forall_cons in W as [? _]. by apply plain_not_space. }
  destruct ws as [|w' ws].
  - cbn [join_spaces]. split; [eapply Forall_impl; [exact W|cbn; lia]|]. split; [done|].
    split; [|done]. specialize (S1 []). by rewrite app_nil_r in S1.
  - destruct (IH ltac:(done)) as (A & B & C & D).
    change (join_spaces (w :: w' :: ws)) with (w ++ 32 :: join_spaces (w' :: ws)).
    set (t := join_spaces (w' :: ws)) in *. split.
    { rewrite Forall_app, Forall_cons. split; [eapply Forall_impl; [exact W|cbn; lia]|]. split; [lia|exact A]. }
    split; [by destruct w|]. split; [apply S1|]. rewrite rev_app_distr. cbn [rev].
    destruct (rev t) as [|c r] eqn:E; [|exact D].
    apply (f_equal (@rev Z)) in E. rewrite rev_involutive in E. done.
Qed.

Lemma strip_cr_solid w : starts_solid (rev w) -> strip_cr w = w.
Proof.
  unfold strip_cr. intros S. destruct (rev w) as [|c r]; [done|]. cbn in S.
  destruct c as [|c|c]; [done| |done].
  repeat (destruct c as [c|c|]; try done).
Qed.

Lemma lines_of_cons w w' ws : lines_of (w :: w' :: ws) = strip_cr w :: lines_of (w' :: ws).
Proof. by destruct w. Qed.

Lemma show_solid n : starts_solid (show n) /\ starts_solid (rev (show n)).
Proof.
  pose proof (show_digits n) as D. split.
  - destruct D as [|c s C _]; [done|]. apply plain_not_space. lia.
  - apply Forall_rev in D. destruct D as [|c s C _]; [done|]. apply plain_not_space. lia.
Qed.

(** The configuration of distinct nodes reads back. *)
Lemma parse_config_body v ns :
  0 <= v <= u64_max -> Forall node_ok ns -> ns <> [] -> NoDup (map snd ns) ->
  parse_config (config_body v ns) = Ok {| version := v; nodes := map snd ns |}.
Proof.
  intros V F Ne D.
  assert (Ws : Forall (fun w => Forall (fun c => 33 <= c < 128) w /\ w <> []) (map node_entry ns)).
  { apply Forall_map. eapply Forall_impl; [exact F|apply node_entry_solid]. }
  destruct (join_solid _ Ws ltac:(by destruct ns)) as (A & J & S1 & S2).
  destruct (show_solid v) as [T1 T2].
  unfold parse_config, config_body. set (j := join_spaces _) in *.
  assert (Asc : Forall (fun b => 0 <= b < 128) (show v ++ [10] ++ j ++ [10])).
  { rewrite !Forall_app. split; [apply Forall_show; lia|]. split; [repeat constructor; lia|].
    split; [|repeat constructor; lia]. eapply Forall_impl; [exact A|cbn; lia]. }
  rewrite from_utf8_ascii by exact Asc. unfold lines. cbn [app].
  rewrite split_word_app by (try (apply Forall_show; intros; lia); done).
  rewrite split_word_app by (try (eapply Forall_impl; [exact A|intros ? ?; cbv beta in *; lia]); done).
  cbn [split]. rewrite !lines_of_cons, !strip_cr_solid by done. cbn [lines_of map].
  rewrite !trim_solid by done.
  rewrite filter_cons_True by apply show_nonempty. rewrite filter_cons_True by exact J.
  rewrite parse_show by exact V. unfold j. rewrite split_join by exact Ws.
  rewrite parse_nodes_all by done. cbn [mbind result_bind app].
  by destruct ns.
Qed.

Lemma find_crlf_word w s : Forall (fun c => c <> 13) w -> find_crlf (w ++ [13; 10] ++ s) = Some (length w).
Proof.
  induction 1 as [|c w C F IH]; [done|]. destruct w as [|c' w]; cbn [app] in *.
  - rewrite find_crlf_cons. rewrite (proj2 (Z.eqb_neq c 13) C). cbn [andb]. by rewrite IH.
  - rewrite find_crlf_cons. rewrite (proj2 (Z.eqb_neq c 13) C). cbn [andb]. by rewrite IH.
Qed.

(** A data block of any bytes is taken whole, by its length. *)
Lemma parse_response_config body :
  Z.of_nat (length body) <= MAX_RESPONSE -> parse_response (config_reply body) = Ok (Some (Data body)).
Proof.
  intros L. set (n := Z.of_nat (length body)) in *. set (hd := bytes_of "CONFIG cluster 0 " ++ show n).
  assert (H13 : Forall (fun c => 0 <= c < 128 /\ c <> 13) hd).
  { apply Forall_app. split; [repeat constructor; cbn; lia|]. apply Forall_show. lia. }
  assert (E : config_reply body = hd ++ [13; 10] ++ body ++ TRAILER) by (unfold config_reply, hd; by rewrite <- app_assoc).
  unfold parse_response. rewrite E.
  rewrite find_crlf_word by (eapply Forall_impl; [exact H13|naive_solver]).
  rewrite take_app_length. rewrite from_utf8_ascii by (eapply Forall_impl; [exact H13|naive_solver]).
  rewrite drop_app_add. change (drop 2 ([13; 10] ++ body ++ TRAILER)) with (body ++ TRAILER).
  rewrite bool_decide_eq_false_2 by done. rewrite bool_decide_eq_false_2 by done. cbn [orb].
  assert (Hl : header_len hd = Ok n).
  { unfold header_len, hd, split_ascii_whitespace.
    change (bytes_of "CONFIG cluster 0 " ++ show n)
      with (bytes_of "CONFIG" ++ 32 :: (bytes_of "cluster" ++ 32 :: (bytes_of "0" ++ 32 :: show n))).
    rewrite 3!split_word_app by (try (repeat constructor); done).
    rewrite split_word by (apply Forall_show; intros; apply plain_not_ascii_space; lia).
    rewrite !filter_cons_True by done. rewrite filter_cons_True by apply show_nonempty. rewrite filter_nil.
    rewrite bool_decide_eq_true_2 by done. cbn [andb orb].
    rewrite parse_show; [done|]. unfold MAX_RESPONSE, u64_max in *. lia. }
  rewrite Hl. destruct (Z.ltb_spec MAX_RESPONSE n); [lia|].
  destruct (Z.ltb_spec (Z.of_nat (length (body ++ TRAILER))) (n + Z.of_nat (length TRAILER)));
    [rewrite length_app in *; lia|].
  unfold n. rewrite Nat2Z.id, drop_app_length, take_app_length.
  by rewrite bool_decide_eq_true_2 by (apply take_ge; done).
Qed.


End nodes.

(** *** The CPU list *)

Lemma insert_sorted_elem x y l : y ∈ insert_sorted x l <-> y = x \/ y ∈ l.
Proof.
  induction l as [|z l IH]; cbn; [set_solver|]. destruct (x <=? z); [set_solver|]. rewrite !elem_of_cons, IH. tauto.
Qed.

Lemma insert_sorted_sorted x l : Sorted Z.le l -> Sorted Z.le (insert_sorted x l).
Proof.
  induction 1 as [|z l S IH R]; cbn; [by repeat constructor|].
  destruct (Z.leb_spec x z); [repeat constructor; done|]. constructor; [exact IH|].
  destruct l as [|w l]; cbn in *; [constructor; lia|]. inversion_clear R.
  destruct (x <=? w); constructor; lia.
Qed.

Lemma sort_Z_spec l : Sorted Z.le (sort_Z l) /\ forall x, x ∈ sort_Z l <-> x ∈ l.
Proof.
  induction l as [|y l [S E]]; [by split; [constructor|]|]. split; [by apply insert_sorted_sorted|].
  intros x. cbn. rewrite insert_sorted_elem, E, elem_of_cons. done.
Qed.

Lemma dedup_cons x y l : dedup (x :: y :: l) = if x =? y then dedup (y :: l) else x :: dedup (y :: l).
Proof. done. Qed.

Lemma dedup_spec l :
  Sorted Z.le l -> StronglySorted Z.lt (dedup l) /\ (forall x, x ∈ dedup l <-> x ∈ l).
Proof.
  intros S%Sorted_StronglySorted; [|intros ?; lia]. induction S as [|x l S [IH E] F]; [by split; [constructor|]|].
  destruct l as [|y l]; [by split; [repeat constructor|]|]. rewrite dedup_cons.
  destruct (Z.eqb_spec x y) as [->|N].
  - split; [exact IH|]. intros z. rewrite E. set_solver.
  - split.
    + constructor; [exact IH|]. apply Forall_forall. intros z I%E. rewrite Forall_forall in F.
      pose proof (F _ I). assert (x <> z); [|lia]. intros <-. apply StronglySorted_inv in S as [_ S]. rewrite Forall_forall in S.
      apply elem_of_cons in I as [->|I]; [done|]. pose proof (S _ I). pose proof (F y ltac:(set_solver)). lia.
    + intros z. rewrite !(elem_of_cons _ z x), E. done.
Qed.

Lemma parse_parts_elem parts acc cpus x :
  parse_parts parts acc = Ok cpus ->
  x ∈ cpus <-> x ∈ acc \/ exists p more, p ∈ parts /\ trim p <> [] /\ parse_part (trim p) = Ok more /\ x ∈ more.
Proof.
  revert acc. induction parts as [|p parts IH]; intros acc; cbn [parse_parts].
  - intros [= <-]. split; [auto|]. intros [|(p & ? & I & _)]; [done|]. by apply not_elem_of_nil in I.
  - destruct (trim p) as [|c r] eqn:T.
    + intros E. rewrite (IH _ E). split; (intros [|(q & m & I & Q & P & X)]; [auto|right]).
      * exists q, m. split; [by right|done].
      * apply elem_of_cons in I as [->|I]; [by rewrite T in Q|]. by exists q, m.
    + destruct (parse_part (c :: r)) as [m|] eqn:P; [|done]. cbn [mbind result_bind]. intros E.
      rewrite (IH _ E), elem_of_app. split.
      * intros [[|X]|(q & m' & I & Q & R & X)]; [auto|right..].
        -- exists p, m. rewrite T. split; [by left|done].
        -- exists q, m'. split; [by right|done].
      * intros [|(q & m' & I & Q & R & X)]; [auto|].
        apply elem_of_cons in I as [->|I]; [rewrite T in R; left; right; congruence|]. right. by exists q, m'.
Qed.

(** The CPUs are those its parts name, each once, in increasing order. *)
Theorem cpu_list_sorted s cpus :
  parse_cpu_list s = Ok cpus ->
  StronglySorted Z.lt cpus /\
  forall x, x ∈ cpus <-> exists p more, p ∈ split (Z.eqb 44) s /\ trim p <> [] /\ parse_part (trim p) = Ok more /\ x ∈ more.
Proof.
  unfold parse_cpu_list. destruct (parse_parts _ []) as [l|] eqn:P; [|done]. cbn [mbind result_bind].
  intros [= <-]. destruct (sort_Z_spec l) as [S E]. destruct (dedup_spec _ S) as [D E'].
  split; [exact D|]. intros x. rewrite E', E, (parse_parts_elem _ _ _ x P).
  split; [intros [I|]; [by apply not_elem_of_nil in I|done]|auto].
Qed.

(** *** Witnesses *)

Definition example_resolver : Resolver :=
  {| parse_ip := fun s => if bool_decide (s = bytes_of "10.0.0.1") then Some "10.0.0.1"%string
                          else if bool_decide (s = bytes_of "10.0.0.2") then Some "10.0.0.2"%string else None;
     resolve := fun _ _ => None |}.

Definition example_nodes : list (list Z * SocketAddr) :=
  [(bytes_of "a.cache", {| sa_ip := "10.0.0.1"; sa_port := 11211 |});
   ([], {| sa_ip := "10.0.0.2"; sa_port := 11211 |})].

Definition example_reply : list Z := config_reply (config_body 12 example_nodes).


Definition example_addresses : AddrParse :=
  {| parse_addr := fun s => if bool_decide (s = "10.0.0.1:6379"%string)
                            then Some {| sa_ip := "10.0.0.1"; sa_port := 6379 |}
                            else if bool_decide (s = "10.0.0.2:6379"%string)
                            then Some {| sa_ip := "10.0.0.2"; sa_port := 6379 |} else None |}.

Definition example_ranges : list SlotRange :=
  [{| sr_start := 0; sr_end := 8191; sr_primary := "10.0.0.1:6379" |};
   {| sr_start := 8192; sr_end := 16383; sr_primary := "10.0.0.2:6379" |}].

Lemma topology_serves_witness :
  exists eps table, @topology example_addresses example_ranges = Some (Ok (eps, table)) /\
    table_ok 2 (Some table) /\ NoDup eps.
Proof.
  destruct (@topology_complete example_addresses example_ranges
    [{| sa_ip := "10.0.0.1"; sa_port := 6379 |}; {| sa_ip := "10.0.0.2"; sa_port := 6379 |}]) as [table E].
  - reflexivity.
  - repeat constructor; try done; by eexists.
  - discriminate.
  - intros slot B. unfold SLOT_COUNT in B. unfold example_ranges, in_range.
    destruct (decide (Z.of_nat slot <= 8191)); [left; cbn; lia|right; left; cbn; lia].
  - eexists _, table. split; [exact E|].
    destruct (@topology_serves example_addresses example_ranges _ table E ltac:(discriminate)) as (T & N & _).
    split; [exact T|exact N].
Defined.
