(* ===== verification/Exchange.v ===== *)
(** Exchange: the time an auto-discovery exchange takes
    ([src/src/autodiscovery.rs], [try_discover], [DeadlineStream]).

    Discovery says what an exchange answers for what is read; here every call
    on the socket has a clock around it.  The socket is the operating system's:
    a call with a timeout returns what the peer sends within it, and
    a timeout at its end otherwise.  A TLS stream makes the same calls. *)

From S2P Require Import Prelude F64 Text Config Validate Keys Reply Discovery.
Open Scope Z_scope.

Definition CONNECT_TIMEOUT : Z := 5000000000.

Definition SEED_DEADLINE : Z := 10000000000.

(** [DeadlineStream::arm] at [now]: the time left, none once the deadline has
    passed. *)
Definition arm (deadline now : Z) : option Z :=
  let rest := sat_sub deadline now in if rest =? 0 then None else Some rest.

(** A call on the stream: the program reaches it [gap] after the last one, the
    peer answers it after [wait]. *)
Record Call := { ca_gap : Z; ca_wait : Z; ca_answer : Read }.

Definition call_times (c : Call) : Prop := 0 <= ca_gap c /\ 0 <= ca_wait c.

(** [Read for DeadlineStream] and [Write for DeadlineStream]: when the call
    returns, and what. *)
Definition timed_call (deadline now : Z) (c : Call) : Z * Read :=
  let now := now + ca_gap c in
  match arm deadline now with
  | None => (now, RTimeout)
  | Some rest => if ca_wait c <? rest then (now + ca_wait c, ca_answer c) else (now + rest, RTimeout)
  end.

(** The answers of successive reads, and when each has come. *)
Fixpoint timed_reads (deadline now : Z) (cs : list Call) : list (Z * Read) :=
  match cs with
  | [] => []
  | c :: cs => let (t, r) := timed_call deadline now c in (t, r) :: timed_reads deadline t cs
  end.

(** The reads [request] makes: those up to its answer. *)
Fixpoint reads_made (buf : list Z) (reads : list Read) : nat :=
  match request_loop buf [], reads with
  | Some _, _ | None, [] => 0
  | None, RBytes bs :: reads => match bs with [] => 1 | _ => S (reads_made (buf ++ bs) reads) end
  | None, _ :: _ => 1
  end.

(** What follows a request on the stream; a write that times out is one more
    timeout. *)
Definition stream_reads (deadline now : Z) (write : Call) (cs : list Call) : option (list Read) :=
  let (t, w) := timed_call deadline now write in
  match w with
  | RBytes _ => Some (map snd (timed_reads deadline t cs))
  | RTimeout => Some [RTimeout]
  | _ => None
  end.

(** When [request] returns: with its write, or with the last read it makes. *)
Definition request_end (deadline now : Z) (write : Call) (cs : list Call) : Z :=
  let (t, w) := timed_call deadline now write in
  match w with
  | RBytes _ =>
      let reads := timed_reads deadline t cs in
      match reads_made [] (map snd reads) with O => t | S k => default t (fst <$> reads !! k) end
  | _ => t
  end.

Section exchange.
Context `{Resolver}.

(** [try_discover]: [connect] is how long the connect takes, [None] when it
    fails; the second request follows an [ERROR].  The answer, and when it is
    there. *)
Definition try_discover (start : Z) (connect : option Z) (w1 : Call) (cs1 : list Call) (w2 : Call) (cs2 : list Call)
    : option (result AutoError ClusterConfig) * Z :=
  match connect with
  | None => (Some (Err AeIo), start + CONNECT_TIMEOUT)
  | Some d =>
      let now := start + d in
      let deadline := now + SEED_DEADLINE in
      let t1 := request_end deadline now w1 cs1 in
      let conn (cmd : list Z) := if bool_decide (cmd = CONFIG_GET_CLUSTER) then stream_reads deadline now w1 cs1 else stream_reads deadline t1 w2 cs2 in
      (query conn, match request conn CONFIG_GET_CLUSTER with
                   | Some (Ok (ErrorLine line)) => if bool_decide (line = bytes_of "ERROR") then request_end deadline t1 w2 cs2 else t1
                   | _ => t1
                   end)
  end.

End exchange.

(** ** Lemmas *)

Lemma timed_call_bound deadline now c : call_times c ->
  now <= fst (timed_call deadline now c) <= Z.max deadline (now + ca_gap c).
Proof.
  intros [G W]. unfold timed_call, arm, sat_sub. destruct (Z.eqb_spec (Z.max (deadline - (now + ca_gap c)) 0) 0); cbn [fst]; [lia|].
  destruct (Z.ltb_spec (ca_wait c) (Z.max (deadline - (now + ca_gap c)) 0)); cbn [fst]; lia.
Qed.

(** A call reached after the deadline fails at once. *)
Lemma late_call deadline now c : deadline <= now -> call_times c -> timed_call deadline now c = (now + ca_gap c, RTimeout).
Proof. intros L [G W]. unfold timed_call, arm, sat_sub. by rewrite (proj2 (Z.eqb_eq _ 0)) by lia. Qed.

Definition total_gap (cs : list Call) : Z := foldr (fun c t => ca_gap c + t) 0 cs.

Lemma total_gap_nonneg cs : Forall call_times cs -> 0 <= total_gap cs.
Proof. induction 1 as [|c cs [G _] _ IH]; [done|]. change (total_gap (c :: cs)) with (ca_gap c + total_gap cs). lia. Qed.

Lemma timed_reads_bound deadline cs : Forall call_times cs -> forall now,
  Forall (fun tr => now <= fst tr <= Z.max deadline now + total_gap cs) (timed_reads deadline now cs).
Proof.
  induction 1 as [|c cs C Cs IH]; intros now; cbn [timed_reads]; [constructor|].
  change (total_gap (c :: cs)) with (ca_gap c + total_gap cs). pose proof (timed_call_bound deadline now c C) as B. destruct (timed_call deadline now c) as [t r] eqn:E. cbn in B.
  destruct C as [G W]. pose proof (total_gap_nonneg cs Cs). constructor; [cbn [fst]; lia|].
  eapply Forall_impl; [apply IH|]. intros [t' r']. cbn [fst]. lia.
Qed.

(** The loop stops by itself: every read it goes on after is one byte or more,
    and it refuses a buffer past its limit. *)
Lemma request_loop_decided reads : forall buf,
  MAX_RESPONSE + 1 < Z.of_nat (length buf) + Z.of_nat (length reads) -> is_Some (request_loop buf reads).
Proof.
  induction reads as [|r reads IH]; intros buf L; cbn [request_loop length] in *; destruct (parse_response buf) as [[|]|]; try by eexists.
  - rewrite (proj2 (Z.ltb_lt _ _)) by lia. by eexists.
  - destruct (MAX_RESPONSE <? _); [by eexists|]. destruct r as [[|b bs]| | |]; try by eexists. apply IH. rewrite length_app. cbn [length]. lia.
Qed.

(** The reads made are those the answer needs. *)
Lemma reads_made_enough reads : forall buf, request_loop buf (take (reads_made buf reads) reads) = request_loop buf reads.
Proof.
  induction reads as [|r reads IH]; intros buf; cbn [reads_made request_loop]; destruct (parse_response buf) as [[p|]|] eqn:P; cbn [take request_loop];
    rewrite ?P; try done; destruct (MAX_RESPONSE <? Z.of_nat (length buf)) eqn:M; cbn [take request_loop]; rewrite ?P, ?M; try done.
  destruct r as [[|b bs]| | |]; cbn [take request_loop]; rewrite ?P, ?M; try done; apply IH.
Qed.

Lemma request_end_bound deadline now write cs : call_times write -> Forall call_times cs ->
  now <= request_end deadline now write cs <= Z.max deadline now + total_gap (write :: cs).
Proof.
  intros W C. unfold request_end. pose proof (timed_call_bound deadline now write W) as B. destruct (timed_call deadline now write) as [t w].
  cbn [fst] in B. destruct W as [G _]. pose proof (total_gap_nonneg cs C).
  change (total_gap (write :: cs)) with (ca_gap write + total_gap cs). destruct w as [bs| | |]; try lia. destruct (reads_made _ _) as [|k]; [lia|].
  destruct (timed_reads deadline t cs !! k) as [[t' r']|] eqn:E; cbn [fmap option_fmap option_map default from_option fst]; [|lia].
  pose proof (Forall_lookup_1 _ _ _ _ (timed_reads_bound deadline cs C t) E) as B'. cbn [fst] in B'. unfold Datatypes.id. lia.
Qed.

Lemma timed_reads_length deadline cs : forall now, length (timed_reads deadline now cs) = length cs.
Proof. induction cs as [|c cs IH]; intros now; cbn; [done|]. destruct (timed_call _ _ _). cbn. by rewrite IH. Qed.

Lemma request_decided deadline now write cs (conn : Connection_) cmd :
  MAX_RESPONSE + 1 < Z.of_nat (length cs) -> conn cmd = stream_reads deadline now write cs -> is_Some (request conn cmd).
Proof.
  intros L E. unfold request. rewrite E. unfold stream_reads. destruct (timed_call deadline now write) as [t [bs| | |]]; try by eexists.
  apply request_loop_decided. rewrite length_map, timed_reads_length. cbn. lia.
Qed.

(** ** Properties *)

(** Auto discovery always comes to an answer, and in time.  Whatever a seed
    sends, at whatever pace, an exchange over calls enough to fill the response
    limit is decided, and its answer is there by the deadline, plus only the
    time the program itself spends between its calls. *)
Theorem exchange_ends `{Resolver} start d w1 cs1 w2 cs2 :
  0 <= d -> call_times w1 -> Forall call_times cs1 -> call_times w2 -> Forall call_times cs2 ->
  MAX_RESPONSE + 1 < Z.of_nat (length cs1) -> MAX_RESPONSE + 1 < Z.of_nat (length cs2) ->
  exists answer t, try_discover start (Some d) w1 cs1 w2 cs2 = (Some answer, t) /\
    start + d <= t <= start + d + SEED_DEADLINE + total_gap (w1 :: cs1) + total_gap (w2 :: cs2).
Proof.
  intros D W1 C1 W2 C2 L1 L2. unfold try_discover.
  set (now := start + d). set (deadline := now + SEED_DEADLINE). set (t1 := request_end deadline now w1 cs1).
  set (conn := fun cmd => if bool_decide (cmd = CONFIG_GET_CLUSTER) then _ else _).
  assert (D1 : is_Some (request conn CONFIG_GET_CLUSTER)) by (by apply (request_decided deadline now w1 cs1)).
  assert (D2 : is_Some (request conn GET_CLUSTER_KEY)) by (by apply (request_decided deadline t1 w2 cs2)).
  assert (Q : is_Some (query conn)).
  { unfold query. destruct D1 as [r1 ->], D2 as [r2 ->]. cbn. destruct r1 as [[b| |l]|e]; try by eexists. case_bool_decide; by eexists. }
  destruct Q as [answer ->]. eexists answer, _. split; [done|].
  pose proof (request_end_bound deadline now w1 cs1 W1 C1) as B1. fold t1 in B1.
  pose proof (request_end_bound deadline t1 w2 cs2 W2 C2) as B2.
  pose proof (total_gap_nonneg (w1 :: cs1) ltac:(by constructor)) as G1. pose proof (total_gap_nonneg (w2 :: cs2) ltac:(by constructor)) as G2.
  assert (Ed : deadline = start + d + SEED_DEADLINE) by done. assert (En : now = start + d) by done. assert (0 < SEED_DEADLINE) by done.
  clearbody deadline now t1. repeat case_match; lia.
Qed.

(** A seed that sends one byte a second, and calls that follow each other at
    once: the exchange is over ten seconds after the connect. *)
Definition dribble : Call := {| ca_gap := 0; ca_wait := 1000000000; ca_answer := RBytes [67] |}.

Lemma total_gap_dribble n : total_gap (replicate n dribble) = 0.
Proof. induction n as [|n IH]; [done|]. cbn [replicate]. change (total_gap (dribble :: replicate n dribble)) with (0 + total_gap (replicate n dribble)). lia. Qed.

Lemma exchange_ends_witness :
  exists n answer t, @try_discover {| parse_ip := fun _ => None; resolve := fun _ _ => None |} 0 (Some 1000) dribble
    (replicate n dribble) dribble (replicate n dribble) = (Some answer, t) /\ t <= 1000 + SEED_DEADLINE.
Proof.
  assert (C : call_times dribble) by (split; vm_compute; discriminate).
  destruct (Z_of_nat_complete (MAX_RESPONSE + 2) ltac:(unfold MAX_RESPONSE; lia)) as [n N]. exists n.
  assert (L : MAX_RESPONSE + 1 < Z.of_nat (length (replicate n dribble))) by (rewrite length_replicate; lia).
  destruct (@exchange_ends {| parse_ip := fun _ => None; resolve := fun _ _ => None |} 0 1000 dribble (replicate n dribble)
    dribble (replicate n dribble) ltac:(lia) C (Forall_replicate _ _ _ C) C (Forall_replicate _ _ _ C) L L) as (answer & t & E & B).
  exists answer, t. split; [exact E|].
  change (total_gap (dribble :: ?l)) with (0 + total_gap l) in B. rewrite total_gap_dribble in B. lia.
Defined.

(** The program as it runs on a shorter script: the reads stop at the deadline,
    with what had come by then. *)
Example dribbled_reply :
  @try_discover {| parse_ip := fun _ => None; resolve := fun _ _ => None |} 0 (Some 1000) dribble (replicate 20 dribble) dribble [] =
  (Some (Err (AeIncomplete 8)), 1000 + SEED_DEADLINE).
Proof. vm_compute. reflexivity. Qed.
