(* ===== verification/Dma.v ===== *)
(** Dma: the client of [protocol = "dma"] ([src/src/dma/advertisement.rs],
    [command.rs], [client.rs], [connection.rs]).

    RESP carries the commands, a fabric the values.  The first half is the
    text of commands and advertisements and what is accepted as a reply; the
    second the loop of a connection, which has one transfer at a time.  The
    endpoint and the registrations are in Fabric; here a transfer's reply is an
    argument, and the RESP connection is third-party.  The CRC-32c (crate crc_fast) is a
    parameter. *)

From S2P Require Import Prelude F64 Text Config Keys KeyDist Limiter Dispatch Metrics InFlight Reply Workload.
Open Scope Z_scope.

(** ** Advertisements *)

(** [encode_hex]: [hex_char] is the digit of the low four bits. *)
Fixpoint encode_hex (bs : list Z) : list Z :=
  match bs with
  | [] => []
  | b :: bs => hex_char (Z.shiftr b 4) :: hex_char (Z.land b 15) :: encode_hex bs
  end.

Inductive AdvertisementError := Arity | BadHex | BadInteger.

(** [char::to_digit(16)]. *)
Definition to_digit16 (c : Z) : option Z :=
  if (48 <=? c) && (c <=? 57) then Some (c - 48)
  else if (97 <=? c) && (c <=? 102) then Some (c - 87)
  else if (65 <=? c) && (c <=? 70) then Some (c - 55)
  else None.

(** The digit pairs of [decode_hex]; an odd digit is left over only where the
    length check has failed. *)
Fixpoint decode_pairs (s : list Z) : result AdvertisementError (list Z) :=
  match s with
  | a :: b :: s =>
      match to_digit16 a, to_digit16 b with
      | Some high, Some low => bs ← decode_pairs s; Ok (Z.lor (Z.shiftl high 4) low mod 2 ^ 8 :: bs)
      | _, _ => Err BadHex
      end
  | _ => Ok []
  end.

(** [decode_hex]. *)
Definition decode_hex (s : list Z) : result AdvertisementError (list Z) :=
  if Nat.even (length s) then decode_pairs s else Err BadHex.

Record Advertisement := { adv_address : list Z; adv_remote_key : Z; adv_remote_address : Z }.

(** [to_region_args] and [to_args]. *)
Definition to_region_args (a : Advertisement) : list (list Z) :=
  [show (adv_remote_key a); show (adv_remote_address a)].

Definition to_args (a : Advertisement) : list (list Z) := encode_hex (adv_address a) :: to_region_args a.

(** [parse_ascii] into [u64]. *)
Definition parse_ascii (raw : list Z) : result AdvertisementError Z :=
  match from_utf8 raw with
  | Some s => match parse_uint u64_max s with Ok n => Ok n | Err _ => Err BadInteger end
  | None => Err BadInteger
  end.

(** [from_fields]. *)
Definition from_fields (fields : list (list Z)) : result AdvertisementError Advertisement :=
  match fields with
  | [address; remote_key; remote_address] =>
      a ← decode_hex address;
      k ← parse_ascii remote_key;
      v ← parse_ascii remote_address;
      Ok {| adv_address := a; adv_remote_key := k; adv_remote_address := v |}
  | _ => Err Arity
  end.

(** ** Commands *)

Inductive Dialect := Vdma_ | LargeObj_.

(** [Dialect::names]: hello, get and set. *)
Definition names (d : Dialect) : list Z * list Z * list Z :=
  match d with
  | Vdma_ => (bytes_of "DMA.HELLO", bytes_of "DMA.GET", bytes_of "DMA.SET")
  | LargeObj_ => (bytes_of "BLOB.RDMA_HELLO", bytes_of "BLOB.RDMA_GET", bytes_of "BLOB.RDMA_SET")
  end.

(** The faults behind each [DmaError]; their wording is left out. *)
Inductive Fault :=
| ChecksumRange (n : Z) | OkForCount | NegativeCount (n : Z) | NoTransfer
| HelloShape | HelloEmpty | HelloAddress | BadAddress (e : AdvertisementError)
| ReplyArity (n : nat) | ReplyShape.

Inductive DmaError :=
| Protocol_ (f : Fault)
| Integrity (found expected : Z)
| Fabric
| Configuration.

Record DmaCommand := { dc_name : list Z; dc_arguments : list (list Z) }.

(** [hello] and [info]. *)
Definition hello (d : Dialect) (local_address : list Z) : DmaCommand :=
  {| dc_name := (names d).1.1;
     dc_arguments := match d with Vdma_ => [] | LargeObj_ => [encode_hex local_address] end |}.

Definition info : DmaCommand := {| dc_name := bytes_of "DMA.INFO"; dc_arguments := [] |}.

(** [transfer]. *)
Definition transfer (name : list Z) (a : Advertisement) (key : list Z) (length : Z) : DmaCommand :=
  {| dc_name := name; dc_arguments := to_args a ++ [show length; key] |}.

(** [address_triple]. *)
Definition address_triple (a : Advertisement) (length : Z) : list (list Z) := to_region_args a ++ [show length].

(** [set]. *)
Definition set_command (d : Dialect) (a : Advertisement) (key : list Z) (length : Z) (checksum : option Z)
    : result DmaError DmaCommand :=
  match d with
  | Vdma_ =>
      let c := transfer (names d).2 a key length in
      Ok {| dc_name := dc_name c;
            dc_arguments := dc_arguments c ++ match checksum with Some x => [show x] | None => [] end |}
  | LargeObj_ =>
      match checksum with
      | Some _ => Err Configuration
      | None => Ok {| dc_name := (names d).2; dc_arguments := [key; show length] ++ address_triple a length |}
      end
  end.

(** [get]. *)
Definition get_command (d : Dialect) (a : Advertisement) (key : list Z) (capacity : Z) (checksum : bool) : DmaCommand :=
  match d with
  | Vdma_ =>
      let c := transfer (names d).1.2 a key capacity in
      {| dc_name := dc_name c; dc_arguments := dc_arguments c ++ if checksum then [show 0] else [] |}
  | LargeObj_ => {| dc_name := (names d).1.2; dc_arguments := key :: address_triple a capacity |}
  end.

(** ** Replies *)

(** A RESP value (crate resp_proto), as far as the code tells values apart. *)
Inductive Value :=
| VNull
| VInteger (n : Z)
| VSimple (s : list Z)
| VBulk (s : list Z)
| VArray (items : list Value)
| VOther.

Inductive TransferReply :=
| Missing
| Bytes (n : Z)
| BytesAndChecksum (bytes checksum : Z)
| Acknowledged.

Record TransferReceipt := { bytes_written : Z; rc_checksum : option Z }.

(** [parse]. *)
Definition parse_reply (v : Value) : result DmaError TransferReply :=
  match v with
  | VNull => Ok Missing
  | VInteger n => Ok (Bytes n)
  | VSimple s => if bool_decide (s = bytes_of "OK") then Ok Acknowledged else Err (Protocol_ ReplyShape)
  | VArray [VInteger b; VInteger c] => Ok (BytesAndChecksum b c)
  | VArray items => Err (Protocol_ (ReplyArity (length items)))
  | _ => Err (Protocol_ ReplyShape)
  end.

(** [usize::try_from(i64)]. *)
Definition count_of (n : Z) : result DmaError Z := if n <? 0 then Err (Protocol_ (NegativeCount n)) else Ok n.

(** [TransferReply::receipt]. *)
Definition receipt (r : TransferReply) : result DmaError (option TransferReceipt) :=
  match r with
  | Missing => Ok None
  | Bytes n => n ← count_of n; Ok (Some {| bytes_written := n; rc_checksum := None |})
  | BytesAndChecksum b c =>
      if (c <? 0) || (u32_max <? c) then Err (Protocol_ (ChecksumRange c))
      else b ← count_of b; Ok (Some {| bytes_written := b; rc_checksum := Some c |})
  | Acknowledged => Err (Protocol_ OkForCount)
  end.

(** [TransferReply::write_receipt]. *)
Definition write_receipt (r : TransferReply) (length : Z) : result DmaError TransferReceipt :=
  match r with
  | Acknowledged => Ok {| bytes_written := length; rc_checksum := None |}
  | _ =>
      x ← receipt r;
      match x with
      | None => Err (Protocol_ NoTransfer)
      | Some x => if bytes_written x =? length then Ok x else Err (Integrity (bytes_written x) length)
      end
  end.

(** The addresses of a hello's reply. *)
Fixpoint hello_addresses (items : list Value) : result DmaError (list (list Z)) :=
  match items with
  | [] => Ok []
  | (VBulk s | VSimple s) :: items =>
      match decode_hex s with
      | Err e => Err (Protocol_ (BadAddress e))
      | Ok a => l ← hello_addresses items; Ok (a :: l)
      end
  | _ :: _ => Err (Protocol_ HelloAddress)
  end.

Definition hello_reply (v : Value) : result DmaError (list (list Z)) :=
  match v with
  | VArray [] => Err (Protocol_ HelloEmpty)
  | VArray items => hello_addresses items
  | _ => Err (Protocol_ HelloShape)
  end.

Section client.
Variable crc32c : list Z -> Z.

(** [DmaClient::verify]: [landed] is the buffer, when the host can read it. *)
Definition verify (checksum : bool) (x : TransferReceipt) (landed : option (list Z)) : result DmaError unit :=
  match checksum, rc_checksum x, landed with
  | true, Some expected, Some buf =>
      let found := crc32c (take (Z.to_nat (bytes_written x)) buf) in
      if found =? expected then Ok () else Err (Integrity found expected)
  | _, _, _ => Ok ()
  end.

(** [DmaClient::get], from the reply on. *)
Definition dma_get (capacity : Z) (checksum : bool) (landed : option (list Z)) (v : Value)
    : result DmaError (option TransferReceipt) :=
  r ← parse_reply v;
  x ← receipt r;
  match x with
  | None => Ok None
  | Some x =>
      if capacity <? bytes_written x then Err (Integrity (bytes_written x) capacity)
      else _ ← verify checksum x landed; Ok (Some x)
  end.

(** [DmaClient::set_registered], from the reply on. *)
Definition dma_set (length : Z) (v : Value) : result DmaError TransferReceipt :=
  r ← parse_reply v; write_receipt r length.

(** [write_checksum]. *)
Definition write_checksum (c : Dma.t) (value : list Z) : option Z :=
  if checksums_writes c then Some (crc32c value) else None.

End client.

(** ** Facts: text and replies *)

Lemma to_digit16_hex_char n : to_digit16 (hex_char n) = Some (n mod 16).
Proof.
  unfold hex_char. change 15 with (Z.ones 4). rewrite Z.land_ones by lia. change (2 ^ 4) with 16.
  pose proof (Z.mod_pos_bound n 16 ltac:(lia)) as B.
  assert (E : exists k : nat, n mod 16 = Z.of_nat k /\ (k < 16)%nat) by (exists (Z.to_nat (n mod 16)); lia).
  destruct E as (k & -> & K). rewrite Nat2Z.id. do 16 (destruct k as [|k]; [reflexivity|]). lia.
Qed.

(** The two digits of a byte, checked for every byte. *)
Lemma hex_pair b : 0 <= b < 256 -> Z.lor (Z.shiftl (Z.shiftr b 4 mod 16) 4) (Z.land b 15 mod 16) mod 2 ^ 8 = b.
Proof.
  intros B. set (f := fun b => Z.lor (Z.shiftl (Z.shiftr b 4 mod 16) 4) (Z.land b 15 mod 16) mod 2 ^ 8).
  assert (A : forallb (fun k => f (Z.of_nat k) =? Z.of_nat k) (seq 0 256) = true) by (vm_compute; reflexivity).
  rewrite forallb_forall in A. specialize (A (Z.to_nat b) ltac:(apply in_seq; lia)).
  apply Z.eqb_eq in A. by rewrite Z2Nat.id in A by lia.
Qed.

Lemma decode_encode bs : Forall (fun b => 0 <= b < 256) bs -> decode_pairs (encode_hex bs) = Ok bs.
Proof.
  induction 1 as [|b bs B F IH]; [done|]. cbn [encode_hex decode_pairs].
  rewrite !to_digit16_hex_char, IH. cbn [mbind result_bind]. by rewrite hex_pair.
Qed.

Lemma encode_hex_even bs : Nat.even (length (encode_hex bs)) = true.
Proof. induction bs as [|b bs IH]; [done|exact IH]. Qed.

(** An address's text reads back. *)
Lemma hex_roundtrip bs : Forall (fun b => 0 <= b < 256) bs -> decode_hex (encode_hex bs) = Ok bs.
Proof. intros F. unfold decode_hex. rewrite encode_hex_even. by apply decode_encode. Qed.

Lemma parse_ascii_show n : is_u64 n -> parse_ascii (show n) = Ok n.
Proof.
  intros B. unfold parse_ascii. rewrite from_utf8_ascii.
  - by rewrite parse_show.
  - eapply Forall_impl; [apply show_digits|]. cbn. lia.
Qed.

Definition adv_ok (a : Advertisement) : Prop :=
  Forall (fun b => 0 <= b < 256) (adv_address a) /\ is_u64 (adv_remote_key a) /\ is_u64 (adv_remote_address a).

(** An advertisement's arguments read back. *)
Lemma advertisement_roundtrip a : adv_ok a -> from_fields (to_args a) = Ok a.
Proof.
  intros (B & K & V). unfold from_fields, to_args, to_region_args. rewrite hex_roundtrip by exact B. cbn [mbind result_bind].
  rewrite !parse_ascii_show by done. cbn [mbind result_bind]. by destruct a.
Qed.

(** What a server reads of a transfer command: the key, the length and the
    region, and of vdma's the client's address. *)
Definition read_transfer (d : Dialect) (write : bool) (args : list (list Z))
    : option (list Z * Z * Z * Z * option (list Z)) :=
  let num s := match parse_ascii s with Ok n => Some n | Err _ => None end in
  match d, write, args with
  | Vdma_, _, a :: k :: v :: len :: key :: _ =>
      match from_fields [a; k; v] with
      | Ok adv => n ← num len; Some (key, n, adv_remote_key adv, adv_remote_address adv, Some (adv_address adv))
      | Err _ => None
      end
  | LargeObj_, true, [key; total; k; v; len] =>
      t ← num total; n ← num len; k ← num k; v ← num v;
      if t =? n then Some (key, n, k, v, None) else None
  | LargeObj_, false, [key; k; v; len] => n ← num len; k ← num k; v ← num v; Some (key, n, k, v, None)
  | _, _, _ => None
  end.

(** Transfer commands say what is transferred.  In either dialect the
    arguments of a SET or GET, read back in the order the module documents,
    give the key, the length or capacity, and the key and address of the
    registered region; vdma's also the client's fabric address, largeobj's
    not, which is bound by its hello. *)
Theorem transfer_commands_read_back d a key n crc :
  adv_ok a -> is_u64 n ->
  let addr := match d with Vdma_ => Some (adv_address a) | LargeObj_ => None end in
  (forall c, set_command d a key n crc = Ok c ->
     read_transfer d true (dc_arguments c) = Some (key, n, adv_remote_key a, adv_remote_address a, addr)) /\
  (forall flag, read_transfer d false (dc_arguments (get_command d a key n flag))
                = Some (key, n, adv_remote_key a, adv_remote_address a, addr)).
Proof.
  intros A N. pose proof A as (_ & K & V). pose proof (advertisement_roundtrip a A) as R.
  unfold to_args, to_region_args in R.
  destruct d; split.
  - intros c [= <-]. cbn -[parse_ascii show from_fields encode_hex]. rewrite R, parse_ascii_show by done. done.
  - intros flag. cbn -[parse_ascii show from_fields encode_hex]. rewrite R, parse_ascii_show by done. done.
  - intros c. cbn -[parse_ascii show from_fields encode_hex]. destruct crc; [done|]. intros [= <-]. cbn -[parse_ascii show from_fields encode_hex]. rewrite !parse_ascii_show by done. cbn -[parse_ascii show from_fields encode_hex].
    by rewrite Z.eqb_refl.
  - intros flag. cbn -[parse_ascii show from_fields encode_hex]. by rewrite !parse_ascii_show by done.
Qed.

Lemma transfer_commands_read_back_witness :
  read_transfer LargeObj_ true (dc_arguments {| dc_name := bytes_of "BLOB.RDMA_SET";
      dc_arguments := [bytes_of "k"; bytes_of "64"; bytes_of "7"; bytes_of "4096"; bytes_of "64"] |})
  = Some (bytes_of "k", 64, 7, 4096, None).
Proof.
  destruct (transfer_commands_read_back LargeObj_
    {| adv_address := [10; 255]; adv_remote_key := 7; adv_remote_address := 4096 |} (bytes_of "k") 64 None) as [W _].
  - split; [repeat constructor; lia|split; split; vm_compute; congruence].
  - split; vm_compute; congruence.
  - apply W. vm_compute. reflexivity.
Defined.

Lemma receipt_nonneg r x : receipt r = Ok (Some x) -> 0 <= bytes_written x.
Proof.
  destruct r as [|n|b c|]; cbn; [done| | |done].
  - unfold count_of. destruct (Z.ltb_spec n 0); [done|]. intros [= <-]. done.
  - destruct (_ || _); [done|]. unfold count_of. destruct (Z.ltb_spec b 0); [done|]. intros [= <-]. done.
Qed.

(** A transfer is believed only if it fits and matches.  A read that is
    accepted wrote no more than the registered buffer holds; where checksums
    are asked for, sent and readable, the bytes that landed have the CRC the
    server named.  A write that is accepted moved exactly the bytes offered. *)
Theorem transfers_verified crc32c :
  (forall capacity checksum landed v x,
     dma_get crc32c capacity checksum landed v = Ok (Some x) ->
     0 <= bytes_written x <= capacity /\
     forall buf e, checksum = true -> landed = Some buf -> rc_checksum x = Some e ->
       crc32c (take (Z.to_nat (bytes_written x)) buf) = e) /\
  (forall length v x, dma_set length v = Ok x -> bytes_written x = length).
Proof.
  split.
  - intros capacity checksum landed v x. unfold dma_get. destruct (parse_reply v) as [r|]; [|done]. cbn [mbind result_bind].
    destruct (receipt r) as [[y|]|] eqn:R; [|done..]. cbn [mbind result_bind]. apply receipt_nonneg in R.
    destruct (Z.ltb_spec capacity (bytes_written y)); [done|]. unfold verify.
    destruct checksum, (rc_checksum y) as [e|] eqn:C, landed as [buf|]; cbn [mbind result_bind];
      try (intros [= <-]; split; [lia|]; intros; congruence).
    destruct (Z.eqb_spec (crc32c (take (Z.to_nat (bytes_written y)) buf)) e); [|done]. cbn [mbind result_bind].
    intros [= <-]. split; [lia|]. intros b e' _ [= <-] E. congruence.
  - intros length v x. unfold dma_set. destruct (parse_reply v) as [r|]; [|done]. cbn [mbind result_bind].
    unfold write_receipt. destruct r as [|n|b c|]; [| | |by intros [= <-]].
    all: destruct (receipt _) as [[y|]|]; cbn [mbind result_bind]; [|done..].
    all: destruct (Z.eqb_spec (bytes_written y) length); [intros [= <-]|]; done.
Qed.

(** A read of nine bytes into sixteen, whose checksum (the sum, here) agrees. *)
Lemma transfers_verified_witness :
  let sum := fold_right Z.add 0 in
  dma_get sum 16 true (Some [1; 2; 3; 4; 9; 9]) (VArray [VInteger 4; VInteger 10])
  = Ok (Some {| bytes_written := 4; rc_checksum := Some 10 |}) /\ 0 <= 4 <= 16.
Proof.
  split; [vm_compute; reflexivity|].
  apply (proj1 (proj1 (transfers_verified (fold_right Z.add 0)) 16 true (Some [1; 2; 3; 4; 9; 9])
    (VArray [VInteger 4; VInteger 10]) {| bytes_written := 4; rc_checksum := Some 10 |} ltac:(vm_compute; reflexivity))).
Defined.

(** ** The connection's loop: [run_transfers]

    A pass ends with a transfer sent, a wait, or the end of the run; the
    transfer's outcome is the next step.  [now] is the pass's readings of the
    clock. *)

Inductive Op := DmaGet | DmaSet | DmaDelete.

Definition op_request_type (o : Op) : RequestType :=
  match o with DmaGet => Get | DmaSet => Set_ | DmaDelete => Delete end.

Inductive Source := FromPrefill | FromBackfill | FromWorkload.

#[export] Instance Source_eq_dec : EqDecision Source.
Proof. solve_decision. Defined.

#[export] Instance Op_eq_dec : EqDecision Op.
Proof. solve_decision. Defined.

Record DmaEnv `{Hashing} := {
  de_format : KeyFormat;
  de_key_len : nat;
  de_ring : ring;
  de_table : option (list Z);
  de_endpoints : Z;
  de_endpoint : Z;
  de_get : Z;
  de_delete : Z;
  de_value_len : Z;
  de_pool_len : Z;
  de_backfill : bool;
  de_dist : KeyDist;
  de_keys : list (list Z);
}.

(** A transfer in flight. *)
Record Transfer := { tr_key : Z; tr_op : Op; tr_source : Source; tr_start : Z }.

Record DmaConn `{Ratelimiter} `{Rng} := {
  dm_rng : rng;
  dm_queues : PrefillQueues;
  dm_pacer : option PrefillPacer;
  dm_refused : bool;
  dm_limiter : option WorkerLimiter;
  dm_slip : SlipState;
  dm_inflight : InFlight;
  dm_backfill : list Z;
  dm_carried : Z;
  dm_confirmed : Z;
  dm_transfer : option Transfer;
  dm_log : list metric;
}.

#[export] Instance eta_DmaConn `{Ratelimiter} `{Rng} : Settable DmaConn := fun x =>
  {| dm_rng := dm_rng x; dm_queues := dm_queues x; dm_pacer := dm_pacer x; dm_refused := dm_refused x;
     dm_limiter := dm_limiter x; dm_slip := dm_slip x; dm_inflight := dm_inflight x;
     dm_backfill := dm_backfill x; dm_carried := dm_carried x; dm_confirmed := dm_confirmed x;
     dm_transfer := dm_transfer x; dm_log := dm_log x |}.

(** What a pass comes to; a SET names its window in the value pool. *)
Inductive DmaNext :=
| DmaDone
| DmaSleep (d : Z)
| DmaWaitToken
| DmaSend (key : list Z) (window : option Z).

Section loop.
Context `{Ratelimiter} `{Rng} `{Hashing}.
Variable env : DmaEnv.

Definition micros (n : Z) : Z := n * 1000.

Definition dm_note (ms : list metric) (s : DmaConn) : DmaConn := s <| dm_log := dm_log s ++ ms |>.

Definition dm_key (key_id : Z) : list Z := write_key (de_format env) (de_key_len env) key_id.

(** Draw until a key routes to this endpoint. *)
Fixpoint dma_reject (n : nat) (s : DmaConn) : option (DmaConn * option Z) :=
  match n with
  | O => Some (s, None)
  | S n =>
      '(r, candidate) ← sample (de_dist env) (dm_rng s);
      let s := s <| dm_rng := r |> in
      routed_to ← route_partition (de_table env) (de_ring env) (de_endpoints env) (dm_key candidate);
      if routed_to =? de_endpoint env then Some (s, Some candidate) else dma_reject n s
  end.

(** The key of a workload request. *)
Definition dma_pick (s : DmaConn) : option (DmaConn * option Z) :=
  if negb (1 <? de_endpoints env) then
    '(r, k) ← sample (de_dist env) (dm_rng s); Some (s <| dm_rng := r |>, Some k)
  else
    match de_dist env with
    | KUniform _ =>
        bucket ← de_keys env !! Z.to_nat (de_endpoint env);
        match bucket with
        | [] => Some (s, None)
        | _ =>
            '(r, i) ← range_draw 0 (Z.of_nat (length bucket)) (dm_rng s);
            k ← bucket !! Z.to_nat i; Some (s <| dm_rng := r |>, Some k)
        end
    | d =>
        match endpoint_sampler d with
        | Some z => '(r, k) ← endpoint_sample z (Z.to_nat (de_endpoint env)) (dm_rng s);
                    Some (s <| dm_rng := r |>, k)
        | None => dma_reject (Z.to_nat (max_routing_attempts (de_endpoints env))) s
        end
    end.

(** Send: the counters, the clock, and for a SET the window its value is read
    from. *)
Definition dma_send (key_id : Z) (op : Op) (source : Source) (now : Z) (s : DmaConn)
    : option (DmaConn * DmaNext) :=
  let s := dm_note [Count REQUESTS_SENT 1] s in
  let s := s <| dm_inflight := push now (dm_inflight s) |>
             <| dm_transfer := Some {| tr_key := key_id; tr_op := op; tr_source := source; tr_start := now |} |> in
  if bool_decide (op = DmaSet) then
    '(r, at_) ← range_draw 0 (wrap64 (de_pool_len env - de_value_len env) + 1) (dm_rng s);
    if at_ + de_value_len env <=? de_pool_len env
    then Some (s <| dm_rng := r |>, DmaSend (dm_key key_id) (Some at_)) else None
  else Some (s, DmaSend (dm_key key_id) None).

(** A prefill key, if the pacer lets it go. *)
Definition dma_prefill (now : nat -> Z) (s : DmaConn) : option (DmaConn * DmaNext) :=
  '(qs, popped) ← pq_pop_front (dm_queues s) (de_endpoint env);
  match popped with
  | None => Some (s, DmaSleep (micros 100))
  | Some key_id =>
      let s := s <| dm_queues := qs |> in
      let (p, verdict) :=
        match dm_pacer s with
        | Some p => let (p, r) := pacer_try_take (now 0%nat) p in (Some p, r)
        | None => (None, Ok ())
        end in
      let s := s <| dm_pacer := p |> in
      match verdict with
      | Err sleep =>
          qs ← pq_push_front (dm_queues s) (de_endpoint env) key_id;
          Some (s <| dm_queues := qs |> <| dm_refused := true |>, DmaSleep (Z.max sleep (micros 100)))
      | Ok _ => dma_send key_id DmaSet FromPrefill (now 1%nat) s
      end
  end.

(** The command of a workload request. *)
Definition dma_choose (key_id : Z) (now : Z) (s : DmaConn) : option (DmaConn * DmaNext) :=
  '(r, roll) ← range_draw 0 100 (dm_rng s);
  let s := s <| dm_rng := r |> in
  let op := if roll <? de_get env then DmaGet
            else if roll <? de_get env + de_delete env then DmaDelete else DmaSet in
  dma_send key_id op FromWorkload now s.

(** A workload request, if the limiter lets it go. *)
Definition dma_workload (has_dispatcher : bool) (now : nat -> Z) (s : DmaConn) : option (DmaConn * DmaNext) :=
  '(s, picked) ← dma_pick s;
  match picked with
  | None => Some (s, DmaSleep (micros 100))
  | Some key_id =>
      match dm_limiter s with
      | None => dma_choose key_id (now 1%nat) s
      | Some rl =>
          let '(carried, rl, taken) := take_token (now 0%nat) (dm_carried s) rl in
          let slip := slip_ns (now 0%nat) rl in
          let s := s <| dm_carried := carried |> <| dm_limiter := Some rl |>
                     <| dm_slip := set_worker_slip_ns slip (dm_slip s) |> in
          if taken then dma_choose key_id (now 1%nat) (dm_note [Sample SCHEDULE_SLIP slip] s)
          else Some (s, if has_dispatcher then DmaWaitToken else DmaSleep (micros 100))
      end
  end.

(** One pass of the loop. *)
Definition dma_pass (phase : Phase) (prefill_done has_dispatcher : bool) (now : nat -> Z) (s : DmaConn)
    : option (DmaConn * DmaNext) :=
  let s := if dm_refused s then s <| dm_refused := false |> <| dm_pacer := refused_drop <$> dm_pacer s |> else s in
  if bool_decide (phase = Stop) then Some (s, DmaDone)
  else if bool_decide (phase = Precheck) then Some (s, DmaSleep (micros 200))
  else if bool_decide (phase = Prefill) && negb prefill_done then dma_prefill now s
  else
    match last (dm_backfill s) with
    | Some key_id => dma_send key_id DmaSet FromBackfill (now 1%nat) (s <| dm_backfill := removelast (dm_backfill s) |>)
    | None => dma_workload has_dispatcher now s
    end.

(** How a transfer ended: the deadline, or a count of bytes or an error, with
    whether a GET found its key. *)
Inductive DmaOutcome :=
| DmaTimed (r : DisconnectReason) (recorded : list metric)
| DmaEnded (bytes : option Z) (error_response : bool) (hit : option bool).

(** The queue with a prefill key returned to its front. *)
Definition dma_requeue (t : Transfer) (s : DmaConn) : option DmaConn :=
  if bool_decide (tr_source t = FromPrefill) then
    qs ← pq_push_front (dm_queues s) (de_endpoint env) (tr_key t); Some (s <| dm_queues := qs |>)
  else Some s.

(** What is recorded of an ended transfer. *)
Definition dma_recorded (t : Transfer) (bytes : option Z) (error_response : bool) (hit : option bool) (now slip : Z)
    : list metric :=
  let latency := sat_sub now (tr_start t) in
  let n := default 0 bytes in
  match tr_op t with
  | DmaSet => [Count BYTES_TX n; Sample SET_LATENCY latency]
  | DmaGet => [Count BYTES_RX n; Sample GET_LATENCY latency]
  | DmaDelete => [Sample DELETE_LATENCY latency]
  end ++
  [Sample RESPONSE_LATENCY latency; Sample PERCEIVED_LATENCY (wrap64 (latency + slip))] ++
  record_counters
    {| id := tr_key t; success := bool_decide (is_Some bytes); is_error_response := error_response;
       latency_ns := latency; ttfb_ns := None; request_type := op_request_type (tr_op t); hit := hit;
       rkey_id := Some (tr_key t); backfill := bool_decide (tr_source t = FromBackfill);
       prefill := bool_decide (tr_source t = FromPrefill); append := false; redirect := None |}.

(** The rest of the pass once the transfer [t] has ended: the connection and
    why it closes, if it does. *)
Definition dma_settle (t : Transfer) (o : DmaOutcome) (now : Z) (s : DmaConn)
    : option (DmaConn * option DisconnectReason) :=
  let s := s <| dm_inflight := (pop (dm_inflight s)).1 |> <| dm_transfer := None |> in
  match o with
  | DmaTimed r ms => s ← dma_requeue t (dm_note ms s); Some (s, Some r)
  | DmaEnded bytes error_response hit =>
      let s := dm_note (dma_recorded t bytes error_response hit now (slip (dm_slip s))) s in
      let failed := bool_decide (bytes = None) in
      let s := if de_backfill env && bool_decide (hit = Some false)
               then s <| dm_backfill := dm_backfill s ++ [tr_key t] |> else s in
      s ← (if failed then dma_requeue t s
           else Some (if bool_decide (tr_source t = FromPrefill)
                      then s <| dm_confirmed := wrap64 (dm_confirmed s + 1) |> else s));
      Some (s, if failed && negb error_response then Some RecvError else None)
  end.

(** Tokens the dispatcher granted. *)
Definition dma_granted (n : Z) (s : DmaConn) : DmaConn := s <| dm_carried := wrap64 (dm_carried s + n) |>.

(** A new connection of the same task: the generator and the backfill queue
    outlive the old one. *)
Definition dma_reconnect (timeout : Z) (s : DmaConn) : DmaConn :=
  s <| dm_inflight := new_inflight timeout |> <| dm_carried := 0 |> <| dm_refused := false |>
    <| dm_pacer := if dm_refused s then refused_drop <$> dm_pacer s else dm_pacer s |>.

End loop.

(** ** The connections of a run and what they share *)

Section sys.
Context `{Ratelimiter} `{Rng} `{Hashing}.

Record DmaSys := {
  ds_queues : PrefillQueues;
  ds_confirmed : Z;
  ds_conns : list (DmaEnv * DmaConn);
  ds_stored : list Z;
}.

(** A connection resumes with the queues and the count as they are now; the
    limiter, the pacer and the slip are shared too. *)
Record dma_resumed (S : DmaSys) (s s1 : DmaConn) : Prop := {
  dr_queues : dm_queues s1 = ds_queues S;
  dr_confirmed : dm_confirmed s1 = ds_confirmed S;
  dr_transfer : dm_transfer s1 = dm_transfer s;
  dr_inflight : dm_inflight s1 = dm_inflight s;
}.

Definition dma_writeback (S : DmaSys) (i : nat) (env : DmaEnv) (s : DmaConn) (keys : list Z) : DmaSys :=
  {| ds_queues := dm_queues s; ds_confirmed := dm_confirmed s; ds_conns := <[i := (env, s)]> (ds_conns S);
     ds_stored := keys ++ ds_stored S |}.

(** The key an ended transfer stored for prefill. *)
Definition dma_stored (t : Transfer) (o : DmaOutcome) : list Z :=
  match o with
  | DmaEnded (Some _) _ _ => if bool_decide (tr_source t = FromPrefill) then [tr_key t] else []
  | _ => []
  end.

Inductive dstep (S : DmaSys) : DmaSys -> Prop :=
| ds_pass i env s s1 phase prefill_done has_dispatcher now s' next :
    ds_conns S !! i = Some (env, s) -> dma_resumed S s s1 -> dm_transfer s = None ->
    dma_pass env phase prefill_done has_dispatcher now s1 = Some (s', next) ->
    dstep S (dma_writeback S i env s' [])
| ds_grant i env s s1 n :
    ds_conns S !! i = Some (env, s) -> dma_resumed S s s1 -> dm_transfer s = None ->
    dstep S (dma_writeback S i env (dma_granted n s1) [])
| ds_settle i env s s1 t o now s' :
    ds_conns S !! i = Some (env, s) -> dma_resumed S s s1 -> dm_transfer s = Some t ->
    dma_settle env t o now s1 = Some (s', None) ->
    dstep S (dma_writeback S i env s' (dma_stored t o))
| ds_close i env s s1 t o now s' r timeout :
    ds_conns S !! i = Some (env, s) -> dma_resumed S s s1 -> dm_transfer s = Some t ->
    dma_settle env t o now s1 = Some (s', Some r) ->
    dstep S (dma_writeback S i env (dma_reconnect timeout s') (dma_stored t o)).

(** The prefill key a connection holds. *)
Definition dma_held (s : DmaConn) : list Z :=
  match dm_transfer s with
  | Some t => if bool_decide (tr_source t = FromPrefill) then [tr_key t] else []
  | None => []
  end.

Definition dma_holding (conns : list (DmaEnv * DmaConn)) : list Z := concat (map (fun c => dma_held (snd c)) conns).

(** One transfer at a time, and it is the one the timeout watches. *)
Definition one_transfer (s : DmaConn) : Prop :=
  fired (dm_inflight s) = match dm_transfer s with Some t => [tr_start t] | None => [] end.

(** ** Lemmas *)

Lemma pop_front_perm qs e qs' k :
  pq_pop_front qs e = Some (qs', Some k) -> Permutation (k :: concat qs') (concat qs).
Proof.
  unfold pq_pop_front. destruct (qs !! Z.to_nat e) as [[|x q]|] eqn:E; cbn [mbind option_bind]; [done| |done].
  intros [= <- <-]. pose proof (concat_insert qs _ _ q E) as P.
  apply (Permutation_app_inv_r q).
  change (Permutation (x :: (concat (<[Z.to_nat e := q]> qs) ++ q)) (concat qs ++ q)).
  pose proof (concat_insert qs _ _ q E) as P'.
  apply (Permutation_app_inv_r [x]). transitivity (concat (<[Z.to_nat e := q]> qs) ++ (x :: q) ++ [x]); [solve_Permutation|].
  rewrite app_assoc, P'. solve_Permutation.
Qed.

Lemma pop_front_none qs e qs' : pq_pop_front qs e = Some (qs', None) -> qs' = qs.
Proof.
  unfold pq_pop_front. destruct (qs !! Z.to_nat e) as [[|x q]|]; cbn [mbind option_bind]; [by intros [= <-]|done..].
Qed.

Lemma push_front_perm qs e k qs' :
  pq_push_front qs e k = Some qs' -> Permutation (concat qs') (k :: concat qs).
Proof.
  unfold pq_push_front. destruct (qs !! Z.to_nat e) as [q|] eqn:E; cbn [mbind option_bind]; [|done].
  intros [= <-]. pose proof (concat_insert qs _ _ (k :: q) E) as P.
  apply (Permutation_app_inv_r q). rewrite P. solve_Permutation.
Qed.

(** A pass that changed nothing of prefill, and started no transfer. *)
Record dma_same (s s' : DmaConn) : Prop := {
  dsm_queues : dm_queues s' = dm_queues s;
  dsm_confirmed : dm_confirmed s' = dm_confirmed s;
  dsm_transfer : dm_transfer s' = dm_transfer s;
  dsm_inflight : dm_inflight s' = dm_inflight s;
}.

Lemma dma_same_refl s : dma_same s s.
Proof. done. Qed.

Lemma dma_same_trans s1 s2 s3 : dma_same s1 s2 -> dma_same s2 s3 -> dma_same s1 s3.
Proof. intros [] []. split; congruence. Qed.

Lemma dma_reject_same env n s s' k : dma_reject env n s = Some (s', k) -> dma_same s s'.
Proof.
  revert s. induction n as [|n IH]; intros s; cbn [dma_reject]; [by intros [= <- _]|].
  destruct (sample _ _) as [[r c]|]; cbn [mbind option_bind]; [|done].
  destruct (route_partition _ _ _ _) as [e|]; cbn [mbind option_bind]; [|done].
  destruct (e =? _); [by intros [= <- _]|]. intros E. eapply dma_same_trans; [|by apply IH]. done.
Qed.

Lemma dma_pick_same env s s' k : dma_pick env s = Some (s', k) -> dma_same s s'.
Proof.
  unfold dma_pick. destruct (negb _).
  - destruct (sample _ _) as [[r c]|]; cbn [mbind option_bind]; [by intros [= <- _]|done].
  - destruct (de_dist env) as [n|z|r] eqn:D; cbn [endpoint_sampler].
    + destruct (de_keys env !! _) as [[|b bs]|]; cbn [mbind option_bind]; [by intros [= <- _]| |done].
      destruct (range_draw _ _ _) as [[r i]|]; cbn [mbind option_bind]; [|done].
      destruct ((b :: bs) !! _); cbn [mbind option_bind]; [by intros [= <- _]|done].
    + destruct (by_endpoint z) as [y|]; [|apply dma_reject_same].
      destruct (endpoint_sample _ _ _) as [[r k']|]; cbn [mbind option_bind]; [by intros [= <- _]|done].
    + apply dma_reject_same.
Qed.

(** What a pass does to prefill: at most one key leaves the queues, and it is
    in the transfer the pass started. *)
Definition dma_passed (s s' : DmaConn) : Prop :=
  Permutation (dma_held s' ++ concat (dm_queues s')) (concat (dm_queues s)) /\
  dm_confirmed s' = dm_confirmed s /\ one_transfer s'.

Lemma dma_passed_same s s' : dm_transfer s = None -> one_transfer s -> dma_same s s' -> dma_passed s s'.
Proof.
  intros T O [Q C Tr I]. split; [|split; [done|]].
  - unfold dma_held. by rewrite Tr, T, Q.
  - unfold one_transfer in *. by rewrite Tr, I.
Qed.

Lemma dma_send_passed env key op source now s s' next :
  dm_transfer s = None -> one_transfer s -> dma_send env key op source now s = Some (s', next) ->
  dm_queues s' = dm_queues s /\ dm_confirmed s' = dm_confirmed s /\
  dma_held s' = (if bool_decide (source = FromPrefill) then [key] else []) /\ one_transfer s'.
Proof.
  unfold dma_send, one_transfer. intros T O. rewrite T in O. set (s1 := dm_note _ s).
  assert (F : fired (push now (dm_inflight s1)) = [now]).
  { unfold push, push_queued. unfold s1. destruct (track_queued _); cbn; by rewrite O. }
  destruct (bool_decide (op = DmaSet)).
  - destruct (range_draw _ _ _) as [[r a]|]; cbn [mbind option_bind]; [|done].
    destruct (_ <=? _); [|done]. intros [= <- _]. repeat (split; [done|]). exact F.
  - intros [= <- _]. repeat (split; [done|]). exact F.
Qed.

Lemma dma_choose_passed env key now s s' next :
  dm_transfer s = None -> one_transfer s -> dma_choose env key now s = Some (s', next) -> dma_passed s s'.
Proof.
  unfold dma_choose. intros T O. destruct (range_draw _ _ _) as [[r roll]|]; cbn [mbind option_bind]; [|done].
  intros E. apply dma_send_passed in E as (Q & C & Hd & O'); [|done..].
  split; [by rewrite Hd, Q|]. split; [exact C|exact O'].
Qed.

Lemma dma_passed_trans s1 s2 s3 : dma_same s1 s2 -> dma_passed s2 s3 -> dma_passed s1 s3.
Proof. intros [Q C T I] (P & C' & O). split; [by rewrite P, Q|]. split; [congruence|exact O]. Qed.

Lemma one_transfer_same s s' : dma_same s s' -> one_transfer s -> one_transfer s'.
Proof. unfold one_transfer. by intros [_ _ -> ->]. Qed.

Lemma dma_workload_passed env hd now s s' next :
  dm_transfer s = None -> one_transfer s -> dma_workload env hd now s = Some (s', next) -> dma_passed s s'.
Proof.
  unfold dma_workload. intros T O.
  destruct (dma_pick env s) as [[s1 [key|]]|] eqn:P; cbn [mbind option_bind]; [| |done];
    pose proof (dma_pick_same _ _ _ _ P) as Sm.
  2: { intros [= <- _]. by apply dma_passed_same. }
  assert (T1 : dm_transfer s1 = None) by (by rewrite (dsm_transfer _ _ Sm)).
  pose proof (one_transfer_same _ _ Sm O) as O1.
  destruct (dm_limiter s1) as [rl|].
  - destruct (take_token _ _ _) as [[carried rl'] []].
    + intros E. eapply dma_passed_trans; [exact Sm|]. eapply dma_passed_trans; [|by eapply dma_choose_passed in E]. done.
    + intros [= <- _]. apply dma_passed_same; [done..|]. eapply dma_same_trans; [exact Sm|done].
  - intros E. eapply dma_passed_trans; [exact Sm|]. by eapply dma_choose_passed in E.
Qed.

Lemma dma_prefill_passed env now s s' next :
  dm_transfer s = None -> one_transfer s -> dma_prefill env now s = Some (s', next) -> dma_passed s s'.
Proof.
  unfold dma_prefill. intros T O.
  destruct (pq_pop_front _ _) as [[qs [key|]]|] eqn:P; cbn [mbind option_bind]; [| |done].
  2: { intros [= <- _]. by apply dma_passed_same. }
  apply pop_front_perm in P. destruct (match dm_pacer _ with Some _ => _ | None => _ end) as [p [u|sleep]].
  - intros E. apply dma_send_passed in E as (Q & C & Hd & O'); [|done..]. rewrite bool_decide_eq_true_2 in Hd by done.
    split; [|split; [exact C|exact O']]. rewrite Hd, Q. exact P.
  - cbn [mbind option_bind]. destruct (pq_push_front _ _ _) as [qs'|] eqn:E; cbn [mbind option_bind]; [|done].
    apply push_front_perm in E. intros [= <- _]. split; [|split; [done|exact O]].
    unfold dma_held. cbn in E |- *. rewrite T. cbn. by rewrite E.
Qed.

Lemma dma_pass_passed env phase pd hd now s s' next :
  dm_transfer s = None -> one_transfer s -> dma_pass env phase pd hd now s = Some (s', next) -> dma_passed s s'.
Proof.
  unfold dma_pass. intros T O. set (s1 := if dm_refused s then _ else s).
  assert (Sm : dma_same s s1) by (unfold s1; destruct (dm_refused s); done).
  assert (T1 : dm_transfer s1 = None) by (by rewrite (dsm_transfer _ _ Sm)).
  pose proof (one_transfer_same _ _ Sm O) as O1.
  destruct (bool_decide (phase = Stop)); [intros [= <- _]; by apply dma_passed_same|].
  destruct (bool_decide (phase = Precheck)); [intros [= <- _]; by apply dma_passed_same|].
  intros E. eapply dma_passed_trans; [exact Sm|]. revert E.
  destruct (_ && _); [by apply dma_prefill_passed|].
  destruct (last (dm_backfill s1)) as [key|]; [|by apply dma_workload_passed].
  intros E. apply dma_send_passed in E as (Q & C & Hd & O'); [|done..]. rewrite bool_decide_eq_false_2 in Hd by done.
  split; [by rewrite Hd, Q|]. split; [exact C|exact O'].
Qed.

Lemma dma_requeue_spec env t s s' :
  dma_requeue env t s = Some s' ->
  Permutation (concat (dm_queues s')) ((if bool_decide (tr_source t = FromPrefill) then [tr_key t] else []) ++ concat (dm_queues s))
  /\ dm_confirmed s' = dm_confirmed s /\ dm_transfer s' = dm_transfer s /\ dm_inflight s' = dm_inflight s.
Proof.
  unfold dma_requeue. destruct (bool_decide _).
  - destruct (pq_push_front _ _ _) as [qs|] eqn:E; cbn [mbind option_bind]; [|done].
    apply push_front_perm in E. intros [= <-]. split; [exact E|done].
  - by intros [= <-].
Qed.

(** What the end of a transfer does: a prefill key is stored and counted, or
    back in the queue. *)
Lemma dma_settle_spec env t o now s s' r :
  is_u64 (dm_confirmed s) -> dm_transfer s = Some t -> one_transfer s -> dma_settle env t o now s = Some (s', r) ->
  Permutation (dma_stored t o ++ concat (dm_queues s')) (dma_held s ++ concat (dm_queues s)) /\
  dm_confirmed s' = wrap64 (dm_confirmed s + Z.of_nat (length (dma_stored t o))) /\
  dm_transfer s' = None /\ one_transfer s'.
Proof.
  intros U T O. unfold dma_settle. set (s1 := _ <| dm_transfer := None |>).
  assert (Q1 : dm_queues s1 = dm_queues s) by done. assert (C1 : dm_confirmed s1 = dm_confirmed s) by done.
  assert (T1 : dm_transfer s1 = None) by done.
  assert (I1 : fired (dm_inflight s1) = []).
  { unfold s1. cbn. unfold one_transfer in O. by rewrite O, T. }
  unfold dma_held. rewrite T. unfold one_transfer. clearbody s1. destruct o as [r0 ms|bytes er hit].
  - destruct (dma_requeue _ _ _) as [s2|] eqn:E; cbn [mbind option_bind]; [|done]. intros [= <- _].
    apply dma_requeue_spec in E as (P & C & T2 & I2). cbn in P, C, T2, I2.
    split; [by rewrite P, Q1|]. split; [|by rewrite T2, I2, T1, I1].
    rewrite C, C1. cbn. by rewrite Z.add_0_r, wrap64_small.
  - set (s2 := dm_note _ s1). set (s3 := if de_backfill env && _ then _ else s2).
    assert (K : dm_queues s3 = dm_queues s /\ dm_confirmed s3 = dm_confirmed s /\ dm_transfer s3 = None
                /\ fired (dm_inflight s3) = []).
    { unfold s3. destruct (_ && _); cbn; by rewrite Q1, C1, T1, I1. }
    clearbody s3. destruct K as (Q3 & C3 & T3 & I3). destruct bytes as [n|].
    + rewrite bool_decide_eq_false_2 by done. cbn [mbind option_bind andb]. intros [= <- _]. cbn [dma_stored].
      destruct (bool_decide (tr_source t = FromPrefill)); cbn.
      * rewrite Q3, C3, T3, I3. done.
      * rewrite Q3, C3, T3, I3, Z.add_0_r, wrap64_small by exact U. done.
    + rewrite bool_decide_eq_true_2 by done. destruct (dma_requeue _ _ _) as [s4|] eqn:E; cbn [mbind option_bind]; [|done].
      intros [= <- _]. apply dma_requeue_spec in E as (P & C & T2 & I2).
      split; [by rewrite P, Q3|]. split; [|by rewrite T2, I2, T3, I3].
      rewrite C, C3. cbn. by rewrite Z.add_0_r, wrap64_small.
Qed.

(** ** The invariant *)

Record dinv (keys : list Z) (S : DmaSys) : Prop := {
  di_keys : Permutation (concat (ds_queues S) ++ dma_holding (ds_conns S) ++ ds_stored S) keys;
  di_confirmed : ds_confirmed S = wrap64 (Z.of_nat (length (ds_stored S)));
  di_one : Forall (fun c => one_transfer (snd c)) (ds_conns S);
}.

Lemma dma_holding_insert conns i c c' :
  conns !! i = Some c ->
  Permutation (dma_held (snd c) ++ dma_holding (<[i := c']> conns)) (dma_held (snd c') ++ dma_holding conns).
Proof.
  intros E. unfold dma_holding. rewrite list_fmap_insert.
  pose proof (concat_insert (map (fun c => dma_held (snd c)) conns) i (dma_held (snd c)) (dma_held (snd c'))) as P.
  rewrite list_lookup_fmap, E in P. specialize (P eq_refl). rewrite <- P. solve_Permutation.
Qed.

Lemma dma_writeback_inv keys S i env s s1 s' ks :
  dinv keys S -> ds_conns S !! i = Some (env, s) -> dma_resumed S s s1 ->
  Permutation (ks ++ dma_held s' ++ concat (dm_queues s')) (dma_held s1 ++ concat (dm_queues s1)) ->
  dm_confirmed s' = wrap64 (dm_confirmed s1 + Z.of_nat (length ks)) -> one_transfer s' ->
  dinv keys (dma_writeback S i env s' ks).
Proof.
  intros [K C O] E R P Cs Os. unfold dma_writeback. split; cbn.
  - rewrite <- K. pose proof (dma_holding_insert _ _ _ (env, s') E) as Q. cbn in Q.
    assert (Hs : dma_held s1 = dma_held s) by (unfold dma_held; by rewrite (dr_transfer _ _ _ R)).
    rewrite Hs, (dr_queues _ _ _ R) in P.
    apply (Permutation_app_inv_l (dma_held s)).
    transitivity ((dma_held s ++ dma_holding (<[i:=(env, s')]> (ds_conns S))) ++ concat (dm_queues s') ++ ks ++ ds_stored S);
      [solve_Permutation|]. rewrite Q.
    transitivity ((ks ++ dma_held s' ++ concat (dm_queues s')) ++ dma_holding (ds_conns S) ++ ds_stored S);
      [solve_Permutation|]. rewrite P. solve_Permutation.
  - rewrite Cs, (dr_confirmed _ _ _ R), C, wrap64_add_l, length_app. f_equal. lia.
  - by apply Forall_insert.
Qed.

Lemma dinv_step keys S S' : dstep S S' -> dinv keys S -> dinv keys S'.
Proof.
  intros St I. pose proof (di_confirmed _ _ I) as Cf.
  assert (U : forall s s1, dma_resumed S s s1 -> is_u64 (dm_confirmed s1)).
  { intros s s1 R. rewrite (dr_confirmed _ _ _ R), Cf. apply wrap64_range. }
  assert (One : forall i env s s1, ds_conns S !! i = Some (env, s) -> dma_resumed S s s1 -> one_transfer s1).
  { intros i env s s1 E R. pose proof (Forall_lookup_1 _ _ _ _ (di_one _ _ I) E) as O. cbn in O.
    unfold one_transfer in *. by rewrite (dr_transfer _ _ _ R), (dr_inflight _ _ _ R). }
  destruct St as [i env s s1 ph pd hd now s' next E R T P|i env s s1 n E R T|i env s s1 t o now s' E R T P
                 |i env s s1 t o now s' r timeout E R T P];
    pose proof (One _ _ _ _ E R) as O; pose proof (U _ _ R) as Us; rewrite <- (dr_transfer _ _ _ R) in T.
  - destruct (dma_pass_passed _ _ _ _ _ _ _ _ T O P) as (Q & C & O').
    eapply dma_writeback_inv; [exact I|exact E|exact R| |by rewrite C, Z.add_0_r, wrap64_small|exact O'].
    cbn [app]. rewrite Q. unfold dma_held. by rewrite T.
  - eapply dma_writeback_inv; [exact I|exact E|exact R|done| |exact O]. cbn. by rewrite Z.add_0_r, wrap64_small.
  - destruct (dma_settle_spec _ _ _ _ _ _ _ Us T O P) as (Q & C & T' & O').
    eapply dma_writeback_inv; [exact I|exact E|exact R| |exact C|exact O'].
    unfold dma_held at 1. rewrite T'. exact Q.
  - destruct (dma_settle_spec _ _ _ _ _ _ _ Us T O P) as (Q & C & T' & O').
    eapply dma_writeback_inv; [exact I|exact E|exact R| |exact C|].
    + unfold dma_held at 1. cbn. rewrite T'. exact Q.
    + unfold one_transfer in *. cbn. by rewrite T'.
Qed.

End sys.

(** C29: DMA prefill loses no key.  However the connections of a run interleave,
    whatever their transfers answer and whenever they close, every key of the
    keyspace is in exactly one place: a queue, the one transfer of a
    connection, or the acknowledged writes; and the confirmed count is the
    number of keys acknowledged. *)
Theorem dma_prefill_conserved `{Ratelimiter} `{Rng} `{Hashing} keys qs conns S :
  Permutation (concat qs) keys -> Z.of_nat (length keys) <= u64_max ->
  Forall (fun c => dm_transfer (snd c) = None /\ fired (dm_inflight (snd c)) = []) conns ->
  rtc dstep {| ds_queues := qs; ds_confirmed := 0; ds_conns := conns; ds_stored := [] |} S ->
  Permutation (concat (ds_queues S) ++ dma_holding (ds_conns S) ++ ds_stored S) keys /\
  ds_confirmed S = Z.of_nat (length (ds_stored S)) /\
  (Z.of_nat (length keys) <= ds_confirmed S -> Permutation (ds_stored S) keys) /\
  Forall (fun c => one_transfer (snd c)) (ds_conns S).
Proof.
  intros P L F R.
  assert (I : dinv keys {| ds_queues := qs; ds_confirmed := 0; ds_conns := conns; ds_stored := [] |}).
  { assert (E : dma_holding conns = []).
    { unfold dma_holding. clear -F. induction F as [|c l [T _] F IH]; cbn; [done|].
      rewrite IH. unfold dma_held. by rewrite T. }
    split; cbn [ds_queues ds_confirmed ds_conns ds_stored]; [by rewrite E, !app_nil_r|done|].
    - eapply Forall_impl; [exact F|]. intros c [T Fi]. unfold one_transfer. by rewrite T, Fi. }
  assert (I' : dinv keys S).
  { clear -I R. remember {| ds_queues := qs; ds_confirmed := 0; ds_conns := conns; ds_stored := [] |} as S0.
    clear HeqS0. induction R as [|S1 S2 S3 St _ IH]; [done|]. apply IH. by eapply dinv_step. }
  destruct I' as [K C O]. pose proof (Permutation_length K) as Lk. rewrite !length_app in Lk.
  assert (C' : ds_confirmed S = Z.of_nat (length (ds_stored S))) by (rewrite C; apply wrap64_small; lia).
  split; [exact K|]. split; [exact C'|]. split; [|exact O]. intros D.
  rewrite <- K. assert (concat (ds_queues S) = []) as -> by (apply length_zero_iff_nil; lia).
  assert (dma_holding (ds_conns S) = []) as -> by (apply length_zero_iff_nil; lia). done.
Qed.

(** *** One connection, two keys: the first is sent and stored *)

Definition example_dma_env : @DmaEnv example_hashing :=
  @Build_DmaEnv example_hashing Hex 8 ["a"%string] None 1 0 0 0 4 16 false (KUniform 2) [[0; 1]].

Definition example_dma_conn : @DmaConn simple_ratelimiter counting_rng :=
  @Build_DmaConn simple_ratelimiter counting_rng (0 : Z) [[0; 1]] None false None new_slip (new_inflight 1000)
    [] 0 0 None [].

Definition example_dma_start : @DmaSys simple_ratelimiter counting_rng example_hashing :=
  @Build_DmaSys simple_ratelimiter counting_rng example_hashing [[0; 1]] 0 [(example_dma_env, example_dma_conn)] [].

Definition example_dma_sent : @DmaConn simple_ratelimiter counting_rng :=
  match @dma_pass simple_ratelimiter counting_rng example_hashing example_dma_env Prefill false false (fun _ => 5)
          example_dma_conn with
  | Some (s, _) => s
  | None => example_dma_conn
  end.

Definition example_dma_settled : @DmaConn simple_ratelimiter counting_rng :=
  match @dma_settle simple_ratelimiter counting_rng example_hashing example_dma_env
          {| tr_key := 0; tr_op := DmaSet; tr_source := FromPrefill; tr_start := 5 |} (DmaEnded (Some 4) false None) 9
          example_dma_sent with
  | Some (s, _) => s
  | None => example_dma_conn
  end.

Abbreviation example_dma_after := (@dma_writeback simple_ratelimiter counting_rng example_hashing
  (@dma_writeback simple_ratelimiter counting_rng example_hashing example_dma_start 0 example_dma_env
     example_dma_sent []) 0 example_dma_env example_dma_settled [0]).

Lemma example_dma_run : rtc (@dstep simple_ratelimiter counting_rng example_hashing) example_dma_start example_dma_after.
Proof.
  eapply rtc_l; [|eapply rtc_once].
  - refine (@ds_pass simple_ratelimiter counting_rng example_hashing example_dma_start 0 example_dma_env
      example_dma_conn example_dma_conn Prefill false false (fun _ => 5) example_dma_sent
      (DmaSend (dm_key example_dma_env 0) (Some 0)) _ _ _ _); [done|by split|done|reflexivity].
  - refine (@ds_settle simple_ratelimiter counting_rng example_hashing _ 0 example_dma_env
      example_dma_sent example_dma_sent {| tr_key := 0; tr_op := DmaSet; tr_source := FromPrefill; tr_start := 5 |}
      (DmaEnded (Some 4) false None) 9 example_dma_settled _ _ _ _); [done|by split|done|reflexivity].
Qed.

Lemma dma_prefill_conserved_witness : Permutation [1; 0] [0; 1] /\ ds_confirmed example_dma_after = 1.
Proof.
  destruct (@dma_prefill_conserved simple_ratelimiter counting_rng example_hashing [0; 1] [[0; 1]]
    [(example_dma_env, example_dma_conn)] example_dma_after) as (P & C & _).
  - done.
  - vm_compute. congruence.
  - by apply Forall_singleton.
  - exact example_dma_run.
  - split; [exact P|exact C].
Defined.
