(* ===== verification/Fabric.v ===== *)
(** Fabric: the libfabric side of [protocol = "dma"] ([src/src/dma/fabric/]):
    the endpoint and what it opens and closes, registrations and their
    buffers, the start and end of the poller (whose loop is Progress's), and a worker's fabric
    ([src/src/dma/connection.rs], [open_fabric]).

    libfabric is third-party: what each of its calls answers is an argument,
    and the objects it opens are names.  A log holds the calls that open, use
    or close one.  A text is its bytes. *)

From S2P Require Import Prelude F64 Text Config Dma.
Open Scope Z_scope.

(** ** Configuration *)

Inductive Provider := Tcp_ | EfaDirect_.

#[export] Instance Provider_eq_dec : EqDecision Provider.
Proof. solve_decision. Defined.

(** [Provider::as_str], [fabric_name], [requires_context2], [needs_manual_progress]. *)
Definition provider_name (p : Provider) : list Z := bytes_of match p with Tcp_ => "tcp" | EfaDirect_ => "efa" end.

Definition fabric_name (p : Provider) : option (list Z) :=
  match p with EfaDirect_ => Some (bytes_of "efa-direct") | Tcp_ => None end.

Definition requires_context2 (p : Provider) : bool := bool_decide (p = EfaDirect_).

Definition needs_manual_progress (p : Provider) : bool := negb (bool_decide (p = EfaDirect_)).

Record FabricConfig := { fc_provider : Provider; fc_interface : option (list Z); fc_bind : option (list Z); fc_hmem : bool }.

Definition FabricConfig_new (p : Provider) : FabricConfig :=
  {| fc_provider := p; fc_interface := None; fc_bind := None; fc_hmem := false |}.

Definition with_interface (c : FabricConfig) (i : list Z) : FabricConfig :=
  {| fc_provider := fc_provider c; fc_interface := Some i; fc_bind := fc_bind c; fc_hmem := fc_hmem c |}.

(** ** libfabric's objects and calls *)

(** The hints, the list [fi_getinfo] allocates, the entry copied out of it, the
    opened objects, the registered regions, and the polling thread. *)
Inductive Obj := OHints | OList | OInfo | OFabric | ODomain | OAv | OCq | OEp | ORegion (n : Z) | OPoller.

#[export] Instance Obj_eq_dec : EqDecision Obj.
Proof. solve_decision. Defined.

(** What must be open as long as an object is. *)
Definition parents (o : Obj) : list Obj :=
  match o with
  | OHints | OList | OInfo => []
  | OFabric => [OInfo]
  | ODomain => [OFabric; OInfo]
  | OAv | OCq | ORegion _ => [ODomain]
  | OEp => [ODomain; OInfo; OAv; OCq]
  | OPoller => [OCq]
  end.

Inductive Access := RemoteRead | RemoteWrite | Read_ | Write_.

Inductive Call :=
| Opened (o : Obj)
| Closed (o : Obj)
| Uses (os : list Obj)
| Registers (key : Z) (access : list Access).

(** An entry of [fi_getinfo]'s list. *)
Record InfoEntry := { ie_name : option (list Z); ie_virt_addr : bool; ie_prov_key : bool }.

(** What [query_info] asks for. *)
Inductive Flag :=
| MSG | RMA | READ | WRITE | REMOTE_READ | REMOTE_WRITE | HMEM
| MR_LOCAL | MR_ALLOCATED | MR_PROV_KEY | MR_VIRT_ADDR | MR_HMEM | CONTEXT2.

Record Hints := { h_caps : list Flag; h_mr_mode : list Flag; h_mode : list Flag; h_prov : list Z; h_name : option (list Z) }.

(** The answers to the calls of one [open].  A failed call leaves its handle
    null. *)
Record Libfabric := {
  la_hints : bool;
  la_getinfo : Hints -> option (list Z) -> Z * list InfoEntry;
  la_dup : bool;
  la_fabric : Z; la_domain : Z; la_av : Z; la_cq : Z; la_endpoint : Z;
  la_bind_av : Z; la_bind_cq : Z; la_enable : Z;
  la_name_len : Z;
  la_getname : Z -> Z * list Z * Z;
}.

(** ** The endpoint *)

Inductive RKeySource := ProviderSelected | ApplicationSelected (next_remote_key : Z).

(** [RKeySource::take]. *)
Definition take_key (k : RKeySource) : RKeySource * Z :=
  match k with
  | ProviderSelected => (ProviderSelected, 0)
  | ApplicationSelected n => (ApplicationSelected (wrap64 (n + 1)), n)
  end.

(** The handles of [LibfabricEndpoint], [true] when not null. *)
Record Endpoint := {
  e_endpoint : bool; e_cq : bool; e_av : bool; e_domain : bool; e_fabric : bool; e_info : bool;
  e_virtual : bool;
  e_keys : RKeySource;
}.

#[export] Instance eta_Endpoint : Settable Endpoint := fun x =>
  {| e_endpoint := e_endpoint x; e_cq := e_cq x; e_av := e_av x; e_domain := e_domain x; e_fabric := e_fabric x;
     e_info := e_info x; e_virtual := e_virtual x; e_keys := e_keys x |}.

Definition null_endpoint : Endpoint :=
  {| e_endpoint := false; e_cq := false; e_av := false; e_domain := false; e_fabric := false; e_info := false;
     e_virtual := false; e_keys := ProviderSelected |}.

(** [Drop for LibfabricEndpoint]. *)
Definition endpoint_drop (e : Endpoint) : list Call :=
  let close (b : bool) (o : Obj) := if b then [Closed o] else [] in
  close (e_endpoint e) OEp ++ close (e_cq e) OCq ++ close (e_av e) OAv ++ close (e_domain e) ODomain ++
  close (e_fabric e) OFabric ++ close (e_info e) OInfo.

(** The code of [open] runs on the calls so far and the endpoint being built;
    an error leaves both where they are. *)
Definition M (A : Type) : Type := list Call * Endpoint -> list Call * Endpoint * result DmaError A.

#[export] Instance M_bind : MBind M := fun A B f m s => let (s, r) := m s in match r with Ok a => f a s | Err x => (s, Err x) end.

#[export] Instance M_ret : MRet M := fun A a s => (s, Ok a).

Definition emit (l : list Call) : M unit := fun s => (s.1 ++ l, s.2, Ok ()).

Definition modify (f : Endpoint -> Endpoint) : M unit := fun s => (s.1, f s.2, Ok ()).

Definition fail {A} (x : DmaError) : M A := fun s => (s, Err x).

(** [check] of a call that opens or uses objects. *)
Definition checked (code : Z) (l : list Call) (f : Endpoint -> Endpoint) : M unit :=
  if code =? 0 then _ ← emit l; modify f else fail Fabric.

(** [query_info]: its errors before the first call, then the list. *)
Definition query_info (c : FabricConfig) (lib : Libfabric) : M (list InfoEntry) :=
  if match fc_bind c with Some node => bool_decide (0 ∈ node) | None => false end then fail Configuration
  else if negb (la_hints lib) then fail Fabric
  else
    let h := {| h_caps := [MSG; RMA; READ; WRITE; REMOTE_READ; REMOTE_WRITE] ++ (if fc_hmem c then [HMEM] else []);
                h_mr_mode := [MR_LOCAL; MR_ALLOCATED; MR_PROV_KEY; MR_VIRT_ADDR] ++ (if fc_hmem c then [MR_HMEM] else []);
                h_mode := if requires_context2 (fc_provider c) then [CONTEXT2] else [];
                h_prov := provider_name (fc_provider c); h_name := fabric_name (fc_provider c) |} in
    let (code, infos) := la_getinfo lib h (fc_bind c) in
    _ ← emit [Opened OHints; Uses [OHints]; Closed OHints];
    if code =? 0 then
      match infos with
      | [] => fail Fabric
      | _ => _ ← emit [Opened OList]; mret infos
      end
    else fail Fabric.

(** [CStr::to_str] of a name that may be null. *)
Definition name_str (e : InfoEntry) : option (list Z) :=
  match ie_name e with Some n => if from_utf8 n then Some n else None | None => None end.

(** [select_domain]. *)
Fixpoint select_domain (infos : list InfoEntry) (want : list Z) : option InfoEntry :=
  match infos with
  | [] => None
  | e :: infos => if bool_decide (name_str e = Some want) then Some e else select_domain infos want
  end.

(** The body of [LibfabricEndpoint::open]. *)
Definition open_body (c : FabricConfig) (lib : Libfabric) : M unit :=
  infos ← query_info c lib;
  match match fc_interface c with Some name => select_domain infos name | None => head infos end with
  | None => _ ← emit [Closed OList]; fail Configuration
  | Some chosen =>
      if la_dup lib then
        _ ← emit [Uses [OList]; Opened OInfo; Closed OList];
        _ ← modify (fun e => e <| e_info := true |> <| e_virtual := ie_virt_addr chosen |>
                               <| e_keys := if ie_prov_key chosen then ProviderSelected else ApplicationSelected 1 |>);
        _ ← checked (la_fabric lib) [Opened OFabric] (fun e => e <| e_fabric := true |>);
        _ ← checked (la_domain lib) [Opened ODomain] (fun e => e <| e_domain := true |>);
        _ ← checked (la_av lib) [Opened OAv] (fun e => e <| e_av := true |>);
        _ ← checked (la_cq lib) [Opened OCq] (fun e => e <| e_cq := true |>);
        _ ← checked (la_endpoint lib) [Opened OEp] (fun e => e <| e_endpoint := true |>);
        _ ← checked (la_bind_av lib) [Uses [OEp; OAv]] id;
        _ ← checked (la_bind_cq lib) [Uses [OEp; OCq]] id;
        checked (la_enable lib) [Uses [OEp]] id
      else _ ← emit [Uses [OList]; Closed OList]; fail Fabric
  end.

(** [LibfabricEndpoint::open]: on an error the endpoint built so far is
    dropped. *)
Definition endpoint_open (c : FabricConfig) (lib : Libfabric) : list Call * result DmaError Endpoint :=
  let '((log, e), r) := open_body c lib ([], null_endpoint) in
  match r with Ok _ => (log, Ok e) | Err x => (log ++ endpoint_drop e, Err x) end.

(** [local_address]. *)
Definition local_address (lib : Libfabric) : result DmaError (list Z) :=
  if la_name_len lib =? 0 then Err Fabric
  else
    let '(code, address, n) := la_getname lib (la_name_len lib) in
    if code =? 0 then Ok (take (Z.to_nat n) address) else Err Fabric.

(** [discover_domains]: the calls and the names. *)
Fixpoint domain_names (infos : list InfoEntry) (names : list (list Z)) : list (list Z) :=
  match infos with
  | [] => names
  | e :: infos =>
      match name_str e with
      | None => domain_names infos names
      | Some n => domain_names infos (if bool_decide (n ∈ names) then names else names ++ [n])
      end
  end.

Definition discover_domains (c : FabricConfig) (lib : Libfabric) : list Call * result DmaError (list (list Z)) :=
  let '((log, _), r) := (infos ← query_info c lib; _ ← emit [Uses [OList]; Closed OList]; mret infos) ([], null_endpoint) in
  (log, infos ← r; Ok (domain_names infos [])).

(** ** Registered buffers *)

Inductive Backing := Owned | Shared | Device.

Record DmaBuffer := { b_region : Z; b_advertisement : Advertisement; b_length : Z; b_backing : Backing }.

Record RegionWindow := { rw_advertisement : Advertisement; rw_length : Z }.

(** [DmaBuffer::slice]. *)
Definition slice (b : DmaBuffer) (at_ length : Z) : option RegionWindow :=
  if u64_max <? at_ + length then None
  else if b_length b <? at_ + length then None
  else
    let a := b_advertisement b in
    if u64_max <? adv_remote_address a + at_ then None
    else Some {| rw_advertisement := {| adv_address := adv_address a; adv_remote_key := adv_remote_key a;
                                        adv_remote_address := adv_remote_address a + at_ |};
                 rw_length := length |}.

(** [as_host_mut] of a buffer whose memory holds [mem], and [copy_from]: the
    memory after it and the bytes staged. *)
Definition as_host (b : DmaBuffer) (mem : list Z) : option (list Z) :=
  match b_backing b with Owned => Some mem | Shared | Device => None end.

Definition copy_from (b : DmaBuffer) (mem value : list Z) : option (list Z * Z) :=
  mem ← as_host b mem;
  if (length value <=? length mem)%nat then Some (value ++ drop (length value) mem, Z.of_nat (length value)) else None.

(** ** The fabric and its clones

    [f_handles] are the clones of [DmaFabric] no buffer holds; a buffer holds
    two, its own and its registration's.  [f_log] is every call since [open]
    began. *)
Record Fab := {
  f_handles : nat;
  f_buffers : list DmaBuffer;
  f_next : Z;
  f_keys : RKeySource;
  f_progress : bool;
  f_address : list Z;
  f_virtual : bool;
  f_endpoint : Endpoint;
  f_log : list Call;
}.

#[export] Instance eta_Fab : Settable Fab := fun x =>
  {| f_handles := f_handles x; f_buffers := f_buffers x; f_next := f_next x; f_keys := f_keys x;
     f_progress := f_progress x; f_address := f_address x; f_virtual := f_virtual x; f_endpoint := f_endpoint x;
     f_log := f_log x |}.

(** The strong count of [inner]. *)
Definition strong (f : Fab) : nat := (f_handles f + 2 * length (f_buffers f))%nat.

(** [DmaFabric::open]. *)
Definition fabric_open (c : FabricConfig) (lib : Libfabric) : list Call * result DmaError Fab :=
  let (log, r) := endpoint_open c lib in
  match r with
  | Err x => (log, Err x)
  | Ok e =>
      let log := log ++ [Uses [OEp]] in
      match local_address lib with
      | Err x => (log ++ endpoint_drop e, Err x)
      | Ok a =>
          let progress := needs_manual_progress (fc_provider c) in
          let log := log ++ if progress then [Opened OPoller] else [] in
          (log, Ok {| f_handles := 1; f_buffers := []; f_next := 0; f_keys := e_keys e; f_progress := progress;
                      f_address := a; f_virtual := e_virtual e; f_endpoint := e; f_log := log |})
      end
  end.

(** [FabricInner] is dropped with its last clone: the polling thread first. *)
Definition release (f : Fab) : Fab :=
  if (strong f =? 0)%nat
  then f <| f_log := f_log f ++ (if f_progress f then [Closed OPoller] else []) ++ endpoint_drop (f_endpoint f) |>
  else f.

Definition fabric_clone (f : Fab) : Fab := f <| f_handles := S (f_handles f) |>.

Definition fabric_drop (f : Fab) : Fab := release (f <| f_handles := pred (f_handles f) |>).

(** [advertisement]. *)
Definition advertisement (f : Fab) (remote_address key : Z) : Advertisement :=
  {| adv_address := f_address f; adv_remote_key := key; adv_remote_address := if f_virtual f then remote_address else 0 |}.

(** What the registering methods share; [code] is the call's result and [key]
    what [fi_mr_key] reads. *)
Definition register_region (backing : Backing) (access : list Access) (f : Fab) (pointer length code key : Z)
    : Fab * result DmaError DmaBuffer :=
  if length =? 0 then (f, Err Configuration)
  else
    let (keys, requested) := take_key (f_keys f) in
    let f := f <| f_keys := keys |> <| f_log := f_log f ++ [Registers requested access] |> in
    if code =? 0 then
      let b := {| b_region := f_next f; b_advertisement := advertisement f pointer key; b_length := length;
                  b_backing := backing |} in
      (f <| f_buffers := b :: f_buffers f |> <| f_next := f_next f + 1 |> <| f_log := f_log f ++ [Opened (ORegion (f_next f))] |>,
       Ok b)
    else (f, Err Fabric).

(** [register], [register_shared] and [register_dmabuf]. *)
Definition register : Fab -> Z -> Z -> Z -> Z -> Fab * result DmaError DmaBuffer :=
  register_region Owned [RemoteRead; RemoteWrite; Read_; Write_].

Definition register_shared : Fab -> Z -> Z -> Z -> Z -> Fab * result DmaError DmaBuffer :=
  register_region Shared [RemoteRead; Read_].

Definition register_dmabuf : Fab -> Z -> Z -> Z -> Z -> Fab * result DmaError DmaBuffer :=
  register_region Device [RemoteRead; RemoteWrite; Read_; Write_].

(** A [DmaBuffer] is dropped: [Drop for Registration], then both clones. *)
Definition buffer_drop (f : Fab) (region : Z) : Fab :=
  release (f <| f_buffers := base.filter (fun b => b_region b <> region) (f_buffers f) |>
             <| f_log := f_log f ++ [Closed (ORegion region)] |>).

(** [insert_peer]; [inserted] is what the call returns. *)
Definition insert_peer (f : Fab) (inserted : Z) : Fab * result DmaError unit :=
  (f <| f_log := f_log f ++ [Uses [OAv]] |>, if inserted =? 1 then Ok () else Err Fabric).

(** [DmaClient::connect], which owns one clone and drops it on an error:
    [reply] is the hello's, [None] when the client fails. *)
Fixpoint insert_peers (f : Fab) (addresses : list (list Z)) (inserted : list Z -> Z) : Fab * result DmaError unit :=
  match addresses with
  | [] => (f, Ok ())
  | a :: addresses =>
      let (f, r) := insert_peer f (inserted a) in
      match r with Ok _ => insert_peers f addresses inserted | Err x => (f, Err x) end
  end.

Definition dma_connect (f : Fab) (capacity : Z) (reply : option Value) (inserted : list Z -> Z) (pointer code key : Z)
    : Fab * option DmaBuffer :=
  match reply with
  | None => (fabric_drop f, None)
  | Some v =>
      match hello_reply v with
      | Err _ => (fabric_drop f, None)
      | Ok addresses =>
          let (f, r) := insert_peers f addresses inserted in
          match r with
          | Err _ => (fabric_drop f, None)
          | Ok _ =>
              let (f, r) := register f pointer capacity code key in
              match r with Err _ => (fabric_drop f, None) | Ok b => (f, Some b) end
          end
      end
  end.

(** [open_fabric]: the interface, and the fabric with the registered value
    pool or [false]. *)
Definition choose_interface (interfaces : list (list Z)) (worker_id : Z) : option (list Z) :=
  interfaces !! Z.to_nat (worker_id mod Z.of_nat (length interfaces)).

Definition dma_provider (p : DmaProvider) : Provider := match p with EfaDirect => EfaDirect_ | Tcp => Tcp_ end.

Definition open_fabric (worker_id : Z) (c : Dma.t) (pool_length : Z) (discovery lib : Libfabric) (pointer code key : Z)
    : list Call * option (Fab * DmaBuffer) :=
  let provider := dma_provider (Dma.provider c) in
  let (log0, interfaces) :=
    match Dma.interfaces c with
    | [] => discover_domains (FabricConfig_new provider) discovery
    | l => ([], Ok (map bytes_of l))
    end in
  match interfaces with
  | Err _ => (log0, None)
  | Ok interfaces =>
      match choose_interface interfaces worker_id with
      | None => (log0, None)
      | Some interface =>
          let (log, r) := fabric_open (with_interface (FabricConfig_new provider) interface) lib in
          match r with
          | Err _ => (log0 ++ log, None)
          | Ok f =>
              let (f, r) := register_shared f pointer pool_length code key in
              match r with
              | Ok b => (log0 ++ f_log f, Some (f, b))
              | Err _ => (log0 ++ f_log (fabric_drop f), None)
              end
          end
      end
  end.

(** What the owners of clones and buffers do, in any order. *)
Inductive fstep : Fab -> Fab -> Prop :=
| fs_clone f : (0 < strong f)%nat -> fstep f (fabric_clone f)
| fs_drop f : (0 < f_handles f)%nat -> fstep f (fabric_drop f)
| fs_register f backing access pointer length code key :
    (0 < strong f)%nat -> fstep f (register_region backing access f pointer length code key).1
| fs_buffer_drop f b : b ∈ f_buffers f -> fstep f (buffer_drop f (b_region b))
| fs_peer f inserted : (0 < strong f)%nat -> fstep f (insert_peer f inserted).1.

(** ** Reading a log

    The objects open after it, newest first; [None] when a call opens one
    twice, or closes or uses one that is not open, or closes one another still
    depends on. *)
Definition live_call (live : list Obj) (c : Call) : option (list Obj) :=
  match c with
  | Opened o => if bool_decide (o ∉ live) && bool_decide (Forall (.∈ live) (parents o)) then Some (o :: live) else None
  | Closed o =>
      if bool_decide (o ∈ live) && bool_decide (Forall (fun x => o ∉ parents x) live)
      then Some (base.filter (fun x => x <> o) live) else None
  | Uses os => if bool_decide (Forall (.∈ live) os) then Some live else None
  | Registers _ _ => if bool_decide (ODomain ∈ live) then Some live else None
  end.

(** The keys the registrations asked for. *)
Definition requested : list Call -> list Z := omap (fun c => match c with Registers k _ => Some k | _ => None end).

Fixpoint live_after (live : list Obj) (log : list Call) : option (list Obj) :=
  match log with
  | [] => Some live
  | c :: log => live ← live_call live c; live_after live log
  end.

(** ** Lemmas *)

Lemma live_after_app live l l' live' : live_after live l = Some live' -> live_after live (l ++ l') = live_after live' l'.
Proof.
  revert live. induction l as [|c l IH]; intros live; cbn [app live_after]; [by intros [= ->]|].
  destruct (live_call live c); [apply IH|discriminate].
Qed.

(** The objects of an open endpoint, newest first. *)
Definition open_objects : list Obj := [OEp; OCq; OAv; ODomain; OFabric; OInfo].

Definition all_open (e : Endpoint) : Prop :=
  e_endpoint e = true /\ e_cq e = true /\ e_av e = true /\ e_domain e = true /\ e_fabric e = true /\ e_info e = true.

(** A fresh source of remote keys. *)
Definition fresh_keys (k : RKeySource) : Prop := k = ProviderSelected \/ k = ApplicationSelected 1.

Definition settled (log : list Call) : Prop := live_after [] log = Some [].

Ltac run_m := unfold mbind, M_bind, mret, M_ret, emit, modify, fail; cbn.

(** A state of [open]: the open objects, which dropping the endpoint closes. *)
Definition building (live : list Obj) (s : list Call * Endpoint) : Prop :=
  live_after [] s.1 = Some live /\ live_after live (endpoint_drop s.2) = Some [] /\ requested s.1 = [].

Definition open_post (x : list Call * Endpoint * result DmaError unit) : Prop :=
  match x with
  | (s, Ok _) => live_after [] s.1 = Some open_objects /\ all_open s.2 /\ requested s.1 = [] /\ fresh_keys (e_keys s.2)
  | (s, Err _) => settled (s.1 ++ endpoint_drop s.2)
  end.

Lemma building_settled live s : building live s -> settled (s.1 ++ endpoint_drop s.2).
Proof. intros (L & D & _). unfold settled. by rewrite (live_after_app _ _ _ _ L). Qed.

(** One checked call: it fails and what is open gets closed, or the rest goes
    on with what it opened. *)
Lemma checked_spec live live' code l f (k : M unit) s :
  building live s -> live_after live l = Some live' -> live_after live' (endpoint_drop (f s.2)) = Some [] -> requested l = [] ->
  (forall s', s'.2 = f s.2 -> building live' s' -> open_post (k s')) ->
  open_post ((_ ← checked code l f; k) s).
Proof.
  intros B L D R K. unfold checked. destruct (code =? 0); run_m; [|by eapply building_settled].
  apply K; [done|]. destruct B as (B & _ & E). split_and!; [|done|]; cbn; [by rewrite (live_after_app _ _ _ _ B)|].
  unfold requested in *. by rewrite omap_app, E, R.
Qed.

Lemma query_info_spec c lib e :
  match query_info c lib ([], e) with
  | (s, Ok infos) => s.2 = e /\ live_after [] s.1 = Some [OList] /\ requested s.1 = []
  | (s, Err _) => s.2 = e /\ settled s.1
  end.
Proof.
  unfold query_info. destruct (match fc_bind c with Some _ => _ | None => _ end); [done|].
  destruct (la_hints lib); [|done]. cbn [negb]. destruct (la_getinfo _ _ _) as [code infos]. destruct (code =? 0), infos; done.
Qed.

Lemma endpoint_open_spec c lib :
  match endpoint_open c lib with
  | (log, Ok e) => live_after [] log = Some open_objects /\ all_open e /\ requested log = [] /\ fresh_keys (e_keys e)
  | (log, Err _) => settled log
  end.
Proof.
  cut (open_post (open_body c lib ([], null_endpoint))).
  { unfold endpoint_open. destruct (open_body _ _ _) as [[log e] []]; done. }
  unfold open_body. pose proof (query_info_spec c lib null_endpoint) as Q. unfold mbind at 1, M_bind at 1.
  destruct (query_info c lib _) as [[log e] [infos|]]; cbn [fst snd] in Q; [destruct Q as (-> & L & R)|destruct Q as [-> L]].
  2: { cbn. by rewrite app_nil_r. }
  destruct (match fc_interface c with Some _ => _ | None => _ end) as [chosen|].
  2: { run_m. rewrite app_nil_r. unfold settled. by rewrite (live_after_app _ _ _ _ L). }
  destruct (la_dup lib).
  2: { run_m. rewrite app_nil_r. unfold settled. by rewrite (live_after_app _ _ _ _ L). }
  unfold mbind at 1, M_bind at 1, emit at 1. unfold mbind at 1, M_bind at 1, modify at 1. cbn [fst snd].
  match goal with |- open_post (_ ?s) => assert (B : building [OInfo] s) end.
  { split_and!; cbn; [by rewrite (live_after_app _ _ _ _ L)|done|]. unfold requested in *. by rewrite omap_app, R. }
  revert B. generalize (log ++ [Uses [OList]; Opened OInfo; Closed OList]). intros l B.
  repeat (eapply checked_spec; [exact B|reflexivity|reflexivity|reflexivity|]; clear B; intros [? ?] E B; cbn in E; subst).
  unfold checked. destruct (la_enable lib =? 0); run_m; [|by eapply building_settled in B].
  destruct B as (B & _ & E). rewrite (live_after_app _ _ _ _ B). cbn in E. unfold requested in *. rewrite omap_app, E.
  repeat split; try reflexivity. cbn. unfold fresh_keys. destruct (ie_prov_key chosen); [by left|by right].
Qed.

(** What is open while a fabric lives, newest first. *)
Definition base_objects (f : Fab) : list Obj := (if f_progress f then [OPoller] else []) ++ open_objects.

Definition fabric_objects (f : Fab) : list Obj := map (fun b => ORegion (b_region b)) (f_buffers f) ++ base_objects f.

Record finv (f : Fab) : Prop := {
  fi_live : live_after [] (f_log f) = Some (if (strong f =? 0)%nat then [] else fabric_objects f);
  fi_open : all_open (f_endpoint f);
  fi_next : Forall (fun b => b_region b < f_next f) (f_buffers f);
}.

Lemma fabric_open_spec c lib :
  match fabric_open c lib with
  | (log, Ok f) => log = f_log f /\ finv f /\ requested (f_log f) = [] /\ fresh_keys (f_keys f) /\ strong f = 1%nat
  | (log, Err _) => settled log
  end.
Proof.
  unfold fabric_open. pose proof (endpoint_open_spec c lib) as O. destruct (endpoint_open c lib) as [log [e|]]; [|done].
  destruct O as (L & (E1 & E2 & E3 & E4 & E5 & E6) & R & K). destruct (local_address lib).
  - split; [done|]. split; [|split; [|by split]].
    + destruct (needs_manual_progress _); constructor; cbn; try done; rewrite <- ?app_assoc; by rewrite (live_after_app _ _ _ _ L).
    + cbn. unfold requested in *. rewrite !omap_app, R. by destruct (needs_manual_progress _).
  - unfold settled, endpoint_drop. rewrite E1, E2, E3, E4, E5, E6, <- app_assoc. by rewrite (live_after_app _ _ _ _ L).
Qed.

(** The last clone closes everything. *)
Lemma release_inv f :
  live_after [] (f_log f) = Some (fabric_objects f) -> all_open (f_endpoint f) ->
  Forall (fun b => b_region b < f_next f) (f_buffers f) -> finv (release f).
Proof.
  intros L O N. unfold release. destruct (strong f =? 0)%nat eqn:S.
  - constructor; [|exact O|exact N]. change (strong _) with (strong f). rewrite S.
    change (live_after [] (f_log f ++ (if f_progress f then [Closed OPoller] else []) ++ endpoint_drop (f_endpoint f)) = Some []).
    rewrite (live_after_app _ _ _ _ L). apply Nat.eqb_eq in S. unfold strong in S. unfold fabric_objects, base_objects.
    destruct (f_buffers f); [|cbn in S; lia]. destruct O as (E1 & E2 & E3 & E4 & E5 & E6). unfold endpoint_drop.
    rewrite E1, E2, E3, E4, E5, E6. by destruct (f_progress f).
  - constructor; [|exact O|exact N]. by rewrite S.
Qed.

Lemma live_elem (f : Fab) o : o ∈ open_objects -> o ∈ fabric_objects f.
Proof. intros H. apply elem_of_app. right. apply elem_of_app. by right. Qed.

(** Calls that only use what is open. *)
Lemma finv_calls f l :
  finv f -> (0 < strong f)%nat -> live_after (fabric_objects f) l = Some (fabric_objects f) ->
  finv (f <| f_log := f_log f ++ l |>).
Proof.
  intros [L O N] S K. constructor; [|exact O|exact N]. change (strong _) with (strong f).
  rewrite (proj2 (Nat.eqb_neq (strong f) 0)) in * by lia.
  change (live_after [] (f_log f ++ l) = Some (fabric_objects f)).
  by rewrite (live_after_app _ _ _ _ L).
Qed.

Lemma finv_peer f inserted : finv f -> (0 < strong f)%nat -> finv (insert_peer f inserted).1.
Proof.
  intros I S. apply finv_calls; [done|done|]. cbn [live_after live_call]. rewrite bool_decide_true; [done|].
  apply Forall_singleton, live_elem. set_solver.
Qed.

Lemma finv_register f backing access pointer length code key :
  finv f -> (0 < strong f)%nat -> finv (register_region backing access f pointer length code key).1.
Proof.
  intros I S. unfold register_region. destruct (length =? 0); [done|]. destruct (take_key (f_keys f)) as [keys requested].
  assert (I' : finv (f <| f_keys := keys |> <| f_log := f_log f ++ [Registers requested access] |>)).
  { change (finv ((f <| f_log := f_log f ++ [Registers requested access] |>) <| f_keys := keys |>)).
    destruct (finv_calls f [Registers requested access] I S) as [L O N]; [|by constructor].
    cbn [live_after live_call]. rewrite bool_decide_true; [done|]. apply live_elem. set_solver. }
  set (f' := f <| f_keys := keys |> <| f_log := _ |>) in *. destruct (code =? 0); [|exact I'].
  destruct I' as [L O N]. constructor; [|exact O|].
  - assert (S' : (strong f' =? 0)%nat = false) by (apply Nat.eqb_neq; change (strong f') with (strong f); lia). rewrite S' in L.
    rewrite (proj2 (Nat.eqb_neq _ 0)) by (cbn; lia).
    change (live_after [] (f_log f' ++ [Opened (ORegion (f_next f'))]) = Some (ORegion (f_next f') :: fabric_objects f')).
    rewrite (live_after_app _ _ _ _ L).
    cbn [live_after live_call parents]. rewrite !bool_decide_true; [reflexivity| |].
    + apply Forall_singleton, live_elem. set_solver.
    + intros E. unfold fabric_objects in E. apply elem_of_app in E as [E|E].
      * apply list_elem_of_fmap in E as (b & Eb & Hb). injection Eb as Eb. rewrite Forall_forall in N.
        specialize (N b Hb). change (f_next f') with (f_next f) in N. lia.
      * unfold base_objects in E. destruct (f_progress f'); set_solver.
  - cbn. constructor; [cbn; lia|]. eapply Forall_impl; [exact N|]. cbn. lia.
Qed.

Lemma filter_id {A} (P : A -> Prop) `{forall x, Decision (P x)} l : Forall P l -> base.filter P l = l.
Proof. induction 1 as [|x l Px F IH]; [done|]. by rewrite filter_cons_True, IH. Qed.

Lemma filter_regions r bs rest :
  ORegion r ∉ rest ->
  base.filter (fun x => x <> ORegion r) (map (fun b => ORegion (b_region b)) bs ++ rest)
  = map (fun b => ORegion (b_region b)) (base.filter (fun b => b_region b <> r) bs) ++ rest.
Proof.
  intros N. rewrite filter_app. f_equal.
  - induction bs as [|b bs IH]; [done|]. cbn [map]. rewrite !filter_cons.
    destruct (decide (b_region b <> r)) as [D|D]; destruct (decide (ORegion (b_region b) <> ORegion r)) as [D'|D'];
      cbn [map]; rewrite ?IH; try done; exfalso; [apply D'; congruence|apply D; congruence].
  - apply filter_id, Forall_forall. intros x Hx ->. done.
Qed.

Lemma base_regions f r : ORegion r ∉ base_objects f /\ Forall (fun x => ORegion r ∉ parents x) (base_objects f).
Proof.
  unfold base_objects. destruct (f_progress f); (split; [set_solver|]); repeat (apply Forall_cons; split; [cbn; set_solver|]); by apply Forall_nil.
Qed.

Lemma finv_buffer_drop f b : finv f -> b ∈ f_buffers f -> finv (buffer_drop f (b_region b)).
Proof.
  intros [L O N] Hb. assert (S : (strong f =? 0)%nat = false).
  { apply Nat.eqb_neq. unfold strong. destruct (f_buffers f); [set_solver|cbn; lia]. }
  rewrite S in L. apply release_inv; [|exact O|].
  - match goal with |- live_after [] _ = ?x => change (live_after [] (f_log f ++ [Closed (ORegion (b_region b))]) = x) end.
    rewrite (live_after_app _ _ _ _ L).
    destruct (base_regions f (b_region b)) as [R P].
    cbn [live_after live_call]. rewrite !bool_decide_true; cbn [andb mbind option_bind].
    + unfold fabric_objects. by rewrite filter_regions.
    + apply Forall_forall. intros x Hx. unfold fabric_objects in Hx. apply elem_of_app in Hx as [Hx|Hx].
      * apply list_elem_of_fmap in Hx as (b' & -> & _). intros E%list_elem_of_singleton. discriminate.
      * rewrite Forall_forall in P. by apply P.
    + apply elem_of_app. left. apply list_elem_of_fmap. by exists b.
  - apply Forall_forall. intros x Hx. apply list_elem_of_filter in Hx as [_ Hx]. rewrite Forall_forall in N. by apply N.
Qed.

Lemma finv_step f f' : fstep f f' -> finv f -> finv f'.
Proof.
  intros [] I.
  - destruct I as [L O N]. constructor; [|exact O|exact N]. cbn [f_log fabric_clone]. rewrite (proj2 (Nat.eqb_neq _ 0)) in L by lia. exact L.
  - destruct I as [L O N]. unfold fabric_drop. rewrite (proj2 (Nat.eqb_neq _ 0)) in L by (unfold strong; lia).
    apply release_inv; [exact L|exact O|exact N].
  - by apply finv_register.
  - by apply finv_buffer_drop.
  - by apply finv_peer.
Qed.

(** *** Remote keys *)

(** The keys asked for so far are 1, 2, …, until the counter wraps. *)
Definition keys_ok (f : Fab) : Prop :=
  match f_keys f with
  | ProviderSelected => True
  | ApplicationSelected n =>
      let l := Z.of_nat (length (requested (f_log f))) in l < 2 ^ 64 - 1 -> n = 1 + l /\ requested (f_log f) = seqZ 1 l
  end.

Lemma keys_ok_log f g l : keys_ok f -> f_keys g = f_keys f -> f_log g = f_log f ++ l -> requested l = [] -> keys_ok g.
Proof. intros K Ek El R. unfold keys_ok in *. rewrite Ek, El. unfold requested in *. by rewrite omap_app, R, app_nil_r. Qed.

Lemma requested_endpoint_drop e : requested (endpoint_drop e) = [].
Proof. unfold endpoint_drop. by destruct (e_endpoint e), (e_cq e), (e_av e), (e_domain e), (e_fabric e), (e_info e). Qed.

Lemma keys_ok_release f : keys_ok f -> keys_ok (release f).
Proof.
  intros K. unfold release. destruct (_ =? _)%nat; [|done]. eapply keys_ok_log; [exact K|done|done|].
  pose proof (requested_endpoint_drop (f_endpoint f)) as R. unfold requested in *. rewrite omap_app, R. by destruct (f_progress f).
Qed.

Lemma keys_ok_register f backing access pointer length code key :
  keys_ok f -> keys_ok (register_region backing access f pointer length code key).1.
Proof.
  intros K. unfold register_region. destruct (length =? 0); [done|]. destruct (take_key (f_keys f)) as [keys k] eqn:T.
  assert (K' : keys_ok (f <| f_keys := keys |> <| f_log := f_log f ++ [Registers k access] |>)).
  { unfold keys_ok in *. unfold take_key in T. destruct (f_keys f) as [|n]; injection T as <- <-; [done|].
    cbn. unfold requested in *. rewrite omap_app, length_app. cbn. intros B. destruct K as [-> E]; [lia|].
    split; [rewrite wrap64_small by (unfold u64_max; lia); lia|]. rewrite Nat2Z.inj_add, seqZ_app, <- E by lia. by rewrite seqZ_cons. }
  destruct (code =? 0); [|exact K']. by eapply keys_ok_log.
Qed.

Lemma keys_ok_step f f' : fstep f f' -> keys_ok f -> keys_ok f'.
Proof.
  intros [] K.
  - exact K.
  - by apply keys_ok_release.
  - by apply keys_ok_register.
  - apply keys_ok_release. by eapply keys_ok_log; [exact K|..].
  - by eapply keys_ok_log; [exact K|..].
Qed.

Lemma finv_rtc f f' : rtc fstep f f' -> finv f -> keys_ok f -> finv f' /\ keys_ok f'.
Proof. induction 1 as [|f f1 f' St _ IH]; intros I K; [done|]. apply IH; [by eapply finv_step|by eapply keys_ok_step]. Qed.

Lemma fresh_keys_ok f : requested (f_log f) = [] -> fresh_keys (f_keys f) -> keys_ok f.
Proof. intros R [E|E]; unfold keys_ok; rewrite E; [done|]. rewrite R. by split. Qed.

(** *** The users of a fabric take its steps *)

Lemma insert_peers_steps addresses : forall f inserted, (0 < strong f)%nat ->
  rtc fstep f (insert_peers f addresses inserted).1 /\
  strong (insert_peers f addresses inserted).1 = strong f /\ f_handles (insert_peers f addresses inserted).1 = f_handles f.
Proof.
  induction addresses as [|a addresses IH]; intros f inserted S; [by repeat split|]. cbn [insert_peers].
  pose proof (fs_peer f (inserted a) S) as St. unfold insert_peer in *. cbn [fst] in St.
  destruct (inserted a =? 1); [|cbn; split; [by apply rtc_once|done]].
  match type of St with fstep _ ?g => destruct (IH g inserted S) as (R & E & H) end. split; [by eapply rtc_l|done].
Qed.

(** A connection's handshake is a sequence of steps of the fabric; when it
    fails its clone is gone, otherwise its buffer is registered. *)
Lemma dma_connect_steps f capacity reply inserted pointer code key :
  (0 < f_handles f)%nat ->
  let (f', r) := dma_connect f capacity reply inserted pointer code key in
  rtc fstep f f' /\ (forall b, r = Some b -> b ∈ f_buffers f' /\ f_handles f' = f_handles f).
Proof.
  intros Hd. assert (D : forall g, (0 < f_handles g)%nat -> rtc fstep f g -> rtc fstep f (fabric_drop g)).
  { intros g Hg R. eapply rtc_r; [exact R|]. by apply fs_drop. }
  unfold dma_connect. destruct reply as [v|]; [|split; [by apply D|done]].
  destruct (hello_reply v) as [addresses|]; [|split; [by apply D|done]].
  destruct (insert_peers_steps addresses f inserted ltac:(unfold strong; lia)) as (R & S & H).
  destruct (insert_peers f addresses inserted) as [g [u|x]]; cbn [fst] in *; [|split; [apply D; [lia|done]|done]].
  pose proof (fs_register g Owned [RemoteRead; RemoteWrite; Read_; Write_] pointer capacity code key ltac:(unfold strong in *; lia)) as St.
  unfold register, register_region in *. destruct (capacity =? 0).
  - split; [|done]. apply D; [lia|done].
  - destruct (take_key (f_keys g)) as [keys k]. destruct (code =? 0); cbn [fst] in St.
    + split; [by eapply rtc_r|]. intros b [= <-]. split; [by left|exact H].
    + split; [|done]. apply D; [cbn; lia|by eapply rtc_r].
Qed.

(** A window lies inside its buffer, and there is one for every part of it. *)
Lemma slice_spec b at_ length :
  0 <= at_ -> 0 <= length -> b_length b <= u64_max -> adv_remote_address (b_advertisement b) + b_length b <= u64_max ->
  slice b at_ length =
    if bool_decide (at_ + length <= b_length b)
    then Some {| rw_advertisement := {| adv_address := adv_address (b_advertisement b);
                                        adv_remote_key := adv_remote_key (b_advertisement b);
                                        adv_remote_address := adv_remote_address (b_advertisement b) + at_ |};
                 rw_length := length |}
    else None.
Proof.
  intros A L B R. unfold slice. case_bool_decide as C.
  - rewrite (proj2 (Z.ltb_ge _ _)), (proj2 (Z.ltb_ge _ _)), (proj2 (Z.ltb_ge _ _)) by lia. done.
  - destruct (u64_max <? at_ + length); [done|]. by rewrite (proj2 (Z.ltb_lt _ _)) by lia.
Qed.

(** The domains found are distinct, and are those with a readable name. *)
Lemma domain_names_spec infos : forall names, NoDup names ->
  NoDup (domain_names infos names) /\
  (forall n, n ∈ domain_names infos names <-> n ∈ names \/ exists e, e ∈ infos /\ name_str e = Some n).
Proof.
  induction infos as [|e infos IH]; intros names N.
  - split; [done|]. intros n. cbn. split; [by left|]. intros [|(? & []%not_elem_of_nil & _)]; done.
  - cbn [domain_names]. destruct (name_str e) as [m|] eqn:E.
    + case_bool_decide as C.
      * destruct (IH names N) as [D S]. split; [done|]. intros n. rewrite S. split; [intros [|(x & Hx & Ex)]; [by left|right; exists x; by split; [right|]]|].
        intros [|(x & [->|Hx]%elem_of_cons & Ex)]; [by left| |right; by exists x]. left. congruence.
      * destruct (IH (names ++ [m])) as [D S].
        { apply NoDup_app. split; [done|]. split; [|apply NoDup_singleton]. intros y Hy ->%list_elem_of_singleton. done. }
        split; [done|]. intros n. rewrite S, elem_of_app, list_elem_of_singleton. split.
        { intros [[| -> ]|(x & Hx & Ex)]; [by left|right; exists e; by split; [left|]|right; exists x; by split; [right|]]. }
        { intros [|(x & [->|Hx]%elem_of_cons & Ex)]; [by left; left| |right; by exists x]. left. right. congruence. }
    + destruct (IH names N) as [D S]. split; [done|]. intros n. rewrite S. split; [intros [|(x & Hx & Ex)]; [by left|right; exists x; by split; [right|]]|].
      intros [|(x & [->|Hx]%elem_of_cons & Ex)]; [by left|congruence|right; by exists x].
Qed.

Lemma discover_settled c lib : settled (discover_domains c lib).1.
Proof.
  unfold discover_domains. pose proof (query_info_spec c lib null_endpoint) as Q. unfold mbind at 1, M_bind at 1.
  destruct (query_info c lib _) as [[log e] [infos|]]; cbn [fst snd] in Q.
  - destruct Q as (-> & L & _). run_m. unfold settled. by rewrite (live_after_app _ _ _ _ L).
  - by destruct Q as [_ L].
Qed.

(** Registering keeps the number of clones a failure leaves, and a region's
    buffer is as asked. *)
Lemma register_shared_spec f pointer length code key :
  finv f -> keys_ok f -> (0 < strong f)%nat ->
  let (f', r) := register_shared f pointer length code key in
  finv f' /\ keys_ok f' /\
  match r with Err _ => strong f' = strong f | Ok b => b ∈ f_buffers f' /\ b_backing b = Shared /\ b_length b = length end.
Proof.
  intros I K S. pose proof (finv_register f Shared [RemoteRead; Read_] pointer length code key I S) as I'.
  pose proof (keys_ok_register f Shared [RemoteRead; Read_] pointer length code key K) as K'.
  unfold register_shared, register_region in *. destruct (length =? 0); [done|]. destruct (take_key _).
  destruct (code =? 0); (split; [exact I'|]; split; [exact K'|]); [by split; [left|]|done].
Qed.

(** The last clone of a fabric without buffers. *)
Lemma dropped_settled f : finv f -> strong f = 1%nat -> settled (f_log (fabric_drop f)).
Proof.
  intros I S. assert (H : (0 < f_handles f)%nat) by (unfold strong in S; lia).
  pose proof (finv_step _ _ (fs_drop f H) I) as [L _ _]. unfold settled. rewrite L.
  assert (Z : strong (fabric_drop f) = 0%nat); [|by rewrite Z].
  unfold fabric_drop, release, strong in *. destruct f as [h bs nx ks pr ad vi en lg]. cbn in *. destruct (_ =? _)%nat; cbn; lia.
Qed.

(** ** Theorem *)

(** C27: A worker's fabric leaks nothing and closes nothing too early.  If
    [open_fabric] fails, at whichever call, every libfabric object it opened
    has been closed.  If it succeeds, then however clones of the fabric are
    made and dropped, buffers registered and dropped and peers inserted: no
    call uses, or closes, an object that is not open; none is closed while a
    region, the endpoint or the polling thread still needs it; the region of
    every live buffer is open; and once the last clone is gone everything is
    closed.  Where the application chooses the remote keys, no two
    registrations ask for the same one. *)
Theorem fabric_closes_all worker_id (c : Dma.t) pool_length discovery lib pointer code key :
  match open_fabric worker_id c pool_length discovery lib pointer code key with
  | (log, None) => settled log
  | (log, Some (f, b)) =>
      settled (take (length log - length (f_log f)) log) /\ b_backing b = Shared /\ b_length b = pool_length /\
      forall f', rtc fstep f f' ->
        (exists live, live_after [] (f_log f') = Some live /\ (strong f' = 0%nat -> live = []) /\
           forall b, b ∈ f_buffers f' -> ORegion (b_region b) ∈ live) /\
        (f_keys f' <> ProviderSelected -> Z.of_nat (length (requested (f_log f'))) < 2 ^ 64 - 1 -> NoDup (requested (f_log f')))
  end.
Proof.
  unfold open_fabric. set (p := dma_provider _).
  assert (D : match match Dma.interfaces c with [] => discover_domains (FabricConfig_new p) discovery | l => ([], Ok (map bytes_of l)) end
              with (log0, _) => settled log0 end).
  { destruct (Dma.interfaces c); [|done]. pose proof (discover_settled (FabricConfig_new p) discovery). by destruct (discover_domains _ _). }
  destruct (match Dma.interfaces c with [] => _ | _ => _ end) as [log0 [interfaces|]]; [|exact D].
  destruct (choose_interface interfaces worker_id) as [i|]; [|exact D].
  pose proof (fabric_open_spec (with_interface (FabricConfig_new p) i) lib) as O.
  destruct (fabric_open _ lib) as [log [f|]]; [|unfold settled in *; by rewrite (live_after_app _ _ _ _ D)].
  destruct O as (_ & I & R & K & S1). apply (fresh_keys_ok f R) in K as K'.
  pose proof (register_shared_spec f pointer pool_length code key I K' ltac:(lia)) as Rg.
  destruct (register_shared f pointer pool_length code key) as [f2 [b|]]; destruct Rg as (I2 & K2 & Rg).
  - destruct Rg as (_ & B1 & B2). rewrite length_app, Nat.add_sub, take_app_length. split_and!; [exact D|exact B1|exact B2|].
    intros f' Rt. destruct (finv_rtc _ _ Rt I2 K2) as [[L _ _] K3]. split.
    + eexists. split; [exact L|]. split; [by intros ->|]. intros b' Hb'. rewrite (proj2 (Nat.eqb_neq _ 0)).
      * apply elem_of_app. left. apply list_elem_of_fmap. by exists b'.
      * unfold strong. destruct (f_buffers f'); [by apply not_elem_of_nil in Hb'|cbn; lia].
    + intros N B. unfold keys_ok in K3. destruct (f_keys f'); [done|]. destruct (K3 B) as [_ ->]. apply NoDup_seqZ.
  - unfold settled in *. rewrite (live_after_app _ _ _ _ D). by apply dropped_settled; [|lia].
Qed.

(** *** Witness *)

(** A tcp fabric of one domain, whose every call succeeds. *)
Definition example_lib : Libfabric :=
  {| la_hints := true; la_getinfo := fun _ _ => (0, [{| ie_name := Some (bytes_of "lo"); ie_virt_addr := false; ie_prov_key := false |}]);
     la_dup := true; la_fabric := 0; la_domain := 0; la_av := 0; la_cq := 0; la_endpoint := 0; la_bind_av := 0; la_bind_cq := 0;
     la_enable := 0; la_name_len := 4; la_getname := fun n => (0, [127; 0; 0; 1], n) |}.

Definition example_dma : Dma.t := Dma_default <| Dma.provider := Tcp |>.

(** The same library, refusing the completion queue: what was opened before it
    is closed again. *)
Example refused_queue :
  (open_fabric 0 example_dma 64 example_lib
     {| la_hints := true; la_getinfo := la_getinfo example_lib; la_dup := true; la_fabric := 0; la_domain := 0; la_av := 0; la_cq := -12;
        la_endpoint := 0; la_bind_av := 0; la_bind_cq := 0; la_enable := 0; la_name_len := 4; la_getname := la_getname example_lib |}
     4096 0 7).1
  = [Opened OHints; Uses [OHints]; Closed OHints; Opened OList; Uses [OList]; Closed OList;
     Opened OHints; Uses [OHints]; Closed OHints; Opened OList; Uses [OList]; Opened OInfo; Closed OList;
     Opened OFabric; Opened ODomain; Opened OAv; Closed OAv; Closed ODomain; Closed OFabric; Closed OInfo].
Proof. by vm_compute. Qed.

(** The fabric of worker 0, then dropped with its buffer. *)
Definition example_fab : Fab :=
  match (open_fabric 0 example_dma 64 example_lib example_lib 4096 0 7).2 with
  | Some (f, _) => f
  | None => {| f_handles := 0; f_buffers := []; f_next := 0; f_keys := ProviderSelected; f_progress := false; f_address := [];
               f_virtual := false; f_endpoint := null_endpoint; f_log := [] |}
  end.

Definition example_pool : DmaBuffer :=
  {| b_region := 0; b_advertisement := {| adv_address := [127; 0; 0; 1]; adv_remote_key := 7; adv_remote_address := 0 |};
     b_length := 64; b_backing := Shared |}.

Lemma example_opened : open_fabric 0 example_dma 64 example_lib example_lib 4096 0 7
  = ((open_fabric 0 example_dma 64 example_lib example_lib 4096 0 7).1, Some (example_fab, example_pool)).
Proof. vm_compute. reflexivity. Qed.

Lemma fabric_closes_all_witness :
  let f' := buffer_drop (fabric_drop example_fab) 0 in
  live_after [] (f_log f') = Some [] /\ requested (f_log f') = [1] /\ last (f_log f') = Some (Closed OInfo).
Proof.
  pose proof (fabric_closes_all 0 example_dma 64 example_lib example_lib 4096 0 7) as T.
  rewrite example_opened in T. destruct T as (_ & _ & _ & T).
  destruct (T (buffer_drop (fabric_drop example_fab) 0)) as [(live & L & E & _) _].
  - eapply rtc_l; [|eapply rtc_l; [|apply rtc_refl]].
    + apply (fs_drop example_fab). vm_compute. lia.
    + apply (fs_buffer_drop (fabric_drop example_fab) example_pool).
      assert (B : f_buffers (fabric_drop example_fab) = [example_pool]) by (vm_compute; reflexivity). rewrite B. apply list_elem_of_here.
  - rewrite E in L by (vm_compute; reflexivity). split; [exact L|]. vm_compute. split; reflexivity.
Defined.
