(* ===== verification/Progress.v ===== *)
(** Progress: the thread that polls a fabric's completion queue while
    transfers are in flight ([src/src/dma/fabric/progress.rs]).

    The poller, any number of [drive] calls and the driver's drop interleave at
    the grain of one atomic load or store, one lock, one notification.
    [Mutex::lock] blocks while another holds it; [Condvar::wait] releases the
    lock and blocks in one step, and may wake spuriously; [notify_one] wakes
    the poller if it is blocked there.  The queue is libfabric's: whether it
    has a completion is the environment's choice. *)

From Stdlib Require Import ZifyBool.
From S2P Require Import Prelude.

(** ** State *)

(** Who holds [park]; the flag says whether it has notified. *)
Inductive Holder := HPoller | HDrive (notified : bool) | HDropper (notified : bool).

(** Where [poll_loop] is: about to lock [park]; with it, about to load
    [active], to load [shutdown], to wait, to release it; blocked in the wait;
    woken, about to lock again; about to load [shutdown] outside; reading the
    queue; returned. *)
Inductive Poller := PLock | PActive | PShutdown | PWait | PUnlock | PWaiting | PWoken | PCheckStop | PRead | PDone.

(** Where [Drop for ProgressDriver] is. *)
Inductive Dropper := XIdle | XLock | XHold | XJoin | XJoined.

(** [pend] are the [drive] calls that found [active] at 0 and wait for [park];
    [guards] the guards alive. *)
Record ProgressShared := {
  active : nat;
  shutdown : bool;
  park : option Holder;
  poller : Poller;
  pend : nat;
  guards : nat;
  dropper : Dropper;
}.

#[export] Instance eta_ProgressShared : Settable ProgressShared := fun x =>
  {| active := active x; shutdown := shutdown x; park := park x; poller := poller x; pend := pend x; guards := guards x;
     dropper := dropper x |}.

(** [ProgressDriver::new]. *)
Definition progress_new : ProgressShared :=
  {| active := 0; shutdown := false; park := None; poller := PLock; pend := 0; guards := 0; dropper := XIdle |}.

(** ** Turns *)

(** One action of [poll_loop]; [None] when it is blocked or has returned.  At
    [PRead] the queue is empty. *)
Definition poll_turn (s : ProgressShared) : option ProgressShared :=
  match poller s with
  | PLock | PWoken => match park s with None => Some (s <| park := Some HPoller |> <| poller := PActive |>) | _ => None end
  | PActive => Some (s <| poller := if (active s =? 0)%nat then PShutdown else PUnlock |>)
  | PShutdown => Some (s <| poller := if shutdown s then PUnlock else PWait |>)
  | PWait => Some (s <| park := None |> <| poller := PWaiting |>)
  | PUnlock => Some (s <| park := None |> <| poller := PCheckStop |>)
  | PCheckStop => Some (s <| poller := if shutdown s then PDone else PRead |>)
  | PRead => Some (s <| poller := PLock |>)
  | PWaiting | PDone => None
  end.

(** [notify_one]. *)
Definition notify_one (s : ProgressShared) : ProgressShared :=
  match poller s with PWaiting => s <| poller := PWoken |> | _ => s end.

(** [drive]: [fetch_add], and for the first transfer the lock and the
    notification. *)
Definition drive (s : ProgressShared) : ProgressShared :=
  if (active s =? 0)%nat then s <| active := S (active s) |> <| pend := S (pend s) |>
  else s <| active := S (active s) |> <| guards := S (guards s) |>.

Definition drive_turn (s : ProgressShared) : option ProgressShared :=
  match park s with
  | Some (HDrive false) => Some ((notify_one s) <| park := Some (HDrive true) |>)
  | Some (HDrive true) => Some (s <| park := None |> <| guards := S (guards s) |>)
  | None => if (pend s =? 0)%nat then None else Some (s <| park := Some (HDrive false) |> <| pend := pred (pend s) |>)
  | Some _ => None
  end.

(** [Drop for ProgressGuard]. *)
Definition guard_drop (s : ProgressShared) : ProgressShared :=
  s <| active := pred (active s) |> <| guards := pred (guards s) |>.

(** [Drop for ProgressDriver]: the store, then the lock, the notification, the
    release and the join. *)
Definition drop_begin (s : ProgressShared) : ProgressShared := s <| shutdown := true |> <| dropper := XLock |>.

Definition drop_turn (s : ProgressShared) : option ProgressShared :=
  match dropper s, park s, poller s with
  | XLock, None, _ => Some (s <| park := Some (HDropper false) |> <| dropper := XHold |>)
  | XHold, Some (HDropper false), _ => Some ((notify_one s) <| park := Some (HDropper true) |>)
  | XHold, Some (HDropper true), _ => Some (s <| park := None |> <| dropper := XJoin |>)
  | XJoin, _, PDone => Some (s <| dropper := XJoined |>)
  | _, _, _ => None
  end.

(** A thread in the middle of its work goes on. *)
Inductive quiet : ProgressShared -> ProgressShared -> Prop :=
| q_poll s s' : poll_turn s = Some s' -> quiet s s'
| q_drive s s' : drive_turn s = Some s' -> quiet s s'
| q_drop s s' : drop_turn s = Some s' -> quiet s s'.

(** Everything else that happens: a completion was there to read, a spurious
    wake-up, a transfer begins or ends, the driver is dropped.  Dropping it
    takes the only reference, so no [drive] is under way then. *)
Inductive event : ProgressShared -> ProgressShared -> Prop :=
| e_completion s : poller s = PRead -> event s s
| e_spurious s : poller s = PWaiting -> event s (s <| poller := PWoken |>)
| e_drive s : dropper s = XIdle -> event s (drive s)
| e_guard s : (0 < guards s)%nat -> event s (guard_drop s)
| e_drop s : dropper s = XIdle -> pend s = 0%nat -> (forall b, park s <> Some (HDrive b)) -> event s (drop_begin s).

Definition reachable (s : ProgressShared) : Prop := rtc (fun s s' => quiet s s' \/ event s s') progress_new s.

(** ** Invariant *)

Definition holding (p : Poller) : bool :=
  match p with PActive | PShutdown | PWait | PUnlock => true | _ => false end.

Definition driving (h : option Holder) : nat := match h with Some (HDrive _) => 1 | _ => 0 end.

(** On its way to sleep, having seen no transfer; having seen no shutdown. *)
Definition drowsy (p : Poller) : bool := match p with PShutdown | PWait | PWaiting => true | _ => false end.

Definition asleep (p : Poller) : bool := match p with PWait | PWaiting => true | _ => false end.

Definition by_poller (h : option Holder) : bool := match h with Some HPoller => true | _ => false end.

Definition by_dropper (h : option Holder) : bool := match h with Some (HDropper _) => true | _ => false end.

(** Someone who will notify: a first transfer, or the driver's drop. *)
Definition will_notify (s : ProgressShared) : bool :=
  (0 <? pend s)%nat || match park s with Some (HDrive false) => true | _ => false end.

Definition will_stop (s : ProgressShared) : bool :=
  match dropper s, park s with XLock, _ | _, Some (HDropper false) => true | _, _ => false end.

Definition idle (x : Dropper) : bool := match x with XIdle => true | _ => false end.

Record pinv (s : ProgressShared) : Prop := {
  pi_active : active s = (guards s + pend s + driving (park s))%nat;
  pi_holder : by_poller (park s) = holding (poller s);
  pi_dropping : by_dropper (park s) = match dropper s with XHold => true | _ => false end;
  pi_wake : implb (drowsy (poller s) && (0 <? active s)%nat) (will_notify s) = true;
  pi_stop : implb (asleep (poller s) && shutdown s) (will_stop s) = true;
  pi_shutdown : shutdown s = negb (idle (dropper s));
  pi_alone : implb (shutdown s) ((pend s =? 0)%nat && (driving (park s) =? 0)%nat) = true;
  pi_done : implb match poller s with PDone => true | _ => false end (shutdown s) = true;
  pi_joined : implb match dropper s with XJoined => true | _ => false end match poller s with PDone => true | _ => false end = true;
}.

(** ** Lemmas *)

(** Case analysis on the finite part of a state; what remains is arithmetic. *)
Ltac pd_cbn := cbn -[Nat.ltb Nat.eqb] in *.

Ltac pd_cases s :=
  destruct s as [act shut pk po pe gu dr];
  unfold poll_turn, drive_turn, drop_turn, drive, guard_drop, drop_begin, notify_one, will_notify, will_stop in *; pd_cbn; subst shut;
  destruct po; try discriminate; destruct pk as [[|[]|[]]|]; try discriminate; pd_cbn; try discriminate;
  destruct dr; try discriminate; pd_cbn; try discriminate.

Ltac pd_solve := constructor; unfold will_notify, will_stop; pd_cbn; try reflexivity; lia.

Lemma pinv_new : pinv progress_new.
Proof. constructor; reflexivity. Qed.

Lemma pinv_poll s s' : poll_turn s = Some s' -> pinv s -> pinv s'.
Proof.
  intros T [I1 I2 I3 I4 I5 I6 I7 I8 I9]. pd_cases s; injection T as <-; try (destruct (act =? 0)%nat eqn:?); pd_solve.
Qed.

Lemma pinv_drive_turn s s' : drive_turn s = Some s' -> pinv s -> pinv s'.
Proof.
  intros T [I1 I2 I3 I4 I5 I6 I7 I8 I9]. pd_cases s; try (destruct (pe =? 0)%nat eqn:?; [discriminate T|]); injection T as <-; pd_solve.
Qed.

Lemma pinv_drop_turn s s' : drop_turn s = Some s' -> pinv s -> pinv s'.
Proof. intros T [I1 I2 I3 I4 I5 I6 I7 I8 I9]. pd_cases s; injection T as <-; pd_solve. Qed.

Lemma pinv_event s s' : event s s' -> pinv s -> pinv s'.
Proof.
  intros [t E|t E|t E|t E|t E1 E2 E3] [I1 I2 I3 I4 I5 I6 I7 I8 I9].
  - by constructor.
  - pd_cases t; pd_solve.
  - pd_cases t; destruct (act =? 0)%nat eqn:?; pd_solve.
  - pd_cases t; pd_solve.
  - pd_cases t; try (by destruct (E3 _ eq_refl)); pd_solve.
Qed.

Lemma pinv_quiet s s' : quiet s s' -> pinv s -> pinv s'.
Proof. intros [? ? T|? ? T|? ? T] I; [by eapply pinv_poll|by eapply pinv_drive_turn|by eapply pinv_drop_turn]. Qed.

Lemma reachable_inv s : reachable s -> pinv s.
Proof.
  unfold reachable. revert s. apply rtc_ind_r; [exact pinv_new|]. intros t t' _ [Q|E] I; [by eapply pinv_quiet|by eapply pinv_event].
Qed.

(** ** What there is left to do

    A notification outweighs the steps the poller takes because of it. *)
Definition holder_rank (h : option Holder) : nat :=
  match h with Some (HDrive false | HDropper false) => 2 | Some (HDrive true | HDropper true) => 1 | _ => 0 end.

Definition dropper_rank (x : Dropper) : nat := match x with XLock => 5 | XHold => 2 | XJoin => 1 | XIdle | XJoined => 0 end.

(** Up to the next look at the queue, or up to the return once stopped. *)
Definition poller_rank (stop : bool) (p : Poller) : nat :=
  match p with
  | PRead => if stop then 8 else 0
  | PLock | PWoken => 7
  | PActive => 6
  | PShutdown => 5
  | PWait => 4
  | PWaiting => 3
  | PUnlock => 2
  | PCheckStop => 1
  | PDone => 0
  end.

Definition work_left (s : ProgressShared) : nat :=
  9 * (3 * pend s + holder_rank (park s) + dropper_rank (dropper s)) + poller_rank (shutdown s) (poller s).

(** The poller looks at the queue, or has returned. *)
Definition polls (s : ProgressShared) : bool := match poller s with PRead | PDone => true | _ => false end.

Lemma work_decreases s s' : pinv s -> quiet s s' -> poller s <> PRead \/ shutdown s = true -> (work_left s' < work_left s)%nat.
Proof.
  intros [I1 I2 I3 I4 I5 I6 I7 I8 I9] Q N. unfold work_left. destruct Q as [s s' T|s s' T|s s' T]; pd_cases s;
    try (destruct (pe =? 0)%nat eqn:?; [discriminate T|]); injection T as <-; try (destruct (act =? 0)%nat eqn:?); pd_cbn; try lia;
    destruct N; congruence.
Qed.

(** Whoever must move can. *)
Lemma someone_moves s :
  pinv s -> (0 < active s)%nat \/ shutdown s = true -> polls s = false -> exists s', quiet s s'.
Proof.
  intros [I1 I2 I3 I4 I5 I6 I7 I8 I9] D P.
  destruct (poll_turn s) as [s'|] eqn:T1; [exists s'; by apply q_poll|].
  destruct (drive_turn s) as [s'|] eqn:T2; [exists s'; by apply q_drive|].
  destruct (drop_turn s) as [s'|] eqn:T3; [exists s'; by apply q_drop|].
  exfalso. unfold polls in P. pd_cases s; try (destruct (pe =? 0)%nat eqn:?; try discriminate); lia.
Qed.

Lemma joins_moves s :
  pinv s -> shutdown s = true -> dropper s <> XJoined -> exists s', quiet s s'.
Proof.
  intros [I1 I2 I3 I4 I5 I6 I7 I8 I9] D P.
  destruct (poll_turn s) as [s'|] eqn:T1; [exists s'; by apply q_poll|].
  destruct (drive_turn s) as [s'|] eqn:T2; [exists s'; by apply q_drive|].
  destruct (drop_turn s) as [s'|] eqn:T3; [exists s'; by apply q_drop|].
  exfalso. pd_cases s; try (destruct (pe =? 0)%nat eqn:?; try discriminate); first [congruence|lia].
Qed.

Lemma quiet_active s s' : quiet s s' -> active s' = active s /\ (shutdown s = true -> shutdown s' = true).
Proof.
  assert (N : forall t, active (notify_one t) = active t /\ shutdown (notify_one t) = shutdown t) by (intros t; unfold notify_one; by destruct (poller t)).
  intros [t t' T|t t' T|t t' T]; revert T.
  - unfold poll_turn. destruct (poller t), (park t); intros [= <-]; done.
  - unfold drive_turn. destruct (park t) as [[|[]|]|]; try discriminate; [intros [= <-]; done|intros [= <-]; cbn; destruct (N t) as [-> ->]; done|].
    destruct (pend t =? 0)%nat; intros [= <-]; done.
  - unfold drop_turn. destruct (dropper t), (park t) as [[| |[]]|], (poller t) eqn:P; intros [= <-]; cbn; unfold notify_one; rewrite ?P; done.
Qed.

(** Runs of quiet steps that satisfy a condition are as short as the work left. *)
Lemma quiet_run (P : ProgressShared -> Prop) n s s' :
  (forall t t', P t -> pinv t -> quiet t t' -> (work_left t' < work_left t)%nat) ->
  nsteps (fun t t' => quiet t t' /\ P t) n s s' -> pinv s ->
  (n <= work_left s)%nat /\ pinv s' /\ active s' = active s /\ (shutdown s = true -> shutdown s' = true).
Proof.
  intros D R. induction R as [s|n s t s' [Q Ps] R IH]; intros I; [split_and!; [lia|done..]|].
  destruct IH as (L & I' & A & S); [by eapply pinv_quiet|]. destruct (quiet_active _ _ Q) as [A1 S1].
  pose proof (D s t Ps I Q). split_and!; [lia|done|congruence|auto].
Qed.

(** ** Theorem *)

(** C26: The completion queue is polled while a transfer is in flight, and the
    poller is gone before the queue is.  [active] counts the guards and the
    [drive] calls under way exactly.  While a guard lives, wherever the other
    threads stand, the poller is at the queue after at most [work_left] steps
    of threads that can go on, and until then one can: no wake-up is lost.
    Once the driver's drop has begun, such steps end, again within
    [work_left], and only when the poller has returned and the drop has
    joined it. *)
Theorem progress_never_stalls n s s' (Hreach : reachable s) :
  active s = (guards s + pend s + driving (park s))%nat /\
  ((0 < guards s)%nat -> nsteps (fun t t' => quiet t t' /\ polls t = false) n s s' ->
     (n <= work_left s)%nat /\ (polls s' = true \/ exists s'', quiet s' s'')) /\
  (shutdown s = true -> nsteps (fun t t' => quiet t t' /\ shutdown t = true) n s s' ->
     (n <= work_left s)%nat /\ ((dropper s' = XJoined /\ poller s' = PDone) \/ exists s'', quiet s' s'')).
Proof.
  pose proof (reachable_inv s Hreach) as I. split; [apply I|]. split.
  - intros G R. destruct (quiet_run (fun t => polls t = false) n s s') as (L & I' & A & _); [|exact R|exact I|].
    { intros t t' P It Q. apply (work_decreases t t' It Q). left. intros E. unfold polls in P. rewrite E in P. discriminate. }
    split; [exact L|]. destruct (polls s') eqn:P; [by left|right]. apply (someone_moves s' I'); [|exact P].
    left. rewrite A, (pi_active s I). apply Nat.lt_le_trans with (guards s); [exact G|]. rewrite <- Nat.add_assoc. apply Nat.le_add_r.
  - intros S R. destruct (quiet_run (fun t => shutdown t = true) n s s') as (L & I' & _ & S'); [|exact R|exact I|].
    { intros t t' P It Q. apply (work_decreases t t' It Q). by right. }
    split; [exact L|]. destruct (dropper s') eqn:X; try (right; apply (joins_moves s' I'); [auto|by rewrite X]).
    left. split; [done|]. destruct I' as [_ _ _ _ _ _ _ _ J]. rewrite X in J. by destruct (poller s').
Qed.

(** *** Witness *)

(** The poller has gone to sleep; a transfer begins and wakes it. *)
Definition example_woken : ProgressShared :=
  {| active := 1; shutdown := false; park := None; poller := PWoken; pend := 0; guards := 1; dropper := XIdle |}.

Lemma example_woken_reachable : reachable example_woken.
Proof.
  do 4 (eapply rtc_l; [left; apply q_poll; vm_compute; reflexivity|]).
  eapply rtc_l; [right; apply e_drive; reflexivity|]. vm_compute.
  do 3 (eapply rtc_l; [left; apply q_drive; vm_compute; reflexivity|]). apply rtc_refl.
Qed.

Definition example_polling : ProgressShared :=
  {| active := 1; shutdown := false; park := None; poller := PRead; pend := 0; guards := 1; dropper := XIdle |}.

Lemma progress_never_stalls_witness :
  reachable example_woken /\ (4 <= work_left example_woken)%nat /\
  exists s', nsteps (fun t t' => quiet t t' /\ polls t = false) 4 example_woken s' /\ poller s' = PRead.
Proof.
  assert (R : nsteps (fun t t' => quiet t t' /\ polls t = false) 4 example_woken example_polling).
  { do 4 (eapply nsteps_l; [split; [apply q_poll; vm_compute; reflexivity|reflexivity]|]). apply nsteps_O. }
  destruct (progress_never_stalls 4 example_woken example_polling example_woken_reachable) as (_ & P & _).
  destruct (P (Nat.lt_0_succ 0) R) as [L _]. split; [exact example_woken_reachable|]. split; [exact L|].
  eexists. split; [exact R|reflexivity].
Defined.
