(* ===== verification/Tasks.v ===== *)
(** Tasks: the life of a connection's task ([src/src/worker.rs],
    [resp_connection_task], [memcache_connection_task], [ping_connection_task],
    [resp_append_task], [memcache_append_task], [establish_connection],
    [on_start]; [src/src/dma/connection.rs], [dma_connection_task];
    [src/src/sharded_counter.rs], [Gauge]) and the loop of the ping protocol
    ([drive_ping_workload]).

    A turn of a task is the code between two awaits: connect, HELLO, the
    precheck's PING, the drive loop, a sleep.  What the server answered and how
    the drive loop ended are arguments of the turn; the drive loops are in
    Workload, Append, Trace, KvDispatch and Dma.  [ph] is the sequence of the
    phases a turn reads, which another thread may change between two reads. *)

From Stdlib Require Import Sorted.
From S2P Require Import Prelude F64 Config Keys Limiter Metrics InFlight Reply Workload Startup.
Open Scope Z_scope.

(** ** [Gauge] *)

(** Plain arithmetic on [i64]. *)
Definition wrap_i64 (z : Z) : Z := (z + 2 ^ 63) mod 2 ^ 64 - 2 ^ 63.

(** One signed count per shard. *)
Abbreviation Gauge := (list Z).

Definition new_gauge : Gauge := replicate NUM_SHARDS 0.

(** [Gauge::add] on the thread of shard [shard]. *)
Definition gauge_add (shard : nat) (delta : Z) (g : Gauge) : Gauge := alter (fun x => wrap_i64 (x + delta)) shard g.

Definition gauge_increment (shard : nat) (g : Gauge) : Gauge := gauge_add shard 1 g.

Definition gauge_decrement (shard : nat) (g : Gauge) : Gauge := gauge_add shard (-1) g.

(** [Gauge::value]. *)
Definition gauge_value (g : Gauge) : Z := foldr (fun x acc => wrap_i64 (x + acc)) 0 g.

(** ** [establish_connection] *)

(** [answer] is the connect future's result, [None] when the bound passed
    first; [timer_ok] whether ringline had a timer for the bound. *)
Definition establish_connection (connect_timeout : Z) (timer_ok : bool) (answer : option bool) : bool * list metric :=
  let outcome := if connect_timeout =? 0 then answer else if timer_ok then answer else Some false in
  match outcome with
  | Some true => (true, [])
  | Some false | None => (false, [Count CONNECTIONS_FAILED 1; Count DISCONNECTS_CONNECT_FAILED 1])
  end.

(** ** A task *)

(** Which connection task; [kv] is set when it replays a KV-cache trace. *)
Inductive Kind :=
| RespTask (resp3 kv : bool)
| MemcacheTask (binary : bool)
| PingTask
| DmaTask
| RespAppendTask (resp3 : bool)
| MemcacheAppendTask.

(** Where a task awaits. *)
Inductive Stage :=
| AtTop
| Connecting
| Negotiating
| Asked
| Held (until : Z)
| Driving
| Asleep (until : Z)
| Returned.

(** [tk_open]: it holds a [CloseOnDrop]. *)
Record Task := { tk_stage : Stage; tk_open : bool }.

#[export] Instance Stage_eq_dec : EqDecision Stage.
Proof. solve_decision. Defined.

(** What a turn does to the state it shares. *)
Inductive TaskEffect :=
| Up
| Down
| Note (m : metric)
| PrecheckDone
| KvConnectFailed.

(** What woke a task. *)
Inductive Event :=
| Resume
| ConnectEnded (timer_ok : bool) (answer : option bool)
| Negotiated (ok : bool)
| Answered (ok : bool)
| DriveEnded (r : option DisconnectReason).

(** A writer's connections are counted apart. *)
Definition is_writer (k : Kind) : bool :=
  match k with RespAppendTask _ | MemcacheAppendTask => true | _ => false end.

Definition is_kv (k : Kind) : bool := match k with RespTask _ kv => kv | _ => false end.

(** Awaits an answer before any request: [HELLO 3], or the DMA hello. *)
Definition needs_hello (k : Kind) : bool :=
  match k with RespTask r _ | RespAppendTask r => r | DmaTask => true | _ => false end.

(** The end of the task, or of a pass of its loop: the guard is dropped. *)
Definition ended : Task := {| tk_stage := Returned; tk_open := false |}.

(** The head of the loop. *)
Definition top (ph : nat -> Phase) : Task :=
  if should_stop (ph 0%nat) then ended else {| tk_stage := Connecting; tk_open := false |}.

(** [sleep(100ms)] and [continue]: the guard is held across the sleep. *)
Definition nap (now : Z) (open : bool) : Task := {| tk_stage := Asleep (now + from_millis 100); tk_open := open |}.

(** A HELLO or a precheck the server did not answer well. *)
Definition turned_away (k : Kind) (now : Z) : Task * list TaskEffect :=
  (nap now true, [Down; Note (Count CONNECTIONS_FAILED 1)] ++ if is_kv k then [KvConnectFailed] else []).

Definition driving : Task := {| tk_stage := Driving; tk_open := true |}.

(** The wait for the phase to leave [Precheck]; [i] reads were made before. *)
Definition hold (ph : nat -> Phase) (i : nat) (now : Z) : Task * list TaskEffect :=
  if bool_decide (ph i = Precheck) then
    if should_stop (ph (S i)) then (ended, [Down])
    else ({| tk_stage := Held (now + from_millis 10); tk_open := true |}, [])
  else (driving, []).

(** From the client's construction, or its HELLO, to the drive loop. *)
Definition resp_negotiated (ph : nat -> Phase) (done : bool) : Task * list TaskEffect :=
  if bool_decide (ph 0%nat = Precheck) && negb done then ({| tk_stage := Asked; tk_open := true |}, [])
  else (driving, []).

(** The binary protocol asks nothing: the connection is the answer. *)
Definition memcache_negotiated (binary : bool) (ph : nat -> Phase) (done : bool) (now : Z) : Task * list TaskEffect :=
  if bool_decide (ph 0%nat = Precheck) && negb done then
    if binary then let (t, es) := hold ph 1 now in (t, PrecheckDone :: es)
    else ({| tk_stage := Asked; tk_open := true |}, [])
  else (driving, []).

Definition ping_negotiated (ph : nat -> Phase) (done : bool) : Task * list TaskEffect :=
  if bool_decide (ph 0%nat = Precheck) && negb done then ({| tk_stage := Asked; tk_open := true |}, [])
  else (driving, []).

(** The DMA hello is the answer. *)
Definition dma_negotiated (done : bool) : Task * list TaskEffect := (driving, if done then [] else [PrecheckDone]).

Definition negotiated (k : Kind) (ph : nat -> Phase) (done : bool) (now : Z) : Task * list TaskEffect :=
  match k with
  | RespTask _ _ => resp_negotiated ph done
  | MemcacheTask binary => memcache_negotiated binary ph done now
  | PingTask => ping_negotiated ph done
  | DmaTask => dma_negotiated done
  | RespAppendTask _ | MemcacheAppendTask => (driving, [])
  end.

(** The precheck's answer. *)
Definition asked_answered (k : Kind) (ok : bool) (ph : nat -> Phase) (now : Z) : Task * list TaskEffect :=
  if ok then let (t, es) := hold ph 0 now in (t, PrecheckDone :: es) else turned_away k now.

(** The connect's result. *)
Definition connect_ended (k : Kind) (connect_timeout : Z) (timer_ok : bool) (answer : option bool)
    (ph : nat -> Phase) (done : bool) (now : Z) : Task * list TaskEffect :=
  let (ok, log) := establish_connection connect_timeout timer_ok answer in
  if ok then
    if needs_hello k then ({| tk_stage := Negotiating; tk_open := true |}, [Up])
    else let (t, es) := negotiated k ph done now in (t, Up :: es)
  else (nap now false, map Note log ++ if is_kv k then [KvConnectFailed] else []).

(** The drive loop's result. *)
Definition task_ended (r : option DisconnectReason) (now : Z) : Task * list TaskEffect :=
  match r with
  | None => (ended, [Down])
  | Some r => (nap now true, [Down; Note (Count (disconnect_counter r) 1)])
  end.

Definition dma_ended (ph : nat -> Phase) : Task * list TaskEffect := (top ph, [Down]).

Definition drive_ended (k : Kind) (r : option DisconnectReason) (ph : nat -> Phase) (now : Z) : Task * list TaskEffect :=
  match k with DmaTask => dma_ended ph | _ => task_ended r now end.

(** One turn; [None] where the event does not answer what the task awaits. *)
Definition task_turn (k : Kind) (connect_timeout : Z) (e : Event) (ph : nat -> Phase) (done : bool) (now : Z)
    (t : Task) : option (Task * list TaskEffect) :=
  match tk_stage t, e with
  | AtTop, Resume => Some (top ph, [])
  | Connecting, ConnectEnded timer_ok answer => Some (connect_ended k connect_timeout timer_ok answer ph done now)
  | Negotiating, Negotiated ok => Some (if ok then negotiated k ph done now else turned_away k now)
  | Asked, Answered ok => Some (asked_answered k ok ph now)
  | Held until, Resume => if until <=? now then Some (hold ph 0 now) else None
  | Driving, DriveEnded r => Some (drive_ended k r ph now)
  | Asleep until, Resume => if until <=? now then Some (top ph, []) else None
  | _, _ => None
  end.

(** ** The tasks of a worker *)

Record TaskConfig := {
  tc_protocol : Protocol;
  tc_kv : bool;
  tc_total : Z;
  tc_threads : Z;
  tc_writers : option Z;
  tc_connect_timeout : Z;
}.

(** [spawn_protocol_tasks]: the task of a connection. *)
Definition reader_kind (c : TaskConfig) : Kind :=
  match tc_protocol c with
  | Resp_ => RespTask false (tc_kv c)
  | Resp3 => RespTask true (tc_kv c)
  | Config.Memcache => MemcacheTask false
  | MemcacheBinary => MemcacheTask true
  | Ping => PingTask
  | Dma_ => DmaTask
  end.

(** [spawn_append_tasks]: of a writer's; it has none for ping and DMA. *)
Definition writer_kind (c : TaskConfig) : option Kind :=
  match tc_protocol c with
  | Resp_ => Some (RespAppendTask false)
  | Resp3 => Some (RespAppendTask true)
  | Config.Memcache | MemcacheBinary => Some MemcacheAppendTask
  | Ping | Dma_ => None
  end.

(** What [on_start] asks ringline to spawn on worker [id]; [fabric] is
    [open_fabric]'s answer. *)
Definition on_start_tasks (c : TaskConfig) (fabric : bool) (w : WorkerState) (id : nat) : list (option Kind) :=
  (if bool_decide (tc_protocol c = Dma_) && negb fabric then []
   else replicate (Z.to_nat (ws_my_connections w)) (Some (reader_kind c))) ++
  match tc_writers c with
  | None => []
  | Some connections =>
      replicate (Z.to_nat (fst (connection_share connections (tc_threads c) (Z.of_nat id)))) (writer_kind c)
  end.

(** Those that were spawned, and the count of those that were not. *)
Fixpoint spawn (ok : nat -> bool) (i : nat) (ks : list (option Kind)) : list (Kind * Task) * list metric :=
  match ks with
  | [] => ([], [])
  | k :: ks =>
      let (ts, log) := spawn ok (S i) ks in
      if ok i then (match k with Some k => (k, {| tk_stage := AtTop; tk_open := false |}) :: ts | None => ts end, log)
      else (ts, Count CONNECTIONS_FAILED 1 :: log)
  end.

(** ** The workers of a run *)

(** [tn_started]: whether a worker's [on_start] has run. *)
Record TaskSys := {
  tn_workers : list (option WorkerState);
  tn_shared : SharedState;
  tn_started : list bool;
  tn_tasks : list (nat * Kind * Task);
  tn_active : Gauge;
  tn_append : Gauge;
  tn_log : list metric;
  tn_kv_failed : Z;
}.

#[export] Instance eta_TaskSys : Settable TaskSys := fun x =>
  {| tn_workers := tn_workers x; tn_shared := tn_shared x; tn_started := tn_started x; tn_tasks := tn_tasks x;
     tn_active := tn_active x; tn_append := tn_append x; tn_log := tn_log x; tn_kv_failed := tn_kv_failed x |}.

Definition new_tasks (threads : nat) : TaskSys :=
  {| tn_workers := replicate threads None; tn_shared := new_shared; tn_started := replicate threads false;
     tn_tasks := []; tn_active := new_gauge; tn_append := new_gauge; tn_log := []; tn_kv_failed := 0 |}.

(** An effect of a task of worker [i]. *)
Definition apply_effect (i : nat) (writer : bool) (S : TaskSys) (e : TaskEffect) : TaskSys :=
  match e with
  | Up => if writer then S <| tn_append := gauge_increment (thread_shard i) (tn_append S) |>
          else S <| tn_active := gauge_increment (thread_shard i) (tn_active S) |>
  | Down => if writer then S <| tn_append := gauge_decrement (thread_shard i) (tn_append S) |>
            else S <| tn_active := gauge_decrement (thread_shard i) (tn_active S) |>
  | Note m => S <| tn_log := tn_log S ++ [m] |>
  | PrecheckDone =>
      match tn_workers S !! i with
      | Some (Some w) =>
          let (w, s) := mark_precheck_done w (tn_shared S) in
          S <| tn_workers := <[i := Some w]> (tn_workers S) |> <| tn_shared := s |>
      | _ => S
      end
  | KvConnectFailed => S <| tn_kv_failed := wrap64 (tn_kv_failed S + 1) |>
  end.

(** What happens: a worker is created, its [on_start] runs, it ticks; the main
    thread sets the phase; a task takes a turn. *)
Inductive TaskLabel :=
| LCreate (i : nat) (recording : bool)
| LStart (i : nat) (fabric : bool) (ok : nat -> bool)
| LTick (i : nat)
| LPhase (p : Phase)
| LTurn (j : nat) (e : Event) (ph : nat -> Phase) (now : Z).

Definition worker_done (S : TaskSys) (i : nat) : bool :=
  match tn_workers S !! i with Some (Some w) => ws_precheck_done w | _ => false end.

Definition sys_step (c : TaskConfig) (l : TaskLabel) (S : TaskSys) : option TaskSys :=
  match l with
  | LCreate i recording =>
      match tn_workers S !! i with
      | Some None =>
          let (w, s) := create_for_worker (tc_total c) (tc_threads c) (Z.of_nat i) recording (tn_shared S) in
          Some (S <| tn_workers := <[i := Some w]> (tn_workers S) |> <| tn_shared := s |>)
      | _ => None
      end
  | LStart i fabric ok =>
      match tn_workers S !! i, tn_started S !! i with
      | Some (Some w), Some false =>
          let (ts, log) := spawn ok 0 (on_start_tasks c fabric w i) in
          Some (S <| tn_started := <[i := true]> (tn_started S) |>
                  <| tn_tasks := tn_tasks S ++ map (fun '(k, t) => (i, k, t)) ts |>
                  <| tn_log := tn_log S ++ log |> <| tn_shared := mark_worker_started (tn_shared S) |>)
      | _, _ => None
      end
  | LTick i =>
      match tn_workers S !! i with
      | Some (Some w) => Some (S <| tn_workers := <[i := Some (on_tick w (tn_shared S)).1]> (tn_workers S) |>)
      | _ => None
      end
  | LPhase p => Some (S <| tn_shared := set_phase p (tn_shared S) |>)
  | LTurn j e ph now =>
      '(i, k, t) ← tn_tasks S !! j;
      '(t, es) ← task_turn k (tc_connect_timeout c) e ph (worker_done S i) now t;
      Some (foldl (apply_effect i (is_writer k)) (S <| tn_tasks := <[j := (i, k, t)]> (tn_tasks S) |>) es)
  end.

Fixpoint sys_run (c : TaskConfig) (ls : list TaskLabel) (S : TaskSys) : option TaskSys :=
  match ls with
  | [] => Some S
  | l :: ls => S ← sys_step c l S; sys_run c ls S
  end.

#[export] Instance DisconnectReason_eq_dec : EqDecision DisconnectReason.
Proof. solve_decision. Defined.

(** A task that holds a connection counted as active. *)
Definition is_up (t : Task) : bool :=
  match tk_stage t with Negotiating | Asked | Held _ | Driving => true | _ => false end.

(** The tasks of a role that hold one. *)
Definition up_in (writer : bool) (x : nat * Kind * Task) : Z :=
  if Bool.eqb (is_writer x.1.2) writer && is_up x.2 then 1 else 0.

Definition up_count (writer : bool) (ts : list (nat * Kind * Task)) : Z := sum_counts (up_in writer <$> ts).

(** The failures a step reports: connects that fail, servers that answer HELLO
    or the precheck with an error, tasks that were not spawned. *)
Definition failed_in (c : TaskConfig) (l : TaskLabel) (S : TaskSys) : Z :=
  match l with
  | LStart i fabric ok =>
      match tn_workers S !! i with
      | Some (Some w) =>
          Z.of_nat (length (filter (fun n => ok n = false) (seq 0 (length (on_start_tasks c fabric w i)))))
      | _ => 0
      end
  | LTurn _ (ConnectEnded timer_ok a) _ _ => if (establish_connection (tc_connect_timeout c) timer_ok a).1 then 0 else 1
  | LTurn _ (Negotiated false) _ _ | LTurn _ (Answered false) _ _ => 1
  | _ => 0
  end.

(** The connections a step closes for reason [r]; DMA's own are left out. *)
Definition closed_in (r : DisconnectReason) (c : TaskConfig) (l : TaskLabel) (S : TaskSys) : Z :=
  match l with
  | LTurn _ (ConnectEnded timer_ok a) _ _ =>
      if (establish_connection (tc_connect_timeout c) timer_ok a).1 then 0 else if bool_decide (r = ConnectFailed) then 1 else 0
  | LTurn j (DriveEnded (Some r')) _ _ =>
      match tn_tasks S !! j with
      | Some (_, DmaTask, _) => 0
      | _ => if bool_decide (r = r') then 1 else 0
      end
  | _ => 0
  end.

(** A server's answer: what lets a connection pass the precheck. *)
Definition is_answer (k : Kind) (ct : Z) (e : Event) : bool :=
  match k, e with
  | DmaTask, Negotiated ok => ok
  | MemcacheTask true, ConnectEnded tm a => (establish_connection ct tm a).1
  | _, Answered ok => ok
  | _, _ => false
  end.

(** A server answered a connection of worker [i]. *)
Definition answered_in (i : nat) (c : TaskConfig) (l : TaskLabel) (S : TaskSys) : Z :=
  match l with
  | LTurn j e _ _ =>
      match tn_tasks S !! j with
      | Some (i', k, _) => if (i' =? i)%nat && is_answer k (tc_connect_timeout c) e then 1 else 0
      | None => 0
      end
  | _ => 0
  end.

(** A count summed over a run. *)
Fixpoint over_run (f : TaskConfig -> TaskLabel -> TaskSys -> Z) (c : TaskConfig) (ls : list TaskLabel) (S : TaskSys) : Z :=
  match ls with
  | [] => 0
  | l :: ls => match sys_step c l S with Some S' => f c l S + over_run f c ls S' | None => 0 end
  end.

(** ** Lemmas: gauges *)

Lemma wrap_i64_small z : - 2 ^ 63 <= z < 2 ^ 63 -> wrap_i64 z = z.
Proof. intros B. unfold wrap_i64. rewrite Z.mod_small; lia. Qed.

Lemma wrap_i64_add_l a b : wrap_i64 (wrap_i64 a + b) = wrap_i64 (a + b).
Proof.
  unfold wrap_i64. f_equal. replace ((a + 2 ^ 63) mod 2 ^ 64 - 2 ^ 63 + b + 2 ^ 63) with ((a + 2 ^ 63) mod 2 ^ 64 + b) by lia.
  rewrite Z.add_mod_idemp_l by lia. f_equal. lia.
Qed.

Lemma wrap_i64_add_r a b : wrap_i64 (a + wrap_i64 b) = wrap_i64 (a + b).
Proof. rewrite Z.add_comm, wrap_i64_add_l. f_equal. lia. Qed.

Lemma wrap_i64_wrap a : wrap_i64 (wrap_i64 a) = wrap_i64 a.
Proof. pose proof (wrap_i64_add_l a 0) as E. by rewrite !Z.add_0_r in E. Qed.

Lemma gauge_value_wrap g : wrap_i64 (gauge_value g) = gauge_value g.
Proof. destruct g as [|x g]; [by apply wrap_i64_small|]. exact (wrap_i64_wrap (x + gauge_value g)). Qed.

Lemma gauge_value_add shard d g :
  (shard < length g)%nat -> gauge_value (gauge_add shard d g) = wrap_i64 (gauge_value g + d).
Proof.
  revert shard. induction g as [|x g IH]; intros shard L; cbn in L; [lia|]. destruct shard as [|shard].
  - change (wrap_i64 (wrap_i64 (x + d) + gauge_value g) = wrap_i64 (wrap_i64 (x + gauge_value g) + d)).
    rewrite !wrap_i64_add_l. f_equal. lia.
  - change (wrap_i64 (x + gauge_value (gauge_add shard d g)) = wrap_i64 (wrap_i64 (x + gauge_value g) + d)).
    rewrite IH by lia. rewrite wrap_i64_add_r, wrap_i64_add_l. f_equal. lia.
Qed.

Lemma new_gauge_value : gauge_value new_gauge = 0.
Proof. vm_compute. reflexivity. Qed.

(** ** Lemmas: a turn *)

(** What a turn adds to its gauge. *)
Definition net (es : list TaskEffect) : Z :=
  sum_counts (map (fun e => match e with Up => 1 | Down => -1 | _ => 0 end) es).

Definition upZ (t : Task) : Z := if is_up t then 1 else 0.

Lemma net_cons e es : net (e :: es) = (match e with Up => 1 | Down => -1 | _ => 0 end) + net es.
Proof. done. Qed.

Lemma net_app es es' : net (es ++ es') = net es + net es'.
Proof. induction es as [|e es IH]; [done|]. cbn [app]. rewrite !net_cons, IH. lia. Qed.

Lemma net_notes log : net (map Note log) = 0.
Proof. induction log as [|m log IH]; [done|]. cbn [map]. by rewrite net_cons, IH. Qed.

(** The pieces of a turn: what they add, and where they leave the task. *)
Lemma top_up ph : upZ (top ph) = 0.
Proof. unfold top. by destruct (should_stop _). Qed.

Lemma hold_net ph i now : net (hold ph i now).2 = upZ (hold ph i now).1 - 1.
Proof. unfold hold. destruct (bool_decide _); [destruct (should_stop _)|]; done. Qed.

Lemma turned_away_net k now : net (turned_away k now).2 = upZ (turned_away k now).1 - 1.
Proof. unfold turned_away. by destruct (is_kv k). Qed.

Lemma negotiated_net k ph done now : net (negotiated k ph done now).2 = upZ (negotiated k ph done now).1 - 1.
Proof.
  unfold negotiated, resp_negotiated, memcache_negotiated, ping_negotiated, dma_negotiated. pose proof (hold_net ph 1 now) as Hn. destruct (hold ph 1 now) as [t es]. cbn in Hn.
  destruct k as [r kv|[]| | |r|], done; cbn [negb andb]; rewrite ?andb_true_r, ?andb_false_r;
    try destruct (bool_decide _); cbn [fst snd] in *; done.
Qed.

Lemma connect_ended_net k ct tm a ph done now :
  net (connect_ended k ct tm a ph done now).2 = upZ (connect_ended k ct tm a ph done now).1.
Proof.
  unfold connect_ended. destruct (establish_connection ct tm a) as [[] log].
  - destruct (needs_hello k); [done|]. pose proof (negotiated_net k ph done now) as Hn.
    destruct (negotiated k ph done now) as [t es]. cbn [fst snd] in *. change (Up :: es) with ([Up] ++ es).
    rewrite net_app, Hn. cbn. lia.
  - cbn [fst snd]. rewrite net_app, net_notes. by destruct (is_kv k).
Qed.

Lemma drive_ended_net k r ph now : net (drive_ended k r ph now).2 = upZ (drive_ended k r ph now).1 - 1.
Proof. pose proof (top_up ph) as Ht. destruct k, r; cbn in *; by rewrite ?Ht. Qed.

Lemma task_turn_net k ct e ph done now t t' es :
  task_turn k ct e ph done now t = Some (t', es) -> net es = upZ t' - upZ t.
Proof.
  unfold task_turn, asked_answered, upZ at 2, is_up.
  destruct (tk_stage t) eqn:St, e as [|tm a|ok|ok|r]; try done; intros T.
  - injection T as <- <-. rewrite top_up. done.
  - injection T as T. pose proof (connect_ended_net k ct tm a ph done now) as Hn. rewrite T in Hn. cbn [fst snd] in Hn.
    rewrite Hn. symmetry. apply Z.sub_0_r.
  - injection T as T. pose proof (negotiated_net k ph done now) as Hn. pose proof (turned_away_net k now) as Ha.
    destruct ok; [rewrite T in Hn|rewrite T in Ha]; done.
  - injection T as T. pose proof (hold_net ph 0 now) as Hn. pose proof (turned_away_net k now) as Ha. destruct ok.
    + destruct (hold ph 0 now) as [t1 es1]. injection T as <- <-. exact Hn.
    + by rewrite T in Ha.
  - destruct (_ <=? _); [|done]. injection T as T. pose proof (hold_net ph 0 now) as Hn. by rewrite T in Hn.
  - injection T as T. pose proof (drive_ended_net k r ph now) as Hn. by rewrite T in Hn.
  - destruct (_ <=? _); [|done]. injection T as <- <-. by rewrite top_up.
Qed.

(** What holds of a task between turns: a counted connection is open, and an
    open one is counted or waits out a sleep. *)
Definition guarded (t : Task) : Prop :=
  (is_up t = true -> tk_open t = true) /\ (tk_open t = true -> is_up t = true \/ exists u, tk_stage t = Asleep u).

Lemma guarded_top ph : guarded (top ph).
Proof. unfold top, guarded. by destruct (should_stop _). Qed.

Lemma guarded_nap now b : guarded (nap now b).
Proof. split; cbn; [done|]. intros _. right. by eexists. Qed.

Lemma guarded_up t : is_up t = true -> tk_open t = true -> guarded t.
Proof. split; auto. Qed.

Lemma guarded_ended : guarded ended.
Proof. done. Qed.

Lemma guarded_hold ph i now : guarded (hold ph i now).1.
Proof. unfold hold. destruct (bool_decide _); [destruct (should_stop _)|]; [apply guarded_ended|by apply guarded_up..]. Qed.

Lemma guarded_negotiated k ph done now : guarded (negotiated k ph done now).1.
Proof.
  unfold negotiated, resp_negotiated, memcache_negotiated, ping_negotiated, dma_negotiated. pose proof (guarded_hold ph 1 now) as G. destruct (hold ph 1 now) as [t es].
  destruct k as [r kv|[]| | |r|]; try (by apply guarded_up); destruct (bool_decide _ && _); try (by apply guarded_up); exact G.
Qed.

Lemma guarded_turned_away k now : guarded (turned_away k now).1.
Proof. apply guarded_nap. Qed.

Lemma guarded_connect_ended k ct tm a ph done now : guarded (connect_ended k ct tm a ph done now).1.
Proof.
  unfold connect_ended. destruct (establish_connection ct tm a) as [[] log]; [|apply guarded_nap].
  destruct (needs_hello k); [by apply guarded_up|]. pose proof (guarded_negotiated k ph done now) as G.
  by destruct (negotiated k ph done now).
Qed.

Lemma guarded_drive_ended k r ph now : guarded (drive_ended k r ph now).1.
Proof. destruct k, r; cbn; (apply guarded_top || apply guarded_ended || apply guarded_nap). Qed.

Lemma task_turn_guarded k ct e ph done now t t' es :
  task_turn k ct e ph done now t = Some (t', es) -> guarded t'.
Proof.
  unfold task_turn, asked_answered. destruct (tk_stage t), e as [|tm a|ok|ok|r]; try done.
  - intros [= <- _]. apply guarded_top.
  - pose proof (guarded_connect_ended k ct tm a ph done now) as G. intros [= E]. by rewrite E in G.
  - pose proof (guarded_negotiated k ph done now) as G. pose proof (guarded_turned_away k now) as Ga.
    destruct ok; intros [= E]; [by rewrite E in G|by subst].
  - pose proof (guarded_hold ph 0 now) as G. pose proof (guarded_turned_away k now) as Ga. destruct ok.
    + destruct (hold ph 0 now). intros [= <- _]. exact G.
    + intros [= E]. by subst.
  - pose proof (guarded_hold ph 0 now) as G. destruct (_ <=? _); [|done]. intros [= E]. by rewrite E in G.
  - pose proof (guarded_drive_ended k r ph now) as G. intros [= E]. by rewrite E in G.
  - destruct (_ <=? _); [|done]. intros [= <- _]. apply guarded_top.
Qed.

(** ** Lemmas: effects *)

Definition gauge_of (writer : bool) (S : TaskSys) : Gauge := if writer then tn_append S else tn_active S.

(** The parts of the state effects do not touch. *)
Lemma effects_frame i w es S :
  tn_tasks (foldl (apply_effect i w) S es) = tn_tasks S /\
  tn_started (foldl (apply_effect i w) S es) = tn_started S.
Proof.
  revert S. induction es as [|e es IH]; intros S; [done|]. cbn [foldl].
  destruct (IH (apply_effect i w S e)) as [-> ->].
  destruct e, w; cbn; try done; destruct (tn_workers S !! i) as [[x|]|]; try done; by destruct (mark_precheck_done _ _).
Qed.

Lemma effect_gauge b i w S e :
  length (gauge_of b S) = NUM_SHARDS ->
  length (gauge_of b (apply_effect i w S e)) = NUM_SHARDS /\
  gauge_value (gauge_of b (apply_effect i w S e)) =
  wrap_i64 (gauge_value (gauge_of b S) + (if Bool.eqb w b then net [e] else 0)).
Proof.
  intros L. assert (Sh : (thread_shard i < NUM_SHARDS)%nat) by (apply Nat.mod_upper_bound; discriminate).
  assert (Same : forall S', gauge_of b S' = gauge_of b S -> (if Bool.eqb w b then net [e] else 0) = 0 ->
    length (gauge_of b S') = NUM_SHARDS /\
    gauge_value (gauge_of b S') = wrap_i64 (gauge_value (gauge_of b S) + (if Bool.eqb w b then net [e] else 0))).
  { intros S' E ->. rewrite E, Z.add_0_r, gauge_value_wrap. done. }
  assert (Add : forall d, length (gauge_add (thread_shard i) d (gauge_of b S)) = NUM_SHARDS /\
    gauge_value (gauge_add (thread_shard i) d (gauge_of b S)) = wrap_i64 (gauge_value (gauge_of b S) + d)).
  { intros d. split; [by unfold gauge_add; rewrite length_alter|]. apply gauge_value_add. by rewrite L. }
  destruct e; cbn [apply_effect].
  - destruct w, b; cbn [Bool.eqb]; (apply Add || by apply Same).
  - destruct w, b; cbn [Bool.eqb]; (apply Add || by apply Same).
  - apply Same; [by destruct b|by destruct (Bool.eqb w b)].
  - apply Same; [|by destruct (Bool.eqb w b)]. destruct (tn_workers S !! i) as [[x|]|]; try done.
    destruct (mark_precheck_done _ _). by destruct b.
  - apply Same; [by destruct b|by destruct (Bool.eqb w b)].
Qed.

Lemma effects_gauge b i w es S :
  length (gauge_of b S) = NUM_SHARDS ->
  length (gauge_of b (foldl (apply_effect i w) S es)) = NUM_SHARDS /\
  gauge_value (gauge_of b (foldl (apply_effect i w) S es)) =
  wrap_i64 (gauge_value (gauge_of b S) + (if Bool.eqb w b then net es else 0)).
Proof.
  revert S. induction es as [|e es IH]; intros S L; cbn [foldl].
  - split; [done|]. replace (if Bool.eqb w b then net [] else 0) with 0 by (by destruct (Bool.eqb w b)).
    by rewrite Z.add_0_r, gauge_value_wrap.
  - destruct (effect_gauge b i w S e L) as [L1 E1]. destruct (IH _ L1) as [L2 E2]. split; [done|].
    rewrite E2, E1, wrap_i64_add_l. f_equal. rewrite (net_cons e es). pose proof (net_cons e []) as N1.
    destruct (Bool.eqb w b); [|lia]. rewrite N1. change (net []) with 0. lia.
Qed.

(** ** Lemmas: the system *)

Lemma sum_counts_app l l' : sum_counts (l ++ l') = sum_counts l + sum_counts l'.
Proof. unfold sum_counts. induction l as [|x l IH]; cbn; lia. Qed.

Lemma up_count_insert b ts j x y :
  ts !! j = Some x -> up_count b (<[j := y]> ts) = up_count b ts - up_in b x + up_in b y.
Proof.
  intros E. unfold up_count. rewrite list_fmap_insert, sum_counts_insert by (rewrite length_map; by eapply lookup_lt_Some).
  assert (nth j (up_in b <$> ts) 0 = up_in b x) as -> by (by rewrite nth_lookup, list_lookup_fmap, E). lia.
Qed.

Lemma spawn_at_top ok n ks : Forall (fun x => x.2 = {| tk_stage := AtTop; tk_open := false |}) (spawn ok n ks).1.
Proof.
  revert n. induction ks as [|k ks IH]; intros n; cbn [spawn]; [by apply Forall_nil|].
  specialize (IH (S n)). destruct (spawn ok (S n) ks) as [ts log]. destruct (ok n); [|exact IH].
  destruct k; [|exact IH]. by apply Forall_cons.
Qed.

Lemma up_count_fresh b i (ts : list (Kind * Task)) :
  Forall (fun x => x.2 = {| tk_stage := AtTop; tk_open := false |}) ts ->
  up_count b (map (fun '(k, t) => (i, k, t)) ts) = 0.
Proof.
  induction 1 as [|[k t] ts T _ IH]; [done|]. cbn in T. subst t. unfold up_count in *. cbn [map]. rewrite fmap_cons.
  change (sum_counts (?x :: ?l)) with (x + sum_counts l). rewrite IH. unfold up_in. cbn. by rewrite andb_false_r.
Qed.

Lemma up_count_bound b ts : 0 <= up_count b ts <= Z.of_nat (length ts).
Proof.
  unfold up_count. induction ts as [|x ts IH]; [done|]. rewrite fmap_cons. cbn [length].
  change (sum_counts (?x :: ?l)) with (x + sum_counts l). unfold up_in at 1 3. destruct (_ && _); lia.
Qed.

(** The gauges follow the tasks, whose sockets follow their stages. *)
Record tasks_inv (S : TaskSys) : Prop := {
  ti_sized : forall b, length (gauge_of b S) = NUM_SHARDS;
  ti_gauge : forall b, gauge_value (gauge_of b S) = wrap_i64 (up_count b (tn_tasks S));
  ti_guarded : Forall (fun x => guarded x.2) (tn_tasks S);
}.

Lemma tasks_inv_same S S' :
  tn_tasks S' = tn_tasks S -> (forall b, gauge_of b S' = gauge_of b S) -> tasks_inv S -> tasks_inv S'.
Proof. intros T G [L V Gd]. split; [intros b; by rewrite G|intros b; by rewrite G, T|by rewrite T]. Qed.

Lemma tasks_inv_step c l S S' : sys_step c l S = Some S' -> tasks_inv S -> tasks_inv S'.
Proof.
  intros E I. destruct l as [i recording|i fabric ok|i|p|j e ph now]; cbn [sys_step] in E.
  - destruct (tn_workers S !! i) as [[x|]|]; [done| |done]. destruct (create_for_worker _ _ _ _ _) as [w s].
    injection E as <-. apply (tasks_inv_same S); [done|by intros []|done].
  - destruct (tn_workers S !! i) as [[x|]|]; [|done..]. destruct (tn_started S !! i) as [[]|]; [done| |done].
    pose proof (spawn_at_top ok 0 (on_start_tasks c fabric x i)) as F. destruct (spawn _ _ _) as [ts log].
    injection E as <-. destruct I as [L V G]. split.
    + intros b. specialize (L b). by destruct b.
    + intros b. specialize (V b). cbn [tn_tasks]. unfold up_count in *.
      assert (gauge_of b (S <| tn_started := <[i:=true]> (tn_started S) |>
        <| tn_tasks := tn_tasks S ++ map (fun '(k, t) => (i, k, t)) ts |> <| tn_log := tn_log S ++ log |>
        <| tn_shared := mark_worker_started (tn_shared S) |>) = gauge_of b S) as -> by (by destruct b).
      rewrite V. change (tn_tasks _) with (tn_tasks S ++ map (fun '(k, t) => (i, k, t)) ts) at 2.
      rewrite fmap_app, sum_counts_app. pose proof (up_count_fresh b i ts F) as Z0. unfold up_count in Z0. by rewrite Z0, Z.add_0_r.
    + cbn. apply Forall_app. split; [exact G|]. apply Forall_map. eapply Forall_impl; [exact F|].
      intros [k t]. cbn. intros ->. split; done.
  - destruct (tn_workers S !! i) as [[x|]|]; [|done..]. injection E as <-. apply (tasks_inv_same S); [done|by intros []|done].
  - injection E as <-. apply (tasks_inv_same S); [done|by intros []|done].
  - destruct (tn_tasks S !! j) as [[[i k] t]|] eqn:Ej; cbn [mbind option_bind] in E; [|done].
    destruct (task_turn _ _ _ _ _ _ _) as [[t' es]|] eqn:T; cbn [mbind option_bind] in E; [|done].
    injection E as <-. destruct I as [L V G]. set (S1 := S <| tn_tasks := _ |>).
    destruct (effects_frame i (is_writer k) es S1) as [Ft _].
    assert (G1 : forall b, gauge_of b S1 = gauge_of b S) by (by intros []).
    split.
    + intros b. apply effects_gauge. by rewrite G1.
    + intros b. rewrite Ft. destruct (effects_gauge b i (is_writer k) es S1) as [_ ->]; [by rewrite G1|].
      rewrite G1, V, wrap_i64_add_l. f_equal. cbn [tn_tasks S1].
      change (tn_tasks S1) with (<[j:=(i, k, t')]> (tn_tasks S)). rewrite (up_count_insert _ _ _ _ _ Ej).
      apply task_turn_net in T. unfold up_in, upZ in *. cbn [fst snd]. destruct (Bool.eqb _ _); cbn [andb]; lia.
    + rewrite Ft. apply Forall_insert; [exact G|]. by eapply task_turn_guarded.
Qed.

Lemma tasks_inv_new threads : tasks_inv (new_tasks threads).
Proof.
  split; [by intros []| |by apply Forall_nil]. intros b. replace (gauge_of b _) with new_gauge by (by destruct b).
  rewrite new_gauge_value. done.
Qed.

Lemma sys_run_inv (P : TaskSys -> Prop) c ls S S' :
  (forall l S S', sys_step c l S = Some S' -> P S -> P S') -> sys_run c ls S = Some S' -> P S -> P S'.
Proof.
  intros St. revert S. induction ls as [|l ls IH]; intros S; cbn [sys_run]; [by intros [= <-]|].
  destruct (sys_step c l S) as [S1|] eqn:E; cbn [mbind option_bind]; [|done]. intros R I.
  eapply IH; [exact R|]. by eapply St.
Qed.

(** C14: The connection gauges count connections.  However the tasks of all
    workers interleave, whatever the servers answer and whatever the drive
    loops end with, [connections_active] is the number of connection tasks that
    are past their connect and not yet back from it, and
    [append_connections_active] that of the writers; each of those holds an
    open connection, and any other open connection is of a task that sleeps
    before it reconnects. *)
Theorem connections_gauge_exact c ls threads S :
  sys_run c ls (new_tasks threads) = Some S -> Z.of_nat (length (tn_tasks S)) < 2 ^ 63 ->
  gauge_value (tn_active S) = up_count false (tn_tasks S) /\
  gauge_value (tn_append S) = up_count true (tn_tasks S) /\
  Forall (fun x => (is_up x.2 = true -> tk_open x.2 = true) /\
                   (tk_open x.2 = true -> is_up x.2 = true \/ exists u, tk_stage x.2 = Asleep u)) (tn_tasks S).
Proof.
  intros R B. destruct (sys_run_inv tasks_inv c ls _ S (tasks_inv_step c) R (tasks_inv_new threads)) as [_ V G].
  pose proof (up_count_bound false (tn_tasks S)). pose proof (up_count_bound true (tn_tasks S)).
  split; [|split; [|exact G]].
  - etransitivity; [exact (V false)|]. apply wrap_i64_small. lia.
  - etransitivity; [exact (V true)|]. apply wrap_i64_small. lia.
Qed.

(** ** Failures and disconnects *)

(** What a turn records. *)
Definition notes (es : list TaskEffect) : list metric :=
  concat (map (fun e => match e with Note m => [m] | _ => [] end) es).

Lemma notes_app es es' : notes (es ++ es') = notes es ++ notes es'.
Proof. unfold notes. by rewrite map_app, concat_app. Qed.

Lemma notes_map log : notes (map Note log) = log.
Proof. induction log as [|m log IH]; [done|]. cbn. by f_equal. Qed.

Lemma effects_log i w es S : tn_log (foldl (apply_effect i w) S es) = tn_log S ++ notes es.
Proof.
  revert S. induction es as [|e es IH]; intros S; cbn [foldl]; [by rewrite app_nil_r|]. rewrite IH.
  change (notes (e :: es)) with (match e with Note m => [m] | _ => [] end ++ notes es). rewrite app_assoc. f_equal.
  destruct e, w; cbn; rewrite ?app_nil_r; try done; destruct (tn_workers S !! i) as [[x|]|]; try done;
    by destruct (mark_precheck_done _ _).
Qed.

(** What an event says of the server, and of the connection. *)
Definition turn_failed (ct : Z) (e : Event) : Z :=
  match e with
  | ConnectEnded tm a => if (establish_connection ct tm a).1 then 0 else 1
  | Negotiated false | Answered false => 1
  | _ => 0
  end.

Definition turn_closed (r : DisconnectReason) (k : Kind) (ct : Z) (e : Event) : Z :=
  match e with
  | ConnectEnded tm a => if (establish_connection ct tm a).1 then 0 else if bool_decide (r = ConnectFailed) then 1 else 0
  | DriveEnded (Some r') => match k with DmaTask => 0 | _ => if bool_decide (r = r') then 1 else 0 end
  | _ => 0
  end.

Lemma hold_notes ph i now : notes (hold ph i now).2 = [].
Proof. unfold hold. destruct (bool_decide _); [destruct (should_stop _)|]; done. Qed.

Lemma negotiated_notes k ph done now : notes (negotiated k ph done now).2 = [].
Proof.
  unfold negotiated, resp_negotiated, memcache_negotiated, ping_negotiated, dma_negotiated. pose proof (hold_notes ph 1 now) as Hn. destruct (hold ph 1 now) as [t es].
  destruct k as [r kv|[]| | |r|]; try done; try (by destruct (bool_decide _ && _)); by destruct done.
Qed.

Lemma turned_away_notes k now : notes (turned_away k now).2 = [Count CONNECTIONS_FAILED 1].
Proof. unfold turned_away. by destruct (is_kv k). Qed.

Lemma establish_log ct tm a :
  (establish_connection ct tm a).2 =
  if (establish_connection ct tm a).1 then [] else [Count CONNECTIONS_FAILED 1; Count DISCONNECTS_CONNECT_FAILED 1].
Proof.
  unfold establish_connection.
  by destruct (if ct =? 0 then a else if tm then a else Some false) as [[]|].
Qed.

Lemma connect_ended_notes k ct tm a ph done now :
  notes (connect_ended k ct tm a ph done now).2 = (establish_connection ct tm a).2.
Proof.
  pose proof (establish_log ct tm a) as El. unfold connect_ended. destruct (establish_connection ct tm a) as [[] log]; cbn in El.
  - subst log. destruct (needs_hello k); [done|]. pose proof (negotiated_notes k ph done now) as N.
    by destruct (negotiated k ph done now).
  - cbn [fst snd]. rewrite notes_app, notes_map. destruct (is_kv k); apply app_nil_r.
Qed.

(** What a turn records is what its event says. *)
Lemma task_turn_notes k ct e ph done now t t' es :
  task_turn k ct e ph done now t = Some (t', es) ->
  notes es = match e with
             | ConnectEnded tm a => (establish_connection ct tm a).2
             | Negotiated false | Answered false => [Count CONNECTIONS_FAILED 1]
             | DriveEnded (Some r) => match k with DmaTask => [] | _ => [Count (disconnect_counter r) 1] end
             | _ => []
             end.
Proof.
  unfold task_turn, asked_answered. destruct (tk_stage t), e as [|tm a|ok|ok|r]; try done.
  - by intros [= _ <-].
  - pose proof (connect_ended_notes k ct tm a ph done now) as N. intros [= E]. by rewrite E in N.
  - pose proof (negotiated_notes k ph done now) as N. pose proof (turned_away_notes k now) as Na.
    destruct ok; intros [= E]; [by rewrite E in N|by subst].
  - pose proof (hold_notes ph 0 now) as N. pose proof (turned_away_notes k now) as Na. destruct ok.
    + destruct (hold ph 0 now). intros [= _ <-]. exact N.
    + intros [= E]. by subst.
  - pose proof (hold_notes ph 0 now) as N. destruct (_ <=? _); [|done]. intros [= E]. by rewrite E in N.
  - intros [= E]. apply (f_equal snd) in E. cbn in E. subst es. by destruct k, r.
  - destruct (_ <=? _); [|done]. by intros [= _ <-].
Qed.

Lemma disconnect_counter_inj r r' : disconnect_counter r = disconnect_counter r' -> r = r'.
Proof. by destruct r, r'. Qed.

Lemma counted_disconnect r r' : counted (disconnect_counter r) [Count (disconnect_counter r') 1] = if bool_decide (r = r') then 1 else 0.
Proof. destruct r, r'; vm_compute; reflexivity. Qed.

Lemma task_turn_counts k ct e ph done now t t' es :
  task_turn k ct e ph done now t = Some (t', es) ->
  counted CONNECTIONS_FAILED (notes es) = turn_failed ct e /\
  forall r, counted (disconnect_counter r) (notes es) = turn_closed r k ct e.
Proof.
  intros T. rewrite (task_turn_notes _ _ _ _ _ _ _ _ _ T). destruct e as [|tm a|[]|[]|[r'|]]; try (by split; [|intros []]).
  - rewrite establish_log. unfold turn_failed, turn_closed. destruct (establish_connection ct tm a).1; split; try done; by intros [].
  - split; [by destruct k, r'|]. intros r. unfold turn_closed. destruct k; try apply counted_disconnect. done.
Qed.

(** Spawns refused are counted one by one. *)
Lemma spawn_log ok n ks :
  counted CONNECTIONS_FAILED (spawn ok n ks).2 =
    Z.of_nat (length (filter (fun m => ok m = false) (seq n (length ks)))) /\
  forall r, counted (disconnect_counter r) (spawn ok n ks).2 = 0.
Proof.
  revert n. induction ks as [|k ks IH]; intros n; [by split; [|intros []]|]. cbn [spawn length seq].
  destruct (IH (S n)) as [E D]. destruct (spawn ok (S n) ks) as [ts log]. cbn [snd] in E, D. rewrite filter_cons.
  destruct (ok n); case_decide; try done; cbn [snd]; (split; [|intros r]).
  - rewrite counted_same, E. cbn [length]. lia.
  - cbn. rewrite D. by destruct r.
Qed.

Lemma sys_step_counts c l S S' :
  sys_step c l S = Some S' ->
  counted CONNECTIONS_FAILED (tn_log S') = counted CONNECTIONS_FAILED (tn_log S) + failed_in c l S /\
  forall r, counted (disconnect_counter r) (tn_log S') = counted (disconnect_counter r) (tn_log S) + closed_in r c l S.
Proof.
  intros E. assert (Same : tn_log S' = tn_log S -> failed_in c l S = 0 -> (forall r, closed_in r c l S = 0) ->
    counted CONNECTIONS_FAILED (tn_log S') = counted CONNECTIONS_FAILED (tn_log S) + failed_in c l S /\
    forall r, counted (disconnect_counter r) (tn_log S') = counted (disconnect_counter r) (tn_log S) + closed_in r c l S).
  { intros -> -> Z0. split; [lia|]. intros r. rewrite Z0. lia. }
  destruct l as [i recording|i fabric ok|i|p|j e ph now]; cbn [sys_step] in E.
  - destruct (tn_workers S !! i) as [[x|]|]; [done| |done]. destruct (create_for_worker _ _ _ _ _) as [w s].
    injection E as <-. by apply Same.
  - clear Same. cbn [failed_in closed_in]. destruct (tn_workers S !! i) as [[x|]|]; [|done..].
    destruct (tn_started S !! i) as [[]|]; [done| |done].
    destruct (spawn_log ok 0 (on_start_tasks c fabric x i)) as [Ec Er]. destruct (spawn _ _ _) as [ts log].
    injection E as <-. cbn [tn_log snd] in *. split; [|intros r]; cbn; rewrite counted_app.
    + by rewrite Ec.
    + by rewrite Er.
  - destruct (tn_workers S !! i) as [[x|]|]; [|done..]. injection E as <-. by apply Same.
  - injection E as <-. by apply Same.
  - clear Same. cbn [failed_in closed_in]. destruct (tn_tasks S !! j) as [[[i k] t]|]; cbn [mbind option_bind] in E; [|done].
    destruct (task_turn _ _ _ _ _ _ _) as [[t' es]|] eqn:T; cbn [mbind option_bind] in E; [|done].
    injection E as <-. destruct (task_turn_counts _ _ _ _ _ _ _ _ _ T) as [Ec Er]. rewrite effects_log.
    split; [|intros r]; rewrite counted_app; cbn [tn_log].
    + rewrite Ec. by destruct e as [|tm a|[]|[]|r'].
    + rewrite Er. by destruct e as [|tm a|[]|[]|[r'|]].
Qed.

(** Failures are counted where they happen.  Over any run,
    [connections_failed] is the number of connects that failed or ran into
    their bound, of servers that answered HELLO or the precheck with an error,
    and of tasks that could not be spawned; and each disconnect counter is the
    number of connections that ended for its reason, a DMA connection's own end
    excepted, which no counter shows. *)
Theorem failures_counted c ls threads S :
  sys_run c ls (new_tasks threads) = Some S ->
  counted CONNECTIONS_FAILED (tn_log S) = over_run failed_in c ls (new_tasks threads) /\
  forall r, counted (disconnect_counter r) (tn_log S) = over_run (closed_in r) c ls (new_tasks threads).
Proof.
  assert (G : forall ls S0, sys_run c ls S0 = Some S ->
    counted CONNECTIONS_FAILED (tn_log S) = counted CONNECTIONS_FAILED (tn_log S0) + over_run failed_in c ls S0 /\
    forall r, counted (disconnect_counter r) (tn_log S) = counted (disconnect_counter r) (tn_log S0) + over_run (closed_in r) c ls S0).
  { clear ls. induction ls as [|l ls IH]; intros S0; cbn [sys_run over_run].
    - intros [= <-]. split; [lia|]. intros r. lia.
    - destruct (sys_step c l S0) as [S1|] eqn:E; cbn [mbind option_bind]; [|done]. intros R.
      destruct (IH S1 R) as [-> Hr]. destruct (sys_step_counts c l S0 S1 E) as [-> Hr1]. split; [lia|].
      intros r. rewrite Hr, Hr1. lia. }
  intros R. destruct (G ls _ R) as [E Er]. split; [exact E|]. intros r. rewrite Er. by destruct r.
Qed.

(** ** The end of a run *)

(** The turns a task has left once the phase is [Stop]. *)
Definition stop_rank (t : Task) : nat :=
  match tk_stage t with
  | Returned => 0 | AtTop | Asleep _ => 1 | Driving => 2 | Held _ => 3 | Asked => 4 | Negotiating => 5 | Connecting => 6
  end.

Definition ranks (ts : list (nat * Kind * Task)) : nat := sum_list_with (fun x => stop_rank x.2) ts.

Definition stopped (n : nat) : Phase := Stop.

(** A turn at [Stop], or a tick. *)
Definition stop_label (l : TaskLabel) : Prop :=
  match l with LTurn _ _ ph _ => forall n, ph n = Stop | LTick _ => True | _ => False end.

Definition is_turn (l : TaskLabel) : nat := match l with LTurn _ _ _ _ => 1 | _ => 0 end.

Lemma top_stop ph : (forall n, ph n = Stop) -> top ph = ended.
Proof. intros H. unfold top. by rewrite H. Qed.

Lemma hold_stop ph i now : (forall n, ph n = Stop) -> hold ph i now = (driving, []).
Proof. intros H. unfold hold. by rewrite H. Qed.

Lemma negotiated_stop k ph done now : (forall n, ph n = Stop) -> (negotiated k ph done now).1 = driving.
Proof. intros H. unfold negotiated, resp_negotiated, memcache_negotiated, ping_negotiated, dma_negotiated. rewrite H. by destruct k. Qed.

Lemma connect_ended_stop k ct tm a ph done now :
  (forall n, ph n = Stop) -> (stop_rank (connect_ended k ct tm a ph done now).1 < 6)%nat.
Proof.
  intros H. unfold connect_ended. destruct (establish_connection ct tm a) as [[] log]; [|cbn; lia].
  destruct (needs_hello k); [cbn; lia|]. pose proof (negotiated_stop k ph done now H) as E.
  destruct (negotiated k ph done now) as [t es]. cbn in *. subst. cbn. lia.
Qed.

Lemma drive_ended_stop k r ph now : (forall n, ph n = Stop) -> (stop_rank (drive_ended k r ph now).1 < 2)%nat.
Proof. intros H. destruct k, r; cbn [drive_ended dma_ended task_ended fst]; rewrite ?(top_stop ph H); cbn; lia. Qed.

(** Every turn at [Stop] brings the task closer to its end. *)
Lemma task_turn_stop k ct e ph done now t t' es :
  (forall n, ph n = Stop) -> task_turn k ct e ph done now t = Some (t', es) -> (stop_rank t' < stop_rank t)%nat.
Proof.
  intros H. unfold task_turn, asked_answered, stop_rank at 2. destruct (tk_stage t), e as [|tm a|ok|ok|r]; try done.
  - rewrite top_stop by done. intros [= <- _]. cbn. lia.
  - pose proof (connect_ended_stop k ct tm a ph done now H) as N. intros [= E]. by rewrite E in N.
  - pose proof (negotiated_stop k ph done now H) as N. destruct ok; intros [= E].
    + rewrite E in N. cbn in N. subst. cbn. lia.
    + subst. cbn. lia.
  - destruct ok.
    + rewrite hold_stop by done. intros [= <- _]. cbn. lia.
    + intros [= <- _]. cbn. lia.
  - destruct (_ <=? _); [|done]. rewrite hold_stop by done. intros [= <- _]. cbn. lia.
  - pose proof (drive_ended_stop k r ph now H) as N. intros [= E]. by rewrite E in N.
  - destruct (_ <=? _); [|done]. rewrite top_stop by done. intros [= <- _]. cbn. lia.
Qed.

(** Every task that has not returned has a turn to take. *)
Lemma task_turn_some k ct ph done t :
  tk_stage t <> Returned -> exists e now, is_Some (task_turn k ct e ph done now t).
Proof.
  intros N. unfold task_turn, asked_answered. destruct (tk_stage t) as [| | | |u| |u|]; [| | | | | | |done].
  - by exists Resume, 0.
  - by exists (ConnectEnded true (Some true)), 0.
  - by exists (Negotiated true), 0.
  - exists (Answered true), 0. destruct (hold ph 0 0). by eexists.
  - exists Resume, u. rewrite Z.leb_refl. by eexists.
  - by exists (DriveEnded None), 0.
  - exists Resume, u. rewrite Z.leb_refl. by eexists.
Qed.

Lemma ranks_insert ts j x y :
  ts !! j = Some x -> (ranks (<[j := y]> ts) + stop_rank x.2 = ranks ts + stop_rank y.2)%nat.
Proof.
  unfold ranks. revert j. induction ts as [|z ts IH]; intros [|j]; cbn -[stop_rank]; try done; [intros [= ->]; lia|].
  intros E. specialize (IH j E). unfold insert in *. lia.
Qed.

Lemma stop_step c l S S' :
  stop_label l -> sys_step c l S = Some S' -> (is_turn l + ranks (tn_tasks S') <= ranks (tn_tasks S))%nat /\
  length (tn_tasks S') = length (tn_tasks S).
Proof.
  intros L E. destruct l as [| |i| |j e ph now]; try done; cbn [sys_step] in E.
  - destruct (tn_workers S !! i) as [[x|]|]; [|done..]. by injection E as <-.
  - destruct (tn_tasks S !! j) as [[[i k] t]|] eqn:Ej; cbn [mbind option_bind] in E; [|done].
    destruct (task_turn _ _ _ _ _ _ _) as [[t' es]|] eqn:T; cbn [mbind option_bind] in E; [|done].
    apply task_turn_stop in T; [|done]. injection E as <-. rewrite (proj1 (effects_frame i (is_writer k) es _)).
    cbn [tn_tasks is_turn]. change (tn_tasks (_ <| tn_tasks := ?l |>)) with l.
    pose proof (ranks_insert _ _ _ (i, k, t') Ej) as R. cbn [snd] in R. split; [lia|apply length_insert].
Qed.

Lemma ranks_bound ts : (ranks ts <= 6 * length ts)%nat.
Proof.
  unfold ranks. induction ts as [|x ts IH]; cbn [sum_list_with length]; [lia|].
  assert (stop_rank x.2 <= 6)%nat by (unfold stop_rank; destruct (tk_stage x.2); lia). lia.
Qed.

(** C28: A run that is stopped ends.  Once every phase read is [Stop], the tasks
    take at most six turns each, whatever the servers answer and the drive
    loops report; and when none can take another, every task has returned. *)
Theorem tasks_return c ls S S' :
  Forall stop_label ls -> sys_run c ls S = Some S' ->
  (sum_list_with is_turn ls <= 6 * length (tn_tasks S))%nat /\
  ((forall j e now, sys_step c (LTurn j e stopped now) S' = None) ->
   Forall (fun x => tk_stage x.2 = Returned) (tn_tasks S')).
Proof.
  intros L R. split.
  - assert (G : (sum_list_with is_turn ls + ranks (tn_tasks S') <= ranks (tn_tasks S))%nat).
    { revert S R. induction L as [|l ls L _ IH]; intros S; cbn [sys_run sum_list_with]; [intros [= ->]; lia|].
      destruct (sys_step c l S) as [S1|] eqn:E; cbn [mbind option_bind]; [|done]. intros R.
      pose proof (proj1 (stop_step c l S S1 L E)). specialize (IH S1 R). lia. }
    pose proof (ranks_bound (tn_tasks S)). lia.
  - intros N. apply Forall_lookup. intros j [[i k] t] Ej. cbn [snd].
    destruct (decide (tk_stage t = Returned)) as [|U]; [done|]. exfalso.
    destruct (task_turn_some k (tc_connect_timeout c) stopped (worker_done S' i) t U) as (e & now & [t' es] & T).
    specialize (N j e now). cbn [sys_step] in N. rewrite Ej in N. cbn [mbind option_bind] in N. rewrite T in N. done.
Qed.

(** ** The precheck *)

(** What Startup's relation sees of the system. *)
Definition precheck_view (S : TaskSys) : list (option WorkerState) * SharedState := (tn_workers S, tn_shared S).

Definition has_connections (S : TaskSys) (i : nat) : Prop :=
  exists w, tn_workers S !! i = Some (Some w) /\ 0 < ws_my_connections w.

(** Workers keep their connections. *)
Definition workers_kept (S S' : TaskSys) : Prop := forall i, has_connections S i -> has_connections S' i.

Lemma hold_precheck ph i now : PrecheckDone ∉ (hold ph i now).2.
Proof. unfold hold. destruct (bool_decide _); [destruct (should_stop _)|]; cbn; set_solver. Qed.

Lemma turned_away_precheck k now : PrecheckDone ∉ (turned_away k now).2.
Proof. unfold turned_away. destruct (is_kv k); cbn; set_solver. Qed.

Lemma negotiated_precheck k ph done now :
  PrecheckDone ∈ (negotiated k ph done now).2 -> k = DmaTask \/ k = MemcacheTask true.
Proof.
  unfold negotiated, resp_negotiated, memcache_negotiated, ping_negotiated, dma_negotiated. destruct (hold ph 1 now) as [t es].
  destruct k as [r kv|[]| | |r|]; auto; try (destruct (bool_decide _ && _)); cbn; set_solver.
Qed.

(** The stages a kind of task can be in. *)
Definition wf_stage (k : Kind) (t : Task) : Prop :=
  match tk_stage t with Negotiating => needs_hello k = true | Asked => is_writer k = false | _ => True end.

Lemma wf_stage_hold k ph i now : wf_stage k (hold ph i now).1.
Proof. unfold hold. destruct (bool_decide _); [destruct (should_stop _)|]; done. Qed.

Lemma wf_stage_top k ph : wf_stage k (top ph).
Proof. unfold top. by destruct (should_stop _). Qed.

Lemma wf_stage_negotiated k ph done now : wf_stage k (negotiated k ph done now).1.
Proof.
  unfold negotiated, resp_negotiated, memcache_negotiated, ping_negotiated, dma_negotiated. pose proof (wf_stage_hold k ph 1 now) as G. destruct (hold ph 1 now) as [t es].
  destruct k as [r kv|[]| | |r|]; try done; destruct (bool_decide _ && _); try done; exact G.
Qed.

Lemma task_turn_wf k ct e ph done now t t' es :
  task_turn k ct e ph done now t = Some (t', es) -> wf_stage k t'.
Proof.
  unfold task_turn, asked_answered. pose proof (wf_stage_negotiated k ph done now) as N. pose proof (wf_stage_hold k ph 0 now) as Hl.
  destruct (tk_stage t), e as [|tm a|ok|ok|r]; try done; intros E.
  - injection E as <- _. apply wf_stage_top.
  - injection E as E. unfold connect_ended in E. destruct (establish_connection ct tm a) as [[] log]; [|by injection E as <- _].
    destruct (needs_hello k) eqn:Nh; [by injection E as <- _|]. destruct (negotiated k ph done now). by injection E as <- _.
  - injection E as E. destruct ok; [by rewrite E in N|by injection E as <- _].
  - injection E as E. destruct ok; [|by injection E as <- _]. destruct (hold ph 0 now). by injection E as <- _.
  - destruct (_ <=? _); [|done]. injection E as E. by rewrite E in Hl.
  - injection E as E. apply (f_equal fst) in E. cbn in E. subst t'. destruct k, r; cbn; try done; apply wf_stage_top.
  - destruct (_ <=? _); [|done]. injection E as <- _. apply wf_stage_top.
Qed.

(** Only an answer to a reader marks the precheck. *)
Lemma task_turn_precheck k ct e ph done now t t' es :
  wf_stage k t -> task_turn k ct e ph done now t = Some (t', es) -> PrecheckDone ∈ es ->
  is_answer k ct e = true /\ is_writer k = false.
Proof.
  unfold wf_stage, task_turn, asked_answered. intros W. destruct (tk_stage t), e as [|tm a|ok|ok|r]; try done.
  - intros [= _ <-] H. set_solver.
  - intros [= E] H. unfold connect_ended in E. destruct (establish_connection ct tm a) as [[] log] eqn:Es.
    + destruct (needs_hello k) eqn:Nh; [injection E as _ <-; set_solver|].
      pose proof (negotiated_precheck k ph done now) as N. destruct (negotiated k ph done now) as [t1 es1].
      injection E as _ <-. cbn in N. assert (H1 : PrecheckDone ∈ es1) by set_solver.
      destruct (N H1) as [->| ->]; [done|]. cbn. by rewrite Es.
    + injection E as _ <-. exfalso. apply elem_of_app in H as [H|H]; [|destruct (is_kv k); set_solver].
      apply list_elem_of_fmap in H as (m & ? & _). done.
  - destruct ok; intros E H.
    + injection E as E. pose proof (negotiated_precheck k ph done now) as N. rewrite E in N. cbn in N.
      by destruct (N H) as [->| ->].
    + exfalso. injection E as _ <-. by apply (turned_away_precheck k now).
  - destruct ok; intros E H.
    + split; [by destruct k as [| [] | | | |]|exact W].
    + exfalso. injection E as _ <-. by apply (turned_away_precheck k now).
  - destruct (_ <=? _); [|done]. intros [= E] H. exfalso. apply (hold_precheck ph 0 now). by rewrite E.
  - intros [= E] H. exfalso. apply (f_equal snd) in E. cbn in E. subst es. destruct k, r; cbn in H; set_solver.
  - destruct (_ <=? _); [|done]. intros [= _ <-] H. set_solver.
Qed.

Record precheck_ok (S : TaskSys) : Prop := {
  po_stages : Forall (fun x => wf_stage x.1.2 x.2) (tn_tasks S);
  po_readers : Forall (fun x => is_writer x.1.2 = false -> has_connections S x.1.1) (tn_tasks S);
}.

(** An effect leaves the workers' connections alone, and is a precheck step or
    nothing to Startup's relation. *)
Lemma effect_sim total threads i w e S :
  (e = PrecheckDone -> has_connections S i) ->
  rtc (precheck_step total threads) (precheck_view S) (precheck_view (apply_effect i w S e)) /\
  workers_kept S (apply_effect i w S e).
Proof.
  intros C. assert (Same : forall S', precheck_view S' = precheck_view S ->
    rtc (precheck_step total threads) (precheck_view S) (precheck_view S') /\ workers_kept S S').
  { intros S' E. split; [rewrite E; reflexivity|]. unfold precheck_view in E. injection E as Ew _. intros j. unfold has_connections. by rewrite Ew. }
  destruct e; cbn [apply_effect]; try (destruct w; by apply Same); try by apply Same.
  destruct (C eq_refl) as (x & Ex & Px). rewrite Ex. destruct (mark_precheck_done x (tn_shared S)) as [x' s'] eqn:M. split.
  - apply rtc_once. exact (ps_precheck total threads _ _ _ _ _ _ Ex Px M).
  - intros j (y & Ey & Py). unfold has_connections. cbn. destruct (decide (i = j)) as [<-|Ne].
    + rewrite list_lookup_insert_eq by (by eapply lookup_lt_Some). exists x'. split; [done|].
      assert (x = y) as <- by congruence. unfold mark_precheck_done in M. destruct (ws_precheck_done x); by injection M as <- _.
    + rewrite list_lookup_insert_ne by done. by exists y.
Qed.

Lemma effects_sim total threads i w es S :
  (PrecheckDone ∈ es -> has_connections S i) ->
  rtc (precheck_step total threads) (precheck_view S) (precheck_view (foldl (apply_effect i w) S es)) /\
  workers_kept S (foldl (apply_effect i w) S es).
Proof.
  revert S. induction es as [|e es IH]; intros S C; cbn [foldl]; [split; [reflexivity|intros j; done]|].
  destruct (effect_sim total threads i w e S) as [R K]; [intros ->; apply C; set_solver|].
  destruct (IH (apply_effect i w S e)) as [R' K']; [intros H; apply K, C; set_solver|].
  split; [by etransitivity|]. intros j H. by apply K', K.
Qed.

Lemma spawn_kinds ok n ks k t : (k, t) ∈ (spawn ok n ks).1 -> Some k ∈ ks.
Proof.
  revert n. induction ks as [|k' ks IH]; intros n; cbn [spawn]; [set_solver|]. specialize (IH (S n)).
  destruct (spawn ok (S n) ks) as [ts log]. destruct (ok n); [|set_solver]. destruct k' as [k'|]; [|set_solver].
  cbn. rewrite elem_of_cons. intros [[= -> _]|H]; set_solver.
Qed.

Lemma reader_spawned c fabric x i k :
  Some k ∈ on_start_tasks c fabric x i -> is_writer k = false -> 0 < ws_my_connections x.
Proof.
  unfold on_start_tasks. intros H W. apply elem_of_app in H as [H|H].
  - destruct (_ && _); [set_solver|]. apply elem_of_replicate in H as [_ N]. lia.
  - destruct (tc_writers c); [|set_solver]. apply elem_of_replicate in H as [E _]. unfold writer_kind in E.
    destruct (tc_protocol c); by simplify_eq.
Qed.

Lemma precheck_ok_kept S S' :
  tn_tasks S' = tn_tasks S -> workers_kept S S' -> precheck_ok S -> precheck_ok S'.
Proof.
  intros T K [W R]. split; rewrite T; [done|]. eapply Forall_impl; [exact R|]. cbn. auto.
Qed.

(** A step of the system is a run of Startup's relation, and keeps what the
    tasks are; a worker passes only when a server answered it. *)
Lemma precheck_sim c l S S' :
  precheck_ok S -> sys_step c l S = Some S' ->
  rtc (precheck_step (tc_total c) (tc_threads c)) (precheck_view S) (precheck_view S') /\ precheck_ok S'.
Proof.
  intros P E. destruct l as [i recording|i fabric ok|i|p|j e ph now]; cbn [sys_step] in E.
  - destruct (tn_workers S !! i) as [[x|]|] eqn:Ei; [done| |done].
    destruct (create_for_worker _ _ _ _ _) as [w s] eqn:Cw. injection E as <-. split.
    + apply rtc_once. by eapply ps_start.
    + apply (precheck_ok_kept S); [done| |done]. intros k (y & Ey & Py). exists y. split; [|done]. cbn.
      rewrite list_lookup_insert_ne; [done|]. intros <-. congruence.
  - destruct (tn_workers S !! i) as [[x|]|] eqn:Ei; [|done..]. destruct (tn_started S !! i) as [[]|]; [done| |done].
    pose proof (spawn_at_top ok 0 (on_start_tasks c fabric x i)) as Ft.
    pose proof (spawn_kinds ok 0 (on_start_tasks c fabric x i)) as Fk. destruct (spawn _ _ _) as [ts log].
    injection E as <-. split; [apply rtc_once; apply ps_started|]. destruct P as [W R]. split; cbn; apply Forall_app; split.
    + exact W.
    + apply Forall_map. eapply Forall_impl; [exact Ft|]. intros [k t]. cbn. by intros ->.
    + exact R.
    + apply Forall_map, Forall_forall. intros [k t] H. cbn. intros Wr. exists x. split; [exact Ei|].
      apply (reader_spawned c fabric x i k); [|exact Wr]. by apply (Fk k t).
  - destruct (tn_workers S !! i) as [[x|]|] eqn:Ei; [|done..]. injection E as <-. split.
    + apply rtc_once. eapply ps_tick; [exact Ei|apply surjective_pairing].
    + apply (precheck_ok_kept S); [done| |done]. intros k (y & Ey & Py). unfold has_connections. cbn.
      destruct (decide (i = k)) as [<-|N].
      * rewrite list_lookup_insert_eq by (by eapply lookup_lt_Some). eexists. split; [done|].
        assert (x = y) as <- by congruence. by destruct (bool_decide (phase (tn_shared S) = ws_last_phase x)).
      * rewrite list_lookup_insert_ne by done. by exists y.
  - injection E as <-. split; [apply rtc_once; apply ps_phase|]. apply (precheck_ok_kept S); [done|intros k; done|done].
  - destruct (tn_tasks S !! j) as [[[i k] t]|] eqn:Ej; cbn [mbind option_bind] in E; [|done].
    destruct (task_turn _ _ _ _ _ _ _) as [[t' es]|] eqn:T; cbn [mbind option_bind] in E; [|done].
    injection E as <-. destruct P as [W R]. pose proof (Forall_lookup_1 _ _ _ _ W Ej) as Wj. pose proof (Forall_lookup_1 _ _ _ _ R Ej) as Rj.
    cbn in Wj, Rj. set (S1 := S <| tn_tasks := _ |>).
    destruct (effects_sim (tc_total c) (tc_threads c) i (is_writer k) es S1) as [Rt K].
    { intros H. apply Rj. by destruct (task_turn_precheck _ _ _ _ _ _ _ _ _ Wj T H). }
    split; [exact Rt|]. apply (precheck_ok_kept S1); [apply effects_frame|exact K|]. split; cbn.
    + apply Forall_insert; [exact W|]. cbn. by eapply task_turn_wf.
    + apply Forall_insert; [exact R|]. exact Rj.
Qed.

Lemma precheck_ok_new threads : precheck_ok (new_tasks threads).
Proof. by split; apply Forall_nil. Qed.

Lemma sys_run_sim c ls S S' :
  precheck_ok S -> sys_run c ls S = Some S' ->
  rtc (precheck_step (tc_total c) (tc_threads c)) (precheck_view S) (precheck_view S') /\ precheck_ok S'.
Proof.
  revert S. induction ls as [|l ls IH]; intros S P; cbn [sys_run]; [intros [= <-]; by split; [reflexivity|]|].
  destruct (sys_step c l S) as [S1|] eqn:E; cbn [mbind option_bind]; [|done]. intros R.
  destruct (precheck_sim c l S S1 P E) as [R1 P1]. destruct (IH S1 P1 R) as [R2 P2]. split; [by etransitivity|done].
Qed.

(** C7: The connection tasks implement the precheck count.  Seen through the
    workers' states and the shared state, every run of the tasks is a run of
    the abstract relation of worker starts, prechecks, ticks and phase changes:
    a task passes the precheck of its worker only if the worker has connections
    and only as that relation allows. *)
Theorem tasks_refine_precheck c ls threads S :
  sys_run c ls (new_tasks threads) = Some S ->
  rtc (precheck_step (tc_total c) (tc_threads c)) (replicate threads None, new_shared) (tn_workers S, tn_shared S).
Proof. intros R. exact (proj1 (sys_run_sim c ls _ S (precheck_ok_new threads) R)). Qed.

Lemma effect_done i w e S k :
  (worker_done (apply_effect i w S e) k = true -> worker_done S k = true \/ i = k /\ e = PrecheckDone) /\
  (has_connections (apply_effect i w S e) k -> has_connections S k).
Proof.
  assert (Same : forall S', tn_workers S' = tn_workers S ->
    (worker_done S' k = true -> worker_done S k = true \/ i = k /\ e = PrecheckDone) /\ (has_connections S' k -> has_connections S k)).
  { intros S' E. unfold worker_done, has_connections. rewrite E. split; [by left|done]. }
  destruct e; cbn [apply_effect]; try (destruct w; by apply Same); try by apply Same.
  destruct (tn_workers S !! i) as [[x|]|] eqn:Ex; try by apply Same.
  destruct (mark_precheck_done x (tn_shared S)) as [x' s'] eqn:M. unfold worker_done, has_connections. cbn.
  destruct (decide (i = k)) as [<-|N].
  - split; [by right|]. rewrite list_lookup_insert_eq by (by eapply lookup_lt_Some). intros (y & [= <-] & Py).
    exists x. split; [exact Ex|]. unfold mark_precheck_done in M. destruct (ws_precheck_done x); by injection M as <- _.
  - rewrite list_lookup_insert_ne by done. split; [by left|done].
Qed.

Lemma effects_done i w es S k :
  (worker_done (foldl (apply_effect i w) S es) k = true -> worker_done S k = true \/ i = k /\ PrecheckDone ∈ es) /\
  (has_connections (foldl (apply_effect i w) S es) k -> has_connections S k).
Proof.
  revert S. induction es as [|e es IH]; intros S; cbn [foldl]; [split; [by left|done]|].
  destruct (IH (apply_effect i w S e)) as [D C], (effect_done i w e S k) as [D1 C1]. split.
  - intros H. destruct (D H) as [H1|[-> H1]]; [|right; set_solver]. destruct (D1 H1) as [H2|[-> ->]]; [by left|right; set_solver].
  - auto.
Qed.

Lemma answered_range i c l S : 0 <= answered_in i c l S.
Proof. destruct l; cbn; try lia. destruct (tn_tasks S !! _) as [[[? ?] ?]|]; [destruct (_ && _)|]; lia. Qed.

Lemma done_step c l S S' i :
  precheck_ok S -> sys_step c l S = Some S' -> worker_done S' i = true -> has_connections S' i ->
  worker_done S i = true /\ has_connections S i \/ answered_in i c l S = 1.
Proof.
  intros P E D C. assert (Same : tn_workers S' = tn_workers S -> worker_done S i = true /\ has_connections S i).
  { intros Ew. unfold worker_done, has_connections in *. by rewrite Ew in D, C. }
  destruct l as [i' recording|i' fabric ok|i'|p|j e ph now]; cbn [sys_step] in E.
  - destruct (tn_workers S !! i') as [[x|]|] eqn:Ei; [done| |done].
    destruct (create_for_worker _ _ _ _ _) as [w s] eqn:Cw. injection E as <-. clear Same. left.
    unfold worker_done, has_connections in *. cbn in D, C. destruct (decide (i' = i)) as [<-|N].
    + exfalso. rewrite list_lookup_insert_eq in D, C by (by eapply lookup_lt_Some). destruct C as (y & [= <-] & Py).
      unfold create_for_worker in Cw. injection Cw as <- _. cbn in D, Py. lia.
    + by rewrite list_lookup_insert_ne in D, C by done.
  - destruct (tn_workers S !! i') as [[x|]|]; [|done..]. destruct (tn_started S !! i') as [[]|]; [done| |done].
    destruct (spawn _ _ _) as [ts log]. injection E as <-. left. by apply Same.
  - destruct (tn_workers S !! i') as [[x|]|] eqn:Ei; [|done..]. injection E as <-. clear Same. left.
    unfold worker_done, has_connections in *. cbn in D, C. destruct (decide (i' = i)) as [<-|N].
    + rewrite list_lookup_insert_eq in D, C by (by eapply lookup_lt_Some). rewrite Ei. destruct C as (y & [= <-] & Py).
      destruct (bool_decide _) in D, Py; (split; [exact D|by exists x]).
    + by rewrite list_lookup_insert_ne in D, C by done.
  - injection E as <-. left. by apply Same.
  - destruct (tn_tasks S !! j) as [[[i' k] t]|] eqn:Ej; cbn [mbind option_bind] in E; [|done].
    destruct (task_turn _ _ _ _ _ _ _) as [[t' es]|] eqn:T; cbn [mbind option_bind] in E; [|done].
    injection E as <-. pose proof (Forall_lookup_1 _ _ _ _ (po_stages _ P) Ej) as Wj. clear Same.
    edestruct (effects_done i' (is_writer k) es (S <| tn_tasks := <[j:=(i', k, t')]> (tn_tasks S) |>) i) as [Dn Cn].
    specialize (Cn C). destruct (Dn D) as [Do|[<- H]]; [by left|]. right. cbn [answered_in]. rewrite Ej.
    destruct (task_turn_precheck _ _ _ _ _ _ _ _ _ Wj T H) as [An _]. cbn in An. by rewrite An, Nat.eqb_refl.
Qed.

Lemma done_run c ls S S' i :
  precheck_ok S -> sys_run c ls S = Some S' -> worker_done S' i = true -> has_connections S' i ->
  worker_done S i = true /\ has_connections S i \/ 0 < over_run (answered_in i) c ls S.
Proof.
  revert S. induction ls as [|l ls IH]; intros S P; cbn [sys_run over_run]; [intros [= <-]; by left|].
  destruct (sys_step c l S) as [S1|] eqn:E; cbn [mbind option_bind]; [|done]. intros R D C.
  pose proof (answered_range i c l S) as A. assert (0 <= over_run (answered_in i) c ls S1) as B.
  { clear. revert S1. induction ls as [|l ls IH]; intros S1; cbn [over_run]; [done|].
    pose proof (answered_range i c l S1). destruct (sys_step c l S1) as [S2|]; [|done]. specialize (IH S2). lia. }
  destruct (IH S1 (proj2 (precheck_sim c l S S1 P E)) R D C) as [[D1 C1]|H]; [|right; lia].
  destruct (done_step c l S S1 i P E D1 C1) as [H|H]; [by left|right; lia].
Qed.

(** C20: The precheck is a server's word.  When the count the runner waits for
    reaches the number of workers, every worker with connections has had an
    answer from a server: a PING or VERSION answered, a DMA hello, or for
    binary memcache, which asks nothing, a connect. *)
Theorem precheck_means_answered c ls threads S i :
  Z.of_nat threads <= u64_max -> sys_run c ls (new_tasks threads) = Some S ->
  ss_precheck_done (tn_shared S) = Z.of_nat threads -> (i < threads)%nat ->
  0 < fst (connection_share (tc_total c) (tc_threads c) (Z.of_nat i)) ->
  0 < over_run (answered_in i) c ls (new_tasks threads).
Proof.
  intros B R Done Li Ci. pose proof (precheck_ok_new threads) as P0. pose proof (proj1 (sys_run_sim c ls _ S P0 R)) as Sim.
  assert (Bl : Z.of_nat (length (replicate threads (@None WorkerState))) <= u64_max) by (by rewrite length_replicate).
  destruct (precheck_inv_reachable _ _ (replicate threads None, new_shared) _ Bl Sim (precheck_inv_start _ _ threads)) as [[Pd W] L].
  cbn [precheck_view fst snd] in Pd, W, L. cbn in L. rewrite length_replicate in L.
  rewrite Done, <- L in Pd. symmetry in Pd. apply passed_all with (i := i) in Pd as (w & Ew & Dw); [|by rewrite L].
  destruct (W i w Ew) as [Wc _].
  destruct (done_run c ls _ S i P0 R) as [[D _]|H]; [..|exact H].
  - unfold worker_done. by rewrite Ew.
  - exists w. split; [exact Ew|lia].
  - unfold worker_done in D. cbn in D. by rewrite lookup_replicate_2 in D.
Qed.

(** ** The pace of reconnects *)

(** When a task connects, along its events; each has its phases, whether the
    precheck is done and the time. *)
Fixpoint connect_times (k : Kind) (ct : Z) (evs : list (Event * (nat -> Phase) * bool * Z)) (t : Task) : list Z :=
  match evs with
  | [] => []
  | (e, ph, done, now) :: evs =>
      match task_turn k ct e ph done now t with
      | Some (t', _) => (if bool_decide (tk_stage t' = Connecting) then [now] else []) ++ connect_times k ct evs t'
      | None => connect_times k ct evs t
      end
  end.

Definition pause : Z := from_millis 100.

(** Where a turn may leave a task: awaiting a connect only from the loop's head
    or the end of a sleep, asleep only for the pause. *)
Definition paced (now : Z) (t' : Task) : Prop :=
  tk_stage t' <> AtTop /\ tk_stage t' <> Connecting /\ forall u, tk_stage t' = Asleep u -> u = now + pause.

Lemma paced_nap now b : paced now (nap now b).
Proof. split_and!; try done. by intros u [= <-]. Qed.

Lemma paced_hold ph i now : paced now (hold ph i now).1.
Proof. unfold hold. destruct (bool_decide _); [destruct (should_stop _)|]; by split_and!. Qed.

Lemma paced_negotiated k ph done now : paced now (negotiated k ph done now).1.
Proof.
  unfold negotiated, resp_negotiated, memcache_negotiated, ping_negotiated, dma_negotiated. pose proof (paced_hold ph 1 now) as G. destruct (hold ph 1 now) as [t es].
  destruct k as [r kv|[]| | |r|]; try (by split_and!); destruct (bool_decide _ && _); try (by split_and!); exact G.
Qed.

Lemma task_turn_paced k ct e ph done now t t' es :
  k <> DmaTask -> task_turn k ct e ph done now t = Some (t', es) ->
  paced now t' \/ (tk_stage t = AtTop \/ exists u, tk_stage t = Asleep u /\ u <= now) /\ t' = top ph.
Proof.
  intros K. unfold task_turn, asked_answered. pose proof (paced_negotiated k ph done now) as N. pose proof (paced_hold ph 0 now) as Hl.
  destruct (tk_stage t) as [| | | |u| |u|], e as [|tm a|ok|ok|r]; try done; intros E.
  - injection E as <- _. right. split; [by left|done].
  - injection E as E. left. unfold connect_ended in E. destruct (establish_connection ct tm a) as [[] log].
    + destruct (needs_hello k); [injection E as <- _; by split_and!|]. destruct (negotiated k ph done now). by injection E as <- _.
    + injection E as <- _. apply paced_nap.
  - injection E as E. left. destruct ok; [by rewrite E in N|injection E as <- _; apply paced_nap].
  - left. destruct ok; [destruct (hold ph 0 now); by injection E as <- _|injection E as <- _; apply paced_nap].
  - left. destruct (_ <=? _); [|done]. injection E as E. by rewrite E in Hl.
  - left. injection E as E. apply (f_equal fst) in E. cbn in E. subst t'.
    destruct k, r; cbn; try done; (apply paced_nap || by split_and!).
  - destruct (Z.leb_spec u now); [|done]. injection E as <- _. right. split; [right; by exists u|done].
Qed.

(** A task that has connected at [c] and may connect again. *)
Definition rested (c : Z) (t : Task) : Prop :=
  match tk_stage t with AtTop => False | Asleep u => c + pause <= u | _ => True end.

Lemma connect_times_rested k ct evs c clock t :
  k <> DmaTask -> c <= clock -> rested c t -> Sorted Z.le (clock :: map snd evs) ->
  Sorted (fun a b => a + pause <= b) (c :: connect_times k ct evs t).
Proof.
  intros K. revert c clock t. induction evs as [|[[[e ph] done] now] evs IH]; intros c clock t Cc Rt So; cbn [connect_times].
  - repeat constructor.
  - cbn [map snd] in So. apply Sorted_inv in So as [So Hd]. apply HdRel_inv in Hd.
    destruct (task_turn k ct e ph done now t) as [[t' es]|] eqn:T; [|apply (IH c now); [lia|done..]].
    destruct (task_turn_paced _ _ _ _ _ _ _ _ _ K T) as [(N1 & N2 & N3)|[Fr ->]].
    + rewrite bool_decide_eq_false_2 by done. apply (IH c now); [lia| |done]. unfold rested.
      destruct (tk_stage t') as [| | | |u| |u|] eqn:St; try done. rewrite (N3 u eq_refl). lia.
    + assert (Later : c + pause <= now).
      { unfold rested in Rt. destruct Fr as [Fr|(u & Fr & U)]; rewrite Fr in Rt; [done|lia]. }
      unfold top. destruct (should_stop (ph 0%nat)); cbn [tk_stage ended].
      * rewrite bool_decide_eq_false_2 by done. apply (IH c now); [lia|done..].
      * rewrite bool_decide_eq_true_2 by done. apply Sorted_cons; [|by constructor].
        by apply (IH now now).
Qed.

(** A lost connection is not hammered.  Whatever the events of a RESP,
    memcache or ping task, or of an append writer, two connects of the task are
    at least 100 ms apart, however the first one ended. *)
Theorem connects_paced k ct evs :
  k <> DmaTask -> Sorted Z.le (map snd evs) ->
  Sorted (fun a b => a + from_millis 100 <= b) (connect_times k ct evs {| tk_stage := AtTop; tk_open := false |}).
Proof.
  intros K So. assert (G : forall evs, Sorted Z.le (map snd evs) ->
    Sorted (fun a b => a + from_millis 100 <= b) (connect_times k ct evs {| tk_stage := AtTop; tk_open := false |})).
  { clear evs So. induction evs as [|[[[e ph] done] now] evs IH]; intros So; cbn [connect_times]; [constructor|].
    cbn [map snd] in So. pose proof So as So'. apply Sorted_inv in So as [So _].
    destruct e; cbn [task_turn tk_stage]; try (by apply IH). unfold top. destruct (should_stop (ph 0%nat)); cbn [tk_stage ended].
    - rewrite bool_decide_eq_false_2 by done. pose proof (connect_times_rested k ct evs (now - pause) now ended K) as G.
      assert (now - pause <= now) by (unfold pause, from_millis; lia). by apply Sorted_inv in G as [G _].
    - rewrite bool_decide_eq_true_2 by done. by apply (connect_times_rested k ct evs now now). }
  by apply G.
Qed.

(** A DMA task whose transfer failed connects again in the same turn. *)
Example dma_reconnects_at_once :
  connect_times DmaTask 0
    [(Resume, fun _ => Running, true, 10); (ConnectEnded true (Some true), fun _ => Running, true, 20);
     (Negotiated true, fun _ => Running, true, 30); (DriveEnded (Some RecvError), fun _ => Running, true, 40)]
    {| tk_stage := AtTop; tk_open := false |} = [10; 40].
Proof. reflexivity. Qed.

(** ** The ping protocol's loop: [drive_ping_workload]

    A pass ends with the run stopping, a sleep or a ping in flight; its answer
    is the next step.  [now] is the pass's readings of the clock. *)

Record PingConn `{Ratelimiter} := {
  pg_limiter : option WorkerLimiter;
  pg_slip : SlipState;
  pg_inflight : InFlight;
  pg_prefill_done : bool;
  pg_shared : SharedState;
  pg_log : list metric;
}.

#[export] Instance eta_PingConn `{Ratelimiter} : Settable PingConn := fun x =>
  {| pg_limiter := pg_limiter x; pg_slip := pg_slip x; pg_inflight := pg_inflight x;
     pg_prefill_done := pg_prefill_done x; pg_shared := pg_shared x; pg_log := pg_log x |}.

Inductive PingNext := PingDone | PingSleep (d : Z) | PingSent.

(** What [recv_with_timeout] gives the loop. *)
Inductive Pong := PongOk | PongClosed | PongError | PongExpired (r : DisconnectReason).

Section ping.
Context `{Ratelimiter}.

Definition pg_note (ms : list metric) (s : PingConn) : PingConn := s <| pg_log := pg_log s ++ ms |>.

(** Before warmup: the worker's prefill is marked done, once. *)
Definition ping_idle (phase : Phase) (s : PingConn) : PingConn :=
  if bool_decide (phase = Prefill) && negb (pg_prefill_done s)
  then s <| pg_prefill_done := true |> <| pg_shared := mark_prefill_complete (pg_shared s) |> else s.

(** The limiter's word: sent, or how long to sleep. *)
Definition ping_claim (now : Z) (s : PingConn) : PingConn * option Z :=
  match pg_limiter s with
  | None => (s, None)
  | Some rl =>
      let (rl, r) := limiter_try_wait now rl in
      (s <| pg_limiter := Some rl |>,
       match r with
       | Taken => None
       | Insufficient wait => Some (Z.max wait 50000)
       | _ => Some (from_millis 1)
       end)
  end.

(** The slip, and the ping on its way. *)
Definition ping_send (fired_at now : Z) (s : PingConn) : PingConn :=
  let slip := slip_ns now <$> pg_limiter s in
  let s := match slip with Some n => s <| pg_slip := set_worker_slip_ns n (pg_slip s) |> | None => s end in
  let s := pg_note [Count REQUESTS_SENT 1] s in
  let s := match slip with Some n => pg_note [Sample SCHEDULE_SLIP n] s | None => s end in
  s <| pg_inflight := push fired_at (pg_inflight s) |>.

(** One pass. *)
Definition ping_pass (phase : Phase) (now : nat -> Z) (s : PingConn) : PingConn * PingNext :=
  if should_stop phase then (s, PingDone)
  else if negb (bool_decide (phase = Warmup)) && negb (bool_decide (phase = Running)) then
    (ping_idle phase s, PingSleep (from_millis 1))
  else
    let (s, wait) := ping_claim (now 1%nat) s in
    match wait with
    | Some d => (s, PingSleep d)
    | None => (ping_send (now 0%nat) (now 2%nat) s, PingSent)
    end.

(** The answer: the loop goes on, or ends for a reason. *)
Definition ping_answer (p : Pong) (s : PingConn) : PingConn * option DisconnectReason :=
  match p with
  | PongOk => (s <| pg_inflight := (pop (pg_inflight s)).1 |>, None)
  | PongClosed => (s, Some Eof)
  | PongError => (s, Some RecvError)
  | PongExpired r => (s, Some r)
  end.

(** A connection's passes, each ping answered before the next; the answers are
    those of the pings in order. *)
Fixpoint ping_run (passes : list (Phase * (nat -> Z))) (pongs : list Pong) (s : PingConn)
    : PingConn * option (option DisconnectReason) :=
  match passes with
  | [] => (s, None)
  | (phase, now) :: passes =>
      let (s, next) := ping_pass phase now s in
      match next with
      | PingDone => (s, Some None)
      | PingSleep _ => ping_run passes pongs s
      | PingSent =>
          match pongs with
          | [] => (s, None)
          | p :: pongs =>
              let (s, r) := ping_answer p s in
              match r with Some r => (s, Some (Some r)) | None => ping_run passes pongs s end
          end
      end
  end.

End ping.

Section ping_facts.
Context `{Ratelimiter}.

(** What a stretch of the loop did: [n] pings sent, each with its slip where
    there is a limiter, and the worker's prefill marked at most once. *)
Record pinged (s s' : PingConn) (n : Z) : Prop := {
  pd_sent : counted REQUESTS_SENT (pg_log s') = counted REQUESTS_SENT (pg_log s) + n;
  pd_slips : Z.of_nat (length (samples SCHEDULE_SLIP (pg_log s'))) =
             Z.of_nat (length (samples SCHEDULE_SLIP (pg_log s))) + (if pg_limiter s then n else 0);
  pd_limiter : is_Some (pg_limiter s') <-> is_Some (pg_limiter s);
  pd_prefill : prefill_complete (pg_shared s') =
               if pg_prefill_done s' && negb (pg_prefill_done s) then wrap64 (prefill_complete (pg_shared s) + 1)
               else prefill_complete (pg_shared s);
  pd_done : pg_prefill_done s = true -> pg_prefill_done s' = true;
}.

Lemma pinged_refl s : pinged s s 0.
Proof. split; try done; try lia. - destruct (pg_limiter s); lia. - by destruct (pg_prefill_done s). Qed.

Lemma pinged_trans s1 s2 s3 n m : pinged s1 s2 n -> pinged s2 s3 m -> pinged s1 s3 (n + m).
Proof.
  intros [A1 B1 L1 P1 D1] [A2 B2 L2 P2 D2]. split.
  - lia.
  - rewrite B2, B1. destruct (pg_limiter s1), (pg_limiter s2); try lia.
    + exfalso. destruct (proj2 L1 ltac:(by eexists)). done.
    + exfalso. destruct (proj1 L1 ltac:(by eexists)). done.
  - tauto.
  - rewrite P2, P1. destruct (pg_prefill_done s1), (pg_prefill_done s2), (pg_prefill_done s3); cbn; try done;
      (discriminate (D1 eq_refl) || discriminate (D2 eq_refl)).
  - auto.
Qed.

Lemma ping_idle_pinged phase s : pinged s (ping_idle phase s) 0 /\ pg_inflight (ping_idle phase s) = pg_inflight s.
Proof.
  unfold ping_idle. destruct (bool_decide (phase = Prefill)); cbn [andb]; [|by split; [apply pinged_refl|]].
  destruct (pg_prefill_done s) eqn:D; cbn [negb]; [by split; [apply pinged_refl|]|]. split; [|done].
  split; cbn; rewrite ?D; try done; try lia. destruct (pg_limiter s); lia.
Qed.

Lemma ping_claim_pinged now s : pinged s (ping_claim now s).1 0 /\ pg_inflight (ping_claim now s).1 = pg_inflight s.
Proof.
  unfold ping_claim. destruct (pg_limiter s) as [rl|] eqn:L; [|by split; [apply pinged_refl|]].
  destruct (limiter_try_wait now rl) as [rl' r]. cbn [fst]. split; [|done].
  split; cbn; rewrite ?L; try done; try lia. by destruct (pg_prefill_done s).
Qed.

Lemma ping_send_pinged fired_at now s :
  pinged s (ping_send fired_at now s) 1 /\ pg_inflight (ping_send fired_at now s) = push fired_at (pg_inflight s).
Proof.
  unfold ping_send. destruct (pg_limiter s) as [rl|] eqn:L; cbn [fmap option_fmap option_map]; (split; [|done]); split; cbn;
    rewrite ?L, ?counted_app, ?samples_app, ?length_app; cbn; try done; repeat case_decide; try done; cbn; try lia;
    by destruct (pg_prefill_done s).
Qed.

Lemma ping_pass_pinged phase now s :
  let '(s', next) := ping_pass phase now s in
  pinged s s' (match next with PingSent => 1 | _ => 0 end) /\
  pg_inflight s' = (match next with PingSent => push (now 0%nat) (pg_inflight s) | _ => pg_inflight s end) /\
  (next = PingSent -> phase = Warmup \/ phase = Running).
Proof.
  unfold ping_pass. destruct (should_stop phase); [by split; [apply pinged_refl|]|].
  destruct (ping_idle_pinged phase s) as [Pi Ii]. destruct (ping_claim_pinged (now 1%nat) s) as [Pc Ic].
  destruct (ping_claim (now 1%nat) s) as [s1 wait]. cbn [fst] in Pc, Ic.
  destruct (ping_send_pinged (now 0%nat) (now 2%nat) s1) as [Ps Is].
  assert (Go : phase = Warmup \/ phase = Running ->
    let '(s', next) := match wait with Some d => (s1, PingSleep d) | None => (ping_send (now 0%nat) (now 2%nat) s1, PingSent) end in
    pinged s s' (match next with PingSent => 1 | _ => 0 end) /\
    pg_inflight s' = (match next with PingSent => push (now 0%nat) (pg_inflight s) | _ => pg_inflight s end) /\
    (next = PingSent -> phase = Warmup \/ phase = Running)).
  { intros Ph. destruct wait; [by split|]. split; [exact (pinged_trans _ _ _ _ _ Pc Ps)|]. by rewrite Is, Ic. }
  destruct (bool_decide_reflect (phase = Warmup)), (bool_decide_reflect (phase = Running)); cbn [negb andb]; [apply Go; tauto..|].
  split; [exact Pi|split; [exact Ii|done]].
Qed.

(** The ping loop has one request in flight.  On any connection that starts
    idle, a ping is sent only in warmup and while recording, never more than
    one is unanswered, none is when the loop ends because the run stops; each
    is counted, and under a rate limit has its schedule slip recorded; and the
    worker's prefill is marked complete at most once. *)
Theorem ping_accounts passes pongs s s' r :
  fired (pg_inflight s) = [] -> ping_run passes pongs s = (s', r) ->
  (exists n, pinged s s' n /\ 0 <= n <= Z.of_nat (length passes)) /\
  (length (fired (pg_inflight s')) <= 1)%nat /\
  (r = Some None -> fired (pg_inflight s') = []) /\
  (Forall (fun p => p.1 <> Warmup /\ p.1 <> Running) passes ->
   counted REQUESTS_SENT (pg_log s') = counted REQUESTS_SENT (pg_log s)).
Proof.
  revert pongs s. induction passes as [|[phase now] passes IH]; intros pongs s F; cbn [ping_run length].
  { intros [= <- <-]. rewrite F. split; [exists 0; split; [apply pinged_refl|lia]|]. cbn. by split_and!; [lia| |]. }
  pose proof (ping_pass_pinged phase now s) as P. destruct (ping_pass phase now s) as [s1 next]. destruct P as (P & I & Ph).
  destruct next as [|d|].
  - intros [= <- <-]. rewrite I, F. split; [exists 0; split; [exact P|lia]|]. cbn. split_and!; [lia|done|].
    intros _. rewrite (pd_sent _ _ _ P). lia.
  - intros R. destruct (IH pongs s1 ltac:(by rewrite I) R) as ((n & Pn & Bn) & L & E & Q).
    split; [exists (0 + n); split; [by eapply pinged_trans|lia]|]. split; [exact L|]. split; [exact E|].
    intros Fp. apply Forall_cons in Fp as [_ Fp]. rewrite (Q Fp), (pd_sent _ _ _ P). lia.
  - assert (F1 : fired (pg_inflight s1) = [now 0%nat]).
    { rewrite I. unfold push, push_queued. destruct (track_queued _); cbn; by rewrite F. }
    assert (NotIdle : Forall (fun p => p.1 <> Warmup /\ p.1 <> Running) ((phase, now) :: passes) -> False).
    { intros Fp. apply Forall_cons in Fp as [[A B] _]. cbn in A, B. destruct (Ph eq_refl); congruence. }
    destruct pongs as [|p pongs].
    { intros [= <- <-]. rewrite F1. split; [exists 1; split; [exact P|lia]|]. cbn. split_and!; [lia|done|by intros Fp%NotIdle]. }
    destruct p; cbn [ping_answer].
    1: { intros R. pose proof (fun X => IH pongs _ X R) as IHR.
         destruct IHR as ((n & Pn & Bn) & L & E & Q); [cbn; by rewrite F1|].
         split; [exists (1 + n); split; [|lia]|].
         - eapply pinged_trans; [exact P|]. destruct Pn as [A1 A2 A3 A4 A5].
           split; [exact A1|exact A2|exact A3|exact A4|exact A5].
         - split_and!; [exact L|exact E|by intros Fp%NotIdle]. }
    all: intros [= <- <-]; rewrite F1; (split; [exists 1; split; [exact P|lia]|]); cbn; (split_and!; [lia|done|by intros Fp%NotIdle]).
Qed.

End ping_facts.

(** *** Witnesses: one worker, three connections

    The third task is not spawned; the first connects and has its PING
    answered, the second runs into its connect bound. *)

Definition example_task_config : TaskConfig :=
  {| tc_protocol := Resp_; tc_kv := false; tc_total := 3; tc_threads := 1; tc_writers := None; tc_connect_timeout := 1000 |}.

Definition in_precheck (n : nat) : Phase := Precheck.

Definition example_labels : list TaskLabel :=
  [LCreate 0 false; LStart 0 true (fun n => (n <? 2)%nat); LPhase Precheck;
   LTurn 0 Resume in_precheck 0; LTurn 1 Resume in_precheck 0;
   LTurn 0 (ConnectEnded true (Some true)) in_precheck 5; LTurn 1 (ConnectEnded true None) in_precheck 5;
   LTurn 0 (Answered true) in_precheck 6].

Definition example_tasks : TaskSys :=
  default (new_tasks 1) (sys_run example_task_config example_labels (new_tasks 1)).

Lemma example_tasks_run : sys_run example_task_config example_labels (new_tasks 1) = Some example_tasks.
Proof. vm_compute. reflexivity. Qed.

Lemma connections_gauge_exact_witness :
  gauge_value (tn_active example_tasks) = 1 /\
  map (fun x => tk_stage x.2) (tn_tasks example_tasks) = [Held 10000006; Asleep 100000005].
Proof.
  split; [|vm_compute; reflexivity].
  destruct (connections_gauge_exact example_task_config example_labels 1 example_tasks example_tasks_run) as (G & _).
  - vm_compute. reflexivity.
  - etransitivity; [exact G|]. vm_compute. reflexivity.
Defined.

Lemma failures_counted_witness :
  counted CONNECTIONS_FAILED (tn_log example_tasks) = 2 /\ counted DISCONNECTS_CONNECT_FAILED (tn_log example_tasks) = 1.
Proof.
  destruct (failures_counted example_task_config example_labels 1 example_tasks example_tasks_run) as [F D].
  split; [etransitivity; [exact F|]|etransitivity; [exact (D ConnectFailed)|]]; vm_compute; reflexivity.
Defined.

Lemma tasks_refine_precheck_witness :
  rtc (precheck_step 3 1) ([None], new_shared) (tn_workers example_tasks, tn_shared example_tasks) /\
  ss_precheck_done (tn_shared example_tasks) = 1.
Proof.
  split; [|vm_compute; reflexivity].
  exact (tasks_refine_precheck example_task_config example_labels 1 example_tasks example_tasks_run).
Defined.

Lemma precheck_means_answered_witness :
  0 < over_run (answered_in 0) example_task_config example_labels (new_tasks 1).
Proof.
  apply (precheck_means_answered example_task_config example_labels 1 example_tasks 0);
    [vm_compute; congruence|exact example_tasks_run|vm_compute; reflexivity|lia|vm_compute; reflexivity].
Defined.

Definition example_stop_labels : list TaskLabel :=
  [LTurn 0 Resume stopped 10000006; LTick 0; LTurn 0 (DriveEnded None) stopped 10000007; LTurn 1 Resume stopped 100000005].

Lemma tasks_return_witness :
  exists S : TaskSys, sys_run example_task_config example_stop_labels example_tasks = Some S /\
    Forall (fun x => tk_stage x.2 = Returned) (tn_tasks S) /\ (sum_list_with is_turn example_stop_labels <= 12)%nat.
Proof.
  assert (R : exists S : TaskSys, sys_run example_task_config example_stop_labels example_tasks = Some S /\
    forall j e now, sys_step example_task_config (LTurn j e stopped now) S = None).
  { eexists. split; [vm_compute; reflexivity|]. intros [|[|j]] e now; reflexivity. }
  destruct R as (S & R & N). exists S. split; [exact R|].
  destruct (tasks_return example_task_config example_stop_labels example_tasks S) as [B Q].
  - repeat constructor.
  - exact R.
  - split; [exact (Q N)|exact B].
Defined.

(** Connected, refused, asleep, connected again. *)
Lemma connects_paced_witness :
  let evs := [(Resume, in_precheck, false, 0); (ConnectEnded true (Some false), in_precheck, false, 10);
              (Resume, in_precheck, false, 50); (Resume, in_precheck, false, 100000010)] in
  connect_times PingTask 0 evs {| tk_stage := AtTop; tk_open := false |} = [0; 100000010] /\
  Sorted (fun a b => a + from_millis 100 <= b) (connect_times PingTask 0 evs {| tk_stage := AtTop; tk_open := false |}).
Proof.
  split; [vm_compute; reflexivity|]. apply connects_paced; [done|].
  cbn. repeat (apply Sorted_cons; [|constructor; lia]). repeat constructor.
Defined.

Definition example_ping : @PingConn simple_ratelimiter :=
  @Build_PingConn simple_ratelimiter None new_slip (new_inflight 1000) false new_shared [].

Abbreviation example_ping_run := (@ping_run simple_ratelimiter
  [(Prefill, fun _ => 1); (Running, fun _ => 2); (Running, fun _ => 3)] [PongOk; PongClosed] example_ping).

Lemma ping_accounts_witness :
  counted REQUESTS_SENT (pg_log example_ping_run.1) = 2 /\ prefill_complete (pg_shared example_ping_run.1) = 1 /\
  (length (fired (pg_inflight example_ping_run.1)) <= 1)%nat.
Proof.
  split; [vm_compute; reflexivity|]. split; [vm_compute; reflexivity|].
  exact (proj1 (proj2 (@ping_accounts simple_ratelimiter _ _ example_ping _ _ eq_refl (surjective_pairing example_ping_run)))).
Defined.
