(* ===== verification/Buffer.v ===== *)
(** Buffer: the reusable byte buffer ([src/src/buffer/mod.rs]).

    Positions and lengths are [nat], a [usize] computation that can leave its
    width is written out; [None] is a panic.  A reader and a writer (the
    [Read] and [Write] of the standard library) are functions of what they are
    given. *)

From S2P Require Import Prelude.
Open Scope nat_scope.

Definition DEFAULT_BUFFER_SIZE : nat := 64 * 1024.

Record Buffer := { data : list Z; read_pos : nat; write_pos : nat }.

#[export] Instance eta_Buffer : Settable Buffer := fun x =>
  {| data := data x; read_pos := read_pos x; write_pos := write_pos x |}.

Definition with_capacity (capacity : nat) : Buffer :=
  {| data := replicate capacity 0%Z; read_pos := 0; write_pos := 0 |}.

Definition new_buffer : Buffer := with_capacity DEFAULT_BUFFER_SIZE.

Definition capacity (b : Buffer) : nat := length (data b).

Definition readable (b : Buffer) : nat := write_pos b - read_pos b.

Definition writable (b : Buffer) : nat := capacity b - write_pos b.

Definition is_empty (b : Buffer) : bool := read_pos b =? write_pos b.

(** [&data[read_pos..write_pos]]. *)
Definition as_slice (b : Buffer) : list Z := take (write_pos b - read_pos b) (drop (read_pos b) (data b)).

(** [spare_mut]: the slice, and the buffer with another in its place. *)
Definition spare (b : Buffer) : list Z := drop (write_pos b) (data b).

Definition set_spare (s : list Z) (b : Buffer) : Buffer := b <| data := take (write_pos b) (data b) ++ s |>.

Definition consume (n : nat) (b : Buffer) : option Buffer :=
  if n <=? readable b then
    let b := b <| read_pos := read_pos b + n |> in
    Some (if read_pos b =? write_pos b then b <| read_pos := 0 |> <| write_pos := 0 |> else b)
  else None.

Definition advance (n : nat) (b : Buffer) : option Buffer :=
  if n <=? writable b then Some (b <| write_pos := write_pos b + n |>) else None.

(** [copy_within(src, 0)]. *)
Definition copy_to_front (s l : list Z) : list Z := s ++ drop (length s) l.

Definition compact (b : Buffer) : Buffer :=
  if read_pos b =? 0 then b
  else
    let n := readable b in
    (if 0 <? n then b <| data := copy_to_front (as_slice b) (data b) |> else b) <| read_pos := 0 |> <| write_pos := n |>.

Definition clear (b : Buffer) : Buffer := b <| read_pos := 0 |> <| write_pos := 0 |>.

(** The largest allocation, [isize::MAX]. *)
Definition max_alloc : Z := (2 ^ 63 - 1)%Z.

(** Arithmetic on [usize]. *)
Definition usize (z : Z) : nat := Z.to_nat (wrap64 z).

Definition grow (needed : nat) (b : Buffer) : option Buffer :=
  let n := readable b in
  let min_capacity := usize (Z.of_nat n + Z.of_nat needed) in
  let new_capacity := usize (Z.of_nat (capacity b) * 2) `max` min_capacity in
  if (max_alloc <? Z.of_nat new_capacity)%Z then None
  else if n <=? new_capacity then
    Some {| data := (if 0 <? n then copy_to_front (as_slice b) (replicate new_capacity 0%Z) else replicate new_capacity 0%Z);
            read_pos := 0; write_pos := n |}
  else None.

Inductive IoError := BufferFull | Io.

(** A reader fills some of the slice it is given and says how much; a writer
    takes a prefix. *)
Definition Reader := list Z -> option (list Z * nat).

Definition Writer := list Z -> option nat.

(** [read_from]; on an error the buffer is what [compact] left. *)
Definition read_from (reader : Reader) (b : Buffer) : option (Buffer * result IoError nat) :=
  let b := if writable b <? capacity b / 4 then compact b else b in
  if writable b =? 0 then Some (b, Err BufferFull)
  else
    match reader (spare b) with
    | None => Some (b, Err Io)
    | Some (s, n) => b ← advance n (set_spare s b); Some (b, Ok n)
    end.

Definition write_to (writer : Writer) (b : Buffer) : option (Buffer * result IoError nat) :=
  if is_empty b then Some (b, Ok 0)
  else
    match writer (as_slice b) with
    | None => Some (b, Err Io)
    | Some n => b ← consume n b; Some (b, Ok n)
    end.

Definition extend_from_slice (s : list Z) (b : Buffer) : option Buffer :=
  if length s <=? writable b then advance (length s) (set_spare (s ++ drop (length s) (spare b)) b) else None.

(** [BufferPair]. *)
Record BufferPair := { send : Buffer; recv : Buffer }.

Definition pair_with_capacity (send_cap recv_cap : nat) : BufferPair :=
  {| send := with_capacity send_cap; recv := with_capacity recv_cap |}.

(** ** A history of a buffer *)

Inductive BufferOp :=
| Extend (s : list Z)
| Consume (n : nat)
| Compact
| Clear
| Grow (needed : nat)
| ReadFrom (reader : Reader)
| WriteTo (writer : Writer).

(** A step: the buffer, what went in and what came out or was cleared. *)
Definition buffer_step (o : BufferOp) (b : Buffer) : option (Buffer * list Z * list Z) :=
  match o with
  | Extend s => b' ← extend_from_slice s b; Some (b', s, [])
  | Consume n => b' ← consume n b; Some (b', [], take n (as_slice b))
  | Compact => Some (compact b, [], [])
  | Clear => Some (clear b, [], as_slice b)
  | Grow needed => b' ← grow needed b; Some (b', [], [])
  | ReadFrom reader =>
      '(b', r) ← read_from reader b;
      Some (b', match r with Ok n => drop (readable b) (as_slice b') | Err _ => [] end, [])
  | WriteTo writer =>
      '(b', r) ← write_to writer b;
      Some (b', [], match r with Ok n => take n (as_slice b) | Err _ => [] end)
  end.

Fixpoint buffer_run (os : list BufferOp) (b : Buffer) : option (Buffer * list Z * list Z) :=
  match os with
  | [] => Some (b, [], [])
  | o :: os => '(b, i, t) ← buffer_step o b; '(b, i', t') ← buffer_run os b; Some (b, i ++ i', t ++ t')
  end.

(** A reader that keeps the slice's length and claims no more than it. *)
Definition honest (reader : Reader) : Prop :=
  forall s s' n, reader s = Some (s', n) -> length s' = length s /\ n <= length s.

Definition honest_op (o : BufferOp) : Prop := match o with ReadFrom r => honest r | _ => True end.

(** The positions are in order, the buffer within an allocation. *)
Definition wf (b : Buffer) : Prop :=
  read_pos b <= write_pos b <= capacity b /\ (Z.of_nat (capacity b) <= max_alloc)%Z.

(** ** Lemmas *)

Lemma as_slice_length b : wf b -> length (as_slice b) = readable b.
Proof. intros [B _]. unfold as_slice, readable, capacity in *. rewrite length_take, length_drop. lia. Qed.

Lemma with_capacity_wf n : (Z.of_nat n <= max_alloc)%Z -> wf (with_capacity n).
Proof. intros B. split; unfold capacity; cbn; rewrite length_replicate; [lia|done]. Qed.

Lemma as_slice_new n : as_slice (with_capacity n) = [].
Proof. done. Qed.

(** A buffer whose data starts with [s] holds [s]. *)
Lemma slice_at_front s l : as_slice {| data := s ++ l; read_pos := 0; write_pos := length s |} = s.
Proof. unfold as_slice. cbn. by rewrite Nat.sub_0_r, drop_0, take_app_length. Qed.

Lemma copy_to_front_length s l : length s <= length l -> length (copy_to_front s l) = length l.
Proof. intros L. unfold copy_to_front. rewrite length_app, length_drop. lia. Qed.

Lemma compact_spec b : wf b -> wf (compact b) /\ as_slice (compact b) = as_slice b /\ capacity (compact b) = capacity b /\
  (writable b <= writable (compact b)) /\ (read_pos (compact b) = 0).
Proof.
  intros W. pose proof (as_slice_length b W) as L. destruct W as [B A]. unfold compact, wf, writable.
  destruct (Nat.eqb_spec (read_pos b) 0) as [E|E]; [split_and!; try done; lia|].
  destruct (Nat.ltb_spec 0 (readable b)) as [P|P].
  - assert (Lc : length (copy_to_front (as_slice b) (data b)) = length (data b)).
    { apply copy_to_front_length. rewrite L. unfold readable, capacity in *. lia. }
    unfold capacity in *. cbn. rewrite Lc. unfold readable in *. split_and!; try lia; try done.
    rewrite <- L. apply slice_at_front.
  - unfold capacity, readable in *. cbn. split_and!; try lia; try done.
    unfold as_slice. cbn. by replace (write_pos b - read_pos b) with 0 by lia.
Qed.

Lemma consume_spec n b b' :
  wf b -> consume n b = Some b' -> wf b' /\ n <= readable b /\ as_slice b' = drop n (as_slice b) /\ capacity b' = capacity b.
Proof.
  intros [B A] E. unfold consume in E. destruct (Nat.leb_spec n (readable b)); [|done].
  unfold readable, capacity, wf in *. injection E as <-. cbn. destruct (Nat.eqb_spec (read_pos b + n) (write_pos b)) as [Z0|Z0].
  - cbn. split_and!; try lia; try done. unfold as_slice, capacity in *. cbn. symmetry. apply length_zero_iff_nil.
    rewrite length_drop, length_take, length_drop. lia.
  - cbn. split_and!; try lia; try done. unfold as_slice. cbn. rewrite skipn_firstn_comm, drop_drop. f_equal. lia.
Qed.

(** The spare slice overwritten, [n] of it taken in. *)
Lemma advance_spec n s b b' :
  wf b -> length s = writable b -> advance n (set_spare s b) = Some b' ->
  wf b' /\ as_slice b' = as_slice b ++ take n s /\ capacity b' = capacity b /\ n <= writable b.
Proof.
  intros [B A] L E. unfold advance in E.
  assert (C : capacity (set_spare s b) = capacity b).
  { unfold capacity, set_spare, writable in *. cbn. rewrite length_app, length_take. unfold capacity in *. lia. }
  unfold writable in E. rewrite C in E. cbn in E. fold (writable b) in E.
  destruct (Nat.leb_spec n (writable b)); [|done]. injection E as <-. unfold wf.
  change (capacity (_ <| write_pos := _ |>)) with (capacity (set_spare s b)). rewrite C. unfold writable in *.
  split_and!; cbn; try lia; try done. unfold as_slice, capacity in *. cbn.
  rewrite drop_app_le by (rewrite length_take; lia). rewrite take_app, length_drop, length_take.
  rewrite skipn_firstn_comm. rewrite take_take. f_equal; f_equal; lia.
Qed.

Lemma usize_small z : (0 <= z <= u64_max)%Z -> usize z = Z.to_nat z.
Proof. intros B. unfold usize. by rewrite wrap64_small. Qed.

Lemma grow_spec needed b b' :
  wf b -> grow needed b = Some b' -> wf b' /\ as_slice b' = as_slice b.
Proof.
  intros W E. pose proof (as_slice_length b W) as L. unfold grow in E.
  destruct (Z.ltb_spec max_alloc (Z.of_nat (usize (Z.of_nat (capacity b) * 2) `max` usize (Z.of_nat (readable b) + Z.of_nat needed)))); [done|].
  set (m := _ `max` _) in *. destruct (Nat.leb_spec (readable b) m); [|done]. injection E as <-.
  destruct (Nat.ltb_spec 0 (readable b)) as [P|P].
  - assert (Lc : length (copy_to_front (as_slice b) (replicate m 0%Z)) = m).
    { rewrite copy_to_front_length by (rewrite length_replicate; lia). apply length_replicate. }
    unfold wf, capacity. cbn. rewrite Lc. split_and!; try lia; try done. rewrite <- L. apply slice_at_front.
  - unfold wf, capacity. cbn. rewrite length_replicate. split_and!; try lia; try done.
    assert (readable b = 0) as Z0 by lia. rewrite Z0 in *. unfold as_slice at 1. cbn. by apply symmetry, length_zero_iff_nil.
Qed.

Lemma spare_length b : length (spare b) = writable b.
Proof. unfold spare, writable, capacity. by rewrite length_drop. Qed.

Lemma extend_spec s b b' :
  wf b -> extend_from_slice s b = Some b' -> wf b' /\ as_slice b' = as_slice b ++ s /\ capacity b' = capacity b.
Proof.
  intros W E. unfold extend_from_slice in E. destruct (Nat.leb_spec (length s) (writable b)); [|done].
  apply advance_spec in E as (W' & S & C & _); [|done|].
  - rewrite take_app_length in S. done.
  - rewrite length_app, length_drop, spare_length. lia.
Qed.

(** The buffer a read works on. *)
Definition made_room (b : Buffer) : Buffer := if writable b <? capacity b / 4 then compact b else b.

Lemma made_room_spec b : wf b -> wf (made_room b) /\ as_slice (made_room b) = as_slice b /\ capacity (made_room b) = capacity b.
Proof.
  intros W. unfold made_room. destruct (_ <? _); [|by split_and!]. destruct (compact_spec b W) as (W' & S & C & _). by split_and!.
Qed.

Lemma read_from_spec reader b b' r :
  wf b -> honest reader -> read_from reader b = Some (b', r) ->
  wf b' /\ capacity b' = capacity b /\
  match r with
  | Ok n => exists s, reader (spare (made_room b)) = Some (s, n) /\ as_slice b' = as_slice b ++ take n s
  | Err _ => as_slice b' = as_slice b
  end.
Proof.
  intros W Ho E. unfold read_from in E. fold (made_room b) in E. destruct (made_room_spec b W) as (W1 & S1 & C1).
  destruct (writable (made_room b) =? 0); [by injection E as <- <-|].
  destruct (reader (spare (made_room b))) as [[s n]|] eqn:R; [|by injection E as <- <-].
  destruct (Ho _ _ _ R) as [Ls Ln]. destruct (advance n _) as [b2|] eqn:A; cbn [mbind option_bind] in E; [|done].
  injection E as <- <-. apply advance_spec in A as (W2 & S2 & C2 & _); [|done|by rewrite Ls, spare_length].
  split_and!; [done|congruence|]. exists s. split; [done|]. by rewrite S2, S1.
Qed.

Lemma write_to_spec writer b b' r :
  wf b -> write_to writer b = Some (b', r) ->
  wf b' /\ capacity b' = capacity b /\
  match r with Ok n => as_slice b' = drop n (as_slice b) | Err _ => b' = b end.
Proof.
  intros W E. unfold write_to in E. destruct (is_empty b); [by injection E as <- <-|].
  destruct (writer (as_slice b)) as [n|]; [|by injection E as <- <-].
  destruct (consume n b) as [b1|] eqn:C; cbn [mbind option_bind] in E; [|done]. injection E as <- <-.
  by apply consume_spec in C as (W1 & _ & S1 & C1).
Qed.

(** What a step lets out and what it leaves is what there was and what it let
    in. *)
Lemma buffer_step_spec o b b' i t :
  wf b -> honest_op o -> buffer_step o b = Some (b', i, t) -> wf b' /\ t ++ as_slice b' = as_slice b ++ i.
Proof.
  intros W Ho E. destruct o as [s|n| | |needed|reader|writer]; cbn in E, Ho.
  - destruct (extend_from_slice s b) as [b1|] eqn:X; cbn in E; [|done]. injection E as <- <- <-.
    by apply extend_spec in X as (W1 & S1 & _).
  - destruct (consume n b) as [b1|] eqn:X; cbn in E; [|done]. injection E as <- <- <-.
    apply consume_spec in X as (W1 & _ & S1 & _); [|done]. split; [done|]. by rewrite S1, take_drop, app_nil_r.
  - injection E as <- <- <-. destruct (compact_spec b W) as (W1 & S1 & _). by rewrite S1, app_nil_r.
  - injection E as <- <- <-. split; [|done]. destruct W as [B A]. split; [cbn; lia|exact A].
  - destruct (grow needed b) as [b1|] eqn:X; cbn in E; [|done]. injection E as <- <- <-.
    apply grow_spec in X as [W1 S1]; [|done]. by rewrite S1, app_nil_r.
  - destruct (read_from reader b) as [[b1 r]|] eqn:X; cbn in E; [|done]. injection E as <- <- <-.
    apply read_from_spec in X as (W1 & _ & S1); [|done..]. split; [done|]. destruct r as [n|e].
    + destruct S1 as (s & _ & S1). rewrite S1, <- (as_slice_length b W). by rewrite drop_app_length.
    + cbn. by rewrite S1, app_nil_r.
  - destruct (write_to writer b) as [[b1 r]|] eqn:X; cbn in E; [|done]. injection E as <- <- <-.
    apply write_to_spec in X as (W1 & _ & S1); [|done]. split; [done|]. rewrite app_nil_r. destruct r as [n|e].
    + by rewrite S1, take_drop.
    + by rewrite S1.
Qed.


(** A read finds the room there is.  On a buffer of four bytes or more, a
    read is refused as full only when every byte of it is unread; with a reader
    that keeps to its slice it never panics, and no failure changes what is
    readable. *)
Theorem read_from_total reader b :
  wf b -> 4 <= capacity b -> honest reader ->
  exists b' r, read_from reader b = Some (b', r) /\ wf b' /\
    match r with
    | Ok n => exists s, reader (spare (made_room b)) = Some (s, n) /\ as_slice b' = as_slice b ++ take n s
    | Err e => as_slice b' = as_slice b /\ (e = BufferFull -> readable b = capacity b)
    end.
Proof.
  intros W C Ho. assert (T : exists b' r, read_from reader b = Some (b', r) /\ (r = Err BufferFull -> readable b = capacity b)).
  { unfold read_from. fold (made_room b). destruct (Nat.eqb_spec (writable (made_room b)) 0) as [Z0|Z0].
    - do 2 eexists. split; [done|]. intros _. unfold made_room in Z0. pose proof (Nat.div_le_mono 4 (capacity b) 4 ltac:(done) C) as D.
      rewrite Nat.div_same in D by done. destruct (Nat.ltb_spec (writable b) (capacity b / 4)) as [Lt|Ge]; [|lia].
      destruct (compact_spec b W) as (W1 & S1 & C1 & _ & P0). pose proof (as_slice_length _ W1) as L1.
      rewrite S1, (as_slice_length b W) in L1. destruct W1 as [B1 _]. unfold writable, readable in *. lia.
    - destruct (reader (spare (made_room b))) as [[s n]|] eqn:R; [|by do 2 eexists].
      destruct (Ho _ _ _ R) as [Ls Ln]. destruct (advance n (set_spare s (made_room b))) as [b1|] eqn:A; [by do 2 eexists|].
      exfalso. unfold advance in A. destruct (made_room_spec b W) as ([B1 _] & _ & _).
      assert (writable (set_spare s (made_room b)) = writable (made_room b)) as E.
      { unfold writable, capacity, set_spare in *. cbn. rewrite length_app, length_take, Ls, spare_length.
        unfold writable, capacity. lia. }
      rewrite E in A. rewrite spare_length in Ln. by destruct (Nat.leb_spec n (writable (made_room b))); [|lia]. }
  destruct T as (b' & r & E & F). exists b', r. split; [exact E|]. destruct (read_from_spec _ _ _ _ W Ho E) as (W' & _ & S).
  split; [exact W'|]. destruct r as [n|e]; [exact S|]. split; [exact S|]. intros ->. by apply F.
Qed.

(** Below four bytes a quarter of the capacity is nothing, and a full buffer is
    not compacted though some of it is consumed. *)
Example small_buffer_not_compacted :
  read_from (fun s => Some (s, 1)) {| data := [1%Z; 2%Z; 3%Z]; read_pos := 1; write_pos := 3 |}
  = Some ({| data := [1%Z; 2%Z; 3%Z]; read_pos := 1; write_pos := 3 |}, Err BufferFull).
Proof. reflexivity. Qed.

(** *** Witnesses *)

Definition two_sevens : Reader := fun s => Some ([7%Z; 7%Z] ++ drop 2 s, Nat.min 2 (length s)).


Lemma read_from_total_witness :
  exists b' r, read_from (fun s => Some (s, length s)) {| data := [1; 2; 3; 4]%Z; read_pos := 2; write_pos := 4 |} = Some (b', r) /\ wf b'.
Proof.
  destruct (read_from_total (fun s => Some (s, length s)) {| data := [1; 2; 3; 4]%Z; read_pos := 2; write_pos := 4 |}) as (b' & r & E & W & _).
  - split; [cbn; lia|vm_compute; congruence].
  - cbn. lia.
  - intros x x' m E. by injection E as <- <-.
  - exists b', r. split; [exact E|exact W].
Defined.
