(* ===== verification/Format.v ===== *)
(** Format: the numbers of the reports ([src/src/output/format.rs]).

    A [String] is the list of its characters' code points, which the padding
    counts.  Decimal formatting of a double is F64's [fmt_f64]. *)

From Stdlib Require Import SpecFloat.
From S2P Require Import Prelude F64 Text.
Open Scope Z_scope.

(** [format!("{:.d}", x)]. *)
Definition fixed (d : nat) (x : f64) : list Z := bytes_of (fmt_f64 d x).

(** [format!("{:>width$}", s)]. *)
Definition pad_left (width : nat) (s : list Z) : list Z := replicate (width - length s) 32 ++ s.

Definition f64_ge (x y : f64) : bool := f64_le y x.

(** [format_3sig]. *)
Definition format_3sig (value : f64) (suffix : list Z) : list Z :=
  if f64_lt value (f64_lit 9995 1000) then fixed 2 value ++ suffix
  else if f64_lt value (f64_lit 9995 100) then fixed 1 value ++ suffix
  else fixed 0 value ++ suffix.

(** [format_rate]. *)
Definition format_rate (value : f64) : list Z :=
  if f64_lt value (f64_of_Z 1000) then format_3sig value []
  else if f64_lt value (f64_of_Z 1000000) then format_3sig (f64_div value (f64_of_Z 1000)) (bytes_of "K")
  else format_3sig (f64_div value (f64_of_Z 1000000)) (bytes_of "M").

Definition format_rate_padded (value : f64) (width : nat) : list Z := pad_left width (format_rate value).

(** The three cases of each unit of [format_latency_us]. *)
Definition latency_unit (x : f64) (unit_ : list Z) : list Z :=
  if f64_lt x (f64_of_Z 10) then fixed 2 x ++ unit_
  else if f64_lt x (f64_of_Z 100) then fixed 1 x ++ unit_
  else fixed 0 x ++ unit_.

(** [format_latency_us]; 181 is the micro sign. *)
Definition format_latency_us (us : f64) : list Z :=
  if f64_lt us (f64_of_Z 1000) then latency_unit us [32; 181; 115]
  else if f64_lt us (f64_of_Z 1000000) then latency_unit (f64_div us (f64_of_Z 1000)) (bytes_of " ms")
  else latency_unit (f64_div us (f64_of_Z 1000000)) (bytes_of " s").

Definition format_latency_padded (us : f64) (width : nat) : list Z := pad_left width (format_latency_us us).

(** [format_pct]. *)
Definition format_pct (value : f64) : list Z :=
  if f64_ge value (f64_lit 9995 100) then fixed 0 value
  else if f64_ge value (f64_of_Z 10) then fixed 1 value
  else fixed 2 value.

Definition format_pct_padded (value : f64) (width : nat) : list Z := pad_left width (format_pct value).

(** [format_bandwidth_bps]. *)
Definition format_bandwidth_bps (bps : f64) : list Z :=
  if f64_lt bps (f64_of_Z 1000) then fixed 0 bps ++ bytes_of " bps"
  else if f64_lt bps (f64_of_Z 1000000) then fixed 1 (f64_div bps (f64_of_Z 1000)) ++ bytes_of " Kbps"
  else if f64_lt bps (f64_of_Z 1000000000) then fixed 1 (f64_div bps (f64_of_Z 1000000)) ++ bytes_of " Mbps"
  else fixed 2 (f64_div bps (f64_of_Z 1000000000)) ++ bytes_of " Gbps".

(** [format_count]. *)
Definition format_count (value : Z) : list Z :=
  let v := f64_of_Z value in
  if f64_lt v (f64_of_Z 1000) then show value
  else if f64_lt v (f64_of_Z 1000000) then fixed 1 (f64_div v (f64_of_Z 1000)) ++ bytes_of "K"
  else if f64_lt v (f64_of_Z 1000000000) then fixed 1 (f64_div v (f64_of_Z 1000000)) ++ bytes_of "M"
  else fixed 1 (f64_div v (f64_of_Z 1000000000)) ++ bytes_of "B".

(** [format_bytes]. *)
Definition format_bytes (bytes : Z) : list Z :=
  let v := f64_of_Z bytes in
  let k := f64_of_Z 1024 in
  if f64_lt v k then show bytes ++ bytes_of "B"
  else if f64_lt v (f64_mul k k) then fixed 1 (f64_div v k) ++ bytes_of "KB"
  else if f64_lt v (f64_mul (f64_mul k k) k) then fixed 1 (f64_div v (f64_mul k k)) ++ bytes_of "MB"
  else fixed 2 (f64_div v (f64_mul (f64_mul k k) k)) ++ bytes_of "GB".

(** The module's own examples. *)
Example format_examples :
  format_rate (f64_lit 123 100) = bytes_of "1.23" /\ format_rate (f64_of_Z 99950) = bytes_of "100K" /\
  format_rate (f64_of_Z 9995) = bytes_of "10.0K" /\ format_rate (f64_of_Z 234000000) = bytes_of "234M" /\
  format_latency_us (f64_of_Z 42500) = bytes_of "42.5 ms" /\ format_pct (f64_lit 9523 100) = bytes_of "95.2" /\
  format_bandwidth_bps (f64_of_Z 1240000000) = bytes_of "1.24 Gbps" /\ format_count 1500 = bytes_of "1.5K".
Proof. split_and!; vm_compute; reflexivity. Qed.

(** Where the promised three figures become four: a value that rounds up to the
    next unit's first, or, in latencies and percentages, past 10. *)
Example four_figures :
  format_rate (f64_lit 9996 10) = bytes_of "1000" /\ format_rate (f64_of_Z 999600) = bytes_of "1000K" /\
  format_latency_us (f64_lit 9996 1000) = bytes_of "10.00" ++ [32; 181; 115] /\
  format_latency_us (f64_lit 9997 10) = bytes_of "1000" ++ [32; 181; 115] /\
  format_pct (f64_lit 9996 1000) = bytes_of "10.00".
Proof. split_and!; vm_compute; reflexivity. Qed.

(** ** Doubles as integers

    The value of a positive double in units of [2^-1074]. *)
Definition units (m : positive) (e : Z) : Z := Z.pos m * 2 ^ (e + 1074).

Lemma digits2_bounds m : 2 ^ (Z.pos (digits2_pos m) - 1) <= Z.pos m < 2 ^ Z.pos (digits2_pos m).
Proof.
  induction m as [m IH|m IH|]; cbn [digits2_pos]; [| |cbn; lia].
  all: rewrite Pos2Z.inj_succ; replace (Z.succ (Z.pos (digits2_pos m)) - 1) with (Z.succ (Z.pos (digits2_pos m) - 1)) by lia.
  all: rewrite !Z.pow_succ_r by lia; lia.
Qed.

(** What [bounded] says of the exponent. *)
Lemma bounded_inv m e :
  bounded 53 1024 m e = true -> - 1074 <= e /\ Z.pos m < 2 ^ 53 /\ (- 1074 < e -> 2 ^ 52 <= Z.pos m).
Proof.
  intros B. unfold bounded in B. apply andb_true_iff in B as [C _]. unfold canonical_mantissa in C.
  apply Zeq_bool_eq in C. unfold fexp, emin in C. pose proof (digits2_bounds m) as D.
  set (d := Z.pos (digits2_pos m)) in *. assert (d <= 53) by lia. split; [lia|]. split.
  - apply Z.lt_le_trans with (2 ^ d); [lia|]. apply Z.pow_le_mono_r; lia.
  - intros E. assert (d = 53) as Ed by lia. rewrite Ed in D. exact (proj1 D).
Qed.

(** The comparison of doubles is that of their values. *)
Lemma f64_lt_units m1 e1 m2 e2 :
  bounded 53 1024 m1 e1 = true -> bounded 53 1024 m2 e2 = true ->
  f64_lt (S754_finite false m1 e1) (S754_finite false m2 e2) = (units m1 e1 <? units m2 e2).
Proof.
  intros B1 B2. apply bounded_inv in B1 as (L1 & U1 & N1). apply bounded_inv in B2 as (L2 & U2 & N2).
  assert (Low : forall m1 e1 m2 e2, - 1074 <= e1 -> e1 < e2 -> Z.pos m1 < 2 ^ 53 -> 2 ^ 52 <= Z.pos m2 -> units m1 e1 < units m2 e2).
  { clear. intros m1 e1 m2 e2 L Lt U N. unfold units.
    apply Z.lt_le_trans with (2 ^ 53 * 2 ^ (e1 + 1074)).
    - apply Z.mul_lt_mono_pos_r; [apply Z.pow_pos_nonneg; lia|exact U].
    - apply Z.le_trans with (2 ^ 52 * 2 ^ (e2 + 1074)); [|apply Z.mul_le_mono_nonneg_r; [apply Z.pow_nonneg; lia|exact N]].
      rewrite <- !Z.pow_add_r by lia. apply Z.pow_le_mono_r; lia. }
  unfold f64_lt, SFltb, SFcompare. destruct (Z.compare_spec e1 e2) as [E|E|E].
  - subst e2. change (Pcompare m1 m2 Eq) with (Pos.compare m1 m2). unfold units.
    assert (P : 0 < 2 ^ (e1 + 1074)) by (apply Z.pow_pos_nonneg; lia).
    destruct (Pos.compare_spec m1 m2) as [->|Lt|Gt]; symmetry.
    + apply Z.ltb_irrefl.
    + apply Z.ltb_lt. apply Z.mul_lt_mono_pos_r; [exact P|lia].
    + apply Z.ltb_ge. apply Z.mul_le_mono_nonneg_r; [lia|lia].
  - symmetry. apply Z.ltb_lt. apply Low; try done. apply N2. lia.
  - symmetry. apply Z.ltb_ge. apply Z.lt_le_incl. apply Low; try done. apply N1. lia.
Qed.

(** ** Three figures *)

(** The decimal digits of a text. *)
Definition figures (s : list Z) : nat := length (List.filter (fun c => (48 <=? c) && (c <=? 57)) s).

Lemma figures_app s s' : figures (s ++ s') = (figures s + figures s')%nat.
Proof. unfold figures. by rewrite List.filter_app, length_app. Qed.

(** The numbers the three cases print, checked one by one. *)
Lemma with_point_figures :
  (forall q, 0 <= q < 1000 -> figures (bytes_of (with_point q 2)) = 3%nat) /\
  (forall q, 100 <= q < 1000 -> figures (bytes_of (with_point q 1)) = 3%nat) /\
  (forall q, 100 <= q < 1000 -> figures (bytes_of (with_point q 0)) = 3%nat).
Proof.
  assert (A : forall d lo, forallb (fun n => (figures (bytes_of (with_point (Z.of_nat n) d)) =? 3)%nat) (seq lo (1000 - lo)) = true ->
    forall q, Z.of_nat lo <= q < 1000 -> figures (bytes_of (with_point q d)) = 3%nat).
  { intros d lo F q B. rewrite forallb_forall in F. specialize (F (Z.to_nat q)). rewrite in_seq, Z2Nat.id in F by lia.
    apply Nat.eqb_eq, F. lia. }
  split; [|split]; intros q B; [apply (A 2%nat 0%nat)|apply (A 1%nat 100%nat)|apply (A 0%nat 100%nat)]; try lia; vm_compute; reflexivity.
Qed.

(** Rounding stays on its side of a half. *)
Lemma round_half_even_lt n d k : 0 < d -> 2 * n < (2 * k - 1) * d -> round_half_even n d < k.
Proof.
  intros D L. unfold round_half_even. pose proof (Z.div_mod n d ltac:(lia)). pose proof (Z.mod_pos_bound n d D).
  destruct (Z.ltb_spec (2 * (n mod d)) d); [nia|]. destruct (Z.ltb_spec d (2 * (n mod d))); [nia|]. destruct (Z.even _); nia.
Qed.

Lemma round_half_even_ge n d k : 0 < d -> (2 * k - 1) * d < 2 * n -> k <= round_half_even n d.
Proof.
  intros D L. unfold round_half_even. pose proof (Z.div_mod n d ltac:(lia)). pose proof (Z.mod_pos_bound n d D).
  destruct (Z.ltb_spec (2 * (n mod d)) d); [nia|]. destruct (Z.ltb_spec d (2 * (n mod d))); [nia|]. destruct (Z.even _); nia.
Qed.

Lemma round_half_even_nonneg n d : 0 <= n -> 0 < d -> 0 <= round_half_even n d.
Proof. intros N D. apply round_half_even_ge; nia. Qed.

(** What [{:.d}] prints of a double below [2^52], against bounds in units. *)
Lemma fixed_figures d m e lo hi :
  e < 0 -> - 1074 <= e ->
  (forall q, lo <= q < hi -> figures (bytes_of (with_point q d)) = 3%nat) ->
  2 * (units m e * 10 ^ Z.of_nat d) < (2 * hi - 1) * 2 ^ 1074 ->
  lo = 0 \/ (2 * lo - 1) * 2 ^ 1074 < 2 * (units m e * 10 ^ Z.of_nat d) ->
  figures (fixed d (S754_finite false m e)) = 3%nat.
Proof.
  intros E L F U Lo. unfold fixed, fmt_f64. rewrite (proj2 (Z.leb_gt 0 e) E). change (("" ++ ?s)%string) with s. apply F.
  set (n := Z.pos m * 10 ^ Z.of_nat d). set (t := 10 ^ Z.of_nat d) in *. assert (P : 0 < 2 ^ (- e)) by (apply Z.pow_pos_nonneg; lia).
  assert (T : 0 < t) by (apply Z.pow_pos_nonneg; lia).
  set (s := 2 ^ (e + 1074)). assert (S0 : 0 < s) by (apply Z.pow_pos_nonneg; lia).
  assert (Sc : 2 ^ 1074 = 2 ^ (- e) * s) by (unfold s; rewrite <- Z.pow_add_r by lia; f_equal; lia).
  assert (Un : units m e * t = n * s) by (unfold units, n, s; lia).
  rewrite Un, Sc in *. split.
  - destruct Lo as [->|Lo]; [apply round_half_even_nonneg; [unfold n; lia|done]|].
    apply round_half_even_ge; [exact P|]. nia.
  - apply round_half_even_lt; [exact P|]. nia.
Qed.

(** The boundaries of the cases, as doubles. *)
Lemma boundary_10 : f64_lit 9995 1000 = S754_finite false 5626684784446013 (-49).
Proof. vm_compute. reflexivity. Qed.

Lemma boundary_100 : f64_lit 9995 100 = S754_finite false 7033355980557517 (-46).
Proof. vm_compute. reflexivity. Qed.

Lemma boundary_1000 : f64_lit 9995 10 = S754_finite false 8791694975696896 (-43).
Proof. vm_compute. reflexivity. Qed.

(** Below 99.95 is at most the double before it. *)
Lemma below_boundary_100 m e :
  bounded 53 1024 m e = true -> units m e < units 7033355980557517 (-46) -> units m e <= units 7033355980557516 (-46).
Proof.
  intros B L. apply bounded_inv in B as (Le & Um & _). change (-46 + 1074) with 1028 in *. unfold units in *.
  destruct (Z.le_gt_cases (-46) e) as [G|G].
  - replace (e + 1074) with (e + 46 + 1028) in * by lia. rewrite Z.pow_add_r in * by lia.
    replace (-46 + 1074) with 1028 in * by lia. assert (P : 0 < 2 ^ 1028) by (apply Z.pow_pos_nonneg; lia).
    rewrite Z.mul_assoc in *. apply Z.mul_lt_mono_pos_r in L; [|exact P]. apply Z.mul_le_mono_nonneg_r; lia.
  - replace (-46 + 1074) with 1028 in * by lia. apply Z.le_trans with (2 ^ 53 * 2 ^ 1027).
    + apply Z.mul_le_mono_nonneg; [lia|lia|apply Z.pow_nonneg; lia|apply Z.pow_le_mono_r; lia].
    + rewrite <- Z.pow_add_r by lia. change (2 ^ (53 + 1027)) with (2 ^ 52 * 2 ^ 1028).
      apply Z.mul_le_mono_nonneg_r; [apply Z.pow_nonneg; lia|lia].
Qed.

(** Rates are printed in three figures.  Every positive double below 999.5
    is printed by [format_3sig] with exactly three decimal digits, also where
    it rounds up to 10 or 100; from 999.5 on, four are possible. *)
Theorem three_figures m e suffix :
  bounded 53 1024 m e = true -> f64_lt (S754_finite false m e) (f64_lit 9995 10) = true ->
  figures (format_3sig (S754_finite false m e) suffix) = (3 + figures suffix)%nat.
Proof.
  intros B L. rewrite boundary_1000, f64_lt_units in L by done. apply Z.ltb_lt in L.
  unfold format_3sig. rewrite boundary_10, boundary_100, !f64_lt_units by done.
  destruct with_point_figures as (F2 & F1 & F0). pose proof (bounded_inv m e B) as (Le & _ & Nm).
  assert (E : e < 0).
  { destruct (Z.lt_ge_cases e 0) as [|G]; [done|]. exfalso. specialize (Nm ltac:(lia)). unfold units in L.
    assert (2 ^ 1074 <= 2 ^ (e + 1074)) as Pw by (apply Z.pow_le_mono_r; lia).
    assert (2 ^ 52 * 2 ^ 1074 <= Z.pos m * 2 ^ (e + 1074)) as Lo by (apply Z.mul_le_mono_nonneg; try lia; apply Z.pow_nonneg; lia).
    replace (-43 + 1074) with 1031 in L by lia. change (2 ^ 1074) with (2 ^ 43 * 2 ^ 1031) in Lo.
    assert (P : 0 < 2 ^ 1031) by (apply Z.pow_pos_nonneg; lia). nia. }
  pose proof (fun d lo hi => fixed_figures d m e lo hi E Le) as Fx. assert (Bu := below_boundary_100 m e B).
  set (x := units m e) in *. unfold units in *. change (-49 + 1074) with 1025 in *. change (-46 + 1074) with 1028 in *.
  change (-43 + 1074) with 1031 in *. change (2 ^ 1074) with (2 ^ 49 * 2 ^ 1025) in Fx.
  change (2 ^ 1028) with (2 ^ 3 * 2 ^ 1025) in *. change (2 ^ 1031) with (2 ^ 6 * 2 ^ 1025) in *.
  assert (P : 0 < 2 ^ 1025) by (apply Z.pow_pos_nonneg; lia). set (u := 2 ^ 1025) in *. clearbody u.
  destruct (Z.ltb_spec x (5626684784446013 * u)) as [X|X].
  { rewrite figures_app. f_equal. apply (Fx 2%nat 0 1000 F2); [change (10 ^ Z.of_nat 2) with 100; lia|by left]. }
  destruct (Z.ltb_spec x (7033355980557517 * (2 ^ 3 * u))) as [Y|Y].
  { specialize (Bu Y). rewrite figures_app. f_equal.
    apply (Fx 1%nat 100 1000 F1); [|right]; change (10 ^ Z.of_nat 1) with 10; lia. }
  rewrite figures_app. f_equal. apply (Fx 0%nat 100 1000 F0); [|right]; change (10 ^ Z.of_nat 0) with 1; lia.
Qed.

(** 99.96 rounds up to 100. *)
Lemma three_figures_witness :
  format_3sig (f64_lit 9996 100) (bytes_of "K") = bytes_of "100K" /\
  figures (format_3sig (S754_finite false 7034059665467802 (-46)) (bytes_of "K")) = 3%nat.
Proof.
  split; [vm_compute; reflexivity|].
  rewrite (three_figures 7034059665467802 (-46) (bytes_of "K")); vm_compute; reflexivity.
Defined.
