(* ===== verification/Report.v ===== *)
(** Report: what a run prints ([src/src/output/clean.rs], [quiet.rs],
    [verbose.rs], and the default methods of the trait in [mod.rs]).

    A line is the list of its characters' code points; text taken from the
    configuration is its bytes.  A method is the lines it prints, and for the
    clean formatter also its counters.  The wall-clock time of a sample is an
    argument; how tracing decorates a verbose line is outside the model. *)

From Stdlib Require Import SpecFloat.
From S2P Require Import Prelude F64 Text Config RateSearch Limiter Metrics Saturation Keys Trace KvRequest KvDispatch Reply Sizing Results Format.
Open Scope Z_scope.

Abbreviation tx := bytes_of.

Definition line : Type := list Z.

(** ** Formatting helpers *)

(** [Display] of an [i64]. *)
Definition show_i64 (n : Z) : line := if n <? 0 then 45 :: show (- n) else show n.

Definition pad_right (width : nat) (s : line) : line := s ++ replicate (width - length s) 32.

Definition as_millis (d : Z) : Z := d / 1000000.

Definition secs (d : Z) : Z := d / 1000000000.

(** [Debug] of the protocol. *)
Definition protocol_debug (p : Protocol) : line :=
  tx match p with
     | Resp_ => "Resp" | Resp3 => "Resp3" | Memcache => "Memcache" | MemcacheBinary => "MemcacheBinary" | Ping => "Ping" | Dma_ => "Dma"
     end.

(** [kv_workload_summary]. *)
Definition kv_workload_summary (kv : KvReplay.t) : line :=
  let timing :=
    if f64_eq (KvReplay.speedup kv) f64_zero then tx "closed-loop"
    else tx "open-loop at " ++ tx (display_f64 (KvReplay.speedup kv)) ++ tx "x" in
  let geometry :=
    match KvReplay.model_config kv, KvReplay.kv_bytes_per_token kv with
    | Some path, _ =>
        tx "model " ++ tx path ++
        match KvReplay.kv_dtype kv with Some dtype => tx " (" ++ tx dtype ++ tx ")" | None => [] end
    | None, Some n => show n ++ tx " KV bytes/token" ++ if KvReplay.mla kv then tx ", MLA" else []
    | None, None => tx "no geometry"
    end in
  tx "kv_replay " ++ tx (KvReplay.trace kv) ++ tx ", " ++ timing ++ tx ", " ++ geometry ++ tx ", " ++
  tx (KvWriteRule_as_str (KvReplay.write_rule kv)).

(** [trace_workload_summary]; 34 is the quotation mark. *)
Definition key_format_text (f : KvKeyFormat) : line := tx match f with KvHex => "hex" | KvDecimal => "decimal" end.

Definition trace_workload_summary (t : TraceReplay.t) : line :=
  tx "trace_replay " ++ tx (TraceReplay.trace t) ++ tx ", " ++ key_format_text (TraceReplay.key_format t) ++ tx " keys" ++
  if bool_decide (TraceReplay.key_prefix t = ""%string) then [] else tx " after " ++ [34] ++ tx (TraceReplay.key_prefix t) ++ [34].

(** ** The clean formatter *)

Definition HEADER_REPEAT_INTERVAL : Z := 25.

(** The escape codes of [mod ansi]: [ESC \[ n m]. *)
Inductive Color := RED | GREEN | YELLOW | CYAN | DIM | BOLD | RESET.

Definition ansi (c : Color) : line :=
  [27; 91] ++ tx match c with RED => "31" | GREEN => "32" | YELLOW => "33" | CYAN => "36" | DIM => "2" | BOLD => "1" | RESET => "0" end
  ++ [109].

Record CleanFormatter := {
  use_color : bool;
  sample_count : Z;
  prefill_sample_count : Z;
  results_step_count : Z;
  banner : line;
}.

#[export] Instance eta_CleanFormatter : Settable CleanFormatter := fun x =>
  {| use_color := use_color x; sample_count := sample_count x; prefill_sample_count := prefill_sample_count x;
     results_step_count := results_step_count x; banner := banner x |}.

(** [with_banner]: whether stdout is a terminal, and [NO_COLOR] set. *)
Definition with_banner (m : ColorMode) (is_terminal no_color : bool) (b : line) : CleanFormatter :=
  {| use_color := match m with Always => true | Never => false | Auto => is_terminal && negb no_color end;
     sample_count := 0; prefill_sample_count := 0; results_step_count := 0; banner := b |}.

(** [red], [green], [yellow], [dim], [bold] and [cyan]. *)
Definition paint (u : bool) (c : Color) (s : line) : line := if u then ansi c ++ s ++ ansi RESET else s.

Definition maybe_red (u : bool) (s : line) (condition : bool) : line := if condition then paint u RED s else s.

(** [workload_line]. *)
Definition workload_line (c : Config.t) : line :=
  let w := Config.workload c in
  match Workload.trace_replay w, Workload.kv_replay w with
  | Some t, _ => trace_workload_summary t
  | None, Some kv => kv_workload_summary kv
  | None, None =>
      format_count (Keyspace.count (Workload.keyspace w)) ++ tx " keys, " ++ show (Keyspace.length (Workload.keyspace w)) ++
      tx "B key, " ++ show (Values.length (Workload.values w)) ++ tx "B value, " ++ show (Commands.get (Workload.commands w)) ++
      tx ":" ++ show (Commands.set (Workload.commands w)) ++ tx " GET:SET"
  end.

Definition rule (n : nat) : line := replicate n 9472.

(** [print_config]. *)
Definition clean_config (u : bool) (b : line) (c : Config.t) : list line :=
  let endpoints := Target.endpoints (Config.target c) in
  let first := head endpoints in
  [paint u BOLD (paint u CYAN b);
   paint u DIM (rule 18);
   paint u CYAN (tx "target") ++ tx "     " ++ match first with Some e => tx (sa_ip e) | None => tx "127.0.0.1" end ++
   (if (1 <? length endpoints)%nat then tx " (+" ++ show (Z.of_nat (length endpoints - 1)) ++ tx ")" else []) ++ tx ":" ++
   show (match first with Some e => sa_port e | None => 6379 end) ++ tx " (" ++ protocol_debug (Target.protocol (Config.target c)) ++
   (if Target.tls (Config.target c) then tx ", TLS" else []) ++ tx ")";
   paint u CYAN (tx "workload") ++ tx "   " ++ workload_line c;
   paint u CYAN (tx "threads") ++ tx "    " ++ show (General.threads (Config.general c)) ++
   match General.cpu_list (Config.general c) with Some l => tx ", pinned " ++ tx l | None => [] end;
   paint u CYAN (tx "conns") ++ tx "      " ++ show (total_connections (Config.connection c)) ++ tx ", pipeline " ++
   show (Connection.pipeline_depth (Config.connection c))] ++
  match Workload.rate_limit (Config.workload c) with
  | Some rate => [paint u CYAN (tx "ratelimit") ++ tx "  " ++ format_count rate ++ tx " req/s"]
  | None => []
  end ++ [[]].

(** The phase indicators. *)
Definition clean_precheck : list line := [tx "[precheck]"].

Definition clean_precheck_ok (elapsed : Z) : list line := [tx "[precheck ok " ++ show (as_millis elapsed) ++ tx "ms]"].

Definition clean_precheck_failed (u : bool) (elapsed conns_failed : Z) : list line :=
  [[]; paint u RED (rule 72); paint u RED (tx "PRECHECK FAILED"); paint u RED (rule 72);
   paint u RED (tx "no connectivity after " ++ show (as_millis elapsed) ++ tx "ms (" ++ show conns_failed ++
                tx " connection attempts failed)");
   []; tx "hint: check that the server is running and reachable"; tx "hint: check firewall rules and target address in config"].

Definition clean_prefill (key_count : Z) : list line := [tx "[prefill " ++ format_count key_count ++ tx " keys]"; []].

Definition clean_warmup (d : Z) : list line := [tx "[warmup " ++ show (secs d) ++ tx "s]"].

Definition clean_running (d : Z) : list line := [tx "[running " ++ show (secs d) ++ tx "s]"; []].

(** [print_header]. *)
Definition header_text : line :=
  tx "time UTC  req/s      p50      p90      p99     p999    p9999      max  err/s  hit%".

Definition columns (ns : list nat) : line := mjoin (match ns with n :: ns => rule n :: map (fun n => tx "  " ++ rule n) ns | [] => [] end).

Definition clean_header (u : bool) : list line :=
  [paint u CYAN header_text; paint u DIM (columns [8; 5; 7; 7; 7; 7; 7; 7; 5; 4]%nat)].

(** The row of [print_sample]. *)
Definition sample_row (u : bool) (time : line) (s : Sample) : line :=
  let lat x := format_latency_padded x 7 in
  let err := format_rate_padded (sm_err_per_sec s) 5 in
  let sep := tx "  " in
  paint u DIM time ++ sep ++ paint u BOLD (format_rate_padded (sm_req_per_sec s) 5) ++ sep ++
  paint u DIM (lat (sm_p50 s)) ++ sep ++ paint u DIM (lat (sm_p90 s)) ++ sep ++ paint u DIM (lat (sm_p99 s)) ++ sep ++
  paint u BOLD (lat (sm_p999 s)) ++ sep ++ paint u DIM (lat (sm_p9999 s)) ++ sep ++ paint u DIM (lat (sm_max s)) ++ sep ++
  (if f64_lt f64_zero (sm_err_per_sec s) then paint u RED err else paint u DIM err) ++ sep ++
  pad_left 4 (paint u DIM (format_pct (sm_hit_pct s))).

(** [print_sample]. *)
Definition clean_sample (f : CleanFormatter) (time : line) (s : Sample) : CleanFormatter * list line :=
  let count := sample_count f in
  let again := (0 <? count) && (count mod HEADER_REPEAT_INTERVAL =? 0) in
  (f <| sample_count := wrap64 (count + 1) |>,
   (if again then [] :: clean_header (use_color f) else []) ++ [sample_row (use_color f) time s]).

(** [format_latency_row]. *)
Definition latency_row (label : line) (s : LatencyStats) : line :=
  let col x := tx "  " ++ pad_left 8 (format_latency_padded x 8) in
  label ++ col (ls_p50 s) ++ col (ls_p90 s) ++ col (ls_p99 s) ++ col (ls_p999 s) ++ col (ls_p9999 s) ++ col (ls_max s).

Definition pad_name (u : bool) (name : string) : line := paint u CYAN (pad_right 10 (tx name)).

Definition rpad (u : bool) (s : string) : line := paint u CYAN (pad_left 8 (tx s)).

(** [print_results], section by section. *)
Definition clean_summary (u : bool) (r : Results) : list line :=
  let err := err_pct r in
  let err_str :=
    format_pct err ++ tx "% errors" ++
    if 0 <? rs_timeouts r then tx " (" ++ format_count (rs_timeouts r) ++ tx " timed out)" else [] in
  [[]; paint u DIM (rule 85); paint u BOLD (tx "RESULTS (" ++ fixed 0 (rs_duration_secs r) ++ tx "s)"); paint u DIM (rule 85);
   paint u CYAN (tx "throughput") ++ tx "   " ++ format_count (f64_to_u64 (throughput r)) ++ tx " req/s, " ++
   maybe_red u err_str (f64_lt f64_zero err)] ++
  (if (0 <? rs_bytes_rx r) || (0 <? rs_bytes_tx r)
   then [paint u CYAN (tx "bandwidth") ++ tx "    " ++ format_bandwidth_bps (rx_bps r) ++ tx " RX, " ++
         format_bandwidth_bps (tx_bps r) ++ tx " TX"]
   else []) ++
  [[]; paint u CYAN (tx "hit rate") ++ tx "     " ++ format_pct (hit_pct r) ++ tx "% (" ++ format_count (rs_hits r) ++ tx " hit, " ++
       format_count (rs_misses r) ++ tx " miss)"; []].

Definition clean_latencies (u : bool) (r : Results) : list line :=
  let sep := tx "  " in
  [pad_name u "latency" ++ sep ++ rpad u "p50" ++ sep ++ rpad u "p90" ++ sep ++ rpad u "p99" ++ sep ++ rpad u "p999" ++ sep ++
   rpad u "p9999" ++ sep ++ rpad u "max"] ++
  (if 0 <? rs_get_count r then
     latency_row (pad_name u "GET") (rs_get_latencies r) ::
     if f64_lt f64_zero (ls_p50 (rs_get_ttfb r)) then [latency_row (pad_name u "GET TTFB") (rs_get_ttfb r)] else []
   else []) ++
  (if 0 <? rs_set_count r then
     latency_row (pad_name u "SET") (rs_set_latencies r) ::
     if 0 <? rs_backfill_set_count r then [latency_row (pad_name u "  backfill") (rs_backfill_set_latencies r)] else []
   else []) ++
  (if 0 <? rs_append_set_count r then [latency_row (pad_name u "APPEND SET") (rs_append_set_latencies r)] else []).

Definition clean_slip (u : bool) (r : Results) : list line :=
  if f64_lt f64_zero (ls_p99 (rs_schedule_slip r)) || (0 <? rs_requests_dropped r) then
    [[]; paint u CYAN (tx "Schedule Slip (queueing the latency clock omits)"); latency_row (pad_name u "slip") (rs_schedule_slip r);
     paint u CYAN (tx "Perceived Latency (arrival-relative, CO-honest)"); latency_row (pad_name u "perceived") (rs_perceived_latency r)] ++
    (if 0 <? rs_requests_dropped r
     then [tx "Overload: " ++ show (rs_requests_dropped r) ++ tx " of " ++ show (offered r) ++ tx " offered dropped (" ++
           fixed 1 (overload_pct r) ++ tx "%)"]
     else [])
  else [].

Definition clean_trace (u : bool) (t : TraceReplayResults) : list line :=
  let extra :=
    (if 0 <? trr_rows_failed t then paint u RED (tx ", " ++ format_count (trr_rows_failed t) ++ tx " failed") else []) ++
    (if 0 <? trr_rows_skipped t then tx ", " ++ format_count (trr_rows_skipped t) ++ tx " skipped" else []) in
  [[]; paint u CYAN (tx "Trace Replay (" ++ tx (trr_trace t) ++ tx ")");
   paint u CYAN (tx "rows") ++ tx "         " ++ format_count (trr_rows t) ++ tx " of " ++ format_count (trr_trace_rows t) ++
   tx " trace rows" ++ extra ++ if trr_finished t then tx ", trace finished" else [];
   paint u CYAN (tx "ops") ++ tx "          " ++ format_count (trr_gets t) ++ tx " GET, " ++ format_count (trr_sets t) ++
   tx " SET, " ++ format_count (trr_dels t) ++ tx " DEL"] ++
  (if 0 <? trr_read_waits t
   then [paint u CYAN (tx "reader") ++ tx "       " ++ format_count (trr_read_waits t) ++ tx " waits for the trace reader"] else []).

Definition clean_kv (u : bool) (kv : KvReplayResults) : list line :=
  let timing :=
    if kvr_closed_loop kv then tx "closed loop" else tx "open loop at " ++ tx (display_f64 (kvr_speedup kv)) ++ tx "x trace speed" in
  [[]; paint u CYAN (tx "KV Replay (" ++ timing ++ tx ", " ++ tx (kvr_write_rule kv) ++ tx ")");
   paint u CYAN (tx "requests") ++ tx "     " ++ format_count (kvr_requests kv) ++ tx " of " ++ format_count (kvr_trace_requests kv) ++
   tx " trace requests" ++
   (if 0 <? kvr_requests_failed kv then paint u RED (tx ", " ++ format_count (kvr_requests_failed kv) ++ tx " failed") else []);
   paint u CYAN (tx "tokens") ++ tx "       " ++ format_count (kvr_cached_tokens kv) ++ tx " cached (" ++
   format_pct (f64_mul (cached_fraction kv) (f64_of_Z 100)) ++ tx "%), " ++ format_count (kvr_new_tokens kv) ++ tx " new, " ++
   format_count (kvr_input_tokens kv) ++ tx " input";
   paint u CYAN (tx "prefixes") ++ tx "     " ++ format_count (kvr_full_hits kv) ++ tx " full hits, " ++
   format_count (kvr_chunk0_misses kv) ++ tx " missed at chunk 0, " ++ format_count (kvr_get_nil kv) ++ tx " GETs nil";
   latency_row (pad_name u "lookup") (kvr_lookup_time kv); latency_row (pad_name u "load") (kvr_load_time kv);
   latency_row (pad_name u "load/1k") (kvr_load_time_per_1k kv); latency_row (pad_name u "store") (kvr_store_time kv)] ++
  (if kvr_closed_loop kv then [] else [latency_row (pad_name u "sched lag") (kvr_schedule_lag kv)]).

Definition clean_connections (u : bool) (r : Results) : list line :=
  (if 0 <? rs_routed_queue_dropped r
   then [paint u RED (tx "Routed: " ++ show (rs_routed_queue_dropped r) ++ tx " of " ++ show (offered r) ++
                      tx " offered dropped at a full node queue (a node did not keep up)")] else []) ++
  (if 0 <? rs_requests_send_failed r
   then [paint u RED (tx "Send failures: " ++ show (rs_requests_send_failed r) ++
                      tx " requests not sent (usually a full send pool or zero-copy slab)")] else []) ++
  [[]; paint u CYAN (tx "connections") ++ tx "  " ++
       if 0 <? rs_conns_failed r
       then paint u RED (show_i64 (rs_conns_active r) ++ tx " active, " ++ show (rs_conns_failed r) ++ tx " failed")
       else show_i64 (rs_conns_active r) ++ tx " active, 0 failed"].

Definition clean_results (u : bool) (r : Results) : list line :=
  clean_summary u r ++ clean_latencies u r ++ clean_slip u r ++
  match rs_trace_replay r with Some t => clean_trace u t | None => [] end ++
  match rs_kv_replay r with Some kv => clean_kv u kv | None => [] end ++
  clean_connections u r.

(** [print_prefill_header] and [print_prefill_sample]. *)
Definition prefill_header_text : line := tx "elapsed    set/s   err/s  conns  reconn  progress".

Definition clean_prefill_header (u : bool) : list line :=
  [paint u CYAN prefill_header_text; paint u DIM (columns [7; 7; 6; 5; 6; 16]%nat)].

Definition elapsed_text (d : Z) : line :=
  let s := secs d in
  if s <? 60 then pad_left 6 (show s) ++ tx "s"
  else pad_left 3 (show (s / 60)) ++ tx "m" ++ (if s mod 60 <? 10 then tx "0" else []) ++ show (s mod 60) ++ tx "s".

Definition prefill_row (u : bool) (s : PrefillSample) : line :=
  let sep := tx "  " in
  let err := format_rate_padded (ps_err_per_sec s) 6 in
  let reconn := pad_left 6 (show (ps_reconnects s)) in
  paint u DIM (elapsed_text (ps_elapsed s)) ++ sep ++ paint u BOLD (format_rate_padded (ps_set_per_sec s) 7) ++ sep ++
  (if f64_lt f64_zero (ps_err_per_sec s) then paint u RED err else paint u DIM err) ++ sep ++
  pad_left 5 (show_i64 (ps_conns_active s)) ++ sep ++
  (if 0 <? ps_reconnects s then paint u YELLOW reconn else paint u DIM reconn) ++ sep ++
  paint u DIM (format_count (ps_confirmed s) ++ tx "/" ++ format_count (ps_total s) ++ tx "  " ++
               pad_left 5 (format_pct (percent (ps_confirmed s) (ps_total s))) ++ tx "%").

Definition clean_prefill_sample (f : CleanFormatter) (s : PrefillSample) : CleanFormatter * list line :=
  let count := prefill_sample_count f in
  let again := (0 <? count) && (count mod HEADER_REPEAT_INTERVAL =? 0) in
  (f <| prefill_sample_count := wrap64 (count + 1) |>,
   (if again then [] :: clean_prefill_header (use_color f) else []) ++ [prefill_row (use_color f) s]).

(** [print_prefill_timeout]. *)
Definition cause_str (c : PrefillStallCause) : line :=
  tx match c with
     | NoConnections => "no connections established"
     | NoResponses => "connections up but no responses received"
     | Stalled => "progress stalled (no new confirmations for 30s)"
     | TooSlow _ => "progressing too slowly to finish in time"
     | Unknown => "unknown"
     end.

Definition hints (c : PrefillStallCause) : list line :=
  match c with
  | NoConnections => [tx "hint: check that the server is running and reachable"; tx "hint: check firewall rules and target address in config"]
  | NoResponses => [tx "hint: server may be overloaded or not processing commands"; tx "hint: check server logs for errors"]
  | Stalled => [tx "hint: server may have stopped responding"; tx "hint: check server logs and connection state"]
  | TooSlow d => [tx "hint: estimated " ++ fixed 0 (as_secs_f64 d) ++ tx "s remaining at current rate";
                  tx "hint: increase prefill_timeout or reduce keyspace size"]
  | Unknown => [tx "hint: check server and network connectivity"]
  end.

Definition clean_prefill_timeout (u : bool) (d : PrefillDiagnostics) : list line :=
  [[]; paint u RED (rule 72); paint u RED (tx "PREFILL TIMEOUT"); paint u RED (rule 72);
   tx "cause        " ++ paint u RED (cause_str (pd_likely_cause d));
   tx "progress     " ++ format_count (pd_keys_confirmed d) ++ tx "/" ++ format_count (pd_keys_total d) ++ tx " keys (" ++
   fixed 1 (percent (pd_keys_confirmed d) (pd_keys_total d)) ++ tx "%)";
   tx "workers      " ++ show (pd_workers_complete d) ++ tx "/" ++ show (pd_workers_total d) ++ tx " complete";
   tx "elapsed      " ++ fixed 0 (as_secs_f64 (pd_elapsed d)) ++ tx "s";
   tx "connections  " ++ show_i64 (pd_conns_active d) ++ tx " active, " ++ show (pd_conns_failed d) ++ tx " failed";
   tx "requests     " ++ format_count (pd_requests_sent d) ++ tx " sent, " ++ format_count (pd_bytes_rx d) ++ tx " bytes rx"; []] ++
  hints (pd_likely_cause d).

(** [print_saturation_step]. *)
Definition bar (u : bool) : line := paint u DIM (replicate 44 9473).

Definition dash : line := [32; 8212; 32].

Definition step_verdict (u : bool) (n : Z) (s : SaturationStep) : line :=
  let step := tx "STEP " ++ show n ++ dash in
  if slo_passed s then paint u GREEN (step ++ tx "PASS")
  else if starts_with (tx "Throughput") (tx (fail_reason s)) then paint u RED (step ++ tx "FAIL" ++ dash ++ tx "Throughput Limited")
  else if starts_with (tx "Latency") (tx (fail_reason s)) then paint u RED (step ++ tx "FAIL" ++ dash ++ tx "Latency Exceeded")
  else paint u RED (step ++ tx "FAIL").

Definition transitions (s : SaturationStep) : list line :=
  (if throughput_rollover s then [tx "throughput rollover"] else []) ++ (if slip_onset s then [tx "slip onset"] else []) ++
  (if slo_breach s then [tx "first SLO breach"] else []).

Fixpoint join_lines (sep : line) (l : list line) : line :=
  match l with [] => [] | [x] => x | x :: l => x ++ sep ++ join_lines sep l end.

(** [f64::max] with 0. *)
Definition f64_max0 (x : f64) : f64 := if f64_lt f64_zero x then x else f64_zero.

Definition step_lines (u : bool) (n : Z) (s : SaturationStep) : list line :=
  let label := tx (slo_percentile_label s) in
  [[]; bar u; step_verdict u n s; [];
   tx "SLO:    " ++ format_rate (f64_of_Z (target_rate s)) ++
   (if bool_decide (step_slo_display s = ""%string) then [] else tx " @ " ++ tx (step_slo_display s));
   tx "Result: " ++ paint u BOLD (format_rate (achieved_rate s)) ++ tx " @ " ++ label ++ tx "=" ++
   paint u BOLD (format_latency_us (slo_percentile_us s));
   tx "Perceived: " ++ label ++ tx "=" ++ paint u BOLD (format_latency_us (perceived_slo_us s))] ++
  match transitions s with [] => [] | l => [paint u YELLOW (tx "Transitions: " ++ join_lines (tx ", ") l)] end ++
  (if slo_passed s || bool_decide (fail_reason s = ""%string) then []
   else [paint u (if starts_with (tx "Throughput") (tx (fail_reason s)) then YELLOW else RED) (tx (fail_reason s))]) ++
  match step_threshold_us s with
  | Some t =>
      if slo_passed s && f64_lt f64_zero t
      then [paint u DIM (tx "Headroom: " ++
              fixed 0 (f64_max0 (f64_mul (f64_div (f64_sub t (slo_percentile_us s)) t) (f64_of_Z 100))) ++ tx "%")]
      else []
  | None => []
  end ++ [bar u; []] ++ clean_header u.

Definition clean_step (f : CleanFormatter) (s : SaturationStep) : CleanFormatter * list line :=
  let n := results_step_count f in
  (f <| results_step_count := wrap64 (n + 1) |> <| sample_count := 0 |>, step_lines (use_color f) (wrap64 (n + 1)) s).

(** [print_saturation_results]. *)
Definition clean_saturation_results (u : bool) (r : SaturationResults) : list line :=
  [[]; paint u DIM (rule 56);
   match max_compliant_rate r with
   | Some rate => paint u GREEN (tx "MAX COMPLIANT THROUGHPUT: " ++ format_count rate ++ tx " req/s")
   | None =>
       if latency_floor r
       then paint u RED (tx "MAX COMPLIANT THROUGHPUT: none (latency floor above SLO -- reducing the rate stopped improving latency, so no rate will pass)")
       else paint u RED (tx "MAX COMPLIANT THROUGHPUT: none (SLO never met)")
   end].

(** ** The quiet formatter

    Its other methods print nothing, or what the trait's defaults print. *)
Definition quiet_results (r : Results) : list line :=
  [format_count (f64_to_u64 (throughput r)) ++ tx " req/s  " ++ format_pct (hit_pct r) ++ tx "% hit  p50=" ++
   format_latency_us (ls_p50 (rs_get_latencies r)) ++ tx " p99=" ++ format_latency_us (ls_p99 (rs_get_latencies r)) ++
   tx " p99.9=" ++ format_latency_us (ls_p999 (rs_get_latencies r)) ++ tx " max=" ++ format_latency_us (ls_max (rs_get_latencies r))].

(** ** The trait's defaults *)

Definition default_precheck_failed (elapsed conns_failed : Z) : list line :=
  [tx "[precheck failed] no connectivity after " ++ show (as_millis elapsed) ++ tx "ms (" ++ show conns_failed ++
   tx " connection attempts failed)"].

Definition default_prefill (key_count : Z) : list line := [tx "PREFILL: writing " ++ show key_count ++ tx " keys..."].

Definition default_prefill_sample (s : PrefillSample) : list line :=
  [tx "[prefill] " ++ show (ps_confirmed s) ++ tx "/" ++ show (ps_total s) ++ tx " (" ++
   fixed 1 (percent (ps_confirmed s) (ps_total s)) ++ tx "%) @ " ++ fixed 0 (ps_set_per_sec s) ++ tx " SET/s  err/s=" ++
   fixed 0 (ps_err_per_sec s) ++ tx "  conns=" ++ show_i64 (ps_conns_active s) ++ tx "  reconn=" ++ show (ps_reconnects s)].

Definition trait_prefill_timeout (d : PrefillDiagnostics) : list line :=
  [tx "PREFILL FAILED: " ++ tx (stall_cause_text (pd_likely_cause d));
   tx "  keys: " ++ show (pd_keys_confirmed d) ++ tx "/" ++ show (pd_keys_total d) ++ tx ", workers: " ++
   show (pd_workers_complete d) ++ tx "/" ++ show (pd_workers_total d) ++ tx ", elapsed: " ++
   fixed 0 (as_secs_f64 (pd_elapsed d)) ++ tx "s"].

(** ** The verbose formatter: the messages it hands to tracing *)

(** [p50={:.0}us …]. *)
Definition percentile_text (s : LatencyStats) : line :=
  tx "p50=" ++ fixed 0 (ls_p50 s) ++ tx "us p90=" ++ fixed 0 (ls_p90 s) ++ tx "us p99=" ++ fixed 0 (ls_p99 s) ++
  tx "us p99.9=" ++ fixed 0 (ls_p999 s) ++ tx "us p99.99=" ++ fixed 0 (ls_p9999 s) ++ tx "us max=" ++ fixed 0 (ls_max s) ++ tx "us".

Definition show_bool (b : bool) : line := tx (if b then "true" else "false").

Definition verbose_config (c : Config.t) : list line :=
  let w := Config.workload c in
  let (ring_size, buffer_size) := resolved_recv_geometry c in
  let geometry := tx "recv_buffer: " ++ show ring_size ++ tx " x " ++ show buffer_size ++ tx " bytes per worker" in
  [tx "starting cachecannon";
   tx "endpoints: [" ++ join_lines (tx ", ") (map (fun e => tx (socket_to_string e)) (Target.endpoints (Config.target c))) ++ tx "]";
   tx "protocol: " ++ protocol_debug (Target.protocol (Config.target c));
   tx "tls: " ++ show_bool (Target.tls (Config.target c));
   tx "threads: " ++ show (General.threads (Config.general c));
   tx "connections: " ++ show (total_connections (Config.connection c)) ++ tx " (total)";
   tx "pipeline_depth: " ++ show (Connection.pipeline_depth (Config.connection c))] ++
  match Workload.trace_replay w, Workload.kv_replay w with
  | Some t, _ => [tx "workload: " ++ trace_workload_summary t]
  | None, Some kv => [tx "workload: " ++ kv_workload_summary kv]
  | None, None =>
      [tx "keyspace: " ++ show (Keyspace.count (Workload.keyspace w)) ++ tx " keys, " ++ show (Keyspace.length (Workload.keyspace w)) ++
       tx " bytes each";
       tx "value_size: " ++ show (Values.length (Workload.values w)) ++ tx " bytes"]
  end ++
  [tx "io_engine: ringline (io_uring)"] ++
  (if bool_decide (is_Some (Workload.kv_replay w)) || bool_decide (is_Some (Workload.trace_replay w)) then [geometry]
   else
     let per_response := Z.max (div_ceil (Values.length (Workload.values w) mod 2 ^ 32) buffer_size) 1 in
     [geometry ++ tx " (" ++ show per_response ++ tx " buffer" ++ (if per_response =? 1 then [] else tx "s") ++ tx " per response)"]) ++
  match General.cpu_list (Config.general c) with Some l => [tx "cpu_list: " ++ tx l] | None => [] end ++
  match Workload.rate_limit w with Some rate => [tx "rate_limit: " ++ show rate ++ tx " req/s"] | None => [] end.

Definition verbose_warmup (d : Z) : list line := [tx "warming up for " ++ show (secs d) ++ tx "s..."].

Definition verbose_running (d : Z) : list line := [tx "warmup complete, running for " ++ show (secs d) ++ tx "s"].

Definition verbose_sample (s : Sample) : list line :=
  [tx "rate=" ++ fixed 0 (sm_req_per_sec s) ++ tx "/s err=" ++ fixed 0 (sm_err_per_sec s) ++ tx "/s hit%=" ++ format_pct (sm_hit_pct s) ++
   tx " " ++ percentile_text {| ls_p50 := sm_p50 s; ls_p90 := sm_p90 s; ls_p99 := sm_p99 s; ls_p999 := sm_p999 s; ls_p9999 := sm_p9999 s;
                            ls_max := sm_max s |}].

Definition verbose_trace (t : TraceReplayResults) : line :=
  tx "trace_replay: " ++ tx (trr_trace t) ++ tx " rows=" ++ show (trr_rows t) ++ tx "/" ++ show (trr_trace_rows t) ++ tx " failed=" ++
  show (trr_rows_failed t) ++ tx " skipped=" ++ show (trr_rows_skipped t) ++ tx " gets=" ++ show (trr_gets t) ++ tx " sets=" ++
  show (trr_sets t) ++ tx " dels=" ++ show (trr_dels t) ++ tx " read_waits=" ++ show (trr_read_waits t) ++ tx " finished=" ++
  show_bool (trr_finished t).

Definition verbose_kv (kv : KvReplayResults) : list line :=
  [tx "kv_replay: " ++ tx (timing kv) ++ tx " speedup=" ++ tx (display_f64 (kvr_speedup kv)) ++ tx " write_rule=" ++
   tx (kvr_write_rule kv) ++ tx " requests=" ++ show (kvr_requests kv) ++ tx "/" ++ show (kvr_trace_requests kv) ++ tx " failed=" ++
   show (kvr_requests_failed kv);
   tx "kv_replay tokens: cached=" ++ show (kvr_cached_tokens kv) ++ tx " (" ++
   format_pct (f64_mul (cached_fraction kv) (f64_of_Z 100)) ++ tx "%) new=" ++ show (kvr_new_tokens kv) ++ tx " input=" ++
   show (kvr_input_tokens kv) ++ tx " full_hits=" ++ show (kvr_full_hits kv) ++ tx " misses_at_chunk_0=" ++
   show (kvr_chunk0_misses kv) ++ tx " get_nil=" ++ show (kvr_get_nil kv)] ++
  map (fun '(name, s) => tx "kv_replay " ++ tx name ++ tx ": " ++ percentile_text s)
    ([("lookup"%string, kvr_lookup_time kv); ("load"%string, kvr_load_time kv);
      ("load_per_1k_cached_tokens"%string, kvr_load_time_per_1k kv); ("store"%string, kvr_store_time kv)] ++
     if kvr_closed_loop kv then [] else [("schedule_lag"%string, kvr_schedule_lag kv)]).

Definition verbose_results (r : Results) : list line :=
  [tx "=== Final Results ==="; tx "duration: " ++ fixed 0 (rs_duration_secs r) ++ tx "s"; tx "requests: " ++ show (rs_requests r);
   tx "responses: " ++ show (rs_responses r); tx "errors: " ++ show (rs_errors r) ++ tx " (" ++ format_pct (err_pct r) ++ tx "%)";
   tx "throughput: " ++ fixed 2 (throughput r) ++ tx " req/s";
   tx "bandwidth: " ++ format_bandwidth_bps (rx_bps r) ++ tx " RX, " ++ format_bandwidth_bps (tx_bps r) ++ tx " TX";
   tx "hit_rate: " ++ format_pct (hit_pct r) ++ tx "% (" ++ show (rs_hits r) ++ tx " hits, " ++ show (rs_misses r) ++ tx " misses)";
   tx "GET latency: " ++ percentile_text (rs_get_latencies r)] ++
  (if f64_lt f64_zero (ls_p50 (rs_get_ttfb r)) then [tx "GET TTFB:    " ++ percentile_text (rs_get_ttfb r)] else []) ++
  [tx "SET latency: " ++ percentile_text (rs_set_latencies r)] ++
  (if f64_lt f64_zero (ls_p99 (rs_schedule_slip r)) || (0 <? rs_requests_dropped r) then
     [tx "schedule_slip: " ++ percentile_text (rs_schedule_slip r); tx "perceived_latency: " ++ percentile_text (rs_perceived_latency r)] ++
     (if 0 <? rs_requests_dropped r
      then [tx "overload: " ++ show (rs_requests_dropped r) ++ tx " of " ++ show (offered r) ++ tx " offered dropped (" ++
            fixed 1 (overload_pct r) ++ tx "%)"]
      else [])
   else []) ++
  match rs_trace_replay r with Some t => [verbose_trace t] | None => [] end ++
  match rs_kv_replay r with Some kv => verbose_kv kv | None => [] end ++
  (if 0 <? rs_routed_queue_dropped r
   then [tx "routed: " ++ show (rs_routed_queue_dropped r) ++ tx " of " ++ show (offered r) ++
         tx " offered dropped at a full node queue (a node did not keep up)"] else []) ++
  (if 0 <? rs_requests_send_failed r
   then [show (rs_requests_send_failed r) ++ tx " requests not sent because a send failed (usually a full send pool or zero-copy slab): some connections sent less than the pipeline depth, and latency covers only sent requests"]
   else []) ++
  [tx "connections: " ++ show_i64 (rs_conns_active r) ++ tx " active, " ++ show (rs_conns_failed r) ++ tx " failed"].

(** ** The trait

    A call of one of its methods; [time] is [sample.timestamp] as [%H:%M:%S]. *)
Inductive Method :=
| m_config (c : Config.t)
| m_precheck
| m_precheck_ok (elapsed : Z)
| m_precheck_failed (elapsed conns_failed : Z)
| m_prefill (key_count : Z)
| m_warmup (d : Z)
| m_running (d : Z)
| m_header
| m_sample (time : line) (s : Sample)
| m_results (r : Results)
| m_prefill_header
| m_prefill_sample (s : PrefillSample)
| m_prefill_timeout (d : PrefillDiagnostics)
| m_saturation_header
| m_saturation_step (s : SaturationStep)
| m_saturation_results (r : SaturationResults).

(** [impl OutputFormatter for CleanFormatter]. *)
Definition clean_method (f : CleanFormatter) (m : Method) : CleanFormatter * list line :=
  let u := use_color f in
  match m with
  | m_config c => (f, clean_config u (banner f) c)
  | m_precheck => (f, clean_precheck)
  | m_precheck_ok d => (f, clean_precheck_ok d)
  | m_precheck_failed d n => (f, clean_precheck_failed u d n)
  | m_prefill n => (f, clean_prefill n)
  | m_warmup d => (f, clean_warmup d)
  | m_running d => (f, clean_running d)
  | m_header => (f, clean_header u)
  | m_sample time s => clean_sample f time s
  | m_results r => (f, clean_results u r)
  | m_prefill_header => (f, clean_prefill_header u)
  | m_prefill_sample s => clean_prefill_sample f s
  | m_prefill_timeout d => (f, clean_prefill_timeout u d)
  | m_saturation_header => (f, [])
  | m_saturation_step s => clean_step f s
  | m_saturation_results r => (f, clean_saturation_results u r)
  end.

(** The methods with a default, which quiet and verbose keep. *)
Definition default_method (m : Method) : list line :=
  match m with
  | m_precheck => [tx "[precheck]"]
  | m_precheck_ok d => [tx "[precheck ok " ++ show (as_millis d) ++ tx "ms]"]
  | m_precheck_failed d n => default_precheck_failed d n
  | m_prefill n => default_prefill n
  | m_prefill_sample s => default_prefill_sample s
  | m_prefill_timeout d => trait_prefill_timeout d
  | _ => []
  end.

Definition quiet_method (m : Method) : list line :=
  match m with m_results r => quiet_results r | _ => default_method m end.

(** A printed line, or a message for tracing. *)
Inductive Out := Println (l : line) | Event (l : line).

Definition verbose_method (m : Method) : list Out :=
  match m with
  | m_config c => map Event (verbose_config c)
  | m_warmup d => map Event (verbose_warmup d)
  | m_running d => map Event (verbose_running d)
  | m_sample _ s => map Event (verbose_sample s)
  | m_results r => map Event (verbose_results r)
  | _ => map Println (default_method m)
  end.

(** What a sequence of calls prints. *)
Fixpoint clean_output (f : CleanFormatter) (ms : list Method) : list line :=
  match ms with
  | [] => []
  | m :: ms => let (f, ls) := clean_method f m in ls ++ clean_output f ms
  end.

(** ** What a terminal shows: a line without its escape sequences *)
Fixpoint strip (esc : bool) (s : line) : line :=
  match s with
  | [] => []
  | c :: s => if esc then strip (negb (c =? 109)) s else if c =? 27 then strip true s else c :: strip false s
  end.

Fixpoint ends (esc : bool) (s : line) : bool :=
  match s with
  | [] => esc
  | c :: s => if esc then ends (negb (c =? 109)) s else if c =? 27 then ends true s else ends false s
  end.

(** A text without escape characters. *)
Definition plain (s : line) : Prop := Forall (fun c => c <> 27) s.

(** ** Lemmas *)

Create HintDb plain.

Lemma strip_app e a b : strip e (a ++ b) = strip e a ++ strip (ends e a) b.
Proof.
  revert e. induction a as [|c a IH]; intros e; [done|]. cbn. destruct e; [apply IH|]. destruct (c =? 27); [apply IH|]. cbn. by rewrite IH.
Qed.

Lemma ends_app e a b : ends e (a ++ b) = ends (ends e a) b.
Proof. revert e. induction a as [|c a IH]; intros e; [done|]. cbn. destruct e; [apply IH|]. destruct (c =? 27); apply IH. Qed.

(** [a] shows as [p] and leaves no sequence open. *)
Definition shows (a p : line) : Prop := strip false a = p /\ ends false a = false.

Lemma shows_plain s : plain s -> shows s s.
Proof.
  unfold shows. induction 1 as [|c s C F [IH E]]; [done|]. cbn. destruct (Z.eqb_spec c 27) as [->|]; [done|]. by rewrite IH.
Qed.

Lemma shows_app a p b q : shows a p -> shows b q -> shows (a ++ b) (p ++ q).
Proof. intros [A E] [B F]. unfold shows. by rewrite strip_app, ends_app, A, E, B, F. Qed.

Lemma shows_paint c a p : shows a p -> shows (paint true c a) (paint false c p).
Proof.
  intros H. unfold paint. rewrite <- (app_nil_r p). apply (shows_app (ansi c) []); [by destruct c|].
  apply shows_app; [exact H|done].
Qed.

Lemma plain_app a b : plain a -> plain b -> plain (a ++ b).
Proof. intros A B. by apply Forall_app. Qed.

Lemma plain_show n : plain (show n).
Proof. eapply Forall_impl; [apply show_digits|]. cbn. lia. Qed.

Lemma plain_pad_left w s : plain s -> plain (pad_left w s).
Proof. intros H. apply plain_app; [|exact H]. apply Forall_replicate. lia. Qed.

Lemma plain_repeat n s : plain (tx s) -> plain (tx (repeat_string n s)).
Proof. intros H. induction n as [|n IH]; [constructor|]. cbn [repeat_string]. rewrite bytes_of_app. by apply plain_app. Qed.

Lemma plain_substring s : forall i n, plain (tx s) -> plain (tx (String.substring i n s)).
Proof.
  induction s as [|c s IH]; intros i n H; [by destruct i, n; constructor|]. inversion H as [|? ? C F]; subst.
  destruct i as [|i]; [|exact (IH i n F)]. destruct n as [|n]; [constructor|]. apply Forall_cons. split; [exact C|exact (IH 0%nat n F)].
Qed.

Lemma plain_fixed d x : plain (fixed d x).
Proof.
  assert (P : forall q, plain (tx (with_point q d))).
  { intros q. unfold with_point. destruct (d =? 0)%nat; [apply plain_show|]. rewrite !bytes_of_app.
    repeat apply plain_app; try apply plain_show; [by repeat constructor|]. apply plain_repeat. by repeat constructor. }
  unfold fixed, fmt_f64. destruct x as [s|s| |s m e]; rewrite ?bytes_of_app; try (by repeat constructor);
    (apply plain_app || idtac); try (destruct s; by repeat constructor); apply P.
Qed.

Lemma plain_display x : plain (tx (display_f64 x)).
Proof.
  unfold display_f64. destruct x as [s|s| |s m e]; rewrite ?bytes_of_app; try (by repeat constructor);
    try (destruct s; by repeat constructor).
  destruct (if 0 <=? e then _ else _) as [a b]. destruct (shortest _ _ _ _ _ _) as [q n]. rewrite bytes_of_app.
  apply plain_app; [destruct s; by repeat constructor|]. unfold place_point.
  destruct (_ <=? 0); [|destruct (_ <=? _)]; rewrite !bytes_of_app; repeat apply plain_app; try apply plain_show;
    try (apply plain_repeat; by repeat constructor); try (apply plain_substring, plain_show); by repeat constructor.
Qed.

Lemma plain_check s : forallb (fun c => negb (c =? 27)) s = true -> plain s.
Proof. unfold plain. induction s as [|c s IH]; cbn; intros H; constructor; apply andb_true_iff in H as [C H]; [by apply negb_true_iff, Z.eqb_neq in C|by apply IH]. Qed.

Lemma plain_show_i64 n : plain (show_i64 n).
Proof. unfold show_i64. destruct (n <? 0); [apply Forall_cons; split; [lia|apply plain_show]|apply plain_show]. Qed.

(** Numbers and literals hold no escape character. *)
Ltac plain_tac :=
  repeat match goal with
  | |- plain (_ ++ _) => apply plain_app
  | |- plain (show _) => apply plain_show
  | |- plain (show_i64 _) => apply plain_show_i64
  | |- plain (fixed _ _) => apply plain_fixed
  | |- plain (pad_left _ _) => apply plain_pad_left
  | |- plain (tx (display_f64 _)) => apply plain_display
  | |- plain (if ?b then _ else _) => destruct b
  | |- plain (match ?o with _ => _ end) => destruct o
  | |- plain (replicate _ _) => apply Forall_replicate; lia
  | H : plain ?s |- plain ?s => exact H
  | |- plain (tx (String _ _)) => apply plain_check; vm_compute; reflexivity
  | |- plain (?c :: _) => apply Forall_cons; split; [lia|]
  | |- plain [] => constructor
  end; auto with plain.



Lemma plain_3sig x s : plain s -> plain (format_3sig x s).
Proof. intros H. unfold format_3sig. plain_tac. Qed.

#[export] Hint Resolve plain_3sig : plain.

Lemma plain_rate x : plain (format_rate x).
Proof. unfold format_rate. destruct (f64_lt _ _); [|destruct (f64_lt _ _)]; apply plain_3sig; plain_tac; constructor. Qed.

Lemma plain_latency x : plain (format_latency_us x).
Proof. unfold format_latency_us, latency_unit. plain_tac. Qed.

Lemma plain_pct x : plain (format_pct x).
Proof. unfold format_pct. plain_tac. Qed.

Lemma plain_bandwidth x : plain (format_bandwidth_bps x).
Proof. unfold format_bandwidth_bps. plain_tac. Qed.

Lemma plain_count n : plain (format_count n).
Proof. unfold format_count. cbv zeta. plain_tac. Qed.

#[export] Hint Resolve plain_rate plain_latency plain_pct plain_bandwidth plain_count : plain.
#[export] Hint Extern 1 (plain (format_rate_padded _ _)) => apply plain_pad_left, plain_rate : plain.
#[export] Hint Extern 1 (plain (format_latency_padded _ _)) => apply plain_pad_left, plain_latency : plain.

Lemma plain_rule n : plain (rule n).
Proof. apply Forall_replicate. lia. Qed.

Lemma plain_columns ns : plain (columns ns).
Proof.
  unfold columns. destruct ns as [|n ns]; cbn [mjoin list_join]; [constructor|]. apply plain_app; [apply plain_rule|].
  induction ns as [|m ns IH]; cbn [map mjoin list_join]; [constructor|]. repeat apply plain_app; [|apply plain_rule|exact IH]. by apply plain_check.
Qed.

Lemma plain_header : plain header_text.
Proof. by apply plain_check. Qed.

Lemma plain_prefill_header : plain prefill_header_text.
Proof. by apply plain_check. Qed.

Lemma plain_dash : plain dash.
Proof. by apply plain_check. Qed.

Lemma plain_write_rule w : plain (tx (KvWriteRule_as_str w)).
Proof. destruct w; by apply plain_check. Qed.

Lemma plain_key_format k : plain (key_format_text k).
Proof. destruct k; by apply plain_check. Qed.

Lemma plain_protocol p : plain (protocol_debug p).
Proof. destruct p; by apply plain_check. Qed.

Lemma plain_cause c : plain (cause_str c).
Proof. destruct c; by apply plain_check. Qed.

#[export] Hint Resolve plain_rule plain_columns plain_header plain_prefill_header plain_dash plain_write_rule plain_key_format
  plain_protocol plain_cause : plain.

(** A line in colour shows as the line without. *)
Ltac shows_tac :=
  repeat match goal with
  | H : shows ?a ?p |- shows ?a ?p => exact H
  | |- shows (paint true _ _) (paint false _ _) => apply shows_paint
  | |- shows (_ ++ _) (_ ++ _) => apply shows_app
  | |- shows (if ?b then _ else _) _ => destruct b
  | |- shows (match ?o with _ => _ end) _ => destruct o
  | |- shows ?x ?x => apply shows_plain; plain_tac
  end.

Ltac all_shows :=
  repeat match goal with
  | |- Forall2 shows (_ ++ _) (_ ++ _) => apply Forall2_app
  | |- Forall2 shows (_ :: _) (_ :: _) => apply Forall2_cons; split
  | |- Forall2 shows (if ?b then _ else _) _ => destruct b
  | |- Forall2 shows (match ?o with _ => _ end) _ => destruct o
  | |- Forall2 shows [] [] => constructor
  end; shows_tac.

Lemma header_shows : Forall2 shows (clean_header true) (clean_header false).
Proof. unfold clean_header. all_shows. Qed.

Lemma prefill_header_shows : Forall2 shows (clean_prefill_header true) (clean_prefill_header false).
Proof. unfold clean_prefill_header. all_shows. Qed.

Lemma latency_row_shows a p s : shows a p -> shows (latency_row a s) (latency_row p s).
Proof. intros H. unfold latency_row. cbv zeta. shows_tac. Qed.

Lemma pad_name_shows name : plain (tx name) -> shows (pad_name true name) (pad_name false name).
Proof. intros H. unfold pad_name, pad_right. shows_tac. Qed.

(** *** Texts of the configuration and of a run *)

Definition plain_option (o : option string) : Prop := match o with Some s => plain (tx s) | None => True end.

Record plain_config (c : Config.t) : Prop := {
  pc_hosts : Forall (fun e => plain (tx (sa_ip e))) (Target.endpoints (Config.target c));
  pc_cpus : plain_option (General.cpu_list (Config.general c));
  pc_kv : forall k, Workload.kv_replay (Config.workload c) = Some k ->
    plain (tx (KvReplay.trace k)) /\ plain_option (KvReplay.model_config k) /\ plain_option (KvReplay.kv_dtype k);
  pc_trace : forall t, Workload.trace_replay (Config.workload c) = Some t ->
    plain (tx (TraceReplay.trace t)) /\ plain (tx (TraceReplay.key_prefix t));
}.

Definition plain_results (r : Results) : Prop :=
  (forall k, rs_kv_replay r = Some k -> plain (tx (kvr_write_rule k))) /\
  (forall t, rs_trace_replay r = Some t -> plain (tx (trr_trace t))).

Definition plain_step (s : SaturationStep) : Prop :=
  plain (tx (fail_reason s)) /\ plain (tx (step_slo_display s)) /\ plain (tx (slo_percentile_label s)).

(** The texts a call prints hold no escape character; a sample's hit rate fills
    its column. *)
Definition plain_method (m : Method) : Prop :=
  match m with
  | m_config c => plain_config c
  | m_sample time s => plain time /\ (4 <= length (format_pct (sm_hit_pct s)))%nat
  | m_results r => plain_results r
  | m_saturation_step s => plain_step s
  | _ => True
  end.

Lemma kv_summary_plain k :
  plain (tx (KvReplay.trace k)) -> plain_option (KvReplay.model_config k) -> plain_option (KvReplay.kv_dtype k) ->
  plain (kv_workload_summary k).
Proof.
  intros T M D. unfold kv_workload_summary. cbv zeta. destruct (KvReplay.model_config k), (KvReplay.kv_dtype k); cbn [plain_option] in *;
    plain_tac.
Qed.

Lemma trace_summary_plain t :
  plain (tx (TraceReplay.trace t)) -> plain (tx (TraceReplay.key_prefix t)) -> plain (trace_workload_summary t).
Proof. intros T P. unfold trace_workload_summary. plain_tac. Qed.

Lemma workload_line_plain c : plain_config c -> plain (workload_line c).
Proof.
  intros [_ _ K T]. unfold workload_line. cbv zeta. destruct (Workload.trace_replay _) as [t|]; [|destruct (Workload.kv_replay _) as [k|]].
  - destruct (T t eq_refl). by apply trace_summary_plain.
  - destruct (K k eq_refl) as (? & ? & ?). by apply kv_summary_plain.
  - plain_tac.
Qed.

Lemma config_shows b c : plain b -> plain_config c -> Forall2 shows (clean_config true b c) (clean_config false b c).
Proof.
  intros B C. pose proof (workload_line_plain c C) as W. destruct C as [H L _ _]. unfold clean_config. cbv zeta.
  destruct (General.cpu_list _); cbn [plain_option] in L; destruct (Target.endpoints _) as [|e es]; cbn [head];
    try (apply Forall_cons in H as [H _]); all_shows.
Qed.

Lemma summary_shows r : Forall2 shows (clean_summary true r) (clean_summary false r).
Proof. unfold clean_summary, maybe_red. cbv zeta. all_shows. Qed.

Lemma latencies_shows r : Forall2 shows (clean_latencies true r) (clean_latencies false r).
Proof.
  unfold clean_latencies. cbv zeta. unfold rpad. all_shows; try apply latency_row_shows; apply pad_name_shows; plain_tac.
Qed.

Lemma slip_shows r : Forall2 shows (clean_slip true r) (clean_slip false r).
Proof. unfold clean_slip. all_shows; apply latency_row_shows, pad_name_shows; plain_tac. Qed.

Lemma trace_shows t : plain (tx (trr_trace t)) -> Forall2 shows (clean_trace true t) (clean_trace false t).
Proof. intros H. unfold clean_trace. cbv zeta. all_shows. Qed.

Lemma kv_shows k : plain (tx (kvr_write_rule k)) -> Forall2 shows (clean_kv true k) (clean_kv false k).
Proof. intros H. unfold clean_kv. cbv zeta. all_shows; apply latency_row_shows, pad_name_shows; plain_tac. Qed.

Lemma connections_shows r : Forall2 shows (clean_connections true r) (clean_connections false r).
Proof. unfold clean_connections. all_shows. Qed.

Lemma results_shows r : plain_results r -> Forall2 shows (clean_results true r) (clean_results false r).
Proof.
  intros [K T]. unfold clean_results.
  apply Forall2_app; [apply summary_shows|]. apply Forall2_app; [apply latencies_shows|]. apply Forall2_app; [apply slip_shows|].
  apply Forall2_app; [destruct (rs_trace_replay r); [by apply trace_shows, T|constructor]|].
  apply Forall2_app; [destruct (rs_kv_replay r); [by apply kv_shows, K|constructor]|apply connections_shows].
Qed.

(** The one column padded after it is coloured. *)
Lemma hit_column_shows x : (4 <= length (format_pct x))%nat ->
  shows (pad_left 4 (paint true DIM (format_pct x))) (pad_left 4 (paint false DIM (format_pct x))).
Proof.
  intros L. unfold pad_left. assert (E : (4 <= length (paint true DIM (format_pct x)))%nat) by (unfold paint; rewrite !length_app; lia).
  replace (4 - length (paint true DIM (format_pct x)))%nat with 0%nat by lia.
  replace (4 - length (paint false DIM (format_pct x)))%nat with 0%nat by (unfold paint; lia). cbn [replicate app]. shows_tac.
Qed.

Lemma sample_row_shows time s : plain time -> (4 <= length (format_pct (sm_hit_pct s)))%nat -> shows (sample_row true time s) (sample_row false time s).
Proof. intros T L. pose proof (hit_column_shows _ L). unfold sample_row. cbv zeta. shows_tac. Qed.

Lemma prefill_row_shows s : shows (prefill_row true s) (prefill_row false s).
Proof. unfold prefill_row, elapsed_text. cbv zeta. shows_tac. Qed.

Lemma prefill_timeout_shows d : Forall2 shows (clean_prefill_timeout true d) (clean_prefill_timeout false d).
Proof. unfold clean_prefill_timeout. destruct (pd_likely_cause d); cbn [hints]; all_shows. Qed.

Lemma step_shows n s : plain_step s -> Forall2 shows (step_lines true n s) (step_lines false n s).
Proof.
  intros (F & D & L). unfold step_lines, step_verdict, transitions, bar, clean_header. cbv zeta.
  destruct (throughput_rollover s), (slip_onset s), (slo_breach s); cbn [app join_lines]; all_shows.
Qed.

Lemma saturation_results_shows r : Forall2 shows (clean_saturation_results true r) (clean_saturation_results false r).
Proof. unfold clean_saturation_results. destruct (max_compliant_rate r), (latency_floor r); all_shows. Qed.

Lemma precheck_failed_shows d n : Forall2 shows (clean_precheck_failed true d n) (clean_precheck_failed false d n).
Proof. unfold clean_precheck_failed. all_shows. Qed.

(** *** Methods *)

Definition with_color (u : bool) (f : CleanFormatter) : CleanFormatter := f <| use_color := u |>.

(** One call keeps two formatters that differ in colour alike. *)
Lemma method_shows f m :
  plain (banner f) -> plain_method m ->
  exists g, clean_method (with_color true f) m = (with_color true g, (clean_method (with_color true f) m).2) /\
    clean_method (with_color false f) m = (with_color false g, (clean_method (with_color false f) m).2) /\ banner g = banner f /\
    Forall2 shows (clean_method (with_color true f) m).2 (clean_method (with_color false f) m).2.
Proof.
  intros B P. destruct f as [u n1 n2 n3 b]. cbn in B.
  destruct m; cbn [plain_method] in P; try (eexists (Build_CleanFormatter u n1 n2 n3 b); split_and!; [reflexivity..|]; cbn).
  - by apply config_shows.
  - unfold clean_precheck. all_shows.
  - unfold clean_precheck_ok. all_shows.
  - apply precheck_failed_shows.
  - unfold clean_prefill. all_shows.
  - unfold clean_warmup. all_shows.
  - unfold clean_running. all_shows.
  - apply header_shows.
  - exists (Build_CleanFormatter u (wrap64 (n1 + 1)) n2 n3 b). split_and!; [reflexivity..|]. cbn -[clean_header sample_row].
    apply Forall2_app; [|apply Forall2_cons; split; [apply sample_row_shows; apply P|constructor]].
    destruct ((0 <? n1) && _); [|constructor]. apply Forall2_cons. split; [by apply shows_plain; constructor|apply header_shows].
  - by apply results_shows.
  - apply prefill_header_shows.
  - exists (Build_CleanFormatter u n1 (wrap64 (n2 + 1)) n3 b). split_and!; [reflexivity..|]. cbn -[clean_prefill_header prefill_row].
    apply Forall2_app; [|apply Forall2_cons; split; [apply prefill_row_shows|constructor]].
    destruct ((0 <? n2) && _); [|constructor]. apply Forall2_cons. split; [by apply shows_plain; constructor|apply prefill_header_shows].
  - apply prefill_timeout_shows.
  - constructor.
  - exists (Build_CleanFormatter u 0 n2 (wrap64 (n3 + 1)) b). split_and!; [reflexivity..|]. cbn -[step_lines]. by apply step_shows.
  - apply saturation_results_shows.
Qed.

Lemma pad_left_length w s : length (pad_left w s) = Nat.max w (length s).
Proof. unfold pad_left. rewrite length_app, length_replicate. lia. Qed.

(** ** Theorem *)

(** C39: Colour adds nothing but colour.  Whatever calls a run makes, the lines
    of the coloured clean formatter, with the escape sequences a terminal
    swallows taken out, are the lines of the uncoloured one: same lines, same
    text, same header repeats.  It needs the texts of the configuration to
    hold no escape character, and every sample's hit rate to fill its column
    (not 100%: see [full_hit_rate_shifts]). *)
Theorem colour_is_only_colour (ms : list Method) (f : CleanFormatter)
    (Hbanner : plain (banner f)) (Hplain : Forall plain_method ms) :
  map (strip false) (clean_output (with_color true f) ms) = clean_output (with_color false f) ms.
Proof.
  revert f Hbanner. induction Hplain as [|m ms P F IH]; intros f B; [done|].
  destruct (method_shows f m B P) as (g & E1 & E2 & Eb & S). cbn [clean_output]. rewrite E1, E2, map_app, (IH g) by (by rewrite Eb).
  f_equal. clear E1 E2. induction S as [|a p l l' [A _] S IHS]; [done|]. cbn [map]. by rewrite A, IHS.
Qed.

(** In the uncoloured table every column of a row ends where its header's
    does, when each figure fits. *)
Lemma row_aligned time s :
  length time = 8%nat -> (length (format_rate (sm_req_per_sec s)) <= 5)%nat -> (length (format_rate (sm_err_per_sec s)) <= 5)%nat ->
  Forall (fun x => (length (format_latency_us x) <= 7)%nat) [sm_p50 s; sm_p90 s; sm_p99 s; sm_p999 s; sm_p9999 s; sm_max s] ->
  (length (format_pct (sm_hit_pct s)) <= 4)%nat ->
  length (sample_row false time s) = length header_text.
Proof.
  intros T R E L H. repeat (apply Forall_cons in L as [? L]). unfold sample_row, paint, format_rate_padded, format_latency_padded. cbv zeta.
  replace (if f64_lt f64_zero (sm_err_per_sec s) then pad_left 5 (format_rate (sm_err_per_sec s)) else pad_left 5 (format_rate (sm_err_per_sec s)))
    with (pad_left 5 (format_rate (sm_err_per_sec s))) by (by destruct (f64_lt _ _)).
  rewrite !length_app, !pad_left_length, T. change (length (tx "  ")) with 2%nat. change (length header_text) with 82%nat. lia.
Qed.

(** *** Examples and witness *)

Definition example_sample (hit : f64) : Sample :=
  {| sm_req_per_sec := f64_of_Z 123400; sm_err_per_sec := f64_zero; sm_hit_pct := hit; sm_p50 := f64_of_Z 42; sm_p90 := f64_of_Z 60;
     sm_p99 := f64_of_Z 95; sm_p999 := f64_of_Z 180; sm_p9999 := f64_of_Z 1200; sm_max := f64_of_Z 8000 |}.

(** At 100% the coloured row is one column short: the width is met by the
    escape sequences, which [{:>4}] counts. *)
Example full_hit_rate_shifts :
  let row u := sample_row u (tx "12:00:00") (example_sample (f64_of_Z 100)) in
  length (row false) = length header_text /\ strip false (row true) = take 78 (row false) ++ drop 79 (row false).
Proof. split; vm_compute; reflexivity. Qed.

Definition example_clean : CleanFormatter := with_banner Never false false (tx "cachecannon").

Lemma colour_is_only_colour_witness :
  let ms := m_header :: m_precheck_ok 3000000 :: repeat (m_sample (tx "12:00:00") (example_sample (f64_lit 952 10))) 26 in
  length (clean_output (with_color false example_clean) ms) = 32%nat /\
  map (strip false) (clean_output (with_color true example_clean) ms) = clean_output (with_color false example_clean) ms.
Proof.
  split; [by vm_compute|]. apply (colour_is_only_colour _ example_clean).
  - by apply plain_check.
  - constructor; [exact I|]. constructor; [exact I|]. apply Forall_forall. intros m Hm%list_elem_of_In%repeat_spec. subst m.
    split; [by apply plain_check|]. vm_compute. lia.
Defined.
