(* ===== verification/Json.v ===== *)
(** Json: the NDJSON formatter ([src/src/output/json.rs]) and the choice of a
    formatter ([src/src/output/mod.rs]).

    A document is the value serde derives from the message's struct: its fields
    in their order, without the optional ones that are absent.  Its text is
    serde_json's, and the timestamp's chrono's. *)

From S2P Require Import Prelude F64 Text Config Validate RateSearch Limiter Metrics Saturation Keys Trace KvRequest KvDispatch Reply Sizing Results Format Report.
Open Scope Z_scope.

(** ** Documents *)

Inductive json :=
| JInt (n : Z)
| JFloat (x : f64)
| JStr (s : line)
| JBool (b : bool)
| JObj (fields : list (string * json)).

(** [skip_serializing_if = "Option::is_none"]. *)
Definition opt {A} (name : string) (f : A -> json) (o : option A) : list (string * json) :=
  match o with Some x => [(name, f x)] | None => [] end.

Definition when {A} (b : bool) (x : A) : option A := if b then Some x else None.

Definition jtext (s : string) : json := JStr (tx s).

(** [LatencyOutput::from_stats]. *)
Definition latency_output (count : Z) (s : LatencyStats) : json :=
  JObj [("count"%string, JInt count); ("p50_us"%string, JInt (f64_to_u64 (ls_p50 s))); ("p90_us"%string, JInt (f64_to_u64 (ls_p90 s)));
        ("p99_us"%string, JInt (f64_to_u64 (ls_p99 s))); ("p999_us"%string, JInt (f64_to_u64 (ls_p999 s)));
        ("p9999_us"%string, JInt (f64_to_u64 (ls_p9999 s))); ("max_us"%string, JInt (f64_to_u64 (ls_max s)))].

(** [KvConfigOutput] and [TraceConfigOutput]. *)
Definition kv_config_output (kv : KvReplay.t) : json :=
  JObj ([("trace"%string, jtext (KvReplay.trace kv)); ("speedup"%string, JFloat (KvReplay.speedup kv))] ++
        opt "model_config" jtext (KvReplay.model_config kv) ++ opt "kv_dtype" jtext (KvReplay.kv_dtype kv) ++
        opt "kv_bytes_per_token" JInt (KvReplay.kv_bytes_per_token kv) ++
        [("mla"%string, JBool (KvReplay.mla kv)); ("write_rule"%string, jtext (KvWriteRule_as_str (KvReplay.write_rule kv)))]).

Definition trace_config_output (t : TraceReplay.t) : json :=
  JObj [("trace"%string, jtext (TraceReplay.trace t)); ("key_prefix"%string, jtext (TraceReplay.key_prefix t));
        ("key_format"%string, JStr (key_format_text (TraceReplay.key_format t)))].

(** [config_output]. *)
Definition config_fields (c : Config.t) : list (string * json) :=
  let w := Config.workload c in
  let kv := Workload.kv_replay w in
  let trace := Workload.trace_replay w in
  let synthetic := negb (bool_decide (is_Some kv)) && negb (bool_decide (is_Some trace)) in
  [("type"%string, jtext "config");
   ("target"%string, JStr (join_lines (tx ",") (map (fun e => tx (socket_to_string e)) (Target.endpoints (Config.target c)))));
   ("protocol"%string, JStr (protocol_debug (Target.protocol (Config.target c)))); ("tls"%string, JBool (Target.tls (Config.target c)));
   ("threads"%string, JInt (General.threads (Config.general c)));
   ("conns"%string, JInt (total_connections (Config.connection c)));
   ("pipeline"%string, JInt (Connection.pipeline_depth (Config.connection c)))] ++
  opt "keyspace" JInt (when synthetic (Keyspace.count (Workload.keyspace w))) ++
  opt "key_size" JInt (when synthetic (Keyspace.length (Workload.keyspace w))) ++
  opt "value_size" JInt (when synthetic (Values.length (Workload.values w))) ++
  opt "kv_replay" kv_config_output kv ++ opt "trace_replay" trace_config_output trace ++
  [("engine"%string, jtext "io_uring")] ++ opt "ratelimit" JInt (Workload.rate_limit w) ++
  [("warmup_secs"%string, JInt (secs (General.warmup (Config.general c))));
   ("duration_secs"%string, JInt (secs (General.duration (Config.general c))))] ++
  opt "cpu_list" jtext (General.cpu_list (Config.general c)).

(** [print_sample]. *)
Definition sample_fields (ts : line) (s : Sample) : list (string * json) :=
  [("type"%string, jtext "sample"); ("ts"%string, JStr ts); ("req_s"%string, JInt (f64_to_u64 (sm_req_per_sec s)));
   ("err_s"%string, JFloat (sm_err_per_sec s)); ("hit_pct"%string, JFloat (sm_hit_pct s));
   ("p50_us"%string, JInt (f64_to_u64 (sm_p50 s))); ("p90_us"%string, JInt (f64_to_u64 (sm_p90 s)));
   ("p99_us"%string, JInt (f64_to_u64 (sm_p99 s))); ("p999_us"%string, JInt (f64_to_u64 (sm_p999 s)));
   ("p9999_us"%string, JInt (f64_to_u64 (sm_p9999 s))); ("max_us"%string, JInt (f64_to_u64 (sm_max s)))].

(** [print_prefill_sample] and [print_prefill_timeout]. *)
Definition prefill_fields (s : PrefillSample) : list (string * json) :=
  [("type"%string, jtext "prefill_progress"); ("confirmed"%string, JInt (ps_confirmed s)); ("total"%string, JInt (ps_total s));
   ("pct"%string, JFloat (percent (ps_confirmed s) (ps_total s))); ("set_per_sec"%string, JFloat (ps_set_per_sec s));
   ("err_per_sec"%string, JFloat (ps_err_per_sec s)); ("conns_active"%string, JInt (ps_conns_active s));
   ("reconnects"%string, JInt (ps_reconnects s)); ("elapsed_secs"%string, JFloat (as_secs_f64 (ps_elapsed s)))].

Definition timeout_fields (d : PrefillDiagnostics) : list (string * json) :=
  [("type"%string, jtext "prefill_timeout"); ("cause"%string, jtext (stall_cause_text (pd_likely_cause d)));
   ("keys_confirmed"%string, JInt (pd_keys_confirmed d)); ("keys_total"%string, JInt (pd_keys_total d));
   ("workers_complete"%string, JInt (pd_workers_complete d)); ("workers_total"%string, JInt (pd_workers_total d));
   ("elapsed_secs"%string, JFloat (as_secs_f64 (pd_elapsed d))); ("conns_active"%string, JInt (pd_conns_active d));
   ("conns_failed"%string, JInt (pd_conns_failed d)); ("bytes_rx"%string, JInt (pd_bytes_rx d));
   ("requests_sent"%string, JInt (pd_requests_sent d))].

(** [KvReplayOutput::new] and [TraceReplayOutput::new]. *)
Definition kv_output (kv : KvReplayResults) : json :=
  JObj ([("timing"%string, jtext (timing kv)); ("speedup"%string, JFloat (kvr_speedup kv)); ("write_rule"%string, jtext (kvr_write_rule kv));
         ("trace_requests"%string, JInt (kvr_trace_requests kv)); ("requests"%string, JInt (kvr_requests kv));
         ("requests_failed"%string, JInt (kvr_requests_failed kv)); ("input_tokens"%string, JInt (kvr_input_tokens kv));
         ("cached_tokens"%string, JInt (kvr_cached_tokens kv)); ("new_tokens"%string, JInt (kvr_new_tokens kv));
         ("cached_fraction"%string, JFloat (cached_fraction kv)); ("full_hits"%string, JInt (kvr_full_hits kv));
         ("misses_at_chunk_0"%string, JInt (kvr_chunk0_misses kv)); ("no_full_chunk"%string, JInt (kvr_no_full_chunk kv));
         ("get_nil"%string, JInt (kvr_get_nil kv)); ("exists"%string, JInt (kvr_exists kv));
         ("lookup"%string, latency_output (kvr_lookups kv) (kvr_lookup_time kv));
         ("load"%string, latency_output (kvr_loads kv) (kvr_load_time kv));
         ("store"%string, latency_output (kvr_stores kv) (kvr_store_time kv));
         ("load_per_1k_cached_tokens"%string, latency_output (kvr_loads_with_cached kv) (kvr_load_time_per_1k kv))] ++
        opt "schedule_lag" (fun v => v) (when (negb (kvr_closed_loop kv)) (latency_output (kvr_requests kv) (kvr_schedule_lag kv)))).

Definition trace_output (t : TraceReplayResults) : json :=
  JObj [("trace_rows"%string, JInt (trr_trace_rows t)); ("rows"%string, JInt (trr_rows t)); ("rows_failed"%string, JInt (trr_rows_failed t));
        ("rows_skipped"%string, JInt (trr_rows_skipped t)); ("gets"%string, JInt (trr_gets t)); ("sets"%string, JInt (trr_sets t));
        ("dels"%string, JInt (trr_dels t)); ("read_waits"%string, JInt (trr_read_waits t)); ("finished"%string, JBool (trr_finished t))].

(** [print_results]. *)
Definition result_fields (r : Results) : list (string * json) :=
  let slip := f64_lt f64_zero (ls_p99 (rs_schedule_slip r)) || (0 <? rs_requests_dropped r) in
  [("type"%string, jtext "result"); ("duration_secs"%string, JFloat (rs_duration_secs r)); ("requests"%string, JInt (rs_requests r));
   ("responses"%string, JInt (rs_responses r)); ("errors"%string, JInt (rs_errors r)); ("err_pct"%string, JFloat (err_pct r));
   ("hits"%string, JInt (rs_hits r)); ("misses"%string, JInt (rs_misses r)); ("hit_pct"%string, JFloat (hit_pct r));
   ("throughput"%string, JInt (f64_to_u64 (throughput r))); ("rx_bytes"%string, JInt (rs_bytes_rx r));
   ("tx_bytes"%string, JInt (rs_bytes_tx r)); ("rx_bps"%string, JInt (f64_to_u64 (rx_bps r)));
   ("tx_bps"%string, JInt (f64_to_u64 (tx_bps r))); ("get"%string, latency_output (rs_get_count r) (rs_get_latencies r))] ++
  opt "get_ttfb" (fun v => v) (when (f64_lt f64_zero (ls_p50 (rs_get_ttfb r))) (latency_output (rs_get_count r) (rs_get_ttfb r))) ++
  [("set"%string, latency_output (rs_set_count r) (rs_set_latencies r))] ++
  opt "backfill_set" (fun v => v) (when (0 <? rs_backfill_set_count r) (latency_output (rs_backfill_set_count r) (rs_backfill_set_latencies r))) ++
  opt "append_set" (fun v => v) (when (0 <? rs_append_set_count r) (latency_output (rs_append_set_count r) (rs_append_set_latencies r))) ++
  opt "append_batches" JInt (when (0 <? rs_append_set_count r) (rs_append_batches r)) ++
  [("conns_active"%string, JInt (rs_conns_active r)); ("conns_failed"%string, JInt (rs_conns_failed r));
   ("timeouts"%string, JInt (rs_timeouts r)); ("requests_dropped"%string, JInt (rs_requests_dropped r));
   ("requests_send_failed"%string, JInt (rs_requests_send_failed r)); ("routed_queue_dropped"%string, JInt (rs_routed_queue_dropped r));
   ("offered"%string, JInt (offered r))] ++
  opt "schedule_slip" (fun v => v) (when slip (latency_output 0 (rs_schedule_slip r))) ++
  opt "perceived_latency" (fun v => v) (when slip (latency_output 0 (rs_perceived_latency r))) ++
  opt "kv_replay" kv_output (rs_kv_replay r) ++ opt "trace_replay" trace_output (rs_trace_replay r).

(** ** The formatter *)

(** A printed line of text, a message for tracing, or a document on a line of
    its own. *)
Inductive Item := Text_ (o : Out) | Doc (v : json).

(** [impl OutputFormatter for JsonFormatter]; [ts] is the sample's timestamp
    as RFC 3339.  The methods it does not define are the trait's. *)
Definition json_method (ts : line) (m : Method) : list Item :=
  match m with
  | m_config c => [Doc (JObj (config_fields c))]
  | m_sample _ s => [Doc (JObj (sample_fields ts s))]
  | m_prefill_sample s => [Doc (JObj (prefill_fields s))]
  | m_prefill_timeout d => [Doc (JObj (timeout_fields d))]
  | m_results r => [Doc (JObj (result_fields r))]
  | _ => map (fun l => Text_ (Println l)) (default_method m)
  end.

(** [create_formatter_with_banner]. *)
Inductive Formatter := FClean (f : CleanFormatter) | FJson | FVerbose | FQuiet.

Definition create_formatter_with_banner (format : OutputFormat) (color : ColorMode) (is_terminal no_color : bool) (b : line) : Formatter :=
  match format with
  | Clean => FClean (with_banner color is_terminal no_color b)
  | Json => FJson
  | Verbose => FVerbose
  | Quiet => FQuiet
  end.

(** A method of the chosen formatter. *)
Definition print (k : Formatter) (ts : line) (m : Method) : Formatter * list Item :=
  match k with
  | FClean f => let (f, ls) := clean_method f m in (FClean f, map (fun l => Text_ (Println l)) ls)
  | FJson => (FJson, json_method ts m)
  | FVerbose => (FVerbose, map Text_ (verbose_method m))
  | FQuiet => (FQuiet, map (fun l => Text_ (Println l)) (quiet_method m))
  end.

(** ** Reading documents *)

Definition field (k : string) (fields : list (string * json)) : option json :=
  match base.filter (fun f => f.1 = k) fields with [] => None | f :: _ => Some f.2 end.

(** Every object inside has distinct keys. *)
Fixpoint well_keyed (v : json) : Prop :=
  match v with
  | JObj fields => NoDup (map fst fields) /\ fold_right (fun f P => well_keyed f.2 /\ P) True fields
  | _ => True
  end.

(** The text of a document's [type]. *)
Definition doc_type (v : json) : option line :=
  match v with JObj ((k, JStr t) :: _) => if bool_decide (k = "type"%string) then Some t else None | _ => None end.

(** ** Lemmas *)

Lemma well_keyed_fields fields :
  NoDup (map fst fields) -> Forall (fun f => well_keyed f.2) fields -> well_keyed (JObj fields).
Proof.
  intros N F. cbn. split; [exact N|]. induction F as [|f fields W F IH]; [done|]. cbn in *. split; [exact W|]. apply IH. by apply NoDup_cons in N as [_ N].
Qed.

(** Splits a document into the cases of its optional fields. *)
Ltac doc_cases := unfold opt, when; repeat match goal with |- context [match ?x with _ => _ end] => destruct x end.

Lemma latency_keyed n s : well_keyed (latency_output n s).
Proof. apply well_keyed_fields; [by apply (bool_decide_unpack _); vm_compute|repeat constructor]. Qed.

Definition keys (fields : list (string * json)) : list string := map fst fields.

Lemma keys_app a b : keys (a ++ b) = keys a ++ keys b.
Proof. apply map_app. Qed.

Lemma opt_keys {A} name (f : A -> json) o : keys (opt name f o) `sublist_of` [name].
Proof. destruct o; [done|]. apply sublist_nil_l. Qed.

(** Keys that come in the order of a list of distinct names are distinct. *)
Lemma keyed_by (names : list string) fields :
  bool_decide (NoDup names) = true -> keys fields `sublist_of` names -> Forall (fun f => well_keyed f.2) fields -> well_keyed (JObj fields).
Proof. intros N S F. apply well_keyed_fields; [|exact F]. eapply sublist_NoDup; [|exact S]. by apply bool_decide_eq_true in N. Qed.

Lemma opt_forall {A} name (f : A -> json) o : (forall x, o = Some x -> well_keyed (f x)) -> Forall (fun f => well_keyed f.2) (opt name f o).
Proof. destruct o; cbn; [intros H; repeat constructor; by apply H|by constructor]. Qed.

(** A document's keys are some of all its names, optional ones included. *)
Ltac keys_tac :=
  rewrite ?keys_app;
  repeat match goal with
  | |- (_ ++ _) `sublist_of` _ => eapply sublist_app
  | |- keys (opt _ _ _) `sublist_of` _ => apply opt_keys
  | |- keys _ `sublist_of` _ => reflexivity
  end.

Ltac values_tac :=
  cbv zeta; repeat match goal with
  | |- Forall _ (_ ++ _) => apply Forall_app; split
  | |- Forall _ (_ :: _) => apply Forall_cons; split
  | |- Forall _ [] => constructor
  | |- Forall _ (opt _ _ _) => apply opt_forall; intros ? ?
  | E : when ?b _ = Some ?x |- well_keyed ?x => unfold when in E; destruct b; [injection E as <-|discriminate E]
  | |- well_keyed (_, ?v).2 => change (well_keyed v)
  | |- well_keyed (latency_output _ _) => apply latency_keyed
  | |- well_keyed (JInt _) => exact I
  | |- well_keyed (JFloat _) => exact I
  | |- well_keyed (JStr _) => exact I
  | |- well_keyed (jtext _) => exact I
  | |- well_keyed (JBool _) => exact I
  end.

(** Checks a document: its keys, then its values. *)
Ltac keyed_tac :=
  cbv zeta; eapply keyed_by; [|keys_tac|values_tac; eauto with keyed]; try reflexivity.

Create HintDb keyed.

Lemma kv_config_keyed kv : well_keyed (kv_config_output kv).
Proof. unfold kv_config_output. keyed_tac. Qed.

Lemma trace_config_keyed t : well_keyed (trace_config_output t).
Proof. unfold trace_config_output. keyed_tac. Qed.

Lemma kv_output_keyed kv : well_keyed (kv_output kv).
Proof. unfold kv_output. keyed_tac. Qed.

Lemma trace_output_keyed t : well_keyed (trace_output t).
Proof. unfold trace_output. keyed_tac. Qed.

#[export] Hint Resolve kv_config_keyed trace_config_keyed kv_output_keyed trace_output_keyed latency_keyed : keyed.

Lemma config_keyed c : well_keyed (JObj (config_fields c)).
Proof. unfold config_fields. keyed_tac. Qed.

Lemma result_keyed r : well_keyed (JObj (result_fields r)).
Proof. unfold result_fields. keyed_tac. Qed.

Definition workload_keys (fields : list (string * json)) : list string :=
  base.filter (fun k => k ∈ ["keyspace"; "kv_replay"; "trace_replay"]%string) (keys fields).

(** A configuration's document names its workload. *)
Lemma config_workload c :
  ~ (is_Some (Workload.kv_replay (Config.workload c)) /\ is_Some (Workload.trace_replay (Config.workload c))) ->
  workload_keys (config_fields c) =
    [match Workload.kv_replay (Config.workload c), Workload.trace_replay (Config.workload c) with
     | Some _, _ => "kv_replay" | _, Some _ => "trace_replay" | None, None => "keyspace" end]%string.
Proof.
  intros N. unfold workload_keys, config_fields. cbv zeta. rewrite !keys_app.
  destruct (Workload.rate_limit _), (General.cpu_list _), (Workload.kv_replay _), (Workload.trace_replay _); try reflexivity; destruct N; split; by eexists.
Qed.

Definition message_types : list line := map tx ["config"; "sample"; "prefill_progress"; "prefill_timeout"; "result"]%string.

(** The document of a method, if it has one. *)
Definition document (ts : line) (m : Method) : option (list (string * json)) :=
  match m with
  | m_config c => Some (config_fields c)
  | m_sample _ s => Some (sample_fields ts s)
  | m_prefill_sample s => Some (prefill_fields s)
  | m_prefill_timeout d => Some (timeout_fields d)
  | m_results r => Some (result_fields r)
  | _ => None
  end.

Lemma document_spec ts m v : Doc v ∈ json_method ts m -> exists fields, document ts m = Some fields /\ v = JObj fields.
Proof.
  assert (T : forall ls, Doc v ∈ map (fun l => Text_ (Println l)) ls -> False) by (intros ls H; apply list_elem_of_fmap in H as (? & ? & _); discriminate).
  destruct m; cbn [json_method document]; intros H; try (by apply T in H); apply list_elem_of_singleton in H as [= ->]; by eexists.
Qed.

Lemma document_keyed ts m fields : document ts m = Some fields ->
  well_keyed (JObj fields) /\ exists t, doc_type (JObj fields) = Some t /\ t ∈ message_types.
Proof.
  unfold message_types. destruct m as [c| | | | | | | |time s|r| |s|d| | |]; cbn [document]; intros E; try discriminate E; injection E as <-.
  - split; [apply config_keyed|]. eexists. split; [reflexivity|]. cbn [map]. set_solver.
  - split; [unfold sample_fields; keyed_tac|]. eexists. split; [reflexivity|]. cbn [map]. set_solver.
  - split; [apply result_keyed|]. eexists. split; [reflexivity|]. cbn [map]. set_solver.
  - split; [unfold prefill_fields; keyed_tac|]. eexists. split; [reflexivity|]. cbn [map]. set_solver.
  - split; [unfold timeout_fields; keyed_tac|]. eexists. split; [reflexivity|]. cbn [map]. set_solver.
Qed.

(** ** Theorem *)

(** C40: The documents of the NDJSON stream are well formed.  Each is an object
    whose first field is its [type], one of the five message types; neither it
    nor an object inside it repeats a key, whichever optional fields are
    present; and the document of a valid configuration describes exactly one
    workload: the keyspace, the KV replay or the trace replay. *)
Theorem json_documents_sound ts m v (Hdoc : Doc v ∈ json_method ts m) :
  well_keyed v /\ (exists t, doc_type v = Some t /\ t ∈ message_types) /\
  (forall c dma_build, m = m_config c -> validate dma_build c = Ok () ->
     exists fields k, v = JObj fields /\ workload_keys fields = [k]).
Proof.
  destruct (document_spec ts m v Hdoc) as (fields & E & ->). destruct (document_keyed ts m fields E) as [K T].
  split; [exact K|]. split; [exact T|]. intros c d -> V. injection E as <-. eexists _, _. split; [reflexivity|].
  apply config_workload. intros [[kv Hk] Ht]. destruct (v_trace _ _ (validate_valid _ _ V) Ht) as [_ N]. congruence.
Qed.

(** What precedes the documents of a run in the stream is not NDJSON: these
    methods are the trait's. *)
Example plain_lines_in_stream :
  json_method [] m_precheck = [Text_ (Println (tx "[precheck]"))] /\
  json_method [] (m_precheck_ok 12000000) = [Text_ (Println (tx "[precheck ok 12ms]"))] /\
  json_method [] (m_prefill 4) = [Text_ (Println (tx "PREFILL: writing 4 keys..."))].
Proof. split_and!; vm_compute; reflexivity. Qed.

(** *** Witness *)

Definition example_json_config : Config.t := minimal_config 2 [{| sa_ip := "127.0.0.1"; sa_port := 6379 |}] Resp_.

Lemma json_documents_sound_witness :
  Doc (JObj (config_fields example_json_config)) ∈ json_method [] (m_config example_json_config) /\
  workload_keys (config_fields example_json_config) = ["keyspace"%string].
Proof.
  assert (H : Doc (JObj (config_fields example_json_config)) ∈ json_method [] (m_config example_json_config)) by (apply list_elem_of_here).
  split; [exact H|]. destruct (json_documents_sound [] _ _ H) as (_ & _ & W).
  destruct (W example_json_config false eq_refl) as (fields & k & E & Wk); [by vm_compute|].
  injection E as <-. rewrite Wk. f_equal. assert (Q : Some k = head (workload_keys (config_fields example_json_config))) by (by rewrite Wk).
  vm_compute in Q. by injection Q.
Defined.
