(* ===== verification/Query.v ===== *)
(** Query: the HTTP API a dashboard's charts query
    ([src/src/viewer/api.rs]), over one recording.

    metriken_query's [ParquetReader] is a class of its operations; axum's
    extractors are the arguments of the handlers, its [Json] the value it
    carries.  A [str] is the list of its code points. *)

From Stdlib Require Import SpecFloat.
From S2P Require Import Prelude F64 Text Json.
Open Scope Z_scope.

Abbreviation str := (list Z).

(** ** The recording *)

Inductive QueryError :=
| ParseError (m : str)
| EvaluationError (m : str)
| Unsupported (m : str)
| MetricNotFound (m : str).

Class ParquetReader (R V : Type) := {
  rd_interval : R -> f64;
  rd_source : R -> str;
  rd_version : R -> str;
  rd_filename : R -> option str;
  rd_time_range : R -> option (f64 * f64);
  rd_query : R -> str -> option f64 -> result QueryError V;
  rd_query_range : R -> str -> f64 -> f64 -> f64 -> result QueryError V;
  query_error_text : QueryError -> str;
}.

(** ** Bodies *)

Record ApiResponse (T : Type) := { ap_status : str; ap_data : option T; ap_error : option str; ap_error_type : option str }.
Arguments ap_status {T}.
Arguments ap_data {T}.
Arguments ap_error {T}.
Arguments ap_error_type {T}.

(** [ApiResponse::success]. *)
Definition success {T} (data : T) : ApiResponse T :=
  {| ap_status := bytes_of "success"; ap_data := Some data; ap_error := None; ap_error_type := None |}.

(** [ApiResponse::error]. *)
Definition api_error {T} (error error_type : str) : ApiResponse T :=
  {| ap_status := bytes_of "error"; ap_data := None; ap_error := Some error; ap_error_type := Some error_type |}.

(** The document serde derives: the absent fields are left out. *)
Definition api_document {T} (f : T -> json) (r : ApiResponse T) : json :=
  JObj ([("status"%string, JStr (ap_status r))] ++ opt "data" f (ap_data r) ++ opt "error" JStr (ap_error r) ++
        opt "errorType" JStr (ap_error_type r)).

Definition error_type (e : QueryError) : str :=
  match e with
  | ParseError _ => bytes_of "bad_data"
  | EvaluationError _ => bytes_of "execution"
  | Unsupported _ => bytes_of "unsupported"
  | MetricNotFound _ => bytes_of "not_found"
  end.

(** ** The stride of a histogram query *)

Definition stride_calls : list str := [bytes_of "histogram_percentiles("; bytes_of "histogram_quantiles("].

(** The place of the call's opening parenthesis: [find] is the first of the
    two that [trimmed] starts with. *)
Definition call_open (trimmed : str) : option nat :=
  match base.filter (fun prefix => starts_with prefix trimmed = true) stride_calls with
  | prefix :: _ => Some (length prefix - 1)%nat
  | [] => None
  end.

Definition is_nan (x : f64) : bool := match x with S754_nan => true | _ => false end.

(** The stride of [step] over snapshots [interval] apart, [None] where the
    function returns the query. *)
Definition stride_of (step interval : f64) : option f64 :=
  if is_nan step || f64_le step f64_zero then None
  else if f64_lt f64_zero interval then
    let k := f64_round (f64_div step interval) in
    if f64_le k f64_one then None else Some (f64_mul (f64_sub k (f64_lit 1 2)) interval)
  else Some step.

Definition is_open (c : Z) : bool := bool_decide (c ∈ [40; 91; 123]).

Definition is_close (c : Z) : bool := bool_decide (c ∈ [41; 93; 125]).

(** The loop over the characters from the parenthesis on: the depth and the
    commas counted, [None] where it returns the query.  Neither count passes
    the query's length. *)
Fixpoint scan (depth commas : Z) (s : str) : option (Z * Z) :=
  match s with
  | [] => Some (depth, commas)
  | c :: s =>
      if is_open c then scan (depth + 1) commas s
      else if is_close c then
        if (depth - 1 =? 0) && negb (bool_decide (s = [])) then None else scan (depth - 1) commas s
      else if (c =? 44) && (depth =? 1) then scan depth (commas + 1) s
      else scan depth commas s
  end.

(** [with_histogram_stride].  The last character of a query that gets a stride
    is a bracket, one byte, which the slice leaves out. *)
Definition with_histogram_stride (query : str) (step interval : f64) : str :=
  let trimmed := trim query in
  match call_open trimmed with
  | None => query
  | Some open =>
      match stride_of step interval with
      | None => query
      | Some stride =>
          match scan 0 0 (drop open trimmed) with
          | None => query
          | Some (depth, commas) =>
              if negb (depth =? 0) || negb (commas =? 1) then query
              else take (length trimmed - 1) trimmed ++ bytes_of ", " ++ bytes_of (display_f64 stride) ++ [41]
          end
      end
  end.

(** ** The handlers *)

Section handlers.
Context {R V : Type} `{PR : ParquetReader R V}.

(** [respond]; the status is always 200. *)
Definition respond (r : result QueryError V) : ApiResponse V :=
  match r with
  | Ok v => success v
  | Err e => api_error (query_error_text e) (error_type e)
  end.

Definition instant_query (source : R) (query : str) (time : option f64) : ApiResponse V :=
  respond (rd_query source query time).

Definition range_query (source : R) (query : str) (start end_ step : f64) : ApiResponse V :=
  respond (rd_query_range source (with_histogram_stride query step (rd_interval source)) start end_ step).

(** [metadata]; [now] is the system clock in seconds. *)
Definition metadata (source : R) (now : f64) : ApiResponse json :=
  let '(lo, hi) := match rd_time_range source with
                   | Some r => r
                   | None => (f64_sub now (f64_of_Z 3600), now)
                   end in
  success (JObj [("minTime"%string, JFloat lo); ("maxTime"%string, JFloat hi); ("interval"%string, JFloat (rd_interval source))]).

End handlers.

Definition label_names : ApiResponse (list str) :=
  success (map bytes_of ["__name__"; "direction"; "op"; "state"; "reason"; "id"; "name"; "sampler"]%string).

Definition label_values (name : str) : ApiResponse (list str) :=
  let values :=
    if bool_decide (name = bytes_of "direction") then ["transmit"; "receive"; "to"; "from"]%string
    else if bool_decide (name = bytes_of "op") then ["read"; "write"]%string
    else if bool_decide (name = bytes_of "state") then ["user"; "system"]%string
    else [] in
  success (map bytes_of values).

(** The routes below a recording's root and what each answers. *)
Inductive Api := A_query | A_query_range | A_labels | A_label_values | A_metadata.

Definition api_routes : list (str * Api) :=
  [(bytes_of "/query", A_query); (bytes_of "/query_range", A_query_range); (bytes_of "/labels", A_labels);
   (bytes_of "/label/{name}/values", A_label_values); (bytes_of "/metadata", A_metadata)].

(** ** Grammar

    What the loop counts, as a grammar: text with its brackets in pairs, of
    any kinds, and an argument, whose commas are all inside brackets. *)

Inductive nested : str -> Prop :=
| nested_nil : nested []
| nested_char c s : is_open c = false -> is_close c = false -> nested s -> nested (c :: s)
| nested_group o s c s' : is_open o = true -> nested s -> is_close c = true -> nested s' -> nested (o :: s ++ c :: s').

Inductive argument : str -> Prop :=
| argument_nil : argument []
| argument_char c s : is_open c = false -> is_close c = false -> c <> 44 -> argument s -> argument (c :: s)
| argument_group o s c s' : is_open o = true -> nested s -> is_close c = true -> argument s' -> argument (o :: s ++ c :: s').

(** A single call [f(a,b)] of one of the two functions; [z] is the bracket that
    ends it. *)
Record two_argument_call (query f a b : str) (z : Z) : Prop := {
  call_name : f ∈ [bytes_of "histogram_percentiles"; bytes_of "histogram_quantiles"];
  call_text : trim query = f ++ 40 :: a ++ 44 :: b ++ [z];
  call_first : argument a;
  call_second : argument b;
  call_end : is_close z = true;
}.

(** ** Lemmas *)

Lemma open_not_close c : is_open c = true -> is_close c = false.
Proof.
  unfold is_open. rewrite bool_decide_eq_true, !elem_of_cons, elem_of_nil.
  by intros [->|[->|[->|[]]]].
Qed.

Lemma close_not_open c : is_close c = true -> is_open c = false.
Proof. intros C. destruct (is_open c) eqn:O; [|done]. by rewrite (open_not_close c O) in C. Qed.

(** Inside brackets the counts come out as they went in. *)
Lemma scan_nested s : nested s -> forall d k r, 2 <= d -> scan d k (s ++ r) = scan d k r.
Proof.
  induction 1 as [|c s O C _ IH|o s c s' O _ IH C _ IH']; intros d k r D; [done| |]; cbn [app scan].
  - rewrite O, C, (proj2 (Z.eqb_neq d 1)), andb_false_r by lia. by apply IH.
  - rewrite O, <- app_assoc, IH by lia. cbn [app scan]. rewrite (close_not_open c C), C, (proj2 (Z.eqb_neq (d + 1 - 1) 0)) by lia.
    cbn [andb]. replace (d + 1 - 1) with d by lia. by apply IH'.
Qed.

Lemma scan_argument s : argument s -> forall k r, scan 1 k (s ++ r) = scan 1 k r.
Proof.
  induction 1 as [|c s O C N _ IH|o s c s' O Ns C _ IH]; intros k r; [done| |]; cbn [app scan].
  - rewrite O, C, (proj2 (Z.eqb_neq c 44)) by done. apply IH.
  - rewrite O, <- app_assoc, scan_nested by (done || lia). cbn [app scan]. rewrite (close_not_open c C), C. apply IH.
Qed.

(** A call's text from its parenthesis on: one comma, every bracket closed. *)
Lemma scan_call a b z :
  argument a -> argument b -> is_close z = true -> scan 0 0 (40 :: a ++ 44 :: b ++ [z]) = Some (0, 1).
Proof.
  intros A B Z. cbn [scan]. change (is_open 40) with true. cbn match. change (0 + 1) with 1. rewrite scan_argument by done.
  cbn [scan]. change (is_open 44) with false. change (is_close 44) with false. cbn match.
  change ((44 =? 44) && (1 =? 1)) with true. cbn match. rewrite scan_argument by done. cbn [scan]. by rewrite (close_not_open z Z), Z.
Qed.

Lemma scan_commas d k s d' k' : scan d k s = Some (d', k') -> k <= k'.
Proof.
  revert d k. induction s as [|c s IH]; intros d k E; cbn in E; [injection E; lia|].
  repeat case_match; try done; try (by eapply IH). specialize (IH _ _ E). lia.
Qed.

(** The loop ends at depth 0 only after the bracket that the group waits for. *)
Lemma scan_group n : forall s d k k', (length s <= n)%nat -> 2 <= d -> scan d k s = Some (0, k') ->
  exists a c r, s = a ++ c :: r /\ nested a /\ is_close c = true /\ scan (d - 1) k r = Some (0, k').
Proof.
  induction n as [|n IH]; intros s d k k' L D E; (destruct s as [|c s]; cbn in E, L; [injection E; lia|]); [lia|].
  destruct (is_open c) eqn:O.
  - destruct (IH s (d + 1) k k' ltac:(lia) ltac:(lia) E) as (a & c' & r & -> & Na & C & E'). replace (d + 1 - 1) with d in E' by lia.
    rewrite length_app in L. cbn in L. destruct (IH r d k k' ltac:(lia) D E') as (b & c2 & r' & -> & Nb & C2 & E2).
    exists (c :: a ++ c' :: b), c2, r'. split; [by cbn; rewrite <- app_assoc|]. split; [by constructor|done].
  - destruct (is_close c) eqn:C.
    + rewrite (proj2 (Z.eqb_neq (d - 1) 0)) in E by lia. exists [], c, s. by repeat constructor.
    + rewrite (proj2 (Z.eqb_neq d 1)), andb_false_r in E by lia.
      destruct (IH s d k k' ltac:(lia) D E) as (a & c' & r & -> & Na & C' & E'). exists (c :: a), c', r. by repeat constructor.
Qed.

(** At depth 1: an argument, then the end of the call or a comma. *)
Lemma scan_top n : forall s k k', (length s <= n)%nat -> scan 1 k s = Some (0, k') ->
  exists a, argument a /\
    ((exists z, s = a ++ [z] /\ is_close z = true /\ k' = k) \/ (exists r, s = a ++ 44 :: r /\ scan 1 (k + 1) r = Some (0, k'))).
Proof.
  induction n as [|n IH]; intros s k k' L E; (destruct s as [|c s]; cbn in E, L; [injection E; lia|]); [lia|].
  destruct (is_open c) eqn:O.
  - destruct (scan_group (length s) s 2 k k' ltac:(lia) ltac:(lia) E) as (a & c' & r & -> & Na & C & E').
    rewrite length_app in L. cbn in L. destruct (IH r k k' ltac:(lia) E') as (b & Ab & Rest).
    exists (c :: a ++ c' :: b). split; [by constructor|]. destruct Rest as [(z & -> & Z)|(r' & -> & Z)]; [left; exists z|right; exists r']; cbn; by rewrite <- app_assoc.
  - destruct (is_close c) eqn:C.
    + change (1 - 1 =? 0) with true in E. destruct (decide (s = [])) as [->|Ns]; [|by rewrite (bool_decide_eq_false_2 _ Ns) in E].
      cbn in E. injection E as <-. exists []. split; [constructor|]. left. by exists c.
    + destruct (Z.eqb_spec c 44) as [->|N44]; cbn [andb] in E.
      * exists []. split; [constructor|]. right. by exists s.
      * destruct (IH s k k' ltac:(lia) E) as (a & Aa & Rest). exists (c :: a). split; [by constructor|].
        destruct Rest as [(z & -> & Z)|(r' & -> & Z)]; [left; exists z|right; exists r']; done.
Qed.

Lemma scan_call_inv s : scan 1 0 s = Some (0, 1) ->
  exists a b z, s = a ++ 44 :: b ++ [z] /\ argument a /\ argument b /\ is_close z = true.
Proof.
  intros E. destruct (scan_top _ s 0 1 (Nat.le_refl _) E) as (a & Aa & [(z & _ & _ & K)|(r & -> & E')]); [lia|].
  destruct (scan_top _ r 1 1 (Nat.le_refl _) E') as (b & Ab & [(z & -> & Z & _)|(r' & -> & E'')]); [by exists a, b, z|].
  apply scan_commas in E''. lia.
Qed.

Lemma starts_with_spec p s : starts_with p s = true <-> exists r, s = p ++ r.
Proof.
  revert s. induction p as [|a p IH]; intros s; cbn; [split; [by exists s|done]|].
  destruct s as [|b s]; [split; [done|by intros [r E]]|]. rewrite andb_true_iff, Z.eqb_eq, IH.
  split; [intros [-> [r ->]]; by exists r|intros [r [= -> ->]]; split; [done|by exists r]].
Qed.

Definition stride_names : list str := [bytes_of "histogram_percentiles"; bytes_of "histogram_quantiles"].

Lemma call_open_spec s n :
  call_open s = Some n <-> exists f r, f ∈ stride_names /\ s = f ++ 40 :: r /\ n = length f.
Proof.
  assert (P : forall f r, f ++ 40 :: r = (f ++ [40]) ++ r) by (intros; by rewrite <- app_assoc).
  unfold call_open, stride_calls, stride_names. rewrite !filter_cons, filter_nil. split.
  - repeat case_decide; intros E; try discriminate E; injection E as <-;
      match goal with H : starts_with _ _ = true |- _ => apply starts_with_spec in H as [r ->] end.
    + exists (bytes_of "histogram_percentiles"), r. rewrite P. split; [set_solver|done].
    + exists (bytes_of "histogram_quantiles"), r. rewrite P. split; [set_solver|done].
  - intros (f & r & F & -> & ->). rewrite !elem_of_cons, elem_of_nil in F. destruct F as [->|[->|[]]]; reflexivity.
Qed.

(** *** The text of a double: no bracket, no comma, nothing to trim *)

Definition flat (c : Z) : bool := bool_decide (c ∈ [45; 46] ++ bytes_of "infNa") || (48 <=? c) && (c <? 58).

Lemma flat_plain c : flat c = true -> is_open c = false /\ is_close c = false /\ c <> 44 /\ is_whitespace c = false.
Proof.
  unfold flat. rewrite orb_true_iff, bool_decide_eq_true. intros [I|D].
  - rewrite !elem_of_app, !elem_of_cons in I. cbn in I. rewrite !elem_of_cons, !elem_of_nil in I.
    repeat destruct I as [I|I]; subst; repeat split; done.
  - assert (E : c = 48 \/ c = 49 \/ c = 50 \/ c = 51 \/ c = 52 \/ c = 53 \/ c = 54 \/ c = 55 \/ c = 56 \/ c = 57) by lia.
    repeat destruct E as [->|E]; try subst c; repeat split; done.
Qed.

Definition flat_text (s : string) : Prop := Forall (fun c => flat c = true) (bytes_of s).

Lemma flat_app a b : flat_text a -> flat_text b -> flat_text (a ++ b).
Proof. unfold flat_text. rewrite bytes_of_app. intros A B. by apply Forall_app. Qed.

Lemma flat_show n : flat_text (show_Z n).
Proof.
  unfold flat_text. fold (show n). eapply Forall_impl; [apply show_digits|]. cbn. intros c C. unfold flat. apply orb_true_iff. right. lia.
Qed.

Lemma flat_zeros n : flat_text (repeat_string n "0").
Proof. induction n as [|n IH]; [by constructor|]. apply (flat_app "0"); [by repeat constructor|exact IH]. Qed.

Lemma flat_substring s : forall i j, flat_text s -> flat_text (String.substring i j s).
Proof.
  induction s as [|c s IH]; intros [|i] [|j] F; try by constructor.
  - apply Forall_cons in F as [C F]. cbn. constructor; [exact C|by apply IH].
  - apply Forall_cons in F as [_ F]. by apply IH.
  - apply Forall_cons in F as [_ F]. by apply IH.
Qed.

Lemma flat_display x : flat_text (display_f64 x).
Proof.
  assert (G : forall s : bool, flat_text (if s then "-" else "")) by (intros []; repeat constructor).
  destruct x as [s|s| |s m e]; cbn [display_f64]; try apply flat_app; try apply G; try by repeat constructor.
  repeat match goal with |- flat_text (let (_, _) := ?x in _) => destruct x end. apply flat_app; [apply G|]. unfold place_point.
  repeat case_match; repeat apply flat_app; try apply flat_zeros; try apply flat_substring; try apply flat_show; by repeat constructor.
Qed.

Lemma flat_argument s : Forall (fun c => flat c = true) s -> argument s.
Proof. induction 1 as [|c s C _ IH]; [constructor|]. destruct (flat_plain c C) as (O & Cl & N & _). by constructor. Qed.

(** ** Properties *)

(** What a call with two arguments becomes. *)
Definition strided (f a b : str) (stride : f64) : str :=
  f ++ 40 :: a ++ 44 :: b ++ bytes_of ", " ++ bytes_of (display_f64 stride) ++ [41].

Lemma call_strided query step interval f a b z stride :
  two_argument_call query f a b z -> stride_of step interval = Some stride ->
  with_histogram_stride query step interval = strided f a b stride.
Proof.
  intros [F T A B Z] St. unfold with_histogram_stride. rewrite T, St.
  rewrite (proj2 (call_open_spec _ (length f))) by (by exists f, (a ++ 44 :: b ++ [z])).
  rewrite drop_app_length, scan_call by done. cbn match. unfold strided.
  change (f ++ 40 :: a ++ 44 :: b ++ [z]) with (f ++ [40] ++ a ++ [44] ++ b ++ [z]).
  change (f ++ 40 :: a ++ 44 :: ?r) with (f ++ [40] ++ a ++ [44] ++ r). rewrite !app_assoc, length_app. cbn [length].
  rewrite Nat.add_sub, take_app_length. by rewrite <- !app_assoc.
Qed.

(** A query that changes is a call with two arguments. *)
Lemma strided_call query step interval :
  with_histogram_stride query step interval <> query -> exists f a b z, two_argument_call query f a b z /\ is_Some (stride_of step interval).
Proof.
  unfold with_histogram_stride. intros C. destruct (call_open (trim query)) as [n|] eqn:O; [|done].
  destruct (stride_of step interval) as [stride|]; [|done]. apply call_open_spec in O as (f & r & F & T & ->).
  rewrite T, drop_app_length in C. cbn [scan] in C. change (is_open 40) with true in C. cbn match in C. change (0 + 1) with 1 in C.
  destruct (scan 1 0 r) as [[depth commas]|] eqn:Sc; [|done]. destruct (Z.eqb_spec depth 0) as [->|]; [|done].
  destruct (Z.eqb_spec commas 1) as [->|]; [|done]. apply scan_call_inv in Sc as (a & b & z & -> & A & B & Z).
  exists f, a, b, z. split; [by split|eauto].
Qed.

(** Three arguments: two commas. *)
Lemma scan_strided a b s :
  argument a -> argument b -> Forall (fun c => flat c = true) s -> scan 0 0 (40 :: a ++ 44 :: b ++ bytes_of ", " ++ s ++ [41]) = Some (0, 2).
Proof.
  intros A B F. cbn [scan]. change (is_open 40) with true. cbn match. change (0 + 1) with 1. rewrite scan_argument by done.
  cbn [scan]. change (is_open 44) with false. change (is_close 44) with false. change ((44 =? 44) && (1 =? 1)) with true. cbn match.
  rewrite scan_argument by done. change (bytes_of ", " ++ ?r) with (44 :: 32 :: r). cbn [scan]. change (is_open 44) with false.
  change (is_close 44) with false. change ((44 =? 44) && (1 =? 1)) with true. cbn match. change (is_open 32) with false.
  change (is_close 32) with false. change ((32 =? 44) && (1 =? 1)) with false. cbn match. by rewrite scan_argument by by apply flat_argument.
Qed.

(** What the rewriting gives is left as it is. *)
Lemma strided_settled f a b stride step interval :
  f ∈ stride_names -> argument a -> argument b ->
  with_histogram_stride (strided f a b stride) step interval = strided f a b stride.
Proof.
  intros F A B. unfold with_histogram_stride.
  assert (T : trim (strided f a b stride) = strided f a b stride).
  { apply trim_solid; unfold strided.
    - unfold stride_names in F. rewrite !elem_of_cons, elem_of_nil in F. by destruct F as [->|[->|[]]].
    - rewrite rev_app_distr. cbn [rev]. rewrite rev_app_distr. cbn [rev]. by rewrite !rev_app_distr. }
  assert (O : call_open (strided f a b stride) = Some (length f)) by (apply call_open_spec; by eexists f, _).
  assert (D : drop (length f) (strided f a b stride) = 40 :: a ++ 44 :: b ++ bytes_of ", " ++ bytes_of (display_f64 stride) ++ [41]) by apply drop_app_length.
  rewrite T, O, D, scan_strided by (done || apply flat_display). by destruct (stride_of step interval).
Qed.


Definition example_query : str := bytes_of " histogram_quantiles([0.5], x{op=get, a=b})".


(** The strides of the source's own cases. *)
Example strides_of_steps :
  map (fun '(step, interval) => option_map display_f64 (stride_of step interval))
    [(f64_lit 8 5, f64_one); (f64_lit 18 5, f64_one); (f64_one, f64_lit 1 4); (f64_of_Z 2, f64_zero);
     (f64_lit 7 5, f64_one); (S754_nan, f64_one); (f64_zero, f64_zero)] =
  [Some "1.5"; Some "3.5"; Some "0.875"; Some "2"; None; None; None]%string.
Proof. vm_compute. reflexivity. Qed.

(** The brackets' kinds are not compared: a query that is not a call, ended by
    a bracket of another kind, becomes one. *)
Example wrong_bracket_mended :
  with_histogram_stride (bytes_of "histogram_percentiles([0.5], x]") (f64_of_Z 14) f64_one =
  bytes_of "histogram_percentiles([0.5], x, 13.5)".
Proof. vm_compute. reflexivity. Qed.

(** An error is answered with its kind and without data. *)
Lemma error_body {R V} `{PR : ParquetReader R V} (f : V -> json) e :
  api_document f (respond (Err e)) =
  JObj [("status"%string, jtext "error"); ("error"%string, JStr (query_error_text e)); ("errorType"%string, JStr (error_type e))].
Proof. reflexivity. Qed.
