(* ===== verification/Viewer.v ===== *)
(** Viewer: the dashboards over a recording and the server that serves them
    ([src/src/viewer/mod.rs], [plot.rs], [dashboard/*.rs]).

    A chart is metriken_charts': here it is the builder calls that make it, in
    their order.  The recordings are Query's [ParquetReader]; serde_json's
    text of a page, the embedded files and axum's matching of a path are
    arguments, and a handler is a function of what axum extracts. *)

From S2P Require Import Prelude F64 Text Json Query.
Open Scope Z_scope.

(** ** Charts *)

Inductive HistogramView := Percentiles.

Inductive PlotKind := PCounter | PGauge | PHistogram (view : HistogramView).

Inductive Unit_ := URate | UPercentage | UTime | UBitrate | UDatarate | UCount | UBytes.

Inductive ChartStyle := Line_ | Scatter.

(** The calls on the builder between its start and [build]. *)
Inductive PlotCall :=
| with_style (s : ChartStyle)
| with_log_scale (b : bool)
| percentage_range
| with_min_y_span (x : f64).

Record Plot := { pl_kind : PlotKind; pl_title : string; pl_id : string; pl_unit : Unit_; pl_calls : list PlotCall; pl_query : str }.

Definition literal (s : string) : str := bytes_of s.

(** A literal with quotes in it, written with single ones here. *)
Definition quoted (s : string) : str := map (fun c => if c =? 39 then 34 else c) (bytes_of s).

Definition counter (title id : string) (u : Unit_) (calls : list PlotCall) (query : str) : Plot :=
  {| pl_kind := PCounter; pl_title := title; pl_id := id; pl_unit := u; pl_calls := calls; pl_query := query |}.

Definition gauge (title id : string) (u : Unit_) (calls : list PlotCall) (query : str) : Plot :=
  {| pl_kind := PGauge; pl_title := title; pl_id := id; pl_unit := u; pl_calls := calls; pl_query := query |}.

(** [latency_percentiles]. *)
Definition latency_percentiles (title id query : string) : Plot :=
  {| pl_kind := PHistogram Percentiles; pl_title := title; pl_id := id; pl_unit := UTime;
     pl_calls := [with_log_scale true; with_style Scatter]; pl_query := bytes_of query |}.

(** ** Pages *)

Record Section_ := { se_name : string; se_route : str }.

(** [Group]; nothing fills its [metadata], which serde then leaves out. *)
Record Group := { gr_name : string; gr_id : string; gr_plots : list Plot }.

Definition new_group (name id : string) : Group := {| gr_name := name; gr_id := id; gr_plots := [] |}.

(** [Group::plot]. *)
Definition plot (p : Plot) (g : Group) : Group :=
  {| gr_name := gr_name g; gr_id := gr_id g; gr_plots := gr_plots g ++ [p] |}.

Record View := {
  vw_interval : f64; vw_api : str; vw_source : str; vw_version : str; vw_filename : str;
  vw_groups : list Group; vw_sections : list Section_;
}.

(** [View::group]. *)
Definition group (g : Group) (v : View) : View :=
  {| vw_interval := vw_interval v; vw_api := vw_api v; vw_source := vw_source v; vw_version := vw_version v;
     vw_filename := vw_filename v; vw_groups := vw_groups v ++ [g]; vw_sections := vw_sections v |}.

Definition BENCHMARK_ROOT : str := bytes_of "/api/v1".

Definition SERVER_ROOT : str := bytes_of "/server/api/v1".

Definition CLIENT_ROOT : str := bytes_of "/client/api/v1".

Section viewer.
Context {R V : Type} `{PR : ParquetReader R V}.

(** [View::new]. *)
Definition new_view (data : R) (api : str) (sections : list Section_) : View :=
  {| vw_interval := rd_interval data; vw_api := api; vw_source := rd_source data; vw_version := rd_version data;
     vw_filename := default [] (rd_filename data); vw_groups := []; vw_sections := sections |}.

(** ** The dashboards

    A generator takes the benchmark's recording, the server's and the
    client's; [None] is a panic. *)

Definition Generator : Type := R -> option R -> option R -> list Section_ -> option View.

(** [overview::generate]. *)
Definition overview_generate : Generator := fun data _server _client sections =>
  let view := new_view data BENCHMARK_ROOT sections in
  let metrics := new_group "Key Metrics" "key-metrics" in
  let metrics := plot (counter "Throughput" "throughput" URate [with_style Line_]
      (literal "irate(responses_received[10s])")) metrics in
  let metrics := plot (counter "Hit Rate" "hit-rate" UPercentage [percentage_range; with_min_y_span (f64_lit 1 100); with_style Line_]
      (literal "irate(cache_hits[10s]) / (irate(cache_hits[10s]) + irate(cache_misses[10s]))")) metrics in
  let metrics := plot (latency_percentiles "Latency" "latency" "histogram_percentiles([0.5, 0.9, 0.99, 0.999, 0.9999], response_latency)") metrics in
  let metrics := plot (counter "Error Rate" "error-rate" UPercentage [percentage_range; with_min_y_span (f64_lit 1 1000); with_style Line_]
      (literal "irate(request_errors[10s]) / irate(requests_sent[10s])")) metrics in
  let metrics := plot (counter "TX Bandwidth" "bandwidth-tx" UBitrate [with_style Line_]
      (literal "irate(bytes_tx[10s]) * 8")) metrics in
  let metrics := plot (counter "RX Bandwidth" "bandwidth-rx" UBitrate [with_style Line_]
      (literal "irate(bytes_rx[10s]) * 8")) metrics in
  let view := group metrics view in
  Some view.

(** [throughput::generate]. *)
Definition throughput_generate : Generator := fun data _server _client sections =>
  let view := new_view data BENCHMARK_ROOT sections in
  let requests := new_group "Request/Response Rates" "request-rates" in
  let requests := plot (counter "Responses/sec" "responses-received" URate [with_style Line_]
      (literal "irate(responses_received[10s])")) requests in
  let requests := plot (counter "Error Rate" "error-rate" UPercentage [percentage_range; with_min_y_span (f64_lit 1 1000); with_style Line_]
      (literal "irate(request_errors[10s]) / irate(requests_sent[10s])")) requests in
  let view := group requests view in
  let bytes := new_group "Network Throughput" "bytes" in
  let bytes := plot (counter "TX Bytes/sec" "bytes-tx" UDatarate [with_style Line_]
      (literal "irate(bytes_tx[10s])")) bytes in
  let bytes := plot (counter "RX Bytes/sec" "bytes-rx" UDatarate [with_style Line_]
      (literal "irate(bytes_rx[10s])")) bytes in
  let view := group bytes view in
  let ops := new_group "Operation Rates" "operations" in
  let ops := plot (counter "GET/sec" "get-rate" URate [with_style Line_]
      (literal "irate(get_count[10s])")) ops in
  let ops := plot (counter "SET/sec" "set-rate" URate [with_style Line_]
      (literal "irate(set_count[10s])")) ops in
  let ops := plot (counter "DELETE/sec" "delete-rate" URate [with_style Line_]
      (literal "irate(delete_count[10s])")) ops in
  let view := group ops view in
  Some view.

(** [latency::generate]. *)
Definition latency_generate : Generator := fun data _server _client sections =>
  let view := new_view data BENCHMARK_ROOT sections in
  let latency := new_group "Latency Percentiles" "latency-percentiles" in
  let latency := plot (latency_percentiles "Response" "response-latency-pct" "histogram_percentiles([0.5, 0.9, 0.99, 0.999, 0.9999], response_latency)") latency in
  let latency := plot (latency_percentiles "GET" "get-latency-pct" "histogram_percentiles([0.5, 0.9, 0.99, 0.999, 0.9999], get_latency)") latency in
  let latency := plot (latency_percentiles "SET" "set-latency-pct" "histogram_percentiles([0.5, 0.9, 0.99, 0.999, 0.9999], set_latency)") latency in
  let latency := plot (latency_percentiles "DELETE" "delete-latency-pct" "histogram_percentiles([0.5, 0.9, 0.99, 0.999, 0.9999], delete_latency)") latency in
  let latency := plot (latency_percentiles "Schedule Slip" "schedule-slip-pct" "histogram_percentiles([0.5, 0.9, 0.99, 0.999, 0.9999], schedule_slip)") latency in
  let latency := plot (latency_percentiles "Perceived" "perceived-latency-pct" "histogram_percentiles([0.5, 0.9, 0.99, 0.999, 0.9999], perceived_latency)") latency in
  let view := group latency view in
  Some view.

(** [cache::generate]. *)
Definition cache_generate : Generator := fun data _server _client sections =>
  let view := new_view data BENCHMARK_ROOT sections in
  let rates := new_group "Cache Rates" "cache-rates" in
  let rates := plot (counter "Hit Rate" "hit-rate" URate [with_style Line_]
      (literal "irate(cache_hits[10s])")) rates in
  let rates := plot (counter "Miss Rate" "miss-rate" URate [with_style Line_]
      (literal "irate(cache_misses[10s])")) rates in
  let view := group rates view in
  let ops := new_group "Operations" "operations" in
  let ops := plot (counter "GET/sec" "get-rate" URate [with_style Line_]
      (literal "irate(get_count[10s])")) ops in
  let ops := plot (counter "SET/sec" "set-rate" URate [with_style Line_]
      (literal "irate(set_count[10s])")) ops in
  let ops := plot (counter "DELETE/sec" "delete-rate" URate [with_style Line_]
      (literal "irate(delete_count[10s])")) ops in
  let view := group ops view in
  Some view.

(** [connections::generate]. *)
Definition connections_generate : Generator := fun data _server _client sections =>
  let view := new_view data BENCHMARK_ROOT sections in
  let connections := new_group "Connections" "connections" in
  let connections := plot (gauge "Active Connections" "connections-active" UCount [with_style Line_]
      (literal "connections_active")) connections in
  let connections := plot (counter "Connection Failures/sec" "connections-failed" URate [with_style Line_]
      (literal "irate(connections_failed[10s])")) connections in
  let view := group connections view in
  let disconnects := new_group "Disconnect Reasons" "disconnects" in
  let disconnects := plot (counter "EOF" "disconnect-eof" URate [with_style Line_]
      (literal "irate(disconnects_eof[10s])")) disconnects in
  let disconnects := plot (counter "Recv Error" "disconnect-recv-error" URate [with_style Line_]
      (literal "irate(disconnects_recv_error[10s])")) disconnects in
  let disconnects := plot (counter "Send Error" "disconnect-send-error" URate [with_style Line_]
      (literal "irate(disconnects_send_error[10s])")) disconnects in
  let disconnects := plot (counter "Closed Event" "disconnect-closed-event" URate [with_style Line_]
      (literal "irate(disconnects_closed_event[10s])")) disconnects in
  let disconnects := plot (counter "Error Event" "disconnect-error-event" URate [with_style Line_]
      (literal "irate(disconnects_error_event[10s])")) disconnects in
  let disconnects := plot (counter "Connect Failed" "disconnect-connect-failed" URate [with_style Line_]
      (literal "irate(disconnects_connect_failed[10s])")) disconnects in
  let view := group disconnects view in
  Some view.

(** [server::generate]; without server data it panics. *)
Definition server_generate : Generator := fun _benchmark server _client sections =>
  data ← server;
  let view := new_view data SERVER_ROOT sections in
  let cpu := new_group "CPU Utilization" "cpu" in
  let cpu := plot (counter "CPU Usage %" "cpu-usage" UPercentage [with_style Line_]
      (quoted "sum(irate(cpu_usage{state=~'user|system'}[5m])) / cpu_cores / 1000000000")) cpu in
  let view := group cpu view in
  let memory := new_group "Memory" "memory" in
  let memory := plot (gauge "Memory Used" "memory-used" UBytes [with_style Line_]
      (literal "memory_total - memory_free")) memory in
  let view := group memory view in
  let network := new_group "Network" "network" in
  let network := plot (counter "TX Bytes/sec" "network-tx" UDatarate [with_style Line_]
      (quoted "sum(irate(network_bytes{direction='transmit'}[5m]))")) network in
  let network := plot (counter "RX Bytes/sec" "network-rx" UDatarate [with_style Line_]
      (quoted "sum(irate(network_bytes{direction='receive'}[5m]))")) network in
  let view := group network view in
  let scheduler := new_group "Scheduler" "scheduler" in
  let scheduler := plot (latency_percentiles "Runqueue Latency" "runqueue-latency" "histogram_percentiles([0.5, 0.9, 0.99, 0.999], scheduler_runqueue_latency)") scheduler in
  let view := group scheduler view in
  Some view.

(** [client::generate]; without client data it panics. *)
Definition client_generate : Generator := fun _benchmark _server client sections =>
  data ← client;
  let view := new_view data CLIENT_ROOT sections in
  let cpu := new_group "CPU Utilization" "cpu" in
  let cpu := plot (counter "CPU Usage %" "cpu-usage" UPercentage [with_style Line_]
      (quoted "sum(irate(cpu_usage{state=~'user|system'}[5m])) / cpu_cores / 1000000000")) cpu in
  let view := group cpu view in
  let network := new_group "Network" "network" in
  let network := plot (counter "TX Bytes/sec" "network-tx" UDatarate [with_style Line_]
      (quoted "sum(irate(network_bytes{direction='transmit'}[5m]))")) network in
  let network := plot (counter "RX Bytes/sec" "network-rx" UDatarate [with_style Line_]
      (quoted "sum(irate(network_bytes{direction='receive'}[5m]))")) network in
  let view := group network view in
  Some view.

(** [AppState]. *)
Record AppState := { as_sections : gmap str str; as_sources : list (str * R) }.

(** The loop of [generate] over the pages; [to_string] is serde_json's, and a
    page it refuses is logged and left out. *)
Fixpoint add_pages (to_string : View -> result str str) (benchmark : R) (server client : option R) (sections : list Section_)
    (meta : list (string * str * Generator)) (pages : gmap str str) : option (gmap str str) :=
  match meta with
  | [] => Some pages
  | (_, route, generator) :: meta =>
      view ← generator benchmark server client sections;
      let key := drop 1 route ++ bytes_of ".json" in
      let pages := match to_string view with Ok text => <[key := text]> pages | Err _ => pages end in
      add_pages to_string benchmark server client sections meta pages
  end.

(** The pages for the recordings there are. *)
Definition section_meta (server client : option R) : list (string * str * Generator) :=
  [("Overview"%string, bytes_of "/overview", overview_generate); ("Throughput"%string, bytes_of "/throughput", throughput_generate);
   ("Latency"%string, bytes_of "/latency", latency_generate); ("Cache"%string, bytes_of "/cache", cache_generate);
   ("Connections"%string, bytes_of "/connections", connections_generate)] ++
  (if server then [("Server Metrics"%string, bytes_of "/server", server_generate)] else []) ++
  (if client then [("Client Metrics"%string, bytes_of "/client", client_generate)] else []).

Definition generate (to_string : View -> result str str) (benchmark : R) (server client : option R) : option AppState :=
  let sources := [(BENCHMARK_ROOT, benchmark)] ++
                 (match server with Some s => [(SERVER_ROOT, s)] | None => [] end) ++
                 (match client with Some c => [(CLIENT_ROOT, c)] | None => [] end) in
  let meta := section_meta server client in
  let sections := map (fun '(name, route, _) => {| se_name := name; se_route := route |}) meta in
  pages ← add_pages to_string benchmark server client sections meta ∅;
  Some {| as_sections := pages; as_sources := sources |}.

(** ** Starting *)

Record ViewerConfig := { vc_input : str; vc_server : option str; vc_client : option str; vc_verbose : Z }.

Inductive Level := INFO | DEBUG | TRACE.

Definition log_level (verbose : Z) : Level := if verbose =? 0 then INFO else if verbose =? 1 then DEBUG else TRACE.

(** An optional recording of [run]: a failure is a line on stderr. *)
Definition load_optional (open : str -> result str R) (what : string) (path : option str) : option R * list str :=
  match path with
  | None => (None, [])
  | Some path =>
      match open path with
      | Ok data => (Some data, [])
      | Err e => (None, [bytes_of "warning: failed to load " ++ bytes_of what ++ bytes_of " rezolus data: " ++ e])
      end
  end.

(** What [run] serves, or its exit code, with the lines on stderr. *)
Inductive Loaded := Exit (code : Z) | Panic | Serve (st : AppState).

Definition run_load (open : str -> result str R) (to_string : View -> result str str) (c : ViewerConfig) : Loaded * list str :=
  match open (vc_input c) with
  | Err e => (Exit 1, [bytes_of "failed to load benchmark data from parquet: " ++ e])
  | Ok benchmark =>
      let (server, w1) := load_optional open "server" (vc_server c) in
      let (client, w2) := load_optional open "client" (vc_client c) in
      (match generate to_string benchmark server client with Some st => Serve st | None => Panic end, w1 ++ w2)
  end.

(** ** Serving *)

Inductive Handler := H_about | H_data | H_api (source : R) (a : Api) | H_index | H_lib.

(** The routes of [app], each recording's nested below its root; every other
    path is [H_index]'s. *)
Definition app_routes (st : AppState) : list (str * Handler) :=
  [(bytes_of "/about", H_about); (bytes_of "/data/{path}", H_data)] ++
  concat (map (fun '(root, source) => map (fun '(path, a) => (root ++ path, H_api source a)) api_routes) (as_sources st)) ++
  [(bytes_of "/", H_index); (bytes_of "/lib/{*path}", H_lib)].

(** The status, content type and body of an answer. *)
Definition Response : Type := Z * str * str.

Definition data (st : AppState) (path : str) : Response :=
  (200, bytes_of "application/json", default (bytes_of "{ }") (as_sections st !! path)).

Definition about (version : str) : str :=
  bytes_of "Cachecannon Viewer " ++ version ++ [10] ++
  bytes_of "For information, see: https://github.com/cachecannon/cachecannon" ++ [10].

Definition not_found : Response := (404, bytes_of "text/plain", bytes_of "404 Not Found").

Context {File : Type} (own_asset charts_asset : str -> option File) (contents_utf8 : File -> option str).

Definition index : Response :=
  match own_asset (bytes_of "index.html") with
  | Some asset => match contents_utf8 asset with Some body => (200, bytes_of "text/html", body) | None => not_found end
  | None => not_found
  end.

Definition lib_asset (path : str) : option File :=
  match own_asset (bytes_of "lib/" ++ path) with Some f => Some f | None => charts_asset path end.

Definition ends_with (suffix s : str) : bool := starts_with (rev suffix) (rev s).

Definition lib (path : str) : Response :=
  match lib_asset path with
  | Some asset =>
      match contents_utf8 asset with
      | Some body =>
          (200, if ends_with (bytes_of ".js") path then bytes_of "text/javascript"
                else if ends_with (bytes_of ".css") path then bytes_of "text/css" else bytes_of "text/plain", body)
      | None => not_found
      end
  | None => not_found
  end.

End viewer.

(** ** What the program records

    The metrics of [metrics.rs] by name. *)

Inductive MetricKind := Counter_ | Gauge_ | Histogram_.

#[export] Instance MetricKind_eq_dec : EqDecision MetricKind.
Proof. solve_decision. Defined.

(** The metrics of requests, cache, bytes, operations and connections. *)
Definition request_metrics : list (string * MetricKind) :=
  [("requests_sent", Counter_); ("requests_send_failed", Counter_); ("routed_queue_dropped", Counter_); ("responses_received", Counter_);
   ("request_errors", Counter_); ("request_timeouts", Counter_); ("cache_hits", Counter_); ("cache_misses", Counter_);
   ("bytes_tx", Counter_); ("bytes_rx", Counter_); ("values_read_bytes", Counter_); ("get_count", Counter_); ("set_count", Counter_);
   ("delete_count", Counter_); ("backfill_set_count", Counter_); ("connections_active", Gauge_); ("connections_failed", Counter_);
   ("disconnects_eof", Counter_); ("disconnects_recv_error", Counter_); ("disconnects_send_error", Counter_);
   ("disconnects_closed_event", Counter_); ("disconnects_error_event", Counter_); ("disconnects_connect_failed", Counter_);
   ("disconnects_timeout", Counter_); ("target_rate", Gauge_)]%string.

(** The metrics of the append stream. *)
Definition append_metrics : list (string * MetricKind) :=
  [("append_set_count", Counter_); ("append_set_errors", Counter_); ("append_set_latency", Histogram_); ("append_head", Gauge_);
   ("append_batches", Gauge_); ("append_connections_active", Gauge_)]%string.

(** The metrics of KV-cache replay: requests and tokens. *)
Definition kv_metrics : list (string * MetricKind) :=
  [("kv_requests", Counter_); ("kv_requests_failed", Counter_); ("kv_input_tokens", Counter_); ("kv_cached_tokens", Counter_);
   ("kv_new_tokens", Counter_); ("kv_full_hits", Counter_); ("kv_chunk0_misses", Counter_); ("kv_no_full_chunk", Counter_);
   ("kv_get_nil", Counter_); ("kv_trace_read_waits", Counter_)]%string.

(** The metrics of trace replay. *)
Definition trace_metrics : list (string * MetricKind) :=
  [("trace_rows", Counter_); ("trace_rows_failed", Counter_); ("trace_rows_skipped", Counter_); ("trace_gets", Counter_);
   ("trace_sets", Counter_); ("trace_dels", Counter_); ("trace_read_waits", Counter_)]%string.

(** The metrics of KV-cache replay: operations. *)
Definition kv_op_metrics : list (string * MetricKind) :=
  [("kv_exists_count", Counter_); ("kv_lookups", Counter_); ("kv_loads", Counter_); ("kv_stores", Counter_);
   ("kv_loads_with_cached_tokens", Counter_); ("kv_lookup_time", Histogram_); ("kv_load_time", Histogram_);
   ("kv_store_time", Histogram_); ("kv_load_time_per_1k_tokens", Histogram_); ("kv_schedule_lag", Histogram_)]%string.

(** The metrics of redirects, latencies and the schedule. *)
Definition latency_metrics : list (string * MetricKind) :=
  [("cluster_redirects", Counter_); ("response_latency", Histogram_); ("get_latency", Histogram_); ("set_latency", Histogram_);
   ("delete_latency", Histogram_); ("get_ttfb", Histogram_); ("routed_queue_wait", Histogram_); ("backfill_set_latency", Histogram_);
   ("schedule_slip", Histogram_); ("perceived_latency", Histogram_); ("current_slip_ns", Gauge_); ("requests_dropped", Gauge_)]%string.

Definition registered : list (string * MetricKind) :=
  request_metrics ++ append_metrics ++ kv_metrics ++ trace_metrics ++ kv_op_metrics ++ latency_metrics.

(** ** Reading a query

    The metric names in a chart's query, each with what is asked of it: a name
    with a range in brackets is asked for a rate, a histogram function's
    argument for quantiles, any other name for its value.  A word before a
    parenthesis is a function, one that starts with a digit a number, and text
    inside brackets or braces is a range, labels or quantiles. *)

Definition is_letter (c : Z) : bool := (97 <=? c) && (c <=? 122) || (65 <=? c) && (c <=? 90) || (c =? 95).

Definition is_word (c : Z) : bool := is_letter c || (48 <=? c) && (c <=? 57).

(** Words outside brackets and braces, each with the character after it. *)
Fixpoint words (depth : nat) (word s : str) : list (str * Z) :=
  let out next := match word with c :: _ => if is_letter c then [(word, next)] else [] | [] => [] end in
  match s with
  | [] => out 0
  | c :: s =>
      if bool_decide (c ∈ [91; 123]) then (if decide (depth = 0%nat) then out c else []) ++ words (S depth) [] s
      else if bool_decide (c ∈ [93; 125]) then words (pred depth) [] s
      else if negb (bool_decide (depth = 0%nat)) then words depth [] s
      else if is_word c then words depth (word ++ [c]) s
      else out c ++ words depth [] s
  end.

Definition metric_uses (query : str) : list (str * MetricKind) :=
  let quantiles := starts_with (bytes_of "histogram_percentiles(") query in
  map (fun '(w, next) => (w, if next =? 91 then Counter_ else if quantiles then Histogram_ else Gauge_))
    (base.filter (fun wn => wn.2 <> 40) (words 0 [] query)).

(** A query about something, each of its names a metric the program keeps as
    the kind it is asked for. *)
Definition query_answerable (query : str) : bool :=
  negb (bool_decide (metric_uses query = [])) &&
  forallb (fun '(w, k) => existsb (fun '(n, k') => bool_decide (w = bytes_of n) && bool_decide (k = k')) registered) (metric_uses query).

Example uses_of_hit_rate :
  metric_uses (bytes_of "irate(cache_hits[10s]) / (irate(cache_hits[10s]) + irate(cache_misses[10s]))") =
  map (fun n => (bytes_of n, Counter_)) ["cache_hits"; "cache_hits"; "cache_misses"]%string.
Proof. reflexivity. Qed.

Example uses_of_latency :
  metric_uses (bytes_of "histogram_percentiles([0.5, 0.9, 0.99, 0.999, 0.9999], get_latency)") = [(bytes_of "get_latency", Histogram_)].
Proof. reflexivity. Qed.

(** ** Properties *)

Definition view_plots (v : View) : list Plot := concat (map gr_plots (vw_groups v)).

Section properties.
Context {R V : Type} `{PR : ParquetReader R V}.
Context (to_string : View -> result str str).

(** The answer a page's text gives: what serde_json made of the page. *)
Definition page_answer (v : View) : Response :=
  (200, bytes_of "application/json", match to_string v with Ok text => text | Err _ => bytes_of "{ }" end).

Definition page_key (route : str) : str := drop 1 route ++ bytes_of ".json".

(** The pages that come of a list of generators that all succeed. *)
Lemma pages_added (benchmark : R) (server client : option R) sections (meta : list (string * str * Generator)) views :
  Forall2 (fun m v => m.2 benchmark server client sections = Some v) meta views ->
  NoDup (map (fun m => page_key m.1.2) meta) -> forall pages,
  exists pages', add_pages to_string benchmark server client sections meta pages = Some pages' /\
    (forall key, key ∉ map (fun m => page_key m.1.2) meta -> pages' !! key = pages !! key) /\
    (Forall (fun m => pages !! page_key m.1.2 = None) meta ->
     Forall2 (fun m v => default (bytes_of "{ }") (pages' !! page_key m.1.2) = match to_string v with Ok text => text | Err _ => bytes_of "{ }" end)
       meta views).
Proof.
  induction 1 as [|[[name route] gen] v meta views G F IH]; intros N pages.
  - exists pages. repeat split; try done.
  - cbn in G, N. apply NoDup_cons in N as [Nin N]. cbn [add_pages]. rewrite G. cbn.
    set (next := match to_string v with Ok text => <[page_key route:=text]> pages | Err _ => pages end).
    assert (Other : forall key, key <> page_key route -> next !! key = pages !! key).
    { intros key K. unfold next. destruct (to_string v); [by apply lookup_insert_ne|done]. }
    destruct (IH N next) as (pages' & E & Keep & Set_). exists pages'. split; [exact E|]. split.
    + intros key K. apply not_elem_of_cons in K as [K1 K2]. rewrite Keep by done. by apply Other.
    + intros E0. apply Forall_cons in E0 as [H0 E0]. constructor.
      * cbn in *. rewrite Keep by done. unfold next. destruct (to_string v); [by rewrite lookup_insert_eq|by rewrite H0].
      * apply Set_. eapply Forall_impl; [exact (proj2 (Forall_forall _ _) (fun x Hx => conj Hx (proj1 (Forall_forall _ _) E0 x Hx)))|].
        intros m [Hm H]. rewrite Other; [exact H|]. intros E'. apply Nin. apply list_elem_of_fmap. by exists m.
Qed.

(** A page of [source]: its title block is the recording's, the API it names
    answers from that recording, and its charts have ids of their own. *)
Record page_of (st : AppState) (sections : list Section_) (source : R) (v : View) : Prop := {
  po_sections : vw_sections v = sections;
  po_interval : vw_interval v = rd_interval source;
  po_source : vw_source v = rd_source source;
  po_version : vw_version v = rd_version source;
  po_filename : vw_filename v = default [] (rd_filename source);
  po_api : forall path a, (path, a) ∈ api_routes -> (vw_api v ++ path, H_api source a) ∈ app_routes st;
  po_ids : NoDup (map pl_id (view_plots v));
}.

Definition page_source (route : str) (benchmark : R) (server client : option R) : option R :=
  if bool_decide (route = bytes_of "/server") then server
  else if bool_decide (route = bytes_of "/client") then client else Some benchmark.

Definition page_routes (server client : option R) : list str :=
  map bytes_of ["/overview"; "/throughput"; "/latency"; "/cache"; "/connections"]%string ++
  (if server then [bytes_of "/server"] else []) ++ (if client then [bytes_of "/client"] else []).

(** What the viewer promises of one entry of its navigation. *)
Definition page_served (st : AppState) (benchmark : R) (server client : option R) (sections : list Section_) (s : Section_) : Prop :=
  exists source v, page_source (se_route s) benchmark server client = Some source /\
    page_of st sections source v /\ data st (page_key (se_route s)) = page_answer v /\
    (se_route s ∉ [bytes_of "/server"; bytes_of "/client"] -> Forall (fun p => query_answerable (pl_query p) = true) (view_plots v)).

(** One page: its view and recording are given, its texts computed. *)
Lemma page_served_by st benchmark server client sections name route source v :
  page_source route benchmark server client = Some source -> page_of st sections source v ->
  default (bytes_of "{ }") (as_sections st !! page_key route) = match to_string v with Ok text => text | Err _ => bytes_of "{ }" end ->
  bool_decide (route ∈ [bytes_of "/server"; bytes_of "/client"]) || forallb (fun p => query_answerable (pl_query p)) (view_plots v) = true ->
  page_served st benchmark server client sections {| se_name := name; se_route := route |}.
Proof.
  intros S P D Q. exists source, v. split; [exact S|]. split; [exact P|]. split; [unfold data, page_answer; by rewrite <- D|].
  cbn. intros N. rewrite (bool_decide_eq_false_2 _ N) in Q. apply Forall_forall. intros p I. by eapply forallb_forall in Q; [|apply list_elem_of_In].
Qed.

(** The same for all the pages of a list of generators. *)
Lemma pages_served st (benchmark : R) (server client : option R) sections (meta : list (string * str * @Generator R)) views :
  Forall2 (fun m v => default (bytes_of "{ }") (as_sections st !! page_key m.1.2) = match to_string v with Ok text => text | Err _ => bytes_of "{ }" end)
    meta views ->
  Forall2 (fun m v => exists source, page_source m.1.2 benchmark server client = Some source /\ page_of st sections source v /\
    bool_decide (m.1.2 ∈ [bytes_of "/server"; bytes_of "/client"]) || forallb (fun p => query_answerable (pl_query p)) (view_plots v) = true)
    meta views ->
  Forall (page_served st benchmark server client sections) (map (fun '(name, route, _) => {| se_name := name; se_route := route |}) meta).
Proof.
  induction 1 as [|[[name route] gen] v meta views D _ IH]; intros F; [by constructor|].
  apply Forall2_cons in F as [(source & S & P & Q) F]. cbn. constructor; [by apply (page_served_by st benchmark server client sections name route source v)|by apply IH].
Qed.

Lemma api_routed (st : AppState) (source : R) root path a :
  (root, source) ∈ as_sources st -> (path, a) ∈ api_routes -> (root ++ path, H_api source a) ∈ app_routes st.
Proof.
  intros I A. unfold app_routes. apply elem_of_app. right. apply elem_of_app. left. apply list_elem_of_In, in_concat.
  exists (map (fun '(path, a) => (root ++ path, H_api source a)) api_routes). split; apply list_elem_of_In, list_elem_of_fmap.
  - by exists (root, source).
  - by exists (path, a).
Qed.

Ltac page_of_tac :=
  constructor; try reflexivity; [intros path a I; apply api_routed; [set_solver|exact I]|apply (bool_decide_unpack _); vm_compute; exact I].

(** C33: Every page of the viewer shows the recording it names.  Whichever
    recordings are given, the dashboards are generated without a panic; the
    server's routes are distinct; the navigation has one entry per page; and
    each entry is served as a page whose queries go, at every route of the API
    root it names, to the recording its title describes: the server's page to
    the server's recording, the client's to the client's, the others to the
    benchmark's.  A page's charts have distinct ids, and every query of a
    benchmark page asks only for metrics the program keeps, each as the kind it
    is. *)
Theorem dashboards_read_their_recording (benchmark : R) (server client : option R) :
  exists st sections, generate to_string benchmark server client = Some st /\
    map se_route sections = page_routes server client /\ NoDup (map se_route sections) /\ NoDup (map fst (app_routes st)) /\
    Forall (page_served st benchmark server client sections) sections.
Proof.
  set (meta := section_meta server client).
  set (sections := map (fun '(name, route, _) => {| se_name := name; se_route := route |}) meta).
  set (views := map (fun m => default (new_view benchmark [] []) (m.2 benchmark server client sections)) meta).
  assert (F : Forall2 (fun m v => m.2 benchmark server client sections = Some v) meta views).
  { unfold views, meta. destruct server, client; repeat constructor. }
  assert (N : NoDup (map (fun m : string * str * Generator => page_key m.1.2) meta)).
  { unfold meta. destruct server, client; apply (bool_decide_unpack _); vm_compute; exact I. }
  destruct (pages_added benchmark server client sections meta views F N ∅) as (pages & E & _ & P).
  specialize (P ltac:(by apply Forall_true)).
  assert (G : generate to_string benchmark server client =
    Some {| as_sections := pages; as_sources := [(BENCHMARK_ROOT, benchmark)] ++ match server with Some s => [(SERVER_ROOT, s)] | None => [] end ++
                                                match client with Some c => [(CLIENT_ROOT, c)] | None => [] end |}).
  { unfold generate. fold meta. fold sections. by rewrite E. }
  eexists _, sections. split; [exact G|]. split; [by destruct server, client|].
  split; [destruct server, client; apply (bool_decide_unpack _); vm_compute; exact I|].
  split; [destruct server, client; apply (bool_decide_unpack _); vm_compute; exact I|].
  apply (pages_served _ benchmark server client sections meta views); [exact P|]. clear E G F N P. unfold views, meta. clearbody sections.
  unfold section_meta. rewrite !map_app. repeat apply Forall2_app; [|destruct server|destruct client];
    repeat match goal with |- Forall2 _ _ _ => constructor end;
    (eexists; split; [reflexivity|]; split; [page_of_tac|vm_compute; reflexivity]).
Qed.

End properties.

(** Recordings known by their start, in seconds. *)
#[local] Instance example_reader : ParquetReader Z str := {|
  rd_interval := fun _ => f64_one;
  rd_source := fun n => show n;
  rd_version := fun _ => [];
  rd_filename := fun _ => None;
  rd_time_range := fun n => Some (f64_of_Z n, f64_of_Z (n + 9));
  rd_query := fun n q _ => Ok (show n ++ q);
  rd_query_range := fun n q _ _ _ => Ok (show n ++ q);
  query_error_text := fun _ => [];
|}.

(** The text of a page: the API it names. *)
Definition example_text (v : View) : result str str := Ok (vw_api v).

Lemma dashboards_read_their_recording_witness :
  exists st, generate example_text 1000 (Some 2000) (Some 3000) = Some st /\
    data st (bytes_of "server.json") = (200, bytes_of "application/json", SERVER_ROOT) /\
    NoDup (map fst (app_routes st)) /\ (SERVER_ROOT ++ bytes_of "/metadata", H_api 2000 A_metadata) ∈ app_routes st.
Proof.
  destruct (dashboards_read_their_recording example_text 1000 (Some 2000) (Some 3000)) as (st & sections & G & R & _ & N & F).
  assert (E : option_map (fun st => (data st (bytes_of "server.json"), as_sources st)) (generate example_text 1000 (Some 2000) (Some 3000)) =
              Some ((200, bytes_of "application/json", SERVER_ROOT), [(BENCHMARK_ROOT, 1000); (SERVER_ROOT, 2000); (CLIENT_ROOT, 3000)]))
    by (vm_compute; reflexivity).
  rewrite G in E. apply (inj Some), pair_equal_spec in E as [E1 E2].
  exists st. split; [exact G|]. split; [exact E1|]. split; [exact N|].
  apply (api_routed st 2000); [rewrite E2; by apply (list_elem_of_lookup_2 _ 1)|by apply (list_elem_of_lookup_2 _ 4)].
Defined.

(** A recording that cannot be read costs its page and a warning; the
    benchmark's costs the viewer. *)
Example missing_server_recording :
  let open := fun p : str => if bool_decide (p = bytes_of "s") then Err (bytes_of "no such file") else Ok 1000 in
  let c := {| vc_input := bytes_of "b"; vc_server := Some (bytes_of "s"); vc_client := None; vc_verbose := 0 |} in
  (match (run_load open example_text c).1 with Serve st => map fst (as_sources st) | _ => [] end = [BENCHMARK_ROOT]) /\
  (run_load open example_text c).2 = [bytes_of "warning: failed to load server rezolus data: no such file"] /\
  (run_load (fun _ => Err (bytes_of "bad magic")) example_text c).1 = Exit 1.
Proof. vm_compute. done. Qed.

(** The viewer's own files come before metriken_charts', and only an ending is
    read for the content type. *)
Example lib_types :
  map (fun p => lib (fun f => if starts_with (bytes_of "lib/own") f then Some 1 else None) (fun _ => Some 2) (fun n => Some (show n)) (bytes_of p))
    ["own.js"; "charts.css"; "own.jsx"]%string =
  [(200, bytes_of "text/javascript", bytes_of "1"); (200, bytes_of "text/css", bytes_of "2"); (200, bytes_of "text/plain", bytes_of "1")].
Proof. reflexivity. Qed.
