(* ===== verification/Admin.v ===== *)
(** Admin: the metrics endpoint ([src/src/admin/mod.rs], [stream.rs]).

    The request line, the routes, the framing of a response, the Prometheus
    text and the snapshot of a recording.  A [String] is the list of its code
    points; a socket carries bytes.  The metric registry (metriken), its
    histograms and the msgpack encoder are parameters. *)

From Stdlib Require Import Sorted.
From stdpp Require Import sorting.
From S2P Require Import Prelude F64 Text.
Open Scope Z_scope.

Abbreviation str := (list Z).

(** ** Bytes of a [String] *)

Definition utf8_char (c : Z) : list Z :=
  if c <? 128 then [c]
  else if c <? 2048 then [192 + c / 64; 128 + c mod 64]
  else if c <? 65536 then [224 + c / 4096; 128 + c / 64 mod 64; 128 + c mod 64]
  else [240 + c / 262144; 128 + c / 4096 mod 64; 128 + c / 64 mod 64; 128 + c mod 64].

(** [into_bytes]. *)
Definition utf8 (s : str) : list Z := concat (map utf8_char s).

(** [str::split_whitespace]. *)
Definition split_whitespace (s : str) : list str := filter (fun w => w <> []) (split is_whitespace s).

(** ** Requests *)

(** [request_target]. *)
Definition request_target (request : list Z) : option (str * str) :=
  line ← head (split (Z.eqb 10) request);
  line ← from_utf8 line;
  target ← split_whitespace line !! 1%nat;
  let (path, query) := default (target, []) (split_once 63 target) in
  if starts_with [47] path then Some (path, query) else None.

Inductive AdminBody :=
| Prometheus (text : str)
| Msgpack (bytes : list Z)
| NotFound
| ServerError.

(** [respond]: the text and the encoded snapshot are made on demand. *)
Definition respond (prometheus : str) (msgpack : option (list Z)) (path : str) : AdminBody :=
  if bool_decide (path = bytes_of "/") || bool_decide (path = bytes_of "/metrics") then Prometheus prometheus
  else if bool_decide (path = bytes_of "/metrics/binary") then
    match msgpack with Some bytes => Msgpack bytes | None => ServerError end
  else NotFound.

Definition crlf : list Z := [13; 10].

(** The head and the body that [http_response] joins. *)
Definition http_parts (body : AdminBody) : str * str * list Z :=
  match body with
  | Prometheus text => (bytes_of "200 OK", bytes_of "text/plain; version=0.0.4", utf8 text)
  | Msgpack bytes => (bytes_of "200 OK", bytes_of "application/msgpack", bytes)
  | NotFound => (bytes_of "404 Not Found", bytes_of "text/plain", [])
  | ServerError => (bytes_of "500 Internal Server Error", bytes_of "text/plain", [])
  end.

(** [http_response]. *)
Definition http_response (body : AdminBody) : list Z :=
  let '(status, content_type, bytes) := http_parts body in
  bytes_of "HTTP/1.1 " ++ status ++ crlf ++
  bytes_of "Content-Type: " ++ content_type ++ crlf ++
  bytes_of "Content-Length: " ++ show (Z.of_nat (length bytes)) ++ crlf ++
  bytes_of "Connection: close" ++ crlf ++ crlf ++ bytes.

(** What [serve_admin] does with the bytes of one read. *)
Inductive Served :=
| Stream (query : str)
| Reply (bytes : list Z).

Definition serve_request (prometheus : str) (msgpack : option (list Z)) (request : list Z) : Served :=
  match request_target request with
  | Some (path, query) =>
      if bool_decide (path = bytes_of "/metrics/stream") then Stream query
      else Reply (http_response (respond prometheus msgpack path))
  | None => Reply (http_response NotFound)
  end.

(** *** The stream's responses: [head] and [refusal_response] *)

Definition stream_head (headers : list (str * str)) : list Z :=
  bytes_of "HTTP/1.1 200 OK" ++ crlf ++
  concat (map (fun '(name, value) => utf8 (name ++ bytes_of ": " ++ value) ++ crlf) headers) ++
  bytes_of "Connection: close" ++ crlf ++ crlf.

Definition refusal_response (status : Z) (message : str) : list Z :=
  let reason := if status =? 400 then bytes_of "Bad Request" else bytes_of "Error" in
  bytes_of "HTTP/1.1 " ++ show status ++ [32] ++ reason ++ crlf ++
  bytes_of "Content-Type: text/plain" ++ crlf ++
  bytes_of "Content-Length: " ++ show (Z.of_nat (length (utf8 message))) ++ crlf ++
  bytes_of "Connection: close" ++ crlf ++ crlf ++ utf8 message.

(** [UPDATE_FLOOR], and the interval a stream is served at. *)
Definition UPDATE_FLOOR : Z := 10000000.

Definition served_interval (requested : Z) : Z := Z.max requested UPDATE_FLOOR.

(** ** The Prometheus text *)

Definition is_name_char (c : Z) : bool :=
  ((48 <=? c) && (c <=? 57)) || ((65 <=? c) && (c <=? 90)) || ((97 <=? c) && (c <=? 122)) || (c =? 95) || (c =? 58).

(** [sanitize_name]. *)
Definition sanitize_name (name : str) : str := map (fun c => if is_name_char c then c else 95) name.

(** [escape_label_value]: backslash, double quote, newline. *)
Definition escape_label_value (value : str) : str :=
  concat (map (fun c => if c =? 92 then [92; 92] else if c =? 34 then [92; 34] else if c =? 10 then [92; 110] else [c]) value).

(** [Ord] of strings: the order of their bytes is that of their code points. *)
Fixpoint str_le (a b : str) : bool :=
  match a, b with
  | [], _ => true
  | _ :: _, [] => false
  | x :: a, y :: b => (x <? y) || ((x =? y) && str_le a b)
  end.

(** [slice::sort]. *)
Fixpoint insert_by {A} (le : A -> A -> bool) (x : A) (l : list A) : list A :=
  match l with
  | [] => [x]
  | y :: l => if le x y then x :: y :: l else y :: insert_by le x l
  end.

Definition sort_by {A} (le : A -> A -> bool) (l : list A) : list A := foldr (insert_by le) [] l.

(** [join(",")]. *)
Fixpoint join_comma (l : list str) : str :=
  match l with
  | [] => []
  | [x] => x
  | x :: l => x ++ 44 :: join_comma l
  end.

Definition format_pair (kv : str * str) : str := kv.1 ++ bytes_of "=" ++ [34] ++ escape_label_value kv.2 ++ [34].

(** [format_labels]: the metadata in the map's order. *)
Definition format_labels (metadata : list (str * str)) : str :=
  match metadata with
  | [] => []
  | _ => [123] ++ join_comma (sort_by str_le (map format_pair metadata)) ++ [125]
  end.

(** [write_help]. *)
Definition escape_help (desc : str) : str :=
  concat (map (fun c => if c =? 92 then [92; 92] else if c =? 10 then [92; 110] else [c]) desc).

Definition write_help (name : str) (description : option str) : str :=
  match description with
  | None | Some [] => []
  | Some desc => bytes_of "# HELP " ++ name ++ [32] ++ escape_help desc ++ [10]
  end.

Definition write_type (name : str) (kind : string) : str := bytes_of "# TYPE " ++ name ++ [32] ++ bytes_of kind ++ [10].

(** [to_string] of an [i64]. *)
Definition show_i64 (n : Z) : str := if n <? 0 then 45 :: show (- n) else show n.

Definition write_sample (name labels : str) (value : str) : str := name ++ labels ++ [32] ++ value ++ [10].

Section exposition.
Variable snapshot : Type.

(** [Histogram::quantiles], where it answers, and the buckets: first and last
    value and count. *)
Variable quantiles : snapshot -> list f64 -> option (list (f64 * Z)).
Variable buckets : snapshot -> list (Z * Z * Z).

(** The count and the sum of the buckets' midpoints. *)
Definition bucket_totals (s : snapshot) : Z * Z :=
  foldl (fun '(count, sum) '(start, end_, n) =>
           (wrap64 (count + n), (sum + n * ((start + end_) / 2)) mod 2 ^ 128)) (0, 0) (buckets s).

Definition QUANTILES : list f64 := [f64_lit 1 2; f64_lit 9 10; f64_lit 95 100; f64_lit 99 100; f64_lit 999 1000; f64_lit 9999 10000].

(** [write_histogram_summary]. *)
Definition write_histogram_summary (name : str) (description : option str) (s : snapshot) : str :=
  write_help name description ++ write_type name "summary" ++
  match quantiles s QUANTILES with
  | Some entries =>
      concat (map (fun '(q, last) =>
        write_sample name ([123] ++ bytes_of "quantile=" ++ [34] ++ bytes_of (display_f64 q) ++ [34; 125]) (show last)) entries)
  | None => []
  end ++
  (let (count, sum) := bucket_totals s in
   write_sample (name ++ bytes_of "_count") [] (show count) ++ write_sample (name ++ bytes_of "_sum") [] (show sum)).

(** A registry entry.  A group lists its slots' index and metadata, and has a
    value where the slot is within it. *)
Inductive MetricValue :=
| MCounter (v : Z)
| MGauge (v : Z)
| MGroup (slots : list (Z * list (str * str))) (counter_value : Z -> option Z)
| MHistogram (config : Z * Z) (h : option snapshot)
| MOtherCounter (config : Z * Z) (h : option snapshot)
| MOtherRwLock (config : Z * Z) (h : option snapshot)
| MUnknown.

Record Metric := {
  m_name : str;
  m_description : option str;
  m_metadata : list (str * str);
  m_value : option MetricValue;
}.

(** The rows of a group, sorted. *)
Definition row_le (a b : str * Z) : bool :=
  if bool_decide (a.1 = b.1) then a.2 <=? b.2 else str_le a.1 b.1.

Definition group_rows (slots : list (Z * list (str * str))) (counter_value : Z -> option Z) : list (str * Z) :=
  sort_by row_le (omap (fun '(idx, slot) => v ← counter_value idx; Some (format_labels slot, v)) slots).

(** A metric's part of [generate_prometheus_output]. *)
Definition write_metric (m : Metric) : str :=
  let name := sanitize_name (m_name m) in
  match m_value m with
  | None => []
  | Some (MCounter v) => write_help name (m_description m) ++ write_type name "counter" ++ write_sample name [] (show v)
  | Some (MGauge v) => write_help name (m_description m) ++ write_type name "gauge" ++ write_sample name [] (show_i64 v)
  | Some (MGroup slots counter_value) =>
      match group_rows slots counter_value with
      | [] => []
      | rows => write_help name (m_description m) ++ write_type name "counter" ++
                concat (map (fun '(labels, v) => write_sample name labels (show v)) rows)
      end
  | Some (MHistogram _ h) | Some (MOtherCounter _ h) =>
      match h with Some s => write_histogram_summary name (m_description m) s | None => [] end
  | Some (MOtherRwLock _ _) | Some MUnknown => []
  end.

Definition generate_prometheus_output (metrics : list Metric) : str := concat (map write_metric metrics).

(** ** The snapshot of a recording *)

Inductive SnapEntry :=
| SnapCounter (name : str) (v : Z) (metadata : gmap str str)
| SnapGauge (name : str) (v : Z) (metadata : gmap str str)
| SnapHistogram (name : str) (h : snapshot) (metadata : gmap str str).

(** [insert] of each pair in turn. *)
Definition extend (metadata : gmap str str) (l : list (str * str)) : gmap str str :=
  foldl (fun m '(k, v) => <[k := v]> m) metadata l.

(** The slots in the order of their index. *)
Definition slot_le (a b : Z * list (str * str)) : bool := a.1 <=? b.1.

Definition snap_histogram (name : str) (config : Z * Z) (metadata : gmap str str) (h : option snapshot) : list SnapEntry :=
  match h with
  | Some s => [SnapHistogram name s (<[bytes_of "max_value_power" := show config.2]>
                                       (<[bytes_of "grouping_power" := show config.1]> metadata))]
  | None => []
  end.

(** A metric's part of [create_snapshot]. *)
Definition snap_metric (m : Metric) : list SnapEntry :=
  let name := m_name m in
  let metadata := extend {[bytes_of "metric" := name]} (m_metadata m) in
  match m_value m with
  | Some (MCounter v) => [SnapCounter name v metadata]
  | Some (MGauge v) => [SnapGauge name v metadata]
  | Some (MHistogram config h) | Some (MOtherCounter config h) | Some (MOtherRwLock config h) =>
      snap_histogram name config metadata h
  | Some (MGroup slots counter_value) =>
      omap (fun '(idx, slot) => v ← counter_value idx; Some (SnapCounter (name ++ bytes_of "x" ++ show idx) v (extend metadata slot)))
        (sort_by slot_le slots)
  | Some MUnknown | None => []
  end.

Definition create_snapshot (metrics : list Metric) : list SnapEntry := concat (map snap_metric metrics).

End exposition.

(** ** What a client reads *)

(** The lines of a head, up to its empty line, and the rest. *)
Fixpoint head_lines (line : list Z) (bs : list Z) : option (list (list Z) * list Z) :=
  match bs with
  | [] => None
  | 13 :: 10 :: bs =>
      match line with
      | [] => Some ([], bs)
      | _ => '(ls, rest) ← head_lines [] bs; Some (line :: ls, rest)
      end
  | c :: bs => head_lines (line ++ [c]) bs
  end.

(** The value of the first header called [name]. *)
Fixpoint header_value (name : str) (ls : list (list Z)) : option (list Z) :=
  match ls with
  | [] => None
  | l :: ls => if starts_with (name ++ [58; 32]) l then Some (drop (length name + 2) l) else header_value name ls
  end.

(** A whole response: the status line, the content type, the body its length
    announces and the bytes after it. *)
Definition read_response (bs : list Z) : option (list Z * list Z * list Z * list Z) :=
  '(ls, rest) ← head_lines [] bs;
  status ← head ls;
  content_type ← header_value (bytes_of "Content-Type") ls;
  len ← header_value (bytes_of "Content-Length") ls;
  match parse_uint u64_max len with
  | Ok n => Some (status, content_type, take (Z.to_nat n) rest, drop (Z.to_nat n) rest)
  | Err _ => None
  end.

(** What the server promises for a path: the status line, the content type and
    the body. *)
Definition served_as (prometheus : str) (msgpack : option (list Z)) (path : str) : list Z * list Z * list Z :=
  if bool_decide (path ∈ [bytes_of "/"; bytes_of "/metrics"]) then
    (bytes_of "HTTP/1.1 200 OK", bytes_of "text/plain; version=0.0.4", utf8 prometheus)
  else if bool_decide (path = bytes_of "/metrics/binary") then
    match msgpack with
    | Some bytes => (bytes_of "HTTP/1.1 200 OK", bytes_of "application/msgpack", bytes)
    | None => (bytes_of "HTTP/1.1 500 Internal Server Error", bytes_of "text/plain", [])
    end
  else (bytes_of "HTTP/1.1 404 Not Found", bytes_of "text/plain", []).

(** A label's value, read up to its closing quote, and the rest. *)
Fixpoint read_value (s : str) : option (str * str) :=
  match s with
  | [] => None
  | c :: s =>
      if c =? 34 then Some ([], s)
      else if c =? 92 then
        match s with
        | [] => None
        | d :: s => '(v, rest) ← read_value s; Some ((if d =? 110 then 10 else d) :: v, rest)
        end
      else '(v, rest) ← read_value s; Some (c :: v, rest)
  end.

(** The pairs of a label set after its brace. *)
Fixpoint read_pairs (fuel : nat) (s : str) : option (list (str * str)) :=
  match fuel with
  | O => None
  | S fuel =>
      '(k, s) ← split_once 61 s;
      match s with
      | q :: s =>
          if q =? 34 then
            '(v, s) ← read_value s;
            match s with
            | c :: s =>
                if c =? 44 then l ← read_pairs fuel s; Some ((k, v) :: l)
                else if (c =? 125) && bool_decide (s = []) then Some [(k, v)] else None
            | [] => None
            end
          else None
      | [] => None
      end
  end.

Definition read_labels (s : str) : option (list (str * str)) :=
  match s with
  | [] => Some []
  | c :: s => if c =? 123 then read_pairs (length s) s else None
  end.

(** A scraped text: each line that is not a comment is a series and, after its
    last space, a value. *)
Definition rsplit_once (c : Z) (s : str) : option (str * str) :=
  '(b, a) ← split_once c (rev s); Some (rev a, rev b).

Definition read_sample (l : str) : option (str * str) := if starts_with [35] l then None else rsplit_once 32 l.

Definition samples (text : str) : list (str * str) := omap read_sample (split (Z.eqb 10) text).

Section promised.
Variable snapshot : Type.
Variable quantiles : snapshot -> list f64 -> option (list (f64 * Z)).
Variable buckets : snapshot -> list (Z * Z * Z).

(** The samples a metric promises. *)
Definition quantile_label (q : f64) : str := bytes_of "{quantile=" ++ [34] ++ bytes_of (display_f64 q) ++ [34; 125].

Definition histogram_samples (name : str) (s : snapshot) : list (str * str) :=
  map (fun '(q, last) => (name ++ quantile_label q, show last)) (default [] (quantiles s QUANTILES)) ++
  let (count, sum) := bucket_totals snapshot buckets s in
  [(name ++ bytes_of "_count", show count); (name ++ bytes_of "_sum", show sum)].

Definition metric_samples (m : Metric snapshot) : list (str * str) :=
  let name := sanitize_name (m_name _ m) in
  match m_value _ m with
  | Some (MCounter _ v) => [(name, show v)]
  | Some (MGauge _ v) => [(name, show_i64 v)]
  | Some (MGroup _ slots counter_value) => map (fun '(labels, v) => (name ++ labels, show v)) (group_rows slots counter_value)
  | Some (MHistogram _ _ (Some s)) | Some (MOtherCounter _ _ (Some s)) => histogram_samples name s
  | _ => []
  end.

(** Registered label keys hold no newline, and the quantiles answered are the
    ones asked for. *)
Definition metric_ok (m : Metric snapshot) : Prop :=
  match m_value _ m with
  | Some (MGroup _ slots _) => Forall (fun '(_, slot) => Forall (fun kv : str * str => 10 ∉ kv.1) slot) slots
  | Some (MHistogram _ _ (Some s)) | Some (MOtherCounter _ _ (Some s)) =>
      Forall (fun e : f64 * Z => e.1 ∈ QUANTILES) (default [] (quantiles s QUANTILES))
  | _ => True
  end.

(** The value of a counter or a gauge, where the metric has it: by slot, for a
    group. *)
Definition scalar (e : SnapEntry snapshot) : option (str * str) :=
  match e with
  | SnapCounter _ _ v md => name ← md !! bytes_of "metric"; Some (sanitize_name name, show v)
  | SnapGauge _ _ v md => name ← md !! bytes_of "metric"; Some (sanitize_name name, show_i64 v)
  | SnapHistogram _ _ _ _ => None
  end.

(** The part of a series before its labels. *)
Definition base_name (series : str) : str := match split_once 123 series with Some (a, _) => a | None => series end.

Definition is_scalar (m : Metric snapshot) : bool :=
  match m_value _ m with Some (MCounter _ _) | Some (MGauge _ _) | Some (MGroup _ _ _) => true | _ => false end.

(** No metadata takes the place of the snapshot's own key. *)
Definition metadata_ok (m : Metric snapshot) : Prop :=
  bytes_of "metric" ∉ map fst (m_metadata _ m) /\
  match m_value _ m with
  | Some (MGroup _ slots _) => Forall (fun s : Z * list (str * str) => bytes_of "metric" ∉ map fst s.2) slots
  | _ => True
  end.

End promised.

(** ** Lemmas: requests and responses *)

Lemma forallb_Forall {A} (p : A -> bool) l : forallb p l = true -> Forall (fun x => p x = true) l.
Proof. intros F. apply Forall_forall. intros x Hx. rewrite forallb_forall in F. apply F. by apply list_elem_of_In. Qed.

Lemma head_lines_char line c bs : c <> 13 -> head_lines line (c :: bs) = head_lines (line ++ [c]) bs.
Proof. intros N. destruct c as [|p|p]; try done. do 4 (destruct p as [p|p|]; try done). Qed.

Lemma head_lines_word line w bs :
  Forall (fun c => c <> 13) w -> w <> [] ->
  head_lines line (w ++ 13 :: 10 :: bs) = '(ls, rest) ← head_lines [] bs; Some ((line ++ w) :: ls, rest).
Proof.
  intros F N. revert line N. induction F as [|c w C F IH]; intros line N; [done|]. cbn [app]. rewrite head_lines_char by done.
  destruct w as [|d w].
  - cbn [app head_lines]. destruct (line ++ [c]) eqn:E; [|done]. by destruct line.
  - rewrite IH by done. by rewrite <- app_assoc.
Qed.

Lemma starts_with_app p s : starts_with p (p ++ s) = true.
Proof. induction p as [|c p IH]; [done|]. cbn. by rewrite Z.eqb_refl. Qed.

Lemma no_cr_digits n : Forall (fun c => c <> 13) (show n).
Proof. eapply Forall_impl; [apply show_digits|]. cbn. lia. Qed.

(** The head and the body come apart again. *)
Lemma read_response_joined (status content_type body rest : list Z) :
  Forall (fun c => c <> 13) status -> Forall (fun c => c <> 13) content_type -> Z.of_nat (length body) <= u64_max ->
  read_response (bytes_of "HTTP/1.1 " ++ status ++ crlf ++ bytes_of "Content-Type: " ++ content_type ++ crlf ++
    bytes_of "Content-Length: " ++ show (Z.of_nat (length body)) ++ crlf ++
    bytes_of "Connection: close" ++ crlf ++ crlf ++ body ++ rest)
  = Some (bytes_of "HTTP/1.1 " ++ status, content_type, body, rest).
Proof.
  intros S C B. pose proof (no_cr_digits (Z.of_nat (length body))) as D. unfold read_response, crlf.
  set (len := show (Z.of_nat (length body))) in *. cbn [app].
  assert (Solid : forall s, forallb (fun c => negb (c =? 13)) (bytes_of s) = true -> Forall (fun c => c <> 13) (bytes_of s)).
  { intros s F. eapply Forall_impl; [exact (forallb_Forall _ _ F)|]. cbv beta. lia. }
  assert (W1 : Forall (fun c => c <> 13) (bytes_of "HTTP/1.1 " ++ status)) by (apply Forall_app; split; [by apply Solid|done]).
  assert (W2 : Forall (fun c => c <> 13) (bytes_of "Content-Type: " ++ content_type)) by (apply Forall_app; split; [by apply Solid|done]).
  assert (W3 : Forall (fun c => c <> 13) (bytes_of "Content-Length: " ++ len)) by (apply Forall_app; split; [by apply Solid|done]).
  rewrite (app_assoc (bytes_of "HTTP/1.1 ")), (head_lines_word [] _ _ W1) by done.
  rewrite (app_assoc (bytes_of "Content-Type: ")), (head_lines_word [] _ _ W2) by done.
  rewrite (app_assoc (bytes_of "Content-Length: ")), (head_lines_word [] _ _ W3) by done.
  rewrite (head_lines_word [] (bytes_of "Connection: close")) by (done || by apply Solid). cbn [head_lines mbind option_bind head app].
  assert (Ty : header_value (bytes_of "Content-Type")
    [bytes_of "HTTP/1.1 " ++ status; bytes_of "Content-Type: " ++ content_type; bytes_of "Content-Length: " ++ len;
     bytes_of "Connection: close"] = Some content_type) by reflexivity.
  assert (Le : header_value (bytes_of "Content-Length")
    [bytes_of "HTTP/1.1 " ++ status; bytes_of "Content-Type: " ++ content_type; bytes_of "Content-Length: " ++ len;
     bytes_of "Connection: close"] = Some len) by reflexivity.
  rewrite Ty, Le. cbn [mbind option_bind]. unfold len. rewrite parse_show by lia. rewrite Nat2Z.id.
  by rewrite take_app_length, drop_app_length.
Qed.

Lemma http_parts_solid body :
  Forall (fun c => c <> 13) (http_parts body).1.1 /\ Forall (fun c => c <> 13) (http_parts body).1.2.
Proof.
  assert (L : forall s, forallb (fun c => negb (c =? 13)) (bytes_of s) = true -> Forall (fun c => c <> 13) (bytes_of s)).
  { intros s F. eapply Forall_impl; [exact (forallb_Forall _ (bytes_of s) F)|]. cbn. lia. }
  destruct body; split; by apply L.
Qed.

Lemma split_once_app c a b : Forall (fun x => x <> c) a -> split_once c (a ++ c :: b) = Some (a, b).
Proof.
  induction 1 as [|x a X F IH]; cbn; [by rewrite Z.eqb_refl|]. rewrite (proj2 (Z.eqb_neq x c) X). by rewrite IH.
Qed.

Lemma split_once_none c a : Forall (fun x => x <> c) a -> split_once c a = None.
Proof. induction 1 as [|x a X F IH]; cbn; [done|]. rewrite (proj2 (Z.eqb_neq x c) X). by rewrite IH. Qed.

(** A character of a request's words. *)
Definition word_char (c : Z) : Prop := 0 <= c < 128 /\ is_whitespace c = false.

Lemma word_char_not_newline c : word_char c -> (10 =? c) = false.
Proof. intros [_ W]. apply Z.eqb_neq. intros <-. done. Qed.

(** The words of a request line. *)
Lemma request_words (method target rest : list Z) :
  Forall word_char method -> method <> [] -> Forall word_char target -> target <> [] ->
  head (split (Z.eqb 10) (method ++ 32 :: target ++ bytes_of " HTTP/1.1" ++ 13 :: 10 :: rest)) =
    Some (method ++ 32 :: target ++ bytes_of " HTTP/1.1" ++ [13]) /\
  split_whitespace (method ++ 32 :: target ++ bytes_of " HTTP/1.1" ++ [13]) = [method; target; bytes_of "HTTP/1.1"] /\
  from_utf8 (method ++ 32 :: target ++ bytes_of " HTTP/1.1" ++ [13]) = Some (method ++ 32 :: target ++ bytes_of " HTTP/1.1" ++ [13]).
Proof.
  intros M Mn T Tn. set (line := method ++ 32 :: target ++ bytes_of " HTTP/1.1" ++ [13]).
  assert (A : Forall (fun c => 0 <= c < 128) line /\ Forall (fun c => (10 =? c) = false) line).
  { assert (P : Forall (fun c => 0 <= c < 128 /\ (10 =? c) = false) line).
    { assert (Wd : forall w, Forall word_char w -> Forall (fun c => 0 <= c < 128 /\ (10 =? c) = false) w).
      { intros w F. eapply Forall_impl; [exact F|]. intros c W. split; [apply W|by apply word_char_not_newline]. }
      unfold line. apply Forall_app. split; [by apply Wd|]. apply Forall_cons. split; [lia|]. apply Forall_app. split; [by apply Wd|].
      eapply Forall_impl; [apply (forallb_Forall (fun c => (0 <=? c) && (c <? 128) && negb (10 =? c))); reflexivity|].
      cbv beta. intros c C. apply andb_true_iff in C as [C N]. apply negb_true_iff in N. split; [lia|done]. }
    split; (eapply Forall_impl; [exact P|]); cbv beta; naive_solver. }
  destruct A as [A1 A2]. split; [|split; [|by apply from_utf8_ascii]].
  - replace (method ++ 32 :: target ++ bytes_of " HTTP/1.1" ++ 13 :: 10 :: rest) with (line ++ 10 :: rest)
      by (unfold line; rewrite <- (app_assoc method); cbn [app]; by rewrite <- !app_assoc).
    by rewrite (split_word_app _ line 10 rest A2).
  - unfold split_whitespace, line. assert (Ws : forall w, Forall word_char w -> Forall (fun c => is_whitespace c = false) w).
    { intros w F. eapply Forall_impl; [exact F|]. by intros c [_ W]. }
    rewrite (split_word_app _ method 32) by (done || by apply Ws). change (bytes_of " HTTP/1.1" ++ [13]) with (32 :: bytes_of "HTTP/1.1" ++ [13]).
    rewrite (split_word_app _ target 32) by (done || by apply Ws). change (split is_whitespace (bytes_of "HTTP/1.1" ++ [13])) with [bytes_of "HTTP/1.1"; []].
    rewrite !filter_cons. rewrite !decide_True by done. by rewrite filter_nil.
Qed.

Lemma request_target_line method path query rest :
  Forall word_char method -> method <> [] -> Forall word_char path -> Forall (fun c => c <> 63) path ->
  starts_with [47] path = true -> Forall word_char query ->
  request_target (method ++ 32 :: (path ++ 63 :: query) ++ bytes_of " HTTP/1.1" ++ 13 :: 10 :: rest) = Some (path, query) /\
  request_target (method ++ 32 :: path ++ bytes_of " HTTP/1.1" ++ 13 :: 10 :: rest) = Some (path, []).
Proof.
  intros M Mn P Pq A Q. assert (Pn : path <> []) by (by intros ->).
  assert (W : Forall word_char (path ++ 63 :: query)).
  { apply Forall_app. split; [done|]. apply Forall_cons. split; [split; [lia|done]|done]. }
  assert (Wn : path ++ 63 :: query <> []) by (by destruct path).
  destruct (request_words method _ rest M Mn W Wn) as (H1 & H2 & H3).
  destruct (request_words method path rest M Mn P Pn) as (G1 & G2 & G3).
  unfold request_target. rewrite H1, G1. cbn [mbind option_bind]. rewrite H3, G3. cbn [mbind option_bind]. rewrite H2, G2.
  cbn [mbind option_bind lookup list_lookup]. rewrite split_once_app, split_once_none by done. cbn [from_option id]. by rewrite A.
Qed.

Lemma response_reads_back body rest :
  Z.of_nat (length (http_parts body).2) <= u64_max ->
  read_response (http_response body ++ rest)
  = Some (bytes_of "HTTP/1.1 " ++ (http_parts body).1.1, (http_parts body).1.2, (http_parts body).2, rest).
Proof.
  intros B. destruct (http_parts_solid body) as [S C]. unfold http_response. destruct (http_parts body) as [[status content_type] bytes].
  cbn [fst snd] in *. rewrite <- (read_response_joined status content_type bytes rest S C B). f_equal. unfold crlf.
  rewrite <- !app_assoc. by cbn [app].
Qed.

(** ** Lemmas: the exposition text *)

(** *** Sorting *)

Lemma insert_by_perm {A} (le : A -> A -> bool) x l : insert_by le x l ≡ₚ x :: l.
Proof. induction l as [|y l IH]; [done|]. cbn. destruct (le x y); [done|]. rewrite IH. constructor. Qed.

Lemma sort_by_perm {A} (le : A -> A -> bool) l : sort_by le l ≡ₚ l.
Proof. induction l as [|x l IH]; [done|]. cbn. by rewrite insert_by_perm, IH. Qed.

Lemma insert_by_sorted {A} (le : A -> A -> bool) x l :
  (forall a b, le a b = false -> le b a = true) -> (forall a b c, le a b = true -> le b c = true -> le a c = true) ->
  StronglySorted (fun a b => le a b = true) l -> StronglySorted (fun a b => le a b = true) (insert_by le x l).
Proof.
  intros T Tr. induction 1 as [|y l S IH F]; cbn; [by repeat constructor|]. destruct (le x y) eqn:E.
  - constructor; [by constructor|]. constructor; [done|]. eapply Forall_impl; [exact F|]. intros z Z. by apply (Tr x y z).
  - constructor; [done|]. rewrite insert_by_perm. constructor; [by apply T|done].
Qed.

Lemma sort_by_sorted {A} (le : A -> A -> bool) l :
  (forall a b, le a b = false -> le b a = true) -> (forall a b c, le a b = true -> le b c = true -> le a c = true) ->
  StronglySorted (fun a b => le a b = true) (sort_by le l).
Proof. intros T Tr. induction l as [|x l IH]; cbn; [constructor|]. by apply insert_by_sorted. Qed.

Lemma str_le_total a b : str_le a b = false -> str_le b a = true.
Proof.
  revert b. induction a as [|x a IH]; intros [|y b]; cbn; try done. rewrite orb_false_iff. intros [L E].
  destruct (Z.eqb_spec x y) as [->|N]; cbn in E.
  - rewrite Z.ltb_irrefl, Z.eqb_refl. cbn. by apply IH.
  - apply orb_true_iff. left. lia.
Qed.

Lemma str_le_trans a b c : str_le a b = true -> str_le b c = true -> str_le a c = true.
Proof.
  revert b c. induction a as [|x a IH]; intros [|y b] [|z c]; cbn; try done. rewrite !orb_true_iff, !andb_true_iff.
  intros [?|[? ?]] [?|[? ?]]; [left; lia|left; lia|left; lia|]. right. split; [lia|]. by apply (IH b).
Qed.

Lemma str_le_antisym a b : str_le a b = true -> str_le b a = true -> a = b.
Proof.
  revert b. induction a as [|x a IH]; intros [|y b]; cbn; try done. rewrite !orb_true_iff, !andb_true_iff.
  intros [?|[? ?]] [?|[? ?]]; try lia. f_equal; [lia|]. by apply IH.
Qed.

(** What is sorted does not show the order it came in. *)
Lemma sort_by_unique {A} (le : A -> A -> bool) l l' :
  (forall a b, le a b = false -> le b a = true) -> (forall a b c, le a b = true -> le b c = true -> le a c = true) ->
  (forall a b, le a b = true -> le b a = true -> a = b) ->
  l ≡ₚ l' -> sort_by le l = sort_by le l'.
Proof.
  intros T Tr An P. apply (StronglySorted_unique_strong (fun a b => le a b = true)).
  - intros a b _ _. apply An.
  - by apply sort_by_sorted.
  - by apply sort_by_sorted.
  - by rewrite !sort_by_perm.
Qed.

Lemma row_le_total a b : row_le a b = false -> row_le b a = true.
Proof.
  unfold row_le. rewrite (bool_decide_ext (b.1 = a.1) (a.1 = b.1)) by done. case_bool_decide; [lia|apply str_le_total].
Qed.

Lemma row_le_trans a b c : row_le a b = true -> row_le b c = true -> row_le a c = true.
Proof.
  unfold row_le. destruct a as [a x], b as [b y], c as [c z]. cbn. repeat case_bool_decide; subst; try done; try lia.
  - intros L M. exfalso. by pose proof (str_le_antisym _ _ L M).
  - apply str_le_trans.
Qed.

Lemma row_le_antisym a b : row_le a b = true -> row_le b a = true -> a = b.
Proof.
  unfold row_le. destruct a as [a x], b as [b y]. cbn. repeat case_bool_decide; subst; try done.
  - intros. f_equal. lia.
  - intros L M. by pose proof (str_le_antisym _ _ L M).
Qed.

(** *** Labels *)

Lemma read_value_escape v rest : read_value (escape_label_value v ++ 34 :: rest) = Some (v, rest).
Proof.
  unfold escape_label_value. induction v as [|c v IH]; [done|]. cbn [map concat]. rewrite <- app_assoc.
  destruct (Z.eqb_spec c 92) as [->|N]; [cbn; by rewrite IH|]. destruct (Z.eqb_spec c 34) as [->|M]; [cbn; by rewrite IH|].
  destruct (Z.eqb_spec c 10) as [->|K]; [cbn; by rewrite IH|]. cbn [app read_value].
  rewrite (proj2 (Z.eqb_neq c 34) M), (proj2 (Z.eqb_neq c 92) N). by rewrite IH.
Qed.

Lemma read_pairs_join fuel l :
  Forall (fun kv : str * str => 61 ∉ kv.1) l -> l <> [] -> (length l <= fuel)%nat ->
  read_pairs fuel (join_comma (map format_pair l) ++ [125]) = Some l.
Proof.
  revert fuel. induction l as [|[k v] l IH]; intros fuel F N L; [done|]. apply Forall_cons in F as [K F].
  destruct fuel as [|fuel]; [cbn in L; lia|].
  assert (E : forall tail, read_pairs (S fuel) (format_pair (k, v) ++ tail) =
    match tail with
    | c :: s => if c =? 44 then l ← read_pairs fuel s; Some ((k, v) :: l)
                else if (c =? 125) && bool_decide (s = []) then Some [(k, v)] else None
    | [] => None
    end).
  { intros tail. unfold format_pair. cbn [fst snd]. change (bytes_of "=") with [61]. rewrite <- !app_assoc. cbn [app read_pairs].
    rewrite split_once_app by (apply Forall_forall; intros x Hx ->; done). cbn [mbind option_bind Z.eqb Pos.eqb].
    by rewrite read_value_escape. }
  destruct l as [|kv l]; [cbn [map join_comma]; by rewrite E|].
  change (join_comma (map format_pair ((k, v) :: kv :: l))) with (format_pair (k, v) ++ 44 :: join_comma (map format_pair (kv :: l))).
  rewrite <- app_assoc, E. cbn [app Z.eqb Pos.eqb]. rewrite IH by (done || cbn in *; lia). done.
Qed.

Lemma join_comma_length l : (length l <= length (join_comma (map format_pair l)))%nat.
Proof.
  induction l as [|[k v] [|kv l] IH]; [done|cbn; rewrite !length_app; cbn; lia|].
  change (join_comma (map format_pair ((k, v) :: kv :: l))) with (format_pair (k, v) ++ 44 :: join_comma (map format_pair (kv :: l))).
  rewrite length_app. cbn [length] in *. lia.
Qed.

(** The label set is the pairs in some order. *)
Lemma format_labels_pairs md : md <> [] ->
  exists l, l ≡ₚ md /\ format_labels md = [123] ++ join_comma (map format_pair l) ++ [125].
Proof.
  intros N. destruct (Permutation_map_inv format_pair md (sort_by_perm str_le (map format_pair md))) as (l & E & P).
  exists l. split; [done|]. unfold format_labels. destruct md; [done|]. by rewrite E.
Qed.

Lemma join_comma_free c l : c <> 44 -> Forall (fun x => c ∉ x) l -> c ∉ join_comma l.
Proof.
  intros N F. induction F as [|x [|y l] X F IH]; [apply not_elem_of_nil|done|].
  change (join_comma (x :: y :: l)) with (x ++ 44 :: join_comma (y :: l)). set_solver.
Qed.

Lemma escape_no_newline v : 10 ∉ escape_label_value v.
Proof.
  unfold escape_label_value. induction v as [|c v IH]; [apply not_elem_of_nil|]. cbn [map concat]. rewrite elem_of_app. intros [E|E]; [|done].
  destruct (Z.eqb_spec c 92), (Z.eqb_spec c 34), (Z.eqb_spec c 10); set_solver.
Qed.

Lemma format_labels_no_newline md : Forall (fun kv : str * str => 10 ∉ kv.1) md -> 10 ∉ format_labels md.
Proof.
  intros F. destruct md as [|kv md]; [apply not_elem_of_nil|]. destruct (format_labels_pairs (kv :: md)) as (l & P & ->); [done|].
  rewrite <- P in F. rewrite !elem_of_app. intros [E|[E|E]]; [set_solver| |set_solver]. revert E. apply join_comma_free; [done|].
  apply Forall_map. eapply Forall_impl; [exact F|]. intros [k v] K. unfold format_pair. cbn [fst snd] in *.
  rewrite !elem_of_app. pose proof (escape_no_newline v). change (bytes_of "=") with [61]. set_solver.
Qed.

(** *** Lines *)

Lemma samples_line l rest : 10 ∉ l -> samples (l ++ 10 :: rest) = option_list (read_sample l) ++ samples rest.
Proof.
  intros N. unfold samples. rewrite split_word_app.
  - cbn [omap list_omap]. by destruct (read_sample l).
  - apply Forall_forall. intros x Hx. apply Z.eqb_neq. by intros <-.
  - done.
Qed.

Lemma sanitize_no_newline name : 10 ∉ sanitize_name name.
Proof.
  unfold sanitize_name. rewrite list_elem_of_In, in_map_iff. intros (c & E & _). destruct (is_name_char c) eqn:I; [|done].
  subst c. done.
Qed.

Lemma sanitize_head name s : starts_with [35] (sanitize_name name ++ s) = match name with [] => starts_with [35] s | _ => false end.
Proof.
  destruct name as [|c name]; [done|]. cbn -[Z.eqb is_name_char]. destruct (is_name_char c) eqn:I; [|done].
  apply andb_false_intro1.
  apply Z.eqb_neq. by intros <-.
Qed.

Lemma samples_comment l rest : 10 ∉ l -> samples (35 :: l ++ 10 :: rest) = samples rest.
Proof. intros N. change (35 :: l ++ 10 :: rest) with ((35 :: l) ++ 10 :: rest). rewrite samples_line by set_solver. done. Qed.

Lemma samples_help name d rest : samples (write_help (sanitize_name name) d ++ rest) = samples rest.
Proof.
  destruct d as [[|c d]|]; [done| |done]. unfold write_help. set (e := escape_help (c :: d)).
  assert (N : 10 ∉ e).
  { unfold e, escape_help. generalize (c :: d). intros l. induction l as [|x l IH]; [apply not_elem_of_nil|]. cbn [map concat].
    rewrite elem_of_app. intros [E|E]; [|done]. destruct (Z.eqb_spec x 92), (Z.eqb_spec x 10); set_solver. }
  rewrite <- !app_assoc. change (bytes_of "# HELP ") with (35 :: [32; 72; 69; 76; 80; 32]). cbn [app].
  pose proof (samples_comment (32 :: 72 :: 69 :: 76 :: 80 :: 32 :: sanitize_name name ++ 32 :: e) rest) as H.
  cbn [app] in H. rewrite <- app_assoc in H. apply H. pose proof (sanitize_no_newline name). set_solver.
Qed.

Lemma samples_type name kind rest :
  10 ∉ bytes_of kind -> samples (write_type (sanitize_name name) kind ++ rest) = samples rest.
Proof.
  intros N. unfold write_type. rewrite <- !app_assoc. change (bytes_of "# TYPE ") with (35 :: [32; 84; 89; 80; 69; 32]). cbn [app].
  pose proof (samples_comment (32 :: 84 :: 89 :: 80 :: 69 :: 32 :: sanitize_name name ++ 32 :: bytes_of kind) rest) as H.
  cbn [app] in H. rewrite <- app_assoc in H. apply H. pose proof (sanitize_no_newline name). set_solver.
Qed.

Lemma samples_sample name labels value rest :
  10 ∉ name ++ labels -> starts_with [35] (name ++ labels ++ [32]) = false -> 10 ∉ value -> 32 ∉ value ->
  samples (write_sample name labels value ++ rest) = (name ++ labels, value) :: samples rest.
Proof.
  intros N H V W. unfold write_sample. rewrite (app_assoc name labels) in *. set (series := name ++ labels) in *.
  replace ((series ++ [32] ++ value ++ [10]) ++ rest) with ((series ++ 32 :: value) ++ 10 :: rest) by (by rewrite <- !app_assoc).
  rewrite samples_line by set_solver.
  assert (Hs : starts_with [35] (series ++ 32 :: value) = false) by (destruct series; [done|exact H]).
  unfold read_sample. rewrite Hs. unfold rsplit_once. rewrite rev_app_distr. cbn [rev]. rewrite <- app_assoc. cbn [app].
  rewrite split_once_app; [cbn [mbind option_bind option_list app]; by rewrite !rev_involutive|].
  apply Forall_forall. intros x Hx ->. apply W. by rewrite list_elem_of_In, in_rev, <- list_elem_of_In.
Qed.

Lemma show_unbroken n : 10 ∉ show n /\ 32 ∉ show n.
Proof.
  pose proof (show_digits n) as D. rewrite Forall_forall in D. split; intros E; specialize (D _ E); cbv beta in D; lia.
Qed.

Lemma i64_solid n : 10 ∉ show_i64 n /\ 32 ∉ show_i64 n.
Proof. unfold show_i64. destruct (n <? 0); [|apply show_unbroken]. pose proof (show_unbroken (- n)). set_solver. Qed.

Lemma format_labels_head md s : starts_with [35] (format_labels md ++ 32 :: s) = false.
Proof. by destruct md. Qed.

(** A line of a metric: its name, and labels that are none or in braces. *)
Lemma samples_named name labels value rest :
  10 ∉ labels -> starts_with [35] (labels ++ [32]) = false -> 10 ∉ value /\ 32 ∉ value ->
  samples (write_sample (sanitize_name name) labels value ++ rest) = (sanitize_name name ++ labels, value) :: samples rest.
Proof.
  intros L H [V W]. apply samples_sample; try done.
  - pose proof (sanitize_no_newline name). set_solver.
  - rewrite sanitize_head. by destruct name.
Qed.

Lemma quantile_label_solid q : q ∈ QUANTILES -> 10 ∉ quantile_label q.
Proof.
  assert (F : Forall (fun q => bool_decide (10 ∉ quantile_label q) = true) QUANTILES)
    by (apply (forallb_Forall (fun q => bool_decide (10 ∉ quantile_label q))); vm_compute; reflexivity).
  rewrite Forall_forall in F. intros Hq. by apply (bool_decide_eq_true_1 _ (F q Hq)).
Qed.

Section metric_lines.
Context {snapshot : Type} (quantiles : snapshot -> list f64 -> option (list (f64 * Z))) (buckets : snapshot -> list (Z * Z * Z)).

Lemma samples_total name (suffix : string) value rest :
  10 ∉ bytes_of suffix -> starts_with [35] (bytes_of suffix ++ [32]) = false -> 10 ∉ value /\ 32 ∉ value ->
  samples (write_sample (sanitize_name name ++ bytes_of suffix) [] value ++ rest) =
  (sanitize_name name ++ bytes_of suffix, value) :: samples rest.
Proof.
  intros L H V. rewrite <- (samples_named name (bytes_of suffix) value rest L H V). f_equal. unfold write_sample.
  by rewrite <- !app_assoc.
Qed.

Lemma samples_histogram name d s rest :
  Forall (fun e : f64 * Z => e.1 ∈ QUANTILES) (default [] (quantiles s QUANTILES)) ->
  samples (write_histogram_summary snapshot quantiles buckets (sanitize_name name) d s ++ rest) =
  histogram_samples snapshot quantiles buckets (sanitize_name name) s ++ samples rest.
Proof.
  intros F. unfold write_histogram_summary, histogram_samples. rewrite <- !app_assoc, samples_help.
  rewrite samples_type by (vm_compute; set_solver). destruct (bucket_totals snapshot buckets s) as [count sum].
  assert (T : forall rest, samples ((write_sample (sanitize_name name ++ bytes_of "_count") [] (show count) ++
      write_sample (sanitize_name name ++ bytes_of "_sum") [] (show sum)) ++ rest) =
    [(sanitize_name name ++ bytes_of "_count", show count); (sanitize_name name ++ bytes_of "_sum", show sum)] ++ samples rest).
  { intros r. rewrite <- app_assoc. rewrite !samples_total by (done || apply show_unbroken || by vm_compute; set_solver). done. }
  destruct (quantiles s QUANTILES) as [entries|]; [|cbn [app default from_option map]; apply T].
  cbn [default from_option id] in *. revert F. induction entries as [|[q last] es IH]; intros F; [cbn [map concat app]; apply T|].
  apply Forall_cons in F as [Q F]. cbn [map concat fst] in *. rewrite <- !app_assoc.
  change ([123] ++ bytes_of "quantile=" ++ [34] ++ bytes_of (display_f64 q) ++ [34; 125]) with (quantile_label q).
  rewrite samples_named; [|by apply quantile_label_solid|done|apply show_unbroken]. cbn [app]. f_equal. rewrite <- app_assoc in IH. by apply IH.
Qed.

Lemma samples_rows name rows rest :
  Forall (fun '(labels, _) => exists md, labels = format_labels md /\ Forall (fun kv : str * str => 10 ∉ kv.1) md) rows ->
  samples (concat (map (fun '(labels, v) => write_sample (sanitize_name name) labels (show v)) rows) ++ rest) =
  map (fun '(labels, v) => (sanitize_name name ++ labels, show v)) rows ++ samples rest.
Proof.
  induction 1 as [|[labels v] rows (md & -> & M) F IH]; [done|]. cbn [map concat]. rewrite <- app_assoc.
  rewrite samples_named; [by rewrite IH|by apply format_labels_no_newline|apply format_labels_head|apply show_unbroken].
Qed.

Lemma group_rows_labels slots counter_value :
  Forall (fun '(_, slot) => Forall (fun kv : str * str => 10 ∉ kv.1) slot) slots ->
  Forall (fun '(labels, _) => exists md, labels = format_labels md /\ Forall (fun kv : str * str => 10 ∉ kv.1) md)
    (group_rows slots counter_value).
Proof.
  intros F. unfold group_rows. rewrite sort_by_perm. apply Forall_forall. intros [labels v] Hl.
  apply list_elem_of_omap in Hl as ([i slot] & Hs & E). rewrite Forall_forall in F. specialize (F _ Hs). cbn in F.
  destruct (counter_value i); [|done]. cbn in E. injection E as <- <-. by exists slot.
Qed.

Lemma samples_metric m rest : metric_ok snapshot quantiles m ->
  samples (write_metric snapshot quantiles buckets m ++ rest) = metric_samples snapshot quantiles buckets m ++ samples rest.
Proof.
  unfold metric_ok, write_metric, metric_samples. intros H.
  destruct (m_value snapshot m) as [[v|v|slots counter_value|cf [s|]|cf [s|]|cf h|]|]; try done.
  - rewrite <- !app_assoc, samples_help, samples_type by (vm_compute; set_solver).
    rewrite samples_named by (apply not_elem_of_nil || done || apply show_unbroken). by rewrite app_nil_r.
  - rewrite <- !app_assoc, samples_help, samples_type by (vm_compute; set_solver).
    rewrite samples_named by (apply not_elem_of_nil || done || apply i64_solid). by rewrite app_nil_r.
  - pose proof (group_rows_labels slots counter_value H) as R. destruct (group_rows slots counter_value) as [|r rows]; [done|].
    rewrite <- !app_assoc, samples_help, samples_type by (vm_compute; set_solver). by apply samples_rows.
  - by apply samples_histogram.
  - by apply samples_histogram.
Qed.

End metric_lines.

(** *** The two renderings *)

Lemma extend_lookup md l k : k ∉ map fst l -> extend md l !! k = md !! k.
Proof.
  unfold extend. revert md. induction l as [|[k' v] l IH]; intros md N; [done|]. cbn [foldl map fst] in *.
  rewrite IH by set_solver. apply lookup_insert_ne. set_solver.
Qed.

Lemma base_name_labels name md : base_name (sanitize_name name ++ format_labels md) = sanitize_name name.
Proof.
  assert (N : Forall (fun c => c <> 123) (sanitize_name name)).
  { apply Forall_map. apply Forall_forall. intros c _. destruct (is_name_char c) eqn:I; [|done]. by intros ->. }
  unfold base_name. destruct md as [|kv md]; [by rewrite app_nil_r, split_once_none|]. cbn [format_labels app]. by rewrite split_once_app.
Qed.

Lemma agree_metric (snapshot : Type) (quantiles : snapshot -> list f64 -> option (list (f64 * Z))) buckets m :
  metric_ok snapshot quantiles m -> metadata_ok snapshot m ->
  omap (scalar snapshot) (snap_metric snapshot m) ≡ₚ
  if is_scalar snapshot m then map (fun '(series, v) => (base_name series, v)) (metric_samples snapshot quantiles buckets m) else [].
Proof.
  unfold metric_ok, metadata_ok, snap_metric, is_scalar, metric_samples. intros M [D S].
  assert (L : forall md, bytes_of "metric" ∉ map fst md ->
    extend (extend {[bytes_of "metric" := m_name snapshot m]} (m_metadata snapshot m)) md !! bytes_of "metric" = Some (m_name snapshot m)).
  { intros md N. by rewrite !extend_lookup, lookup_singleton_eq. }
  assert (B : base_name (sanitize_name (m_name snapshot m)) = sanitize_name (m_name snapshot m)).
  { by rewrite <- (base_name_labels (m_name snapshot m) []) at 2; cbn [format_labels]; rewrite app_nil_r. }
  pose proof (L [] (not_elem_of_nil _)) as L0. cbn [extend foldl] in L0.
  destruct (m_value snapshot m) as [[v|v|slots counter_value|cf [s|]|cf [s|]|cf [s|]|]|]; try done.
  - cbn [omap list_omap scalar map]. rewrite L0. cbn [mbind option_bind]. by rewrite B.
  - cbn [omap list_omap scalar map]. rewrite L0. cbn [mbind option_bind]. by rewrite B.
  - unfold group_rows. rewrite !sort_by_perm.
    induction S as [|[i slot] slots N S IH]; [done|]. apply Forall_cons in M as [_ M]. specialize (IH M). cbn [omap list_omap snd] in *.
    destruct (counter_value i) as [v|]; cbn [mbind option_bind]; [|exact IH]. cbn [omap list_omap scalar map]. rewrite L by done.
    cbn [mbind option_bind]. rewrite base_name_labels. by rewrite IH.
Qed.

(** ** Theorems *)

(** The admin endpoint's round trip.  For any request line - a method, an
    absolute path and a query string of visible ASCII - followed by any
    headers, the server recognises that path and query: [/metrics/stream]
    starts a stream with the query, and every other path is answered with one
    response from which a client that trusts [Content-Length] reads exactly
    the status, the type and the body promised for the path, whatever bytes
    follow it. *)
Theorem served_reads_back (prometheus : str) (msgpack : option (list Z)) (method path query headers after : list Z)
    (Hm : Forall word_char method) (Hm0 : method <> [])
    (Hp : Forall word_char path) (Hq : Forall (fun c => c <> 63) path) (H47 : starts_with [47] path = true)
    (Hquery : Forall word_char query)
    (Hprom : Z.of_nat (length (utf8 prometheus)) <= u64_max)
    (Hpack : Z.of_nat (length (default [] msgpack)) <= u64_max) :
  exists bs, (forall request,
      request = method ++ 32 :: (path ++ 63 :: query) ++ bytes_of " HTTP/1.1" ++ 13 :: 10 :: headers ->
      serve_request prometheus msgpack request = if bool_decide (path = bytes_of "/metrics/stream") then Stream query else Reply bs) /\
    (forall request,
      request = method ++ 32 :: path ++ bytes_of " HTTP/1.1" ++ 13 :: 10 :: headers ->
      serve_request prometheus msgpack request = if bool_decide (path = bytes_of "/metrics/stream") then Stream [] else Reply bs) /\
    read_response (bs ++ after) = Some (served_as prometheus msgpack path, after).
Proof.
  destruct (request_target_line method path query headers Hm Hm0 Hp Hq H47 Hquery) as [T1 T2].
  exists (http_response (respond prometheus msgpack path)). unfold serve_request. split; [|split].
  - intros ? ->. by rewrite T1.
  - intros ? ->. by rewrite T2.
  - rewrite response_reads_back.
    + unfold served_as, respond. rewrite (bool_decide_ext (path ∈ _) (path = bytes_of "/" \/ path = bytes_of "/metrics")) by set_solver.
      rewrite bool_decide_or. destruct (_ || _); [done|]. by destruct (bool_decide _), msgpack.
    + unfold respond. destruct (_ || _); [done|]. by destruct (bool_decide _), msgpack; cbn in *.
Qed.

Example served_reads_back_witness :
  let request := bytes_of "GET /metrics?collect=all HTTP/1.1" ++ [13; 10] in
  let text := bytes_of "requests_sent 5" ++ [10] in
  exists bs, serve_request text None request = Reply bs /\
    read_response (bs ++ [1; 2]) = Some ((bytes_of "HTTP/1.1 200 OK", bytes_of "text/plain; version=0.0.4", text), [1; 2]).
Proof.
  assert (W : forall s, forallb (fun c => (0 <=? c) && (c <? 128) && negb (is_whitespace c)) (bytes_of s) = true -> Forall word_char (bytes_of s)).
  { intros s F. eapply Forall_impl; [exact (forallb_Forall _ _ F)|]. intros c C. cbv beta in C.
    apply andb_true_iff in C as [C N]. apply negb_true_iff in N. split; [lia|done]. }
  destruct (served_reads_back (bytes_of "requests_sent 5" ++ [10]) None (bytes_of "GET") (bytes_of "/metrics") (bytes_of "collect=all")
    [] [1; 2]) as (bs & R & _ & Rd).
  - by apply W.
  - done.
  - by apply W.
  - eapply Forall_impl; [apply (forallb_Forall (fun c => negb (c =? 63))); reflexivity|]. cbv beta. lia.
  - done.
  - by apply W.
  - vm_compute. congruence.
  - vm_compute. congruence.
  - exists bs. split; [exact (R _ eq_refl)|exact Rd].
Defined.

(** Label sets round trip.  Whatever a slot's label values hold - quotes,
    backslashes, newlines, commas, braces - a scraper that unescapes reads
    exactly the slot's pairs back, provided no key holds an equals sign, and
    the text is the same for every order in which the map hands its pairs
    out. *)
Theorem labels_read_back (md : list (str * str)) (Hk : Forall (fun kv : str * str => 61 ∉ kv.1) md) :
  (exists l, read_labels (format_labels md) = Some l /\ l ≡ₚ md) /\
  (forall md', md' ≡ₚ md -> format_labels md' = format_labels md).
Proof.
  split.
  - destruct (decide (md = [])) as [->|N]; [by exists []|]. destruct (format_labels_pairs md N) as (l & P & ->). exists l. split; [|done].
    cbn [app read_labels Z.eqb Pos.eqb]. apply read_pairs_join.
    + by rewrite P.
    + intros ->. apply Permutation_nil_l in P. by apply N.
    + rewrite length_app. pose proof (join_comma_length l). cbn. lia.
  - intros md' P. unfold format_labels. rewrite (sort_by_unique str_le (map format_pair md') (map format_pair md)).
    + destruct md, md'; try done; [by apply Permutation_nil_r in P|by apply Permutation_nil_l in P].
    + apply str_le_total.
    + apply str_le_trans.
    + apply str_le_antisym.
    + by apply Permutation_map.
Qed.

(** C18: The exposition text says what the registry holds.  A scraper that
    splits the text into lines, drops the comments and cuts each other line at
    its last space reads, metric by metric, exactly the promised samples:
    no name, description or label value can add, hide or split a line. *)
Theorem scrape_reads_back {snapshot : Type} (quantiles : snapshot -> list f64 -> option (list (f64 * Z)))
    (buckets : snapshot -> list (Z * Z * Z)) (metrics : list (Metric snapshot))
    (Hok : Forall (metric_ok snapshot quantiles) metrics) :
  samples (generate_prometheus_output snapshot quantiles buckets metrics) =
  concat (map (metric_samples snapshot quantiles buckets) metrics).
Proof.
  unfold generate_prometheus_output. induction Hok as [|m ms M F IH]; [done|]. cbn [map concat]. rewrite samples_metric by done. by rewrite IH.
Qed.

(** The two renderings agree.  The counters and gauges of the binary
    snapshot - a group's slots flattened one entry each - are, up to order,
    the samples a scrape of the text reads, under the metric's name and with
    the same value: nothing a run counts shows in one and not in the other. *)
Theorem renderings_agree {snapshot : Type} (quantiles : snapshot -> list f64 -> option (list (f64 * Z)))
    (buckets : snapshot -> list (Z * Z * Z)) (metrics : list (Metric snapshot))
    (Hok : Forall (metric_ok snapshot quantiles) metrics) (Hmd : Forall (metadata_ok snapshot) metrics) :
  omap (scalar snapshot) (create_snapshot snapshot metrics) ≡ₚ
  map (fun '(series, v) => (base_name series, v))
    (samples (generate_prometheus_output snapshot quantiles buckets (List.filter (is_scalar snapshot) metrics))).
Proof.
  unfold generate_prometheus_output, create_snapshot. induction Hok as [|m ms M F IH]; [done|]. apply Forall_cons in Hmd as [D Hmd].
  cbn [map concat List.filter]. rewrite omap_app, IH by done. clear IH. pose proof (agree_metric snapshot quantiles buckets m M D) as A.
  destruct (is_scalar snapshot m); [|by rewrite A]. cbn [map concat]. rewrite samples_metric, map_app by done. by rewrite A.
Qed.

(** *** A registry: a counter, a group with an awkward label, a histogram. *)

Definition example_slots : list (Z * list (str * str)) :=
  [(1, [(bytes_of "op", bytes_of "a b"); (bytes_of "kind", [92; 10; 34; 44])]); (0, [(bytes_of "op", bytes_of "parked")]); (2, [])].

Definition example_registry : list (Metric Z) :=
  [{| m_name := bytes_of "requests_sent"; m_description := Some (bytes_of "sent" ++ [10] ++ bytes_of "here"); m_metadata := [];
      m_value := Some (MCounter _ 5) |};
   {| m_name := bytes_of "ringline/pool"; m_description := None; m_metadata := [(bytes_of "unit", bytes_of "count")];
      m_value := Some (MGroup _ example_slots (fun i => if i <? 2 then Some (10 + i) else None)) |};
   {| m_name := bytes_of "latency"; m_description := Some []; m_metadata := []; m_value := Some (MHistogram _ (7, 64) (Some 9)) |}].

Definition example_quantiles (s : Z) (qs : list f64) : option (list (f64 * Z)) := Some (map (fun q => (q, s)) qs).
Definition example_buckets (s : Z) : list (Z * Z * Z) := [(s, s + 3, 2)].

Example labels_read_back_witness :
  let md := [(bytes_of "op", bytes_of "a b"); (bytes_of "kind", [92; 10; 34; 44])] in
  (exists l, read_labels (format_labels md) = Some l /\ l ≡ₚ md) /\ (forall md', md' ≡ₚ md -> format_labels md' = format_labels md).
Proof.
  apply (labels_read_back [(bytes_of "op", bytes_of "a b"); (bytes_of "kind", [92; 10; 34; 44])]).
  repeat constructor; vm_compute; set_solver.
Defined.

Example scrape_reads_back_witness :
  Forall (metric_ok Z example_quantiles) example_registry /\
  samples (generate_prometheus_output Z example_quantiles example_buckets example_registry) =
    concat (map (metric_samples Z example_quantiles example_buckets) example_registry) /\
  length (samples (generate_prometheus_output Z example_quantiles example_buckets example_registry)) = 11%nat.
Proof.
  assert (H : Forall (metric_ok Z example_quantiles) example_registry).
  { constructor; [done|]. constructor; [|constructor; [|done]].
    - repeat constructor; vm_compute; set_solver.
    - change (Forall (fun e : f64 * Z => e.1 ∈ QUANTILES) (map (fun q => (q, 9)) QUANTILES)). apply Forall_map.
      by apply Forall_forall. }
  split; [exact H|]. split; [|vm_compute; reflexivity].
  apply (scrape_reads_back example_quantiles example_buckets example_registry H).
Defined.

Example renderings_agree_witness :
  let scalars := omap (scalar Z) (create_snapshot Z example_registry) in
  length scalars = 3%nat /\
  scalars ≡ₚ map (fun '(series, v) => (base_name series, v))
    (samples (generate_prometheus_output Z example_quantiles example_buckets (List.filter (is_scalar Z) example_registry))).
Proof.
  split; [vm_compute; reflexivity|]. apply (renderings_agree example_quantiles example_buckets example_registry).
  - constructor; [done|]. constructor; [|constructor; [|done]].
    + repeat constructor; vm_compute; set_solver.
    + change (Forall (fun e : f64 * Z => e.1 ∈ QUANTILES) (map (fun q => (q, 9)) QUANTILES)). apply Forall_map.
      by apply Forall_forall.
  - repeat constructor; vm_compute; set_solver.
Defined.

(** [sanitize_name]'s comment asks for [[a-zA-Z_:][a-zA-Z0-9_:]*], but a
    leading digit passes. *)
Example leading_digit_kept : sanitize_name (bytes_of "9-ways") = bytes_of "9_ways".
Proof. reflexivity. Qed.
