(* ===== verification/Lab.v ===== *)
(** Lab: the command line of valkey-lab ([src/src/valkey_lab.rs]), from the
    flags to the configuration a run is launched with.

    A flag's text is the list of its code points; clap's parsing of the argument
    list is outside the model: [BenchArgs] is what it hands over.  Loading a
    TOML file and resolving a host are parameters. *)

From S2P Require Import Prelude F64 Text Config Validate.
Open Scope Z_scope.

Abbreviation str := (list Z).

(** What a builder fails with. *)
Inductive LabError :=
| LabMessage (msg : str)
| LabConfig (e : ConfigError).

(** ** Parsers *)

(** [map_err(|_| ...)]. *)
Definition or_message {A} (msg : str) (r : result IntError A) : result LabError A :=
  match r with Ok a => Ok a | Err _ => Err (LabMessage msg) end.

(** [parse_ratio]. *)
Definition parse_ratio (s : str) : result LabError (Z * Z) :=
  match split (Z.eqb 58) s with
  | [a; b] =>
      get ← or_message (bytes_of "invalid GET ratio '" ++ a ++ [39]) (parse_uint u8_max (trim a));
      set ← or_message (bytes_of "invalid SET ratio '" ++ b ++ [39]) (parse_uint u8_max (trim b));
      if (get =? 0) && (set =? 0) then Err (LabMessage (bytes_of "ratio cannot be 0:0")) else Ok (get, set)
  | _ => Err (LabMessage (bytes_of "invalid ratio '" ++ s ++ bytes_of "', expected format like '80:20'"))
  end.

(** [s.split_at(s.find(|c| !c.is_ascii_digit()))]. *)
Fixpoint split_number (s : str) : str * str :=
  match s with
  | [] => ([], [])
  | c :: r => if (48 <=? c) && (c <=? 57) then let (num, suffix) := split_number r in (c :: num, suffix) else ([], s)
  end.

(** The nanoseconds of each unit, and the factor the value is multiplied by as
    a [u64] before that. *)
Definition duration_unit (suffix : str) : option (Z * Z) :=
  if bool_decide (suffix = bytes_of "ns") then Some (1, 1)
  else if bool_decide (suffix = bytes_of "us") then Some (1, 1000)
  else if bool_decide (suffix = bytes_of "ms") then Some (1, 1000000)
  else if bool_decide (suffix ∈ [bytes_of "s"; bytes_of "sec"; bytes_of "secs"; []]) then Some (1, 1000000000)
  else if bool_decide (suffix ∈ [bytes_of "m"; bytes_of "min"; bytes_of "mins"]) then Some (60, 1000000000)
  else if bool_decide (suffix ∈ [bytes_of "h"; bytes_of "hr"; bytes_of "hrs"]) then Some (3600, 1000000000)
  else None.

Definition int_error (e : IntError) : str :=
  bytes_of match e with
           | IntEmpty => "cannot parse integer from empty string"
           | InvalidDigit => "invalid digit found in string"
           | PosOverflow => "number too large to fit in target type"
           end.

(** [parse_duration]: the duration in nanoseconds. *)
Definition parse_duration (s : str) : result str Z :=
  match trim s with
  | [] => Err (bytes_of "empty duration string")
  | s =>
      let (num, suffix) := split_number s in
      match parse_uint u64_max num with
      | Err e => Err (bytes_of "invalid number in duration: " ++ int_error e)
      | Ok value =>
          match duration_unit (trim suffix) with
          | Some (factor, unit_ns) => Ok (wrap64 (value * factor) * unit_ns)
          | None => Err (bytes_of "unknown time unit '" ++ trim suffix ++ bytes_of "' in duration")
          end
      end
  end.

Definition lower (s : str) : str := map (fun c => if (65 <=? c) && (c <=? 90) then c + 32 else c) s.

(** [OutputFormat::from_str] and [ColorMode::from_str]: of the characters whose
    lower case is ASCII, only the ASCII ones spell these words. *)
Definition parse_format (s : str) : result LabError OutputFormat :=
  if bool_decide (lower s = bytes_of "clean") then Ok Clean
  else if bool_decide (lower s = bytes_of "json") then Ok Json
  else if bool_decide (lower s = bytes_of "verbose") then Ok Verbose
  else if bool_decide (lower s = bytes_of "quiet") then Ok Quiet
  else Err (LabMessage (bytes_of "invalid format '" ++ s ++ bytes_of "', expected: clean, json, verbose, quiet")).

Definition parse_color (s : str) : result LabError ColorMode :=
  if bool_decide (lower s = bytes_of "auto") then Ok Auto
  else if bool_decide (lower s = bytes_of "always") then Ok Always
  else if bool_decide (lower s = bytes_of "never") then Ok Never
  else Err (LabMessage (bytes_of "invalid color mode '" ++ s ++ bytes_of "', expected: auto, always, never")).

(** ** Flags *)

Inductive DistributionArg := ArgUniform | ArgZipf.

Definition Distribution_from (d : DistributionArg) : Distribution :=
  match d with ArgUniform => Uniform | ArgZipf => Zipf end.

Record BenchArgs := {
  a_host : option str;
  a_port : option Z;
  a_duration : option Z;
  a_connections : option Z;
  a_pipeline : option Z;
  a_batch_size : option Z;
  a_threads : option Z;
  a_ratio : option str;
  a_keyspace : option Z;
  a_data_size : option Z;
  a_cluster : bool;
  a_tls : bool;
  a_output : option str;
  a_warmup : option Z;
  a_key_size : option Z;
  a_distribution : option DistributionArg;
  a_rate_limit : option Z;
  a_prefill : bool;
  a_backfill : bool;
  a_parquet : option string;
  a_cpu_list : option string;
  a_resp3 : bool;
  a_tls_skip_verify : bool;
  a_tls_hostname : option string;
  a_connect_timeout : option Z;
  a_request_timeout : option Z;
  a_color : option str;
  a_config : option string;
}.

Record SaturateArgs := {
  s_bench : BenchArgs;
  s_slo_p50 : option str;
  s_slo_p99 : option str;
  s_slo_p999 : option str;
  s_start_rate : Z;
  s_step : f64;
  s_sample_window : Z;
  s_max_rate : Z;
}.

(** ** The builders *)

Section builders.

(** [Config::load], [to_socket_addrs], the host's parallelism and whether the
    build has the [dma] feature. *)
Variable load : string -> result LabError Config.t.
Variable to_socket_addrs : str -> Z -> result LabError (list SocketAddr).
Variable num_cpus : Z.
Variable dma_build : bool.

(** [resolve_host]. *)
Definition resolve_host (host : str) (port : Z) : result LabError SocketAddr :=
  addrs ← to_socket_addrs host port;
  match addrs with
  | addr :: _ => Ok addr
  | [] => Err (LabMessage (bytes_of "could not resolve host '" ++ host ++ [39]))
  end.

Definition default_host : str := bytes_of "127.0.0.1".

Definition default_port : Z := 6379.

(** [load_base_config]. *)
Definition load_base_config (a : BenchArgs) : result LabError Config.t :=
  match a_config a with
  | Some path => load path
  | None =>
      addr ← resolve_host (default default_host (a_host a)) (default default_port (a_port a));
      Ok {| Config.general :=
              (General_default num_cpus)
                <| General.duration := default (from_secs 60) (a_duration a) |>
                <| General.warmup := default (from_secs 10) (a_warmup a) |>;
            Config.target :=
              {| Target.endpoints := [addr]; Target.protocol := Resp_; Target.tls := false; Target.tls_hostname := None;
                 Target.tls_verify := true; Target.tls_ca_file := None; Target.tls_cert_file := None;
                 Target.tls_key_file := None; Target.cluster := false; Target.auto_discovery := false |};
            Config.connection :=
              Connection_default
                <| Connection.connections := default 1 (a_connections a) |>
                <| Connection.pipeline_depth := default 1 (a_pipeline a) |>
                <| Connection.batch_size := a_batch_size a |>
                <| Connection.connect_timeout := default (from_secs 5) (a_connect_timeout a) |>
                <| Connection.request_timeout := default (from_secs 1) (a_request_timeout a) |>;
            Config.workload := Workload_default;
            Config.timestamps := Timestamps_default; Config.admin := Admin_default; Config.dma := Dma_default;
            Config.resp := {| Resp.module := RespModuleNone |} |}
  end.

(** [if let Some(x) = flag { field = x }]. *)
Definition given {A T} (flag : option A) (set : A -> T -> T) (x : T) : T :=
  match flag with Some a => set a x | None => x end.

Definition when {T} (flag : bool) (set : T -> T) (x : T) : T := if flag then set x else x.

Definition set_general (f : General.t -> General.t) (c : Config.t) : Config.t := c <| Config.general := f (Config.general c) |>.
Definition set_target (f : Target.t -> Target.t) (c : Config.t) : Config.t := c <| Config.target := f (Config.target c) |>.
Definition set_connection (f : Connection.t -> Connection.t) (c : Config.t) : Config.t :=
  c <| Config.connection := f (Config.connection c) |>.
Definition set_workload (f : Workload.t -> Workload.t) (c : Config.t) : Config.t := c <| Config.workload := f (Config.workload c) |>.
Definition set_keyspace (f : Keyspace.t -> Keyspace.t) : Config.t -> Config.t :=
  set_workload (fun w => w <| Workload.keyspace := f (Workload.keyspace w) |>).
Definition set_admin (f : Admin.t -> Admin.t) (c : Config.t) : Config.t := c <| Config.admin := f (Config.admin c) |>.

(** The target section of [apply_bench_flags]. *)
Definition apply_target (a : BenchArgs) (c : Config.t) : result LabError Config.t :=
  c ← match a_host a, a_port a with
      | None, None => Ok c
      | host, port =>
          addr ← resolve_host (default default_host host) (default default_port port);
          Ok (set_target (fun t => t <| Target.endpoints := [addr] |>) c)
      end;
  let c := when (a_resp3 a) (set_target (fun t => t <| Target.protocol := Resp3 |>)) c in
  let c := when (a_tls a) (set_target (fun t => t <| Target.tls := true |>)) c in
  let c := when (a_tls_skip_verify a) (set_target (fun t => t <| Target.tls_verify := false |>)) c in
  let c := when (a_cluster a) (set_target (fun t => t <| Target.cluster := true |>)) c in
  Ok (given (a_tls_hostname a) (fun h => set_target (fun t => t <| Target.tls_hostname := Some h |>)) c).

(** Its general and connection sections. *)
Definition apply_general (a : BenchArgs) (c : Config.t) : Config.t :=
  let c := given (a_duration a) (fun d => set_general (fun g => g <| General.duration := d |>)) c in
  let c := given (a_warmup a) (fun w => set_general (fun g => g <| General.warmup := w |>)) c in
  let c := given (a_threads a) (fun t => set_general (fun g => g <| General.threads := t |>)) c in
  given (a_cpu_list a) (fun l => set_general (fun g => g <| General.cpu_list := Some l |>)) c.

Definition apply_connection (a : BenchArgs) (c : Config.t) : Config.t :=
  let c := given (a_connections a) (fun n => set_connection (fun k => k <| Connection.connections := n |>)) c in
  let c := given (a_pipeline a) (fun p => set_connection (fun k => k <| Connection.pipeline_depth := p |>)) c in
  let c := given (a_batch_size a) (fun b => set_connection (fun k => k <| Connection.batch_size := Some b |>)) c in
  let c := given (a_connect_timeout a) (fun t => set_connection (fun k => k <| Connection.connect_timeout := t |>)) c in
  given (a_request_timeout a) (fun t => set_connection (fun k => k <| Connection.request_timeout := t |>)) c.

(** Its workload section. *)
Definition apply_workload (a : BenchArgs) (c : Config.t) : result LabError Config.t :=
  c ← match a_ratio a with
      | Some ratio =>
          '(get, set) ← parse_ratio ratio;
          Ok (set_workload (fun w => w <| Workload.commands := {| Commands.get := get; Commands.set := set; Commands.delete := 0 |} |>) c)
      | None => Ok c
      end;
  let c := given (a_key_size a) (fun n => set_keyspace (fun k => k <| Keyspace.length := n |>)) c in
  let c := given (a_keyspace a) (fun n => set_keyspace (fun k => k <| Keyspace.count := n |>)) c in
  let c := given (a_distribution a) (fun d => set_keyspace (fun k => k <| Keyspace.distribution := Distribution_from d |>)) c in
  let c := given (a_data_size a) (fun n => set_workload (fun w => w <| Workload.values := {| Values.length := n |} |>)) c in
  let c := when (a_prefill a) (set_workload (fun w => w <| Workload.prefill := true |>)) c in
  let c := when (a_backfill a) (set_workload (fun w => w <| Workload.backfill_on_miss := true |>)) c in
  Ok (given (a_rate_limit a) (fun r => set_workload (fun w => w <| Workload.rate_limit := Some r |>)) c).

(** Its output section. *)
Definition apply_admin (a : BenchArgs) (c : Config.t) : result LabError Config.t :=
  c ← match a_output a with
      | Some output => format ← parse_format output; Ok (set_admin (fun d => d <| Admin.format := format |>) c)
      | None => Ok c
      end;
  c ← match a_color a with
      | Some color => color ← parse_color color; Ok (set_admin (fun d => d <| Admin.color := color |>) c)
      | None => Ok c
      end;
  Ok (given (a_parquet a) (fun p => set_admin (fun d => d <| Admin.parquet := Some p |>)) c).

(** [apply_bench_flags]. *)
Definition apply_bench_flags (c : Config.t) (a : BenchArgs) : result LabError Config.t :=
  c ← apply_target a c;
  c ← apply_workload a (apply_connection a (apply_general a c));
  apply_admin a c.

Definition layered_config (a : BenchArgs) : result LabError Config.t :=
  c ← load_base_config a; apply_bench_flags c a.

Definition validated (c : Config.t) : result LabError Config.t :=
  match validate dma_build c with Ok _ => Ok c | Err e => Err (LabConfig e) end.

(** [build_config]. *)
Definition build_config (a : BenchArgs) : result LabError Config.t := c ← layered_config a; validated c.

(** [as_deref().map(parse_duration).transpose()?]. *)
Definition parse_slo (s : option str) : result LabError (option Z) :=
  match s with
  | None => Ok None
  | Some s => match parse_duration s with Ok d => Ok (Some d) | Err e => Err (LabMessage e) end
  end.

(** [build_config_from_saturate]. *)
Definition build_config_from_saturate (a : SaturateArgs) : result LabError Config.t :=
  c ← layered_config (s_bench a);
  p50 ← parse_slo (s_slo_p50 a);
  p99 ← parse_slo (s_slo_p99 a);
  p999 ← parse_slo (s_slo_p999 a);
  match p50, p99, p999 with
  | None, None, None =>
      Err (LabMessage (bytes_of "saturate requires at least one SLO threshold (--slo-p50, --slo-p99, or --slo-p999)"))
  | _, _, _ =>
      validated (set_workload (fun w => w <| Workload.saturation_search := Some
        {| SaturationSearch.slo := {| SloThresholds.p50 := p50; SloThresholds.p99 := p99; SloThresholds.p999 := p999 |};
           SaturationSearch.start_rate := s_start_rate a; SaturationSearch.step_multiplier := s_step a;
           SaturationSearch.sample_window := from_secs (s_sample_window a);
           SaturationSearch.drain_window := from_millis 500; SaturationSearch.stop_after_failures := 3;
           SaturationSearch.max_rate := s_max_rate a; SaturationSearch.min_throughput_ratio := f64_lit 9 10;
           SaturationSearch.confirm_failures := default_confirm_failures;
           SaturationSearch.floor_improvement_ratio := default_floor_improvement_ratio;
           SaturationSearch.bisect_tolerance := f64_lit 5 100; SaturationSearch.max_bisect_steps := 8 |} |>) c)
  end.

End builders.

(** ** What the flags mean

    The configuration with every field named: a flag that was given, and
    otherwise the base's value. *)

Definition flagged (a : BenchArgs) (c : Config.t) (addr : option SocketAddr) (ratio : option (Z * Z))
    (format : option OutputFormat) (color : option ColorMode) : Config.t :=
  let g := Config.general c in let t := Config.target c in let k := Config.connection c in
  let w := Config.workload c in let ks := Workload.keyspace w in let d := Config.admin c in
  {| Config.general :=
       {| General.duration := default (General.duration g) (a_duration a);
          General.warmup := default (General.warmup g) (a_warmup a);
          General.threads := default (General.threads g) (a_threads a);
          General.cpu_list := match a_cpu_list a with Some l => Some l | None => General.cpu_list g end;
          General.ringline_diag := General.ringline_diag g; General.recv_ring_size := General.recv_ring_size g;
          General.recv_buffer_size := General.recv_buffer_size g; General.seed := General.seed g |};
     Config.target :=
       {| Target.endpoints := match addr with Some x => [x] | None => Target.endpoints t end;
          Target.protocol := if a_resp3 a then Resp3 else Target.protocol t;
          Target.tls := a_tls a || Target.tls t;
          Target.tls_hostname := match a_tls_hostname a with Some h => Some h | None => Target.tls_hostname t end;
          Target.tls_verify := negb (a_tls_skip_verify a) && Target.tls_verify t;
          Target.tls_ca_file := Target.tls_ca_file t; Target.tls_cert_file := Target.tls_cert_file t;
          Target.tls_key_file := Target.tls_key_file t; Target.cluster := a_cluster a || Target.cluster t;
          Target.auto_discovery := Target.auto_discovery t |};
     Config.connection :=
       {| Connection.connections := default (Connection.connections k) (a_connections a);
          Connection.pool_size := Connection.pool_size k;
          Connection.pipeline_depth := default (Connection.pipeline_depth k) (a_pipeline a);
          Connection.batch_size := match a_batch_size a with Some b => Some b | None => Connection.batch_size k end;
          Connection.connect_timeout := default (Connection.connect_timeout k) (a_connect_timeout a);
          Connection.request_timeout := default (Connection.request_timeout k) (a_request_timeout a);
          Connection.request_distribution := Connection.request_distribution k;
          Connection.endpoint_allocation := Connection.endpoint_allocation k |};
     Config.workload :=
       {| Workload.rate_limit := match a_rate_limit a with Some r => Some r | None => Workload.rate_limit w end;
          Workload.prefill_rate_limit := Workload.prefill_rate_limit w; Workload.prefill := a_prefill a || Workload.prefill w;
          Workload.prefill_timeout := Workload.prefill_timeout w; Workload.prefill_settle := Workload.prefill_settle w;
          Workload.backfill_on_miss := a_backfill a || Workload.backfill_on_miss w; Workload.routing := Workload.routing w;
          Workload.read_values := Workload.read_values w;
          Workload.keyspace :=
            {| Keyspace.length := default (Keyspace.length ks) (a_key_size a);
               Keyspace.count := default (Keyspace.count ks) (a_keyspace a);
               Keyspace.distribution :=
                 match a_distribution a with Some x => Distribution_from x | None => Keyspace.distribution ks end;
               Keyspace.zipf_theta := Keyspace.zipf_theta ks; Keyspace.format := Keyspace.format ks;
               Keyspace.hot_generations := Keyspace.hot_generations ks; Keyspace.hot_decay := Keyspace.hot_decay ks;
               Keyspace.hot_fraction := Keyspace.hot_fraction ks |};
          Workload.commands :=
            match ratio with
            | Some (get, set) => {| Commands.get := get; Commands.set := set; Commands.delete := 0 |}
            | None => Workload.commands w
            end;
          Workload.values := match a_data_size a with Some n => {| Values.length := n |} | None => Workload.values w end;
          Workload.saturation_search := Workload.saturation_search w; Workload.append := Workload.append w;
          Workload.kv_replay := Workload.kv_replay w; Workload.trace_replay := Workload.trace_replay w |};
     Config.timestamps := Config.timestamps c;
     Config.admin :=
       {| Admin.listen := Admin.listen d;
          Admin.parquet := match a_parquet a with Some p => Some p | None => Admin.parquet d end;
          Admin.parquet_interval := Admin.parquet_interval d;
          Admin.format := default (Admin.format d) format; Admin.color := default (Admin.color d) color |};
     Config.dma := Config.dma c;
     Config.resp := Config.resp c |}.

(** The parsed value of a flag that was given. *)
Definition read_flag {A B} (parse : A -> result LabError B) (flag : option A) : result LabError (option B) :=
  match flag with Some x => y ← parse x; Ok (Some y) | None => Ok None end.

(** The endpoint [--host] and [--port] name together. *)
Definition endpoint_flag (a : BenchArgs) : option (str * Z) :=
  match a_host a, a_port a with
  | None, None => None
  | host, port => Some (default default_host host, default default_port port)
  end.

(** ** Types

    The range of each field's Rust type. *)

Definition is_duration (ns : Z) : Prop := 0 <= ns < 2 ^ 64 * 1000000000.

Definition fits64 (n : Z) : Prop := is_u64 n.

Definition is_u8 (n : Z) : Prop := 0 <= n <= u8_max.

Definition if_some {A} (P : A -> Prop) (o : option A) : Prop := match o with Some x => P x | None => True end.

Definition search_typed (s : SaturationSearch.t) : Prop :=
  if_some is_duration (SloThresholds.p50 (SaturationSearch.slo s)) /\ if_some is_duration (SloThresholds.p99 (SaturationSearch.slo s)) /\
  if_some is_duration (SloThresholds.p999 (SaturationSearch.slo s)) /\ fits64 (SaturationSearch.start_rate s) /\
  is_duration (SaturationSearch.sample_window s) /\ is_duration (SaturationSearch.drain_window s) /\
  0 <= SaturationSearch.stop_after_failures s <= u32_max /\ fits64 (SaturationSearch.max_rate s) /\
  0 <= SaturationSearch.confirm_failures s <= u32_max /\ 0 <= SaturationSearch.max_bisect_steps s <= u32_max.

Definition config_typed (c : Config.t) : Prop :=
  let g := Config.general c in let k := Config.connection c in let w := Config.workload c in
  let ks := Workload.keyspace w in let cmds := Workload.commands w in
  (is_duration (General.duration g) /\ is_duration (General.warmup g) /\ fits64 (General.threads g)) /\
  (fits64 (Connection.connections k) /\ fits64 (Connection.pipeline_depth k) /\ if_some fits64 (Connection.batch_size k) /\
   is_duration (Connection.connect_timeout k) /\ is_duration (Connection.request_timeout k)) /\
  (if_some fits64 (Workload.rate_limit w) /\ is_duration (Workload.prefill_timeout w) /\ is_duration (Workload.prefill_settle w) /\
   fits64 (Keyspace.length ks) /\ fits64 (Keyspace.count ks) /\ fits64 (Values.length (Workload.values w)) /\
   is_u8 (Commands.get cmds) /\ is_u8 (Commands.set cmds) /\ is_u8 (Commands.delete cmds) /\
   if_some search_typed (Workload.saturation_search w)).

(** What clap hands over. *)
Definition args_typed (a : BenchArgs) : Prop :=
  if_some is_duration (a_duration a) /\ if_some is_duration (a_warmup a) /\ if_some fits64 (a_threads a) /\
  if_some fits64 (a_connections a) /\ if_some fits64 (a_pipeline a) /\ if_some fits64 (a_batch_size a) /\
  if_some is_duration (a_connect_timeout a) /\ if_some is_duration (a_request_timeout a) /\ if_some fits64 (a_rate_limit a) /\
  if_some fits64 (a_key_size a) /\ if_some fits64 (a_keyspace a) /\ if_some fits64 (a_data_size a).

(** ** Lemmas *)

Lemma apply_general_flagged a c :
  apply_general a c = c <| Config.general := Config.general (flagged a c None None None None) |>.
Proof.
  unfold apply_general, flagged. destruct c as [[] t k w s d m r]. cbn.
  by destruct (a_duration a), (a_warmup a), (a_threads a), (a_cpu_list a).
Qed.

Lemma apply_connection_flagged a c :
  apply_connection a c = c <| Config.connection := Config.connection (flagged a c None None None None) |>.
Proof.
  unfold apply_connection, flagged. destruct c as [g t [] w s d m r]. cbn.
  by destruct (a_connections a), (a_pipeline a), (a_batch_size a), (a_connect_timeout a), (a_request_timeout a).
Qed.

Lemma apply_target_flagged resolve a c :
  apply_target resolve a c =
    addr ← read_flag (fun '(host, port) => resolve_host resolve host port) (endpoint_flag a);
    Ok (c <| Config.target := Config.target (flagged a c addr None None None) |>).
Proof.
  unfold apply_target, endpoint_flag, flagged. destruct c as [g [] k w s d m r]. cbn.
  destruct (a_host a) as [h|], (a_port a) as [p|]; cbn; try destruct (resolve_host resolve _ _); cbn;
    by destruct (a_resp3 a), (a_tls a), (a_tls_skip_verify a), (a_cluster a), (a_tls_hostname a).
Qed.

Lemma apply_workload_flagged a c :
  apply_workload a c =
    ratio ← read_flag parse_ratio (a_ratio a);
    Ok (c <| Config.workload := Config.workload (flagged a c None ratio None None) |>).
Proof.
  unfold apply_workload, flagged. destruct c as [g t k [rl prl pf pt ps bf ro rv [] cm va ss ap kv tr] s d m r]. cbn.
  destruct (a_ratio a) as [ra|]; cbn; [destruct (parse_ratio ra) as [[get set]|]; [|done]|]; cbn;
    destruct (a_key_size a), (a_keyspace a), (a_distribution a), (a_data_size a); cbn;
    by destruct (a_prefill a), (a_backfill a), (a_rate_limit a).
Qed.

Lemma apply_admin_flagged a c :
  apply_admin a c =
    format ← read_flag parse_format (a_output a);
    color ← read_flag parse_color (a_color a);
    Ok (c <| Config.admin := Config.admin (flagged a c None None format color) |>).
Proof.
  unfold apply_admin, flagged. destruct c as [g t k w s [] m r]. cbn.
  destruct (a_output a) as [o|]; cbn; [destruct (parse_format o); [|done]|]; cbn;
    (destruct (a_color a) as [x|]; cbn; [destruct (parse_color x); [|done]|]; cbn); by destruct (a_parquet a).
Qed.

(** *** Text *)

Lemma split_number_app num suffix :
  Forall (fun c => 48 <= c < 58) num -> match suffix with c :: _ => ~ 48 <= c < 58 | [] => True end ->
  split_number (num ++ suffix) = (num, suffix).
Proof.
  intros N S. induction N as [|c num C N IH].
  - destruct suffix as [|c s]; [done|]. cbn [app split_number]. destruct (_ && _) eqn:E; [lia|done].
  - cbn [app split_number]. destruct (_ && _) eqn:E; [|lia]. by rewrite IH.
Qed.

Lemma trim_start_pad ws s : Forall (fun c => is_whitespace c = true) ws -> trim_start (ws ++ s) = trim_start s.
Proof. induction 1 as [|c ws C F IH]; [done|]. cbn. by rewrite C. Qed.

Lemma trim_pad before s after :
  Forall (fun c => is_whitespace c = true) before -> Forall (fun c => is_whitespace c = true) after ->
  starts_solid s -> starts_solid (rev s) -> trim (before ++ s ++ after) = s.
Proof.
  intros B A S R. destruct s as [|c s].
  - unfold trim. cbn [app]. rewrite trim_start_pad by done. pose proof (trim_start_pad after [] A) as E.
    rewrite app_nil_r in E. by rewrite E.
  - unfold trim. rewrite trim_start_pad by done. rewrite (trim_start_solid ((c :: s) ++ after)) by exact S. rewrite rev_app_distr, trim_start_pad.
    + rewrite trim_start_solid by done. apply rev_involutive.
    + by apply Forall_rev.
Qed.

Lemma digits_solid ds : Forall (fun c => 48 <= c < 58) ds -> starts_solid ds.
Proof.
  destruct 1 as [|c ds C _]; [done|]. cbn. apply not_true_is_false. unfold is_whitespace.
  rewrite !orb_true_iff, !andb_true_iff, bool_decide_eq_true, !elem_of_cons, elem_of_nil. lia.
Qed.

(** The unit names: no digit first, no white space at the ends. *)
Lemma unit_letters suffix factor unit_ns : duration_unit suffix = Some (factor, unit_ns) ->
  (0 <= factor /\ match suffix with c :: _ => ~ 48 <= c < 58 | [] => True end) /\ starts_solid suffix /\ starts_solid (rev suffix).
Proof.
  unfold duration_unit. repeat case_bool_decide; try done; intros [= <- <-]; subst;
    repeat match goal with
    | H : _ ∈ _ |- _ => apply elem_of_cons in H as [->|H] || by apply elem_of_nil in H
    end; (split_and!; [lia|first [exact I|vm_compute; intuition congruence]|first [exact I|reflexivity]|first [exact I|reflexivity]]).
Qed.

Lemma parse_duration_parts s num suffix n :
  trim s = num ++ suffix -> num <> [] -> split_number (num ++ suffix) = (num, suffix) -> parse_uint u64_max num = Ok n ->
  parse_duration s =
  match duration_unit (trim suffix) with
  | Some (factor, unit_ns) => Ok (wrap64 (n * factor) * unit_ns)
  | None => Err (bytes_of "unknown time unit '" ++ trim suffix ++ bytes_of "' in duration")
  end.
Proof.
  intros T N S P. unfold parse_duration. rewrite T. destruct num as [|c num]; [done|]. cbn [app] in *. by rewrite S, P.
Qed.

Lemma parse_digits_range max acc s n : 0 <= acc <= max -> parse_digits max acc s = Ok n -> 0 <= n <= max.
Proof.
  revert acc. induction s as [|c s IH]; intros acc A; cbn [parse_digits]; [by intros [= <-]|]. unfold digit.
  destruct (_ && _) eqn:D; [|done]. destruct (max <? _) eqn:M; [done|]. apply IH. lia.
Qed.

Lemma parse_uint_range max s n : 0 <= max -> parse_uint max s = Ok n -> 0 <= n <= max.
Proof.
  intros M. unfold parse_uint. destruct s as [|c s]; [done|]. destruct (_ && _); [done|]. apply parse_digits_range. lia.
Qed.

(** *** Validation *)

Lemma validated_ok dma_build c c' : validated dma_build c = Ok c' -> c' = c /\ validate dma_build c' = Ok tt.
Proof. unfold validated. destruct (validate dma_build c) as [[]|] eqn:V; [|done]. by intros [= <-]. Qed.

Definition parse_slo_flag (s : str) : result LabError Z :=
  match parse_duration s with Ok d => Ok d | Err e => Err (LabMessage e) end.

Lemma parse_slo_flagged s : parse_slo s = read_flag parse_slo_flag s.
Proof. unfold parse_slo, read_flag, parse_slo_flag. destruct s as [s|]; [|done]. by destruct (parse_duration s). Qed.

(** *** All flags *)

Lemma apply_bench_flagged (resolve : str -> Z -> result LabError (list SocketAddr)) (a : BenchArgs) (base : Config.t) :
  apply_bench_flags resolve base a =
    addr ← read_flag (fun '(host, port) => resolve_host resolve host port) (endpoint_flag a);
    ratio ← read_flag parse_ratio (a_ratio a);
    format ← read_flag parse_format (a_output a);
    color ← read_flag parse_color (a_color a);
    Ok (flagged a base addr ratio format color).
Proof.
  unfold apply_bench_flags. rewrite apply_target_flagged. destruct (read_flag _ (endpoint_flag a)) as [addr|]; [|done].
  cbn [mbind result_bind]. rewrite apply_general_flagged, apply_connection_flagged, apply_workload_flagged.
  destruct (read_flag parse_ratio _) as [ratio|]; [|done]. cbn [mbind result_bind]. rewrite apply_admin_flagged.
  destruct (read_flag parse_format _) as [format|]; [|done]. cbn [mbind result_bind].
  by destruct (read_flag parse_color _) as [color|], base as [[] [] [] [] ? [] ? ?].
Qed.

Lemma layered_flagged load resolve num_cpus a :
  layered_config load resolve num_cpus a =
    base ← load_base_config load resolve num_cpus a;
    addr ← read_flag (fun '(host, port) => resolve_host resolve host port) (endpoint_flag a);
    ratio ← read_flag parse_ratio (a_ratio a);
    format ← read_flag parse_format (a_output a);
    color ← read_flag parse_color (a_color a);
    Ok (flagged a base addr ratio format color).
Proof.
  unfold layered_config. destruct (load_base_config _ _ _ _) as [base|]; [|done]. cbn [mbind result_bind]. apply apply_bench_flagged.
Qed.

(** *** Ranges *)

Lemma default_typed {A} (P : A -> Prop) x o : P x -> if_some P o -> P (default x o).
Proof. by destruct o. Qed.

Lemma duration_unit_range suffix factor unit_ns :
  duration_unit suffix = Some (factor, unit_ns) -> 0 <= factor <= 3600 /\ 0 < unit_ns <= 1000000000.
Proof. unfold duration_unit. repeat case_bool_decide; try done; intros [= <- <-]; lia. Qed.

Lemma parse_duration_range s d : parse_duration s = Ok d -> is_duration d.
Proof.
  unfold parse_duration. destruct (trim s) as [|c r]; [done|]. destruct (split_number (c :: r)) as [num suffix].
  destruct (parse_uint u64_max num) as [v|]; [|done]. destruct (duration_unit (trim suffix)) as [[factor unit_ns]|] eqn:U; [|done].
  intros [= <-]. destruct (duration_unit_range _ _ _ U). pose proof (wrap64_range (v * factor)) as W. unfold is_duration, u64_max in *. nia.
Qed.

Lemma parse_ratio_range text g s : parse_ratio text = Ok (g, s) -> is_u8 g /\ is_u8 s /\ (g, s) <> (0, 0).
Proof.
  unfold parse_ratio. destruct (split _ text) as [|a [|b [|]]]; try done.
  destruct (parse_uint u8_max (trim a)) as [x|] eqn:X; [|done]. destruct (parse_uint u8_max (trim b)) as [y|] eqn:Y; [|done].
  cbn [or_message mbind result_bind]. apply parse_uint_range in X, Y; [|done..]. destruct (_ && _) eqn:E; [done|].
  intros R. injection R as <- <-. split; [done|]. split; [done|]. intros [= -> ->]. done.
Qed.

Lemma read_flag_ok {A B} (parse : A -> result LabError B) flag x :
  read_flag parse flag = Ok x -> match x with Some y => exists t, flag = Some t /\ parse t = Ok y | None => flag = None end.
Proof. destruct flag as [t|]; cbn; [|by intros [= <-]]. destruct (parse t) eqn:P; cbn; [|done]. intros [= <-]. by exists t. Qed.

Lemma flagged_typed a base addr ratio format color :
  args_typed a -> config_typed base -> if_some (fun '(g, s) => is_u8 g /\ is_u8 s) ratio ->
  config_typed (flagged a base addr ratio format color).
Proof.
  intros (A1 & A2 & A3 & A4 & A5 & A6 & A7 & A8 & A9 & A10 & A11 & A12) ((G1 & G2 & G3) & (K1 & K2 & K3 & K4 & K5) & W) R.
  destruct W as (W1 & W2 & W3 & W4 & W5 & W6 & W7 & W8 & W9 & W10). unfold config_typed, flagged. cbn -[u64_max u8_max is_u8 is_duration fits64 search_typed].
  split_and!; try (by apply default_typed); try done.
  - by destruct (a_batch_size a).
  - by destruct (a_rate_limit a).
  - by destruct (a_data_size a).
  - by destruct ratio as [[g s]|]; [apply R|].
  - by destruct ratio as [[g s]|]; [apply R|].
  - by destruct ratio as [[g s]|].
Qed.

Lemma parse_slo_range s o : parse_slo s = Ok o -> if_some is_duration o.
Proof.
  unfold parse_slo. destruct s as [s|]; [|by intros [= <-]]. destruct (parse_duration s) as [n|] eqn:P; [|done].
  intros [= <-]. by apply (parse_duration_range s).
Qed.

Lemma base_typed load resolve num_cpus a c :
  (forall path c, load path = Ok c -> config_typed c) -> fits64 num_cpus -> args_typed a ->
  load_base_config load resolve num_cpus a = Ok c -> config_typed c.
Proof.
  intros Ld N (A1 & A2 & A3 & A4 & A5 & A6 & A7 & A8 & _). unfold load_base_config. destruct (a_config a) as [path|]; [apply Ld|].
  destruct (resolve_host _ _ _) as [addr|]; [|done]. cbn [mbind result_bind]. intros E. injection E as <-.
  assert (D : forall s, 0 <= s < 2 ^ 64 -> is_duration (from_secs s)) by (unfold is_duration, from_secs; lia).
  assert (F : forall n, 0 <= n <= 1000000 -> fits64 n) by (unfold fits64, u64_max; lia).
  unfold config_typed. cbn -[u64_max u8_max is_u8 is_duration fits64 from_secs]. split_and!;
    try (apply default_typed; [|done]); try done; try (by apply D); try (by apply F); by vm_compute.
Qed.

Lemma layered_typed load resolve num_cpus a c :
  (forall path c, load path = Ok c -> config_typed c) -> fits64 num_cpus -> args_typed a ->
  layered_config load resolve num_cpus a = Ok c -> config_typed c.
Proof.
  intros Ld N A. rewrite layered_flagged. destruct (load_base_config _ _ _ _) as [base|] eqn:B; [|done]. cbn [mbind result_bind].
  apply base_typed in B; [|done..]. destruct (read_flag _ (endpoint_flag a)) as [addr|]; [|done]. cbn [mbind result_bind].
  destruct (read_flag parse_ratio _) as [ratio|] eqn:R; [|done]. cbn [mbind result_bind].
  destruct (read_flag parse_format _) as [format|]; [|done]. cbn [mbind result_bind].
  destruct (read_flag parse_color _) as [color|]; [|done]. cbn [mbind result_bind]. intros E. injection E as <-.
  apply flagged_typed; [done|done|]. apply read_flag_ok in R. destruct ratio as [[g s]|]; [|done]. destruct R as (t & _ & R).
  by destruct (parse_ratio_range _ _ _ R) as (? & ? & _).
Qed.

(** ** Theorems *)

(** C9: What a valkey-lab run is launched with.  The sequence of assignments
    is one record: every field a flag names has the flag's value, every other
    field of every table keeps the base's.  The failures are, in this order,
    the base's, the endpoint's, the ratio's, the output format's and the
    color's, and the validation of the finished record - no flag is applied
    after it.  [saturate] adds to the same record a search with the bounds its
    flags name, refused when there is none, and only then validates. *)
Theorem flags_override (load : string -> result LabError Config.t) (resolve : str -> Z -> result LabError (list SocketAddr))
    (num_cpus : Z) (dma_build : bool) :
  (forall a, build_config load resolve num_cpus dma_build a =
    base ← load_base_config load resolve num_cpus a;
    addr ← read_flag (fun '(host, port) => resolve_host resolve host port) (endpoint_flag a);
    ratio ← read_flag parse_ratio (a_ratio a);
    format ← read_flag parse_format (a_output a);
    color ← read_flag parse_color (a_color a);
    let c := flagged a base addr ratio format color in
    match validate dma_build c with Ok _ => Ok c | Err e => Err (LabConfig e) end) /\
  (forall sat c, build_config_from_saturate load resolve num_cpus dma_build sat = Ok c ->
    exists base search, layered_config load resolve num_cpus (s_bench sat) = Ok base /\
      c = set_workload (fun w => w <| Workload.saturation_search := Some search |>) base /\ validate dma_build c = Ok tt /\
      read_flag parse_slo_flag (s_slo_p50 sat) = Ok (SloThresholds.p50 (SaturationSearch.slo search)) /\
      read_flag parse_slo_flag (s_slo_p99 sat) = Ok (SloThresholds.p99 (SaturationSearch.slo search)) /\
      read_flag parse_slo_flag (s_slo_p999 sat) = Ok (SloThresholds.p999 (SaturationSearch.slo search)) /\
      SaturationSearch.slo search <> {| SloThresholds.p50 := None; SloThresholds.p99 := None; SloThresholds.p999 := None |}).
Proof.
  split.
  - intros a. unfold build_config. rewrite layered_flagged. destruct (load_base_config _ _ _ _) as [base|]; [|done].
    cbn [mbind result_bind]. destruct (read_flag _ (endpoint_flag a)) as [addr|]; [|done]. cbn [mbind result_bind].
    destruct (read_flag parse_ratio _) as [ratio|]; [|done]. cbn [mbind result_bind].
    destruct (read_flag parse_format _) as [format|]; [|done]. cbn [mbind result_bind].
    by destruct (read_flag parse_color _) as [color|].
  - intros sat c. unfold build_config_from_saturate. destruct (layered_config _ _ _ (s_bench sat)) as [base|]; [|done].
    cbn [mbind result_bind]. rewrite !parse_slo_flagged.
    destruct (read_flag _ (s_slo_p50 sat)) as [p50|]; [|done]. destruct (read_flag _ (s_slo_p99 sat)) as [p99|]; [|done].
    destruct (read_flag _ (s_slo_p999 sat)) as [p999|]; [|done]. cbn [mbind result_bind]. intros E.
    destruct p50, p99, p999; try done; (destruct (validated_ok _ _ _ E) as [-> V]; do 2 eexists; by split_and!).
Qed.

(** Durations round trip.  The decimal text of any [u64], any of the unit
    names, and any white space before, between and after, parse to that many
    units - except that minutes and hours are multiplied as a [u64], so the
    result is the value modulo [2^64] seconds. *)
Theorem duration_reads_back (n factor unit_ns : Z) (before between after suffix : str)
    (Hn : is_u64 n) (Hu : duration_unit suffix = Some (factor, unit_ns))
    (Hb : Forall (fun c => is_whitespace c = true) before) (Hm : Forall (fun c => is_whitespace c = true) between)
    (Ha : Forall (fun c => is_whitespace c = true) after) :
  parse_duration (before ++ show n ++ between ++ suffix ++ after) = Ok (wrap64 (n * factor) * unit_ns) /\
  (n * factor <= u64_max -> parse_duration (before ++ show n ++ between ++ suffix ++ after) = Ok (n * factor * unit_ns)).
Proof.
  destruct (unit_letters suffix factor unit_ns Hu) as (F & L & R).
  assert (P : parse_duration (before ++ show n ++ between ++ suffix ++ after) = Ok (wrap64 (n * factor) * unit_ns)).
  { pose proof (digits_solid (show n) (show_digits n)) as S. pose proof (show_nonempty n) as Ne.
    destruct (decide (suffix = [])) as [->|N].
    - rewrite (parse_duration_parts _ (show n) [] n); [by change (trim []) with (@nil Z); rewrite Hu| |done|by apply split_number_app; [apply show_digits|]|by apply parse_show].
      cbn [app]. rewrite app_nil_r. apply trim_pad; [done|by apply Forall_app|done|]. apply digits_solid, Forall_rev, show_digits.
    - rewrite (parse_duration_parts _ (show n) (between ++ suffix) n); [| |done| |by apply parse_show].
      + pose proof (trim_pad between suffix [] Hm ltac:(constructor) L R) as T. rewrite app_nil_r in T. by rewrite T, Hu.
      + rewrite <- (trim_pad before (show n ++ between ++ suffix) after); [by rewrite <- !app_assoc|done|done|by destruct (show n)|].
        rewrite !rev_app_distr. destruct (rev suffix) eqn:E; [|done]. apply (f_equal (@rev Z)) in E. by rewrite rev_involutive in E.
      + apply split_number_app; [apply show_digits|]. destruct between as [|c b]; [by destruct F|]. apply Forall_cons in Hm as [C _].
        cbn. intros D. pose proof (digits_solid [c]) as D'. cbn in D'. rewrite D' in C; [done|]. constructor; [done|constructor]. }
  split; [exact P|]. intros O. rewrite P, wrap64_small; [done|]. split; [nia|done].
Qed.

(** Ratios round trip and nothing else passes.  Two numbers of a byte
    joined by a colon parse to themselves unless both are zero, and whatever
    text is accepted gave two such numbers. *)
Theorem ratio_reads_back (get set : Z) (Hg : 0 <= get <= u8_max) (Hs : 0 <= set <= u8_max) :
  parse_ratio (show get ++ 58 :: show set) =
    (if (get =? 0) && (set =? 0) then Err (LabMessage (bytes_of "ratio cannot be 0:0")) else Ok (get, set)) /\
  (forall text g s, parse_ratio text = Ok (g, s) -> 0 <= g <= u8_max /\ 0 <= s <= u8_max /\ (g, s) <> (0, 0)).
Proof.
  split.
  - unfold parse_ratio. assert (N : forall n, Forall (fun c => (58 =? c) = false) (show n)).
    { intros n. eapply Forall_impl; [apply show_digits|]. cbv beta. lia. }
    rewrite split_word_app, split_word by (apply N || done).
    assert (T : forall n, trim (show n) = show n) by (intros n; apply trim_solid; apply digits_solid; [|apply Forall_rev]; apply show_digits).
    rewrite !T, !parse_show by done. done.
  - intros text g s P. by destruct (parse_ratio_range _ _ _ P).
Qed.

(** Every configuration valkey-lab builds is well typed: each number is in
    the range of its field's Rust type - durations below 2^64 seconds, sizes
    and counts in a [u64], ratios in a [u8] - given that the loaded file's, the
    flags' and the host's are.  No parse, product or default leaves a range. *)
Theorem built_config_typed (load : string -> result LabError Config.t) (resolve : str -> Z -> result LabError (list SocketAddr))
    (num_cpus : Z) (dma_build : bool) (a : BenchArgs) (sat : SaturateArgs)
    (Hload : forall path c, load path = Ok c -> config_typed c) (Hcpus : fits64 num_cpus)
    (Hargs : args_typed a) (Hsat : args_typed (s_bench sat))
    (Hrates : fits64 (s_start_rate sat) /\ fits64 (s_max_rate sat) /\ fits64 (s_sample_window sat)) :
  (forall c, build_config load resolve num_cpus dma_build a = Ok c -> config_typed c) /\
  (forall c, build_config_from_saturate load resolve num_cpus dma_build sat = Ok c -> config_typed c).
Proof.
  assert (L : forall b, args_typed b -> forall c, layered_config load resolve num_cpus b = Ok c -> config_typed c)
    by (intros b B c; by apply layered_typed).
  split.
  - intros c. unfold build_config. destruct (layered_config _ _ _ a) as [base|] eqn:E; [|done]. cbn [mbind result_bind].
    intros V. destruct (validated_ok _ _ _ V) as [-> _]. by apply (L a).
  - intros c. unfold build_config_from_saturate. destruct (layered_config _ _ _ (s_bench sat)) as [base|] eqn:E; [|done].
    cbn [mbind result_bind]. apply (L _ Hsat) in E. destruct Hrates as (R1 & R2 & R3).
    destruct (parse_slo (s_slo_p50 sat)) as [p50|] eqn:P50; [|done]. destruct (parse_slo (s_slo_p99 sat)) as [p99|] eqn:P99; [|done].
    destruct (parse_slo (s_slo_p999 sat)) as [p999|] eqn:P999; [|done]. cbn [mbind result_bind].
    apply parse_slo_range in P50, P99, P999. intros V.
    assert (V' : p50 = None /\ p99 = None /\ p999 = None \/ exists search, search_typed search /\
      c = set_workload (fun w => w <| Workload.saturation_search := Some search |>) base).
    { destruct p50, p99, p999; try done; right; destruct (validated_ok _ _ _ V) as [-> _]; eexists; (split; [|reflexivity]);
        unfold search_typed, is_duration, fits64, u32_max, from_secs, from_millis, u64_max in *; cbn -[Z.pow Z.mul] in *; split_and!; try done; lia. }
    destruct V' as [(-> & -> & ->)|(search & S & ->)]; [done|]. destruct E as (G & K & W). split; [exact G|]. split; [exact K|].
    destruct W as (W1 & W2 & W3 & W4 & W5 & W6 & W7 & W8 & W9 & _). cbn. by split_and!.
Qed.

(** ** Witnesses and examples *)

Definition no_flags : BenchArgs :=
  {| a_host := None; a_port := None; a_duration := None; a_connections := None; a_pipeline := None; a_batch_size := None;
     a_threads := None; a_ratio := None; a_keyspace := None; a_data_size := None; a_cluster := false; a_tls := false;
     a_output := None; a_warmup := None; a_key_size := None; a_distribution := None; a_rate_limit := None;
     a_prefill := false; a_backfill := false; a_parquet := None; a_cpu_list := None; a_resp3 := false;
     a_tls_skip_verify := false; a_tls_hostname := None; a_connect_timeout := None; a_request_timeout := None;
     a_color := None; a_config := None |}.

Definition saturate_flags : SaturateArgs :=
  {| s_bench := no_flags; s_slo_p50 := None; s_slo_p99 := Some (bytes_of "1ms"); s_slo_p999 := None; s_start_rate := 1000;
     s_step := f64_lit 105 100; s_sample_window := 5; s_max_rate := 100000000 |}.

Definition no_file (_ : string) : result LabError Config.t := Err (LabMessage []).
Definition local_host (_ : str) (port : Z) : result LabError (list SocketAddr) := Ok [{| sa_ip := "127.0.0.1"; sa_port := port |}].

Example flags_override_witness :
  exists c search, build_config_from_saturate no_file local_host 4 false saturate_flags = Ok c /\ validate false c = Ok tt /\
    Workload.saturation_search (Config.workload c) = Some search /\
    SloThresholds.p99 (SaturationSearch.slo search) = Some 1000000.
Proof.
  destruct (build_config_from_saturate no_file local_host 4 false saturate_flags) as [c|e] eqn:E; [|vm_compute in E; discriminate E].
  destruct (proj2 (flags_override no_file local_host 4 false) _ _ E) as (base & search & _ & -> & V & _ & P & _).
  exists (set_workload (fun w => w <| Workload.saturation_search := Some search |>) base), search.
  split; [reflexivity|]. split; [exact V|]. split; [reflexivity|].
  assert (L : read_flag parse_slo_flag (s_slo_p99 saturate_flags) = Ok (Some 1000000)) by (vm_compute; reflexivity).
  rewrite L in P. congruence.
Defined.

Example duration_reads_back_witness : parse_duration (bytes_of " 90 mins") = Ok (90 * 60 * 1000000000).
Proof.
  apply (proj2 (duration_reads_back 90 60 1000000000 [32] [32] [] (bytes_of "mins") ltac:(vm_compute; split; discriminate) eq_refl
    ltac:(repeat constructor) ltac:(repeat constructor) ltac:(constructor))). vm_compute. discriminate.
Defined.

Example ratio_reads_back_witness :
  parse_ratio (bytes_of "80:20") = Ok (80, 20) /\ (forall g s, parse_ratio (bytes_of "0:0") = Ok (g, s) -> (g, s) <> (0, 0)).
Proof.
  destruct (ratio_reads_back 80 20 ltac:(vm_compute; split; discriminate) ltac:(vm_compute; split; discriminate)) as [E R].
  split; [exact E|]. intros g s H. apply (R (bytes_of "0:0") g s H).
Defined.

(** A number of minutes above 2^64/60 is not refused: it wraps. *)
Example minutes_wrap : parse_duration (bytes_of "307445734561825861m") = Ok (from_secs 44).
Proof. vm_compute. reflexivity. Qed.

(** [--prefill] without a file runs with no prefill timeout and no settle time:
    the base takes the derived default of [Workload], not serde's 300 s and
    60 s. *)
Example prefill_flag_has_no_timeout :
  match build_config no_file local_host 4 false
          {| a_host := None; a_port := None; a_duration := None; a_connections := None; a_pipeline := None; a_batch_size := None;
             a_threads := None; a_ratio := None; a_keyspace := None; a_data_size := None; a_cluster := false; a_tls := false;
             a_output := None; a_warmup := None; a_key_size := None; a_distribution := None; a_rate_limit := None;
             a_prefill := true; a_backfill := false; a_parquet := None; a_cpu_list := None; a_resp3 := false;
             a_tls_skip_verify := false; a_tls_hostname := None; a_connect_timeout := None; a_request_timeout := None;
             a_color := None; a_config := None |} with
  | Ok c => Workload.prefill (Config.workload c) = true /\ Workload.prefill_timeout (Config.workload c) = 0 /\
            Workload.prefill_settle (Config.workload c) = 0
  | Err _ => False
  end.
Proof. vm_compute. done. Qed.

Example built_config_typed_witness :
  exists c, build_config_from_saturate no_file local_host 4 false saturate_flags = Ok c /\ config_typed c.
Proof.
  destruct (build_config_from_saturate no_file local_host 4 false saturate_flags) as [c|e] eqn:E; [|vm_compute in E; discriminate E].
  exists c. split; [reflexivity|].
  refine (proj2 (built_config_typed no_file local_host 4 false no_flags saturate_flags _ _ _ _ _) c E).
  - intros path c' H. discriminate H.
  - vm_compute. split; discriminate.
  - repeat split.
  - repeat split.
  - vm_compute. repeat split; discriminate.
Defined.
