(* ===== verification/Search.v ===== *)
(** Search: the vector-search benchmark ([src/src/search/]): load, index and
    query phases, recall, the report's percentiles.

    A vector's [f32]s are their 32-bit patterns, [String]s lists of code
    points, byte strings lists of bytes.  The server with its client library,
    its clock and the Debug text of a reply are parameters; a run's commands
    and replies are logged in the order they complete.  Reading the HDF5 file
    is outside the model. *)

From Stdlib Require Import Sorted SpecFloat.
From stdpp Require Import sorting gmap.
From S2P Require Import Prelude F64 Text.
Open Scope Z_scope.

Abbreviation str := (list Z).
Abbreviation bytes := (list Z).

(** ** Standard-library text *)

(** The bytes one replacement character stands for: the longest beginning of a
    character that [bs], which begins with none, still has. *)
Definition bad_prefix (bs : bytes) : nat :=
  match bs with
  | a :: b :: r =>
      let second :=
        ((225 <=? a) && (a <? 240) && negb (a =? 237) && is_cont b) || ((a =? 224) && (160 <=? b) && (b <? 192)) ||
        ((a =? 237) && (128 <=? b) && (b <? 160)) || ((a =? 240) && (144 <=? b) && (b <? 192)) ||
        ((241 <=? a) && (a <? 244) && is_cont b) || ((a =? 244) && (128 <=? b) && (b <? 144)) in
      if second then
        match r with
        | c :: _ => if (240 <=? a) && is_cont c then 3%nat else 2%nat
        | [] => 2%nat
        end
      else 1%nat
  | _ => 1%nat
  end.

Fixpoint lossy (fuel : nat) (bs : bytes) : str :=
  match bs, fuel with
  | [], _ | _, O => []
  | _, S fuel =>
      match utf8_next bs with
      | Some (c, r) => c :: lossy fuel r
      | None => 65533 :: lossy fuel (drop (bad_prefix bs) bs)
      end
  end.

(** [String::from_utf8_lossy]: each step consumes a byte. *)
Definition from_utf8_lossy (bs : bytes) : str := lossy (length bs) bs.

(** [parse::<i64>]. *)
Definition parse_i64 (s : str) : option Z :=
  let read max s := match parse_digits max 0 s with Ok n => Some n | Err _ => None end in
  match s with
  | [] => None
  | c :: r =>
      if c =? 45 then if bool_decide (r = []) then None else Z.opp <$> read (2 ^ 63) r
      else if c =? 43 then if bool_decide (r = []) then None else read (2 ^ 63 - 1) r
      else read (2 ^ 63 - 1) s
  end.

(** The digits [s] begins with, added to [acc], their number, and the rest. *)
Fixpoint read_digits (acc n : Z) (s : str) : Z * Z * str :=
  match s with
  | c :: r => match digit c with Some d => read_digits (acc * 10 + d) (n + 1) r | None => (acc, n, s) end
  | [] => (acc, n, [])
  end.

Definition ascii_lower (s : str) : str := map (fun c => if (65 <=? c) && (c <=? 90) then c + 32 else c) s.

(** The exponent after the digits, if any. *)
Definition read_exponent (s : str) : option Z :=
  match s with
  | [] => Some 0
  | c :: r =>
      if (c =? 101) || (c =? 69) then
        let '(negative, r) := match r with d :: r' => if d =? 45 then (true, r') else if d =? 43 then (false, r') else (false, r) | [] => (false, r) end in
        let '(e, n, rest) := read_digits 0 0 r in
        if (n =? 0) || negb (bool_decide (rest = [])) then None else Some (if negative then - e else e)
      else None
  end.

Definition read_decimal (s : str) : option f64 :=
  let '(whole, n, s) := read_digits 0 0 s in
  let '(m, k, s) := match s with c :: r => if c =? 46 then read_digits whole 0 r else (whole, 0, s) | [] => (whole, 0, s) end in
  if n + k =? 0 then None
  else
    e ← read_exponent s;
    Some (if m =? 0 then f64_zero else let (a, b) := pow10_ratio m (e - k) in f64_of_ratio a b).

(** [parse::<f64>]: the nearest double of the decimal text. *)
Definition parse_f64 (s : str) : option f64 :=
  let (negative, s) := match s with c :: r => if c =? 45 then (true, r) else if c =? 43 then (false, r) else (false, s) | [] => (false, s) end in
  x ← (if bool_decide (ascii_lower s ∈ [bytes_of "inf"; bytes_of "infinity"]) then Some (S754_infinity false)
       else if bool_decide (ascii_lower s = bytes_of "nan") then Some S754_nan
       else read_decimal s);
  Some (if negative then SFopp x else x).

Example parse_f64_examples :
  parse_f64 (bytes_of "1") = Some f64_one /\ parse_f64 (bytes_of "1.000000") = Some f64_one /\
  parse_f64 (bytes_of "9.5e-1") = Some (f64_lit 95 100) /\ parse_f64 (bytes_of ".") = None /\ parse_f64 (bytes_of "-.5") = Some (f64_lit (-1) 2).
Proof. vm_compute. done. Qed.

(** ** Replies, the dataset and the flags *)

(** [resp_proto::Value]; any other variant is its Debug text. *)
Inductive Value :=
| Array (items : list Value)
| Error (b : bytes)
| Integer (i : Z)
| BulkString (b : bytes)
| SimpleString (b : bytes)
| OtherValue (debug : str).

Abbreviation request := (list bytes).

Record Dataset := {
  train : list (list Z);
  train_ncols : Z;
  test : list (list Z);
  test_ncols : Z;
  neighbors : list (list Z);
  neighbors_ncols : Z;
  metric : str;
}.

Definition nrows (m : list (list Z)) : Z := Z.of_nat (length m).

(** [Dataset::dim], [Dataset::neighbors_k]. *)
Definition dim (d : Dataset) : Z := train_ncols d.
Definition neighbors_k (d : Dataset) : Z := neighbors_ncols d.

(** The checks of [dataset::load]. *)
Definition check_dataset (d : Dataset) : result str Dataset :=
  if negb (train_ncols d =? test_ncols d) then
    Err (bytes_of "train dim " ++ show (train_ncols d) ++ bytes_of " != test dim " ++ show (test_ncols d))
  else if negb (nrows (neighbors d) =? nrows (test d)) then
    Err (bytes_of "neighbors rows " ++ show (nrows (neighbors d)) ++ bytes_of " != test rows " ++ show (nrows (test d)))
  else Ok d.

(** [f32_le_blob]: [v.to_le_bytes()] of each pattern. *)
Definition f32_le_bytes (v : Z) : bytes := [v mod 256; v / 256 mod 256; v / 65536 mod 256; v / 16777216 mod 256].

Definition f32_le_blob (row : list Z) : bytes := concat (map f32_le_bytes row).

Record SearchArgs := {
  arg_dataset : str;
  arg_k : Z;
  arg_ef_search : Z;
  arg_m : Z;
  arg_ef_construction : Z;
  arg_index : bytes;
  arg_load_batch : Z;
  arg_keep_index : bool;
  arg_query_clients : Z;
  arg_query_loops : Z;
  arg_reuse_index : bool;
}.

(** The checks of [search::run]. *)
Definition check_args (a : SearchArgs) (d : Dataset) : result str () :=
  if neighbors_k d <? arg_k a then
    Err (bytes_of "k = " ++ show (arg_k a) ++ bytes_of " exceeds ground-truth depth " ++ show (neighbors_k d) ++ bytes_of " in " ++ arg_dataset a)
  else if 1000 <? arg_k a then Err (bytes_of "k > 1000 exceeds the reply-size ceiling (see issue #113)")
  else Ok tt.

Record PhaseTimings := { items : Z; elapsed : Z; batch : Z }.

Record QueryStats := { queries : Z; q_elapsed : Z; latencies_ns : list Z; mean_recall : f64 }.

Record RunReport := { load : PhaseTimings; index : PhaseTimings; query : QueryStats }.

(** ** Constants *)

Definition KEY_PREFIX : bytes := bytes_of "doc:".
Definition VECTOR_FIELD : bytes := bytes_of "vec".
Definition INDEX_POLL_INTERVAL : Z := 10000000.
Definition LOAD_BATCH_BYTE_BUDGET : Z := 256 * 1024.
Definition HSET_OVERHEAD_BYTES : Z := 64.

(** ** Requests *)

Definition hset (d : Dataset) (i : nat) : request :=
  [bytes_of "HSET"; KEY_PREFIX ++ show (Z.of_nat i); VECTOR_FIELD; f32_le_blob (default [] (train d !! i))].

Definition drop_index (a : SearchArgs) : request := [bytes_of "FT.DROPINDEX"; arg_index a].

Definition info (a : SearchArgs) : request := [bytes_of "FT.INFO"; arg_index a].

Definition create (a : SearchArgs) (d : Dataset) (metric : bytes) : request :=
  [bytes_of "FT.CREATE"; arg_index a; bytes_of "ON"; bytes_of "HASH"; bytes_of "PREFIX"; bytes_of "1"; KEY_PREFIX;
   bytes_of "SCHEMA"; VECTOR_FIELD; bytes_of "VECTOR"; bytes_of "HNSW"; bytes_of "10"; bytes_of "TYPE"; bytes_of "FLOAT32";
   bytes_of "DIM"; show (dim d); bytes_of "DISTANCE_METRIC"; metric; bytes_of "M"; show (arg_m a);
   bytes_of "EF_CONSTRUCTION"; show (arg_ef_construction a)].

(** [QueryCtx::knn]. *)
Definition knn (a : SearchArgs) : bytes :=
  bytes_of "*=>[KNN " ++ show (arg_k a) ++ bytes_of " @vec $BLOB EF_RUNTIME $EF]".

Definition search (a : SearchArgs) (d : Dataset) (qi : nat) : request :=
  [bytes_of "FT.SEARCH"; arg_index a; knn a; bytes_of "PARAMS"; bytes_of "4"; bytes_of "BLOB";
   f32_le_blob (default [] (test d !! qi)); bytes_of "EF"; show (arg_ef_search a); bytes_of "NOCONTENT"; bytes_of "LIMIT";
   bytes_of "0"; show (arg_k a); bytes_of "DIALECT"; bytes_of "2"].

Definition SCRIPT : bytes :=
  bytes_of "local r = redis.call('SCAN', ARGV[1], 'MATCH', ARGV[2], 'COUNT', 1000) if #r[2] > 0 then redis.call('DEL', unpack(r[2])) end return r[1]".

Definition eval_delete (cursor pattern : bytes) : request := [bytes_of "EVAL"; SCRIPT; bytes_of "0"; cursor; pattern].

(** ** A run's world

    [Peer]: the server behind its client library, with its clock.  A command
    answers with a reply or the client's error, which is its text.  [debug] and
    [debug_str] are Rust's Debug texts. *)
Class Peer := {
  srv : Type;
  srv_now : srv -> Z;
  srv_connect : srv -> result str () * srv;
  srv_ping : srv -> result str () * srv;
  srv_cmd : srv -> request -> result str Value * srv;
  srv_pipeline : srv -> list request -> result str (list Value) * srv;
  srv_sleep : srv -> Z -> srv;
  debug : Value -> str;
  debug_str : str -> str;
}.

(** A command or a pipeline, with its answer. *)
Inductive Event :=
| Cmd (r : request) (answer : result str Value)
| Pipe (rs : list request) (answer : result str (list Value)).

(** Why a phase has no result; a loop that its fuel does not see the end of is
    still running. *)
Inductive Stop :=
| Failed (msg : str)
| StillRunning.

Section phases.
Context `{Peer}.

Record World := { w_srv : srv; w_log : list Event }.

(** Computations on the world that may stop. *)
Definition M (A : Type) : Type := World -> result Stop A * World.

#[export] Instance M_ret : MRet M := fun A a w => (Ok a, w).

#[export] Instance M_bind : MBind M := fun A B f m w =>
  let (r, w) := m w in match r with Ok a => f a w | Err e => (Err e, w) end.

Definition fail {A} (msg : str) : M A := fun w => (Err (Failed msg), w).

Definition or_fail {A} (r : result str A) : M A := match r with Ok a => mret a | Err msg => fail msg end.

(** [map_err(|e| format!("{prefix}{e}"))]. *)
Definition map_err {A} (prefix : str) (r : result str A) : result str A :=
  match r with Ok a => Ok a | Err e => Err (prefix ++ e) end.

Definition lift {A} (f : srv -> A * srv) : M A := fun w =>
  let (a, s) := f (w_srv w) in (Ok a, {| w_srv := s; w_log := w_log w |}).

Definition now : M Z := fun w => (Ok (srv_now (w_srv w)), w).

Definition cmd (r : request) : M (result str Value) := fun w =>
  let (a, s) := srv_cmd (w_srv w) r in (Ok a, {| w_srv := s; w_log := w_log w ++ [Cmd r a] |}).

Definition pipeline (rs : list request) : M (result str (list Value)) := fun w =>
  let (a, s) := srv_pipeline (w_srv w) rs in (Ok a, {| w_srv := s; w_log := w_log w ++ [Pipe rs a] |}).

Definition sleep (d : Z) : M () := fun w => (Ok (), {| w_srv := srv_sleep (w_srv w) d; w_log := w_log w |}).

(** ** Reading replies *)

(** [parse_knn_reply]. *)
Definition parse_key (item : Value) : result str Z :=
  match item with
  | BulkString b | SimpleString b =>
      let key := from_utf8_lossy b in
      match (if starts_with KEY_PREFIX key then parse_i64 (drop (length KEY_PREFIX) key) else None) with
      | Some id => Ok id
      | None => Err (bytes_of "key " ++ debug_str key ++ bytes_of " is not doc:<integer>")
      end
  | other => Err (bytes_of "unexpected key element " ++ debug other)
  end.

Fixpoint parse_keys (items : list Value) : result str (list Z) :=
  match items with
  | [] => Ok []
  | item :: items => id ← parse_key item; ids ← parse_keys items; Ok (id :: ids)
  end.

Definition parse_knn_reply (reply : Value) : result str (list Z) :=
  match reply with
  | Array items => parse_keys (drop 1 items)
  | Error e => Err (from_utf8_lossy e)
  | other => Err (bytes_of "unexpected reply " ++ debug other)
  end.

(** [i.to_string()]. *)
Definition show_signed (n : Z) : str := if n <? 0 then 45 :: show (- n) else show n.

(** [info_field]. *)
Fixpoint info_field (fields : list Value) (name : bytes) : option str :=
  match fields with
  | field_name :: value :: fields =>
      if match field_name with BulkString b | SimpleString b => bool_decide (b = name) | _ => false end then
        Some match value with
             | BulkString b | SimpleString b => from_utf8_lossy b
             | Integer i => show_signed i
             | other => debug other
             end
      else info_field fields name
  | _ => None
  end.

Definition unsupported : str :=
  bytes_of "FT.INFO reply has neither the Valkey Search fields (state/backfill_in_progress/mutation_queue_size) nor the RediSearch fields (percent_indexed/indexing); unsupported server?".

(** [index_ready]. *)
Definition index_ready (fields : list Value) : result str bool :=
  match info_field fields (bytes_of "state"), info_field fields (bytes_of "backfill_in_progress"),
        info_field fields (bytes_of "mutation_queue_size") with
  | Some state, Some backfill, Some queue =>
      Ok (bool_decide (state = bytes_of "ready") && bool_decide (backfill = bytes_of "0") && bool_decide (queue = bytes_of "0"))
  | _, _, _ =>
      match info_field fields (bytes_of "percent_indexed") with
      | Some pct =>
          match parse_f64 pct with
          | None => Err (bytes_of "percent_indexed not numeric: " ++ debug_str pct)
          | Some x =>
              let indexing := default (bytes_of "0") (info_field fields (bytes_of "indexing")) in
              Ok (f64_le f64_one x && bool_decide (indexing = bytes_of "0"))
          end
      | None => Err unsupported
      end
  end.

(** [distance_metric_arg]. *)
Definition distance_metric_arg (d : Dataset) : result str bytes :=
  if bool_decide (metric d = bytes_of "euclidean") then Ok (bytes_of "L2")
  else if bool_decide (metric d ∈ [bytes_of "angular"; bytes_of "cosine"]) then Ok (bytes_of "COSINE")
  else Err (bytes_of "unsupported dataset metric " ++ debug_str (metric d) ++ bytes_of " (expected euclidean or angular)").

(** ** The phases *)

Context (a : SearchArgs) (d : Dataset) (endpoint : str).

(** [delete_prefix]. *)
Fixpoint delete_prefix_loop (fuel : nat) (pattern cursor : bytes) : M () :=
  match fuel with
  | O => fun w => (Err StillRunning, w)
  | S fuel =>
      let what := bytes_of "cleanup EVAL " ++ pattern ++ bytes_of ": " in
      answer ← cmd (eval_delete cursor pattern);
      reply ← or_fail (map_err what answer);
      cursor ← match reply with
               | BulkString b | SimpleString b => mret b
               | Error e => fail (what ++ from_utf8_lossy e)
               | other => fail (what ++ bytes_of "unexpected reply " ++ debug other)
               end;
      if bool_decide (cursor = bytes_of "0") then mret () else delete_prefix_loop fuel pattern cursor
  end.

Definition delete_prefix (fuel : nat) : M () := delete_prefix_loop fuel (KEY_PREFIX ++ [42]) (bytes_of "0").

(** [load_phase]: the cost of a row, the rows of a batch. *)
Definition row_cost : Z := 4 * train_ncols d + Z.of_nat (length KEY_PREFIX) + 20 + HSET_OVERHEAD_BYTES.

Definition load_batch : Z := Z.min (Z.max (arg_load_batch a) 1) (Z.max (LOAD_BATCH_BYTE_BUDGET / row_cost) 1).

Fixpoint first_error (replies : list Value) : option bytes :=
  match replies with
  | [] => None
  | Error e :: _ => Some e
  | _ :: replies => first_error replies
  end.

Fixpoint load_loop (fuel row : nat) : M () :=
  if (row <? length (train d))%nat then
    match fuel with
    | O => fun w => (Err StillRunning, w)
    | S fuel =>
        let end_ := Nat.min (row + Z.to_nat load_batch) (length (train d)) in
        answer ← pipeline (map (hset d) (seq row (end_ - row)));
        replies ← or_fail (map_err (bytes_of "load batch at row " ++ show (Z.of_nat row) ++ bytes_of ": ") answer);
        match first_error replies with
        | Some e => fail (bytes_of "HSET error during load: " ++ from_utf8_lossy e)
        | None => load_loop fuel end_
        end
    end
  else mret ().

Definition load_phase : M PhaseTimings :=
  start ← now;
  if LOAD_BATCH_BYTE_BUDGET <? row_cost then
    fail (bytes_of "a single " ++ show (train_ncols d) ++ bytes_of "-dim vector (" ++ show row_cost ++
          bytes_of " bytes as an HSET) exceeds the per-send budget of " ++ show LOAD_BATCH_BYTE_BUDGET ++
          bytes_of " bytes; the send path cannot carry it (see the ceiling note above)")
  else
    _ ← load_loop (length (train d)) 0;
    t ← now;
    mret {| items := nrows (train d); elapsed := t - start; batch := load_batch |}.

(** The reply of [FT.INFO], and its loop in [index_phase]. *)
Definition info_fields (answer : result str Value) : M (list Value) :=
  reply ← or_fail (map_err (bytes_of "FT.INFO: ") answer);
  match reply with
  | Array items => mret items
  | Error e => fail (bytes_of "FT.INFO: " ++ from_utf8_lossy e)
  | other => fail (bytes_of "FT.INFO: unexpected reply " ++ debug other)
  end.

Fixpoint index_loop (fuel : nat) : M () :=
  match fuel with
  | O => fun w => (Err StillRunning, w)
  | S fuel =>
      answer ← cmd (info a);
      fields ← info_fields answer;
      ready ← or_fail (index_ready fields);
      if ready : bool then mret () else _ ← sleep INDEX_POLL_INTERVAL; index_loop fuel
  end.

(** [index_phase]. *)
Definition index_phase (fuel : nat) : M PhaseTimings :=
  metric ← or_fail (distance_metric_arg d);
  start ← now;
  answer ← cmd (create a d metric);
  _ ← match answer with
      | Ok (Error e) => fail (bytes_of "FT.CREATE: " ++ from_utf8_lossy e)
      | Ok _ => mret ()
      | Err e => fail (bytes_of "FT.CREATE: " ++ e)
      end;
  _ ← index_loop fuel;
  t ← now;
  mret {| items := nrows (train d); elapsed := t - start; batch := 0 |}.

(** [verify_reusable_index]. *)
Definition verify_reusable_index : M () :=
  answer ← cmd (info a);
  reply ← or_fail (map_err (bytes_of "FT.INFO: ") answer);
  fields ← match reply with
           | Array items => mret items
           | Error e => fail (bytes_of "--reuse-index: FT.INFO " ++ arg_index a ++ bytes_of ": " ++ from_utf8_lossy e)
           | other => fail (bytes_of "--reuse-index: FT.INFO: unexpected reply " ++ debug other)
           end;
  ready ← or_fail (index_ready fields);
  if negb ready then fail (bytes_of "--reuse-index: index exists but is not fully ready")
  else
    answer ← cmd [bytes_of "DBSIZE"];
    reply ← or_fail (map_err (bytes_of "DBSIZE: ") answer);
    match reply with
    | Integer n =>
        if wrap64 n =? nrows (train d) then mret ()
        else fail (bytes_of "--reuse-index: DBSIZE " ++ show_signed n ++ bytes_of " does not match dataset train count " ++ show (nrows (train d)))
    | other => fail (bytes_of "--reuse-index: DBSIZE: unexpected reply " ++ debug other)
    end.

(** [run_one_query]: the ids of a reply are sorted and deduplicated; those
    among the first [k] true neighbours are the hits. *)
Fixpoint dedup (l : list Z) : list Z :=
  match l with
  | x :: (y :: _) as r => if x =? y then dedup r else x :: dedup r
  | _ => l
  end.

Definition hits (returned truth : list Z) (k : Z) : nat :=
  length (List.filter (fun id => existsb (Z.eqb id) (take (Z.to_nat k) truth)) (dedup (merge_sort Z.le returned))).

Definition recall (returned truth : list Z) (k : Z) : f64 := f64_div (f64_of_Z (Z.of_nat (hits returned truth k))) (f64_of_Z k).

(** What follows the reply that [search a d qi] got. *)
Definition score (qi : nat) (answer : result str Value) : result str f64 :=
  let what := bytes_of "FT.SEARCH query " ++ show (Z.of_nat qi) ++ bytes_of ": " in
  reply ← map_err what answer;
  ids ← map_err what (parse_knn_reply reply);
  Ok (recall ids (default [] (neighbors d !! qi)) (arg_k a)).

Definition run_one_query (qi : nat) : M (Z * f64) :=
  t0 ← now;
  answer ← cmd (search a d qi);
  t ← now;
  recall ← or_fail (score qi answer);
  mret (t - t0, recall).

(** [query_phase]. *)
Definition total : Z := wrap64 (nrows (test d) * Z.max (arg_query_loops a) 1).

Definition clients : Z := Z.max (arg_query_clients a) 1.

Definition query_of (idx : nat) : nat := (idx mod length (test d))%nat.

Fixpoint query_loop (todo : list nat) (latencies : list Z) (sum : f64) : M (list Z * f64) :=
  match todo with
  | [] => mret (latencies, sum)
  | idx :: todo =>
      '(lat, recall) ← run_one_query (query_of idx);
      query_loop todo (latencies ++ [lat]) (f64_add sum recall)
  end.

(** *** Several connections

    A connection's task between two steps: not started, waiting for the reply
    of the query dealt to it, or ended. *)
Inductive Task :=
| Start
| Waiting (idx : nat) (t0 : Z) (latencies : list Z) (sum : f64)
| Ended (r : result str (list Z * f64)).

Record Pool := { p_world : World; p_dealer : nat; p_tasks : list Task }.

(** [dealer.fetch_add(1)] and the loop's exit, or the query sent. *)
Definition deal (w : World) (dealer : nat) (latencies : list Z) (sum : f64) : Task * nat :=
  (if Z.of_nat dealer <? total then Waiting dealer (srv_now (w_srv w)) latencies sum else Ended (Ok (latencies, sum)), S dealer).

(** What a task does when it is polled: connect and take its first query, or
    score the reply and take the next. *)
Definition task_step (w : World) (dealer : nat) (t : Task) : World * nat * Task :=
  match t with
  | Start =>
      let (r, s) := srv_connect (w_srv w) in
      let w := {| w_srv := s; w_log := w_log w |} in
      match r with
      | Err e => (w, dealer, Ended (Err (bytes_of "connect " ++ endpoint ++ bytes_of ": " ++ e)))
      | Ok _ => let (t, dealer) := deal w dealer [] f64_zero in (w, dealer, t)
      end
  | Waiting idx t0 latencies sum =>
      let (answer, s) := srv_cmd (w_srv w) (search a d (query_of idx)) in
      let w := {| w_srv := s; w_log := w_log w ++ [Cmd (search a d (query_of idx)) answer] |} in
      match score (query_of idx) answer with
      | Err e => (w, dealer, Ended (Err e))
      | Ok recall =>
          let (t, dealer) := deal w dealer (latencies ++ [srv_now s - t0]) (f64_add sum recall) in (w, dealer, t)
      end
  | Ended r => (w, dealer, Ended r)
  end.

Definition pool_step (p : Pool) (i : nat) : Pool :=
  match p_tasks p !! i with
  | Some t =>
      let '(w, dealer, t) := task_step (p_world p) (p_dealer p) t in
      {| p_world := w; p_dealer := dealer; p_tasks := <[i := t]> (p_tasks p) |}
  | None => p
  end.

Definition pool_run (p : Pool) (schedule : list nat) : Pool := foldl pool_step p schedule.

Definition pool_start (w : World) : Pool :=
  {| p_world := w; p_dealer := 0; p_tasks := replicate (Z.to_nat clients) Start |}.

(** The handles awaited in order: [None] while one before the first failure
    still runs. *)
Fixpoint collect (tasks : list Task) (latencies : list Z) (sum : f64) : option (result str (list Z * f64)) :=
  match tasks with
  | [] => Some (Ok (latencies, sum))
  | Ended (Ok (lat, recall)) :: tasks => collect tasks (latencies ++ lat) (f64_add sum recall)
  | Ended (Err e) :: _ => Some (Err e)
  | _ :: _ => None
  end.

(** [query_phase]; [schedule] is the order the tasks run in. *)
Definition query_stats (started t : Z) (r : list Z * f64) : QueryStats :=
  {| queries := total; q_elapsed := t - started; latencies_ns := r.1; mean_recall := f64_div r.2 (f64_of_Z total) |}.

Definition query_phase (schedule : list nat) : M QueryStats :=
  if clients =? 1 then
    started ← now;
    r ← query_loop (seq 0 (Z.to_nat total)) [] f64_zero;
    t ← now;
    mret (query_stats started t r)
  else
    started ← now;
    r ← (fun w =>
           let p := pool_run (pool_start w) schedule in
           match collect (p_tasks p) [] f64_zero with
           | Some (Ok r) => (Ok r, p_world p)
           | Some (Err e) => (Err (Failed e), p_world p)
           | None => (Err StillRunning, p_world p)
           end) : M (list Z * f64);
    t ← now;
    mret (query_stats started t r).

(** [run_all]. *)
Definition skipped : PhaseTimings := {| items := 0; elapsed := 0; batch := 0 |}.

Definition run_all (fuel : nat) (schedule : list nat) : M RunReport :=
  connected ← lift srv_connect;
  _ ← or_fail (map_err (bytes_of "connect " ++ endpoint ++ bytes_of ": ") connected);
  pong ← lift srv_ping;
  _ ← or_fail (map_err (bytes_of "PING " ++ endpoint ++ bytes_of ": ") pong);
  if arg_reuse_index a then
    _ ← verify_reusable_index;
    query ← query_phase schedule;
    mret {| load := skipped; index := skipped; query := query |}
  else
    _ ← cmd (drop_index a);
    _ ← delete_prefix fuel;
    load ← load_phase;
    index ← index_phase fuel;
    query ← query_phase schedule;
    _ ← (if arg_keep_index a then mret () else _ ← cmd (drop_index a); mret ());
    mret {| load := load; index := index; query := query |}.

End phases.

(** ** The report: [percentile_ns] and the mean *)

Definition percentile_ns (sorted : list Z) (q : f64) : Z :=
  match sorted with
  | [] => 0
  | _ =>
      let rank := f64_to_u64 (f64_ceil (f64_mul (f64_div q (f64_of_Z 100)) (f64_of_Z (Z.of_nat (length sorted))))) in
      default 0 (sorted !! Z.to_nat (clampZ rank 1 (Z.of_nat (length sorted)) - 1))
  end.

Definition mean_ns (sorted : list Z) : Z :=
  match sorted with [] => 0 | _ => wrap64 (foldl Z.add 0 sorted) / Z.of_nat (length sorted) end.

(** ** Lemmas: what a computation logs when it succeeds *)

Definition emits `{Peer} {A} (m : M A) (P : A -> list Event -> Prop) : Prop :=
  forall w x w', m w = (Ok x, w') -> exists evs, w_log w' = w_log w ++ evs /\ P x evs.

Section emits.
Context `{Peer}.

Lemma emits_ret {A} (x : A) : emits (mret x) (fun y evs => y = x /\ evs = []).
Proof. intros w y w' [= <- <-]. exists []. by rewrite app_nil_r. Qed.

Lemma emits_bind {A B} (m : M A) (f : A -> M B) P Q :
  emits m P -> (forall x, emits (f x) (Q x)) ->
  emits (m ≫= f) (fun y evs => exists x e1 e2, evs = e1 ++ e2 /\ P x e1 /\ Q x y e2).
Proof.
  intros Hm Hf w y w'. unfold mbind, M_bind. destruct (m w) as [[x|e] w1] eqn:E1; [|done]. intros E2.
  destruct (Hm _ _ _ E1) as (e1 & L1 & P1). destruct (Hf _ _ _ _ E2) as (e2 & L2 & P2).
  exists (e1 ++ e2). split; [by rewrite L2, L1, app_assoc|]. by exists x, e1, e2.
Qed.

Lemma emits_mono {A} (m : M A) (P Q : A -> list Event -> Prop) : emits m P -> (forall x evs, P x evs -> Q x evs) -> emits m Q.
Proof. intros Hm I w x w' E. destruct (Hm _ _ _ E) as (evs & L & HP). exists evs. split; [done|by apply I]. Qed.

Lemma emits_fail {A} msg (P : A -> list Event -> Prop) : emits (fail msg) P.
Proof. by intros w x w'. Qed.

Lemma emits_or_fail {A} (r : result str A) : emits (or_fail r) (fun x evs => r = Ok x /\ evs = []).
Proof. destruct r as [x|e]; [|by apply emits_fail]. eapply emits_mono; [apply emits_ret|]. by intros y evs [-> ->]. Qed.

Lemma emits_now : emits now (fun _ evs => evs = []).
Proof. intros w x w' [= <- <-]. exists []. by rewrite app_nil_r. Qed.

Lemma emits_sleep t : emits (sleep t) (fun _ evs => evs = []).
Proof. intros w x w' [= <- <-]. exists []. by rewrite app_nil_r. Qed.

Lemma emits_lift {A} (f : srv -> A * srv) : emits (lift f) (fun _ evs => evs = []).
Proof. intros w x w'. unfold lift. destruct (f (w_srv w)) as [y s]. intros [= <- <-]. exists []. by rewrite app_nil_r. Qed.

Lemma emits_cmd r : emits (cmd r) (fun x evs => evs = [Cmd r x]).
Proof. intros w x w'. unfold cmd. destruct (srv_cmd (w_srv w) r) as [y s]. intros [= <- <-]. by exists [Cmd r y]. Qed.

Lemma emits_pipeline rs : emits (pipeline rs) (fun x evs => evs = [Pipe rs x]).
Proof. intros w x w'. unfold pipeline. destruct (srv_pipeline (w_srv w) rs) as [y s]. intros [= <- <-]. by exists [Pipe rs y]. Qed.

(** A step that logs nothing before the rest. *)
Lemma emits_silent {A B} (m : M A) (f : A -> M B) R Q :
  emits m (fun x evs => R x /\ evs = []) -> (forall x, R x -> emits (f x) Q) -> emits (m ≫= f) Q.
Proof.
  intros Hm Hf w y w'. unfold mbind, M_bind. destruct (m w) as [[x|e] w1] eqn:E1; [|done]. intros E2.
  destruct (Hm _ _ _ E1) as (e1 & L1 & Rx & ->). destruct (Hf _ Rx _ _ _ E2) as (e2 & L2 & P2).
  exists e2. split; [by rewrite L2, L1, app_nil_r|done].
Qed.

Lemma emits_silent' {A B} (m : M A) (f : A -> M B) Q :
  emits m (fun _ evs => evs = []) -> (forall x, emits (f x) Q) -> emits (m ≫= f) Q.
Proof. intros Hm Hf. apply (emits_silent m f (fun _ => True)); [|done]. eapply emits_mono; [exact Hm|done]. Qed.

Lemma emits_after {A B} (m : M A) (f : A -> M B) (E : A -> Event) (Q : B -> list Event -> Prop) :
  emits m (fun x evs => evs = [E x]) -> (forall x, emits (f x) (fun y evs => Q y (E x :: evs))) -> emits (m ≫= f) Q.
Proof.
  intros Hm Hf. eapply emits_mono; [apply (emits_bind m f _ _ Hm Hf)|]. cbv beta. intros y evs (x & e1 & e2 & -> & -> & HQ). exact HQ.
Qed.

(** The clock read for a result. *)
Lemma emits_timed {A} (f : Z -> A) : emits (t ← now; mret (f t)) (fun _ evs => evs = []).
Proof. intros w x w' [= <- <-]. exists []. by rewrite app_nil_r. Qed.

End emits.

(** ** What each phase logs *)

Definition pipelined (e : Event) : list request := match e with Pipe rs _ => rs | Cmd _ _ => [] end.

(** A batch within the limits whose replies hold no error. *)
Definition clean_pipe (a : SearchArgs) (d : Dataset) (e : Event) : Prop :=
  match e with
  | Pipe rs (Ok replies) => (0 < length rs)%nat /\ Z.of_nat (length rs) <= load_batch a d /\ first_error replies = None
  | _ => False
  end.

Definition loaded (a : SearchArgs) (d : Dataset) (row : nat) (evs : list Event) : Prop :=
  concat (map pipelined evs) = map (hset d) (seq row (length (train d) - row)) /\ Forall (clean_pipe a d) evs.

Definition asks (rs : list request) (e : Event) : Prop := match e with Cmd r _ => r ∈ rs | Pipe _ _ => False end.

(** An [EVAL] of the cleanup. *)
Definition deletes (e : Event) : Prop := match e with Cmd r _ => exists cursor, r = eval_delete cursor (KEY_PREFIX ++ [42]) | Pipe _ _ => False end.

(** The query of [idx], answered and scored. *)
Definition scored `{Peer} (a : SearchArgs) (d : Dataset) (idx : nat) (e : Event) : Prop :=
  exists answer r, e = Cmd (search a d (query_of d idx)) answer /\ score a d (query_of d idx) answer = Ok r.

Section phase_logs.
Context `{Peer} (a : SearchArgs) (d : Dataset).

Lemma load_batch_pos : 1 <= load_batch a d.
Proof. unfold load_batch. lia. Qed.

Lemma load_loop_emits fuel row : (row <= length (train d))%nat -> emits (load_loop a d fuel row) (fun _ evs => loaded a d row evs).
Proof.
  pose proof load_batch_pos as B. revert row. induction fuel as [|fuel IH]; intros row R; cbn [load_loop];
    destruct (Nat.ltb_spec row (length (train d))).
  - by intros w x w'.
  - eapply emits_mono; [apply emits_ret|]. intros x evs [_ ->]. split; [|done]. by replace (length (train d) - row)%nat with 0%nat by lia.
  - set (end_ := Nat.min _ _). assert (E : (row < end_ <= length (train d))%nat) by lia.
    eapply emits_after; [apply emits_pipeline|]. intros answer.
    eapply emits_silent; [apply emits_or_fail|]. intros replies A. destruct answer as [rs|]; [|done]. injection A as ->.
    destruct (first_error replies) eqn:F; [apply emits_fail|]. eapply emits_mono; [apply IH; lia|]. intros x evs [C L]. split.
    + cbn [map concat pipelined]. rewrite C, <- map_app. f_equal.
      replace (length (train d) - row)%nat with ((end_ - row) + (length (train d) - end_))%nat by lia.
      rewrite seq_app. by replace (row + (end_ - row))%nat with end_ by lia.
    + constructor; [|done]. cbn [clean_pipe]. rewrite length_map, length_seq. split_and!; [lia|lia|done].
  - eapply emits_mono; [apply emits_ret|]. intros x evs [_ ->]. split; [|done]. by replace (length (train d) - row)%nat with 0%nat by lia.
Qed.

Lemma load_phase_emits : emits (load_phase a d) (fun _ evs => loaded a d 0 evs).
Proof.
  unfold load_phase. eapply emits_silent'; [apply emits_now|]. intros start. destruct (_ <? _); [apply emits_fail|].
  eapply emits_mono; [eapply emits_bind; [apply load_loop_emits; lia|intros ?; apply emits_timed]|].
  cbv beta. intros x evs (y & e1 & e2 & -> & L & ->). by rewrite app_nil_r.
Qed.

Lemma info_fields_emits answer :
  emits (info_fields answer) (fun fields evs => answer = Ok (Array fields) /\ evs = []).
Proof.
  unfold info_fields. eapply emits_silent; [apply emits_or_fail|]. intros reply A. destruct answer as [v|]; [|done]. injection A as ->.
  destruct reply; try apply emits_fail. eapply emits_mono; [apply emits_ret|]. by intros x evs [-> ->].
Qed.

(** Polls, the last of which finds the index ready. *)
Definition polled (evs : list Event) : Prop :=
  exists before fields, evs = before ++ [Cmd (info a) (Ok (Array fields))] /\ Forall (asks [info a]) before /\ index_ready fields = Ok true.

Lemma index_loop_emits fuel : emits (index_loop a fuel) (fun _ evs => polled evs).
Proof.
  induction fuel as [|fuel IH]; cbn [index_loop]; [by intros w x w'|].
  eapply emits_after; [apply emits_cmd|]. intros answer. eapply emits_silent; [apply info_fields_emits|]. intros fields ->.
  eapply emits_silent; [apply emits_or_fail|]. intros [] R.
  - eapply emits_mono; [apply emits_ret|]. intros x evs [_ ->]. by exists [], fields.
  - eapply emits_silent'; [apply emits_sleep|]. intros _. eapply emits_mono; [exact IH|].
    intros x evs (before & fs & -> & F & Rd). exists (Cmd (info a) (Ok (Array fields)) :: before), fs. split_and!; [done| |done].
    constructor; [|done]. cbn. set_solver.
Qed.

Definition indexed (evs : list Event) : Prop :=
  exists m answer polls, evs = Cmd (create a d m) answer :: polls /\ distance_metric_arg d = Ok m /\
    (exists v, answer = Ok v) /\ polled polls.

Lemma index_phase_emits fuel : emits (index_phase a d fuel) (fun _ evs => indexed evs).
Proof.
  unfold index_phase. eapply emits_silent; [apply emits_or_fail|]. intros m Em. eapply emits_silent'; [apply emits_now|]. intros start.
  eapply emits_after; [apply emits_cmd|]. intros answer.
  apply (emits_silent _ _ (fun _ => exists v, answer = Ok v)).
  - destruct answer as [v|]; [|apply emits_fail].
    destruct v; try apply emits_fail; (eapply emits_mono; [apply emits_ret|]; intros x evs [_ ->]; split; [by eexists|done]).
  - intros _ V. eapply emits_mono.
    + eapply emits_bind; [apply index_loop_emits|]. intros ?. apply emits_timed.
    + cbv beta. intros x evs (y & e1 & e2 & -> & P & ->). rewrite app_nil_r. by exists m, answer, e1.
Qed.

Lemma delete_emits fuel cursor :
  emits (delete_prefix_loop fuel (KEY_PREFIX ++ [42]) cursor) (fun _ evs => Forall deletes evs).
Proof.
  revert cursor. induction fuel as [|fuel IH]; intros cursor; cbn [delete_prefix_loop]; [by intros w x w'|].
  eapply emits_after; [apply emits_cmd|]. intros answer. eapply emits_silent; [apply emits_or_fail|]. intros reply _.
  apply (emits_silent _ _ (fun _ => True)).
  - destruct reply; try apply emits_fail; (eapply emits_mono; [apply emits_ret|]; by intros x evs [_ ->]).
  - intros cursor' _. case_bool_decide.
    + eapply emits_mono; [apply emits_ret|]. intros x evs [_ ->]. constructor; [by eexists|done].
    + eapply emits_mono; [apply IH|]. intros x evs F. constructor; [by eexists|done].
Qed.

Lemma verify_emits : emits (verify_reusable_index a d) (fun _ evs =>
  exists fields n, evs = [Cmd (info a) (Ok (Array fields)); Cmd [bytes_of "DBSIZE"] (Ok (Integer n))] /\
    index_ready fields = Ok true /\ wrap64 n = nrows (train d)).
Proof.
  unfold verify_reusable_index. eapply emits_after; [apply emits_cmd|]. intros answer.
  eapply emits_silent; [apply emits_or_fail|]. intros reply A. destruct answer as [v|]; [|done]. injection A as ->.
  apply (emits_silent _ _ (fun fields => reply = Array fields)).
  - destruct reply; try apply emits_fail. eapply emits_mono; [apply emits_ret|]. by intros x evs [-> ->].
  - intros fields ->. eapply emits_silent; [apply emits_or_fail|]. intros ready R. destruct ready; cbn [negb]; [|apply emits_fail].
    eapply emits_after; [apply emits_cmd|]. intros answer. eapply emits_silent; [apply emits_or_fail|]. intros reply A.
    destruct answer as [v|]; [|done]. injection A as ->. destruct reply as [| |n| | |]; try apply emits_fail.
    destruct (Z.eqb_spec (wrap64 n) (nrows (train d))); [|apply emits_fail].
    eapply emits_mono; [apply emits_ret|]. intros x evs [_ ->]. by exists fields, n.
Qed.

Lemma run_one_query_emits idx : emits (run_one_query a d (query_of d idx)) (fun _ evs => exists e, evs = [e] /\ scored a d idx e).
Proof.
  unfold run_one_query. eapply emits_silent'; [apply emits_now|]. intros t0. eapply emits_after; [apply emits_cmd|]. intros answer.
  eapply emits_silent'; [apply emits_now|]. intros t.
  apply (emits_silent _ _ (fun r => score a d (query_of d idx) answer = Ok r)); [apply emits_or_fail|]. intros r R.
  eapply emits_mono; [apply emits_ret|]. intros x evs [_ ->]. exists (Cmd (search a d (query_of d idx)) answer).
  split; [done|]. by exists answer, r.
Qed.

Lemma query_loop_emits todo latencies sum :
  emits (query_loop a d todo latencies sum) (fun r evs =>
    Forall2 (scored a d) todo evs /\ length r.1 = (length latencies + length todo)%nat).
Proof.
  revert latencies sum. induction todo as [|idx todo IH]; intros latencies sum; cbn [query_loop].
  - eapply emits_mono; [apply emits_ret|]. intros x evs [-> ->]. split; [constructor|cbn; lia].
  - eapply emits_mono; [apply (emits_bind _ _ _ (fun _ r evs =>
      Forall2 (scored a d) todo evs /\ length r.1 = S (length latencies + length todo)) (run_one_query_emits idx))|].
    + intros [lat r]. eapply emits_mono; [apply IH|]. cbv beta. intros x evs [F L]. split; [done|].
      rewrite L, length_app. cbn. lia.
    + cbv beta. intros r evs (x & e1 & e2 & -> & (e & -> & Se) & F & L). split; [by constructor|]. cbn. lia.
Qed.

End phase_logs.

(** ** Several connections: every query is dealt to one of them *)

Definition waiting `{Peer} (t : Task) : list nat := match t with Waiting idx _ _ _ => [idx] | _ => [] end.

Definition taken `{Peer} (t : Task) : list Z :=
  match t with Waiting _ _ latencies _ | Ended (Ok (latencies, _)) => latencies | _ => [] end.

Definition not_failed `{Peer} (t : Task) : Prop := match t with Ended (Err _) => False | _ => True end.

Definition asked (a : SearchArgs) (d : Dataset) (idx : nat) (e : Event) : Prop :=
  exists answer, e = Cmd (search a d (query_of d idx)) answer.

(** The log since the start and the queries it answers; the others dealt are
    waited for.  Without a failure each has its latency, and a task that ended
    well saw the dealer past the last query. *)
Record PoolInv `{Peer} (a : SearchArgs) (d : Dataset) (log : list Event) (p : Pool) (evs : list Event) (idxs : list nat) : Prop := {
  pi_log : w_log (p_world p) = log ++ evs;
  pi_asked : Forall2 (asked a d) idxs evs;
  pi_dealt : idxs ++ concat (map waiting (p_tasks p)) ≡ₚ seq 0 (Nat.min (p_dealer p) (Z.to_nat (total a d)));
  pi_scored : Forall not_failed (p_tasks p) ->
    Forall2 (scored a d) idxs evs /\ length idxs = length (concat (map taken (p_tasks p)));
  pi_over : (exists r, Ended (Ok r) ∈ p_tasks p) -> (Z.to_nat (total a d) <= p_dealer p)%nat;
}.

Section pool.
Context `{Peer} (a : SearchArgs) (d : Dataset) (endpoint : str).

Lemma deal_spec w dealer latencies sum :
  exists t, deal a d w dealer latencies sum = (t, S dealer) /\ taken t = latencies /\ not_failed t /\
    seq 0 (Nat.min (S dealer) (Z.to_nat (total a d))) = seq 0 (Nat.min dealer (Z.to_nat (total a d))) ++ waiting t /\
    ((exists r, t = Ended (Ok r)) -> (Z.to_nat (total a d) <= S dealer)%nat).
Proof.
  unfold deal. destruct (Z.ltb_spec (Z.of_nat dealer) (total a d)) as [L|L]; eexists; (split; [done|]); (split; [done|]); (split; [done|]).
  - split; [|intros [r R]; discriminate R]. replace (Nat.min (S dealer) _) with (S dealer) by lia. replace (Nat.min dealer _) with dealer by lia.
    by rewrite seq_S.
  - split; [|lia]. cbn [waiting]. rewrite app_nil_r. f_equal. lia.
Qed.

Lemma pool_inv_start w : PoolInv a d (w_log w) (pool_start a w) [] [].
Proof.
  assert (W : forall n, concat (map waiting (replicate n Start)) = []) by (intros n; induction n; [done|]; cbn; done).
  assert (T : forall n, concat (map taken (replicate n Start)) = []) by (intros n; induction n; [done|]; cbn; done).
  constructor; cbn [pool_start p_world p_tasks p_dealer].
  - by rewrite app_nil_r.
  - constructor.
  - by rewrite W.
  - intros _. rewrite T. by split; [constructor|].
  - intros [r R]. apply elem_of_replicate in R as [R _]. discriminate R.
Qed.

(** A task's turn: what it adds to the log, and its new state. *)
Lemma task_step_spec w dealer t w' dealer' t' :
  task_step a d endpoint w dealer t = (w', dealer', t') ->
  exists evs idxs, w_log w' = w_log w ++ evs /\ Forall2 (asked a d) idxs evs /\ (dealer <= dealer')%nat /\
    idxs ++ waiting t' ++ seq 0 (Nat.min dealer (Z.to_nat (total a d))) ≡ₚ waiting t ++ seq 0 (Nat.min dealer' (Z.to_nat (total a d))) /\
    (not_failed t' -> not_failed t /\ Forall2 (scored a d) idxs evs /\ length (taken t') = (length idxs + length (taken t))%nat) /\
    ((exists r, t' = Ended (Ok r)) -> (exists r, t = Ended (Ok r)) \/ (Z.to_nat (total a d) <= dealer')%nat).
Proof.
  unfold task_step. destruct t as [|idx t0 latencies sum|r].
  - destruct (srv_connect (w_srv w)) as [[[]|e] s].
    + destruct (deal_spec {| w_srv := s; w_log := w_log w |} dealer [] f64_zero) as (t & -> & T & N & S & O). intros E; injection E as <- <- <-.
      exists [], []. cbn [w_log waiting app length]. rewrite T, S, app_nil_r.
      split_and!; [done|constructor|lia|solve_Permutation|intros _; by repeat constructor|]. intros R. right. by apply O.
    + intros E; injection E as <- <- <-. exists [], []. cbn [w_log]. rewrite app_nil_r.
      split_and!; [done|constructor|lia|done|done|]. intros [r R]. discriminate R.
  - destruct (srv_cmd (w_srv w) _) as [answer s]. destruct (score a d (query_of d idx) answer) as [r|e] eqn:Sc.
    + set (w1 := {| w_srv := s; w_log := _ |}).
      destruct (deal_spec w1 dealer (latencies ++ [srv_now s - t0]) (f64_add sum r)) as (t & -> & T & N & S & O). intros E; injection E as <- <- <-.
      exists [Cmd (search a d (query_of d idx)) answer], [idx]. cbn [w1 w_log waiting]. rewrite T, S.
      split_and!; [done| |lia|solve_Permutation| |].
      * constructor; [by eexists|constructor].
      * intros _. split; [done|]. split; [constructor; [by exists answer, r|constructor]|]. rewrite length_app. cbn. lia.
      * intros R. right. by apply O.
    + intros E; injection E as <- <- <-. exists [Cmd (search a d (query_of d idx)) answer], [idx]. cbn [w_log waiting].
      split_and!; [done| |lia|solve_Permutation|done|].
      * constructor; [by eexists|constructor].
      * intros [r R]. discriminate R.
  - intros E; injection E as <- <- <-. exists [], []. rewrite app_nil_r.
    split_and!; [done|constructor|lia|done| |]; [intros N; by repeat constructor|]. intros R. by left.
Qed.

Lemma pool_step_inv log p i evs idxs :
  PoolInv a d log p evs idxs -> exists evs' idxs', PoolInv a d log (pool_step a d endpoint p i) evs' idxs'.
Proof.
  intros [L A D Sc O]. unfold pool_step. destruct (p_tasks p !! i) as [t|] eqn:Ei; [|by exists evs, idxs].
  destruct (task_step a d endpoint (p_world p) (p_dealer p) t) as [[w' dealer'] t'] eqn:E.
  destruct (task_step_spec _ _ _ _ _ _ E) as (es & js & Lw & As & Le & P & N & Ov).
  pose proof (lookup_lt_Some _ _ _ Ei) as Hi. rewrite insert_take_drop by done. rewrite <- (take_drop_middle _ _ _ Ei) in D, Sc, O.
  set (l1 := take i (p_tasks p)) in *. set (l2 := drop (S i) (p_tasks p)) in *.
  exists (evs ++ es), (idxs ++ js). constructor; cbn [p_world p_tasks p_dealer].
  - by rewrite Lw, L, app_assoc.
  - by apply Forall2_app.
  - rewrite map_app, concat_app in *. cbn [map concat] in *. apply (Permutation_app_inv_r (seq 0 (Nat.min (p_dealer p) (Z.to_nat (total a d))))).
    transitivity ((idxs ++ concat (map waiting l1) ++ concat (map waiting l2)) ++
      (js ++ waiting t' ++ seq 0 (Nat.min (p_dealer p) (Z.to_nat (total a d))))); [solve_Permutation|]. rewrite P.
    transitivity ((idxs ++ concat (map waiting l1) ++ waiting t ++ concat (map waiting l2)) ++ seq 0 (Nat.min dealer' (Z.to_nat (total a d))));
      [solve_Permutation|]. rewrite D. solve_Permutation.
  - intros F. apply Forall_app in F as [F1 F2]. apply Forall_cons in F2 as [Nt F2]. destruct (N Nt) as (Nt0 & S' & Len).
    destruct Sc as [S1 S2]; [apply Forall_app; split; [done|by constructor]|]. split; [by apply Forall2_app|].
    rewrite !map_app, !concat_app in *. cbn [map concat] in *. rewrite !length_app in *. lia.
  - intros [r R]. apply elem_of_app in R as [R|R]; [|apply elem_of_cons in R as [R|R]].
    + etrans; [apply O|exact Le]. exists r. set_solver.
    + destruct Ov as [[r' Er]|Ov]; [by exists r| |exact Ov]. etrans; [apply O|exact Le]. exists r'. subst t. set_solver.
    + etrans; [apply O|exact Le]. exists r. set_solver.
Qed.

Lemma pool_run_inv log p schedule evs idxs :
  PoolInv a d log p evs idxs -> exists evs' idxs', PoolInv a d log (pool_run a d endpoint p schedule) evs' idxs'.
Proof.
  revert p evs idxs. unfold pool_run. induction schedule as [|i schedule IH]; intros p evs idxs I; [by exists evs, idxs|].
  destruct (pool_step_inv _ _ i _ _ I) as (evs' & idxs' & I'). cbn [foldl]. by apply (IH _ evs' idxs').
Qed.

Lemma collect_ok tasks latencies sum lat r : collect tasks latencies sum = Some (Ok (lat, r)) ->
  Forall not_failed tasks /\ concat (map waiting tasks) = [] /\ lat = latencies ++ concat (map taken tasks) /\
  (tasks <> [] -> exists r, Ended (Ok r) ∈ tasks).
Proof.
  revert latencies sum. induction tasks as [|t tasks IH]; intros latencies sum; cbn [collect].
  - intros [= <- <-]. rewrite app_nil_r. by split_and!; [constructor| | |].
  - destruct t as [| |[[l q]|e]]; try done. intros C. destruct (IH _ _ C) as (F & W & L & _). split_and!; [by constructor|done| |].
    + rewrite L. cbn [map concat taken]. by rewrite app_assoc.
    + intros _. exists (l, q). set_solver.
Qed.

End pool.

(** ** The whole run *)

(** Every query of every loop, once, each answered and scored. *)
Definition queried `{Peer} (a : SearchArgs) (d : Dataset) (evs : list Event) : Prop :=
  exists idxs, idxs ≡ₚ seq 0 (Z.to_nat (total a d)) /\ Forall2 (scored a d) idxs evs.

Definition is_search (e : Event) : bool :=
  match e with
  | Cmd (verb :: _) _ => bool_decide (verb = bytes_of "FT.SEARCH")
  | Cmd [] _ => false
  | Pipe rs _ => existsb (fun r => bool_decide (head r = Some (bytes_of "FT.SEARCH"))) rs
  end.

Definition no_search (evs : list Event) : Prop := Forall (fun e => is_search e = false) evs.

(** What precedes the queries of a run that reuses its index, and of one that
    builds it. *)
Definition reusing `{Peer} (a : SearchArgs) (d : Dataset) (before : list Event) : Prop :=
  exists fields n, before = [Cmd (info a) (Ok (Array fields)); Cmd [bytes_of "DBSIZE"] (Ok (Integer n))] /\
    index_ready fields = Ok true /\ wrap64 n = nrows (train d).

Definition building `{Peer} (a : SearchArgs) (d : Dataset) (before : list Event) : Prop :=
  exists answer cleanup loads indexing, before = Cmd (drop_index a) answer :: cleanup ++ loads ++ indexing /\
    Forall deletes cleanup /\ loaded a d 0 loads /\ indexed a d indexing.

Section run.
Context `{Peer} (a : SearchArgs) (d : Dataset) (endpoint : str).

Lemma query_phase_emits schedule : 0 <= total a d ->
  emits (query_phase a d endpoint schedule) (fun q evs =>
    queried a d evs /\ Z.of_nat (length (latencies_ns q)) = total a d /\ queries q = total a d).
Proof.
  intros T. unfold query_phase. destruct (clients a =? 1).
  - eapply emits_silent'; [apply emits_now|]. intros started. eapply emits_mono.
    + apply (emits_bind _ _ _ (fun r q evs => evs = [] /\ exists t, q = query_stats a d started t r) (query_loop_emits a d _ _ _)).
      intros r. eapply emits_silent'; [apply emits_now|]. intros t. eapply emits_mono; [apply emits_ret|].
      intros x evs [-> ->]. split; [done|by exists t].
    + cbv beta. intros q evs (r & e1 & e2 & -> & [F L] & -> & t & ->). rewrite app_nil_r. cbn [query_stats latencies_ns queries].
      split_and!; [by eexists|rewrite L, length_seq; cbn; lia|done].
  - eapply emits_silent'; [apply emits_now|]. intros started w q w'. unfold mbind, M_bind. cbv beta.
    destruct (pool_run_inv a d endpoint _ _ schedule _ _ (pool_inv_start a d w)) as (evs & idxs & [L A D Sc O]).
    set (p := pool_run _ _ _ _ _) in *. destruct (collect (p_tasks p) [] f64_zero) as [[[lat r]|e]|] eqn:C; try done.
    destruct (collect_ok _ _ _ _ _ C) as (F & W & E & Ne). intros Q. injection Q as <- <-. exists evs. split; [exact L|].
    assert (N : p_tasks p <> []).
    { intros N. assert (Len : length (p_tasks p) = length (p_tasks (pool_start a w))).
      { unfold p, pool_run. clear. generalize (pool_start a w). induction schedule as [|i sch IH]; intros q; [done|]. cbn [foldl]. rewrite IH.
        unfold pool_step. destruct (p_tasks q !! i); [|done]. destruct (task_step _ _ _ _ _ _) as [[w' dl] t']. cbn. apply length_insert. }
      rewrite N in Len. cbn [pool_start p_tasks] in Len. rewrite length_replicate in Len. unfold clients in Len. cbn in Len. lia. }
    specialize (O (Ne N)). destruct (Sc F) as [S1 S2]. rewrite W, app_nil_r in D. replace (Nat.min _ _) with (Z.to_nat (total a d)) in D by lia.
    cbn [query_stats latencies_ns queries fst]. split_and!; [by exists idxs| |done].
    rewrite E. cbn [app]. rewrite <- S2, (Permutation_length D), length_seq. lia.
Qed.

Lemma loaded_no_search row evs : loaded a d row evs -> no_search evs.
Proof.
  intros [C F]. apply Forall_forall. intros e He. destruct e as [r ans|rs ans].
  - rewrite Forall_forall in F. by specialize (F _ He).
  - cbn. apply not_true_is_false. intros X. apply existsb_exists in X as (r & Hr & X). apply bool_decide_eq_true in X.
    assert (I : In r (concat (map pipelined evs))).
    { apply in_concat. exists rs. split; [|done]. apply in_map_iff. exists (Pipe rs ans). split; [done|by apply list_elem_of_In]. }
    rewrite C in I. apply in_map_iff in I as (i & <- & _). discriminate X.
Qed.

Lemma building_no_search before : building a d before -> no_search before.
Proof.
  intros (ans & cl & loads & ix & -> & Dl & Ld & (m & an & polls & -> & _ & _ & (bf & fs & -> & As & _))).
  constructor; [done|]. apply Forall_app. split; [|apply Forall_app; split; [by eapply loaded_no_search|]].
  - eapply Forall_impl; [exact Dl|]. intros [r x|]; [|done]. by intros [c ->].
  - constructor; [done|]. apply Forall_app. split; [|by repeat constructor].
    eapply Forall_impl; [exact As|]. intros [r x|]; [|done]. cbn [asks]. intros ->%list_elem_of_singleton. done.
Qed.

Definition run_log (report : RunReport) (evs : list Event) : Prop :=
  exists before asked after, evs = before ++ asked ++ after /\
    queried a d asked /\ Z.of_nat (length (latencies_ns (query report))) = total a d /\
    no_search before /\ no_search after /\ (if arg_reuse_index a then reusing a d before else building a d before).

Lemma total_nonneg : 0 <= total a d.
Proof. unfold total. pose proof (wrap64_range (nrows (test d) * Z.max (arg_query_loops a) 1)). lia. Qed.

Lemma run_reuse_emits schedule : arg_reuse_index a = true ->
  emits (_ ← verify_reusable_index a d; query ← query_phase a d endpoint schedule;
         mret {| load := skipped; index := skipped; query := query |}) run_log.
Proof.
  intros R. eapply emits_mono.
  - apply (emits_bind _ _ _ (fun _ report evs => queried a d evs /\ Z.of_nat (length (latencies_ns (query report))) = total a d)
      (verify_emits a d)). intros _. eapply emits_mono.
    + apply (emits_bind _ _ _ (fun q report evs => evs = [] /\ query report = q) (query_phase_emits schedule total_nonneg)).
      intros q. eapply emits_mono; [apply emits_ret|]. by intros x evs [-> ->].
    + cbv beta. intros report evs (q & e1 & e2 & -> & (Q & L & _) & -> & ->). by rewrite app_nil_r.
  - cbv beta. intros report evs (x & e1 & e2 & -> & V & Q & L). exists e1, e2, []. rewrite R, app_nil_r.
    split_and!; [done|done|done| |constructor|exact V]. destruct V as (fs & n & -> & _). by repeat constructor.
Qed.

Lemma run_build_emits fuel schedule : arg_reuse_index a = false ->
  emits (_ ← cmd (drop_index a); _ ← delete_prefix fuel; load ← load_phase a d; index ← index_phase a d fuel;
         query ← query_phase a d endpoint schedule;
         _ ← (if arg_keep_index a then mret () else _ ← cmd (drop_index a); mret ());
         mret {| load := load; index := index; query := query |}) run_log.
Proof.
  intros R. eapply emits_after; [apply emits_cmd|]. intros answer. eapply emits_mono.
  - apply (emits_bind _ _ _ (fun _ report evs => exists loads indexing asked after, evs = loads ++ indexing ++ asked ++ after /\
      loaded a d 0 loads /\ indexed a d indexing /\ queried a d asked /\
      Z.of_nat (length (latencies_ns (query report))) = total a d /\ no_search after) (delete_emits fuel _)).
    intros _. eapply emits_mono.
    + apply (emits_bind _ _ _ (fun _ report evs => exists indexing asked after, evs = indexing ++ asked ++ after /\ indexed a d indexing /\
        queried a d asked /\ Z.of_nat (length (latencies_ns (query report))) = total a d /\ no_search after) (load_phase_emits a d)).
      intros ld. eapply emits_mono.
      * apply (emits_bind _ _ _ (fun _ report evs => exists asked after, evs = asked ++ after /\
          queried a d asked /\ Z.of_nat (length (latencies_ns (query report))) = total a d /\ no_search after) (index_phase_emits a d fuel)).
        intros ix. eapply emits_mono; [apply (emits_bind _ _ _ (fun q report evs => query report = q /\ no_search evs)
          (query_phase_emits schedule total_nonneg))|].
        -- intros q. destruct (arg_keep_index a).
           ++ eapply emits_silent'; [eapply emits_mono; [apply emits_ret|by intros ? ? [_ ->]]|]. intros _.
              eapply emits_mono; [apply emits_ret|]. intros x evs [-> ->]. split; [done|constructor].
           ++ eapply emits_mono.
              ** apply (emits_bind _ _ (fun _ evs => no_search evs) (fun _ report evs => query report = q /\ evs = [])).
                 --- eapply emits_after; [apply emits_cmd|]. intros an. eapply emits_mono; [apply emits_ret|]. intros x evs [_ ->]. by repeat constructor.
                 --- intros _. eapply emits_mono; [apply emits_ret|]. by intros x evs [-> ->].
              ** cbv beta. intros x evs (y & e1 & e2 & -> & N & E & ->). by rewrite app_nil_r.
        -- cbv beta. intros report evs (q & e1 & e2 & -> & (Q & L & _) & <- & N). by exists e1, e2.
      * cbv beta. intros report evs (x & e1 & e2 & -> & Ix & (asked & after & -> & Q)). exists e1, asked, after. by split.
    + cbv beta. intros report evs (x & e1 & e2 & -> & Ld & (ix & asked & after & -> & Q)). exists e1, ix, asked, after. by split.
  - cbv beta. intros report evs (x & e1 & e2 & -> & Dl & (ld & ix & asked & after & -> & Ld & Ix & Q & L & N)).
    assert (B : building a d (Cmd (drop_index a) answer :: e1 ++ ld ++ ix)) by (by exists answer, e1, ld, ix).
    exists (Cmd (drop_index a) answer :: e1 ++ ld ++ ix), asked, after. rewrite R.
    split_and!; [cbn [app]; by rewrite <- !app_assoc|done|done|by apply building_no_search|done|done].
Qed.

Lemma run_all_emits fuel schedule : emits (run_all a d endpoint fuel schedule) run_log.
Proof.
  unfold run_all. eapply emits_silent'; [apply emits_lift|]. intros c.
  eapply emits_silent'; [eapply emits_mono; [apply emits_or_fail|by intros ? ? [_ ->]]|]. intros _.
  eapply emits_silent'; [apply emits_lift|]. intros pong.
  eapply emits_silent'; [eapply emits_mono; [apply emits_or_fail|by intros ? ? [_ ->]]|]. intros _.
  destruct (arg_reuse_index a) eqn:R; [by apply run_reuse_emits|by apply run_build_emits].
Qed.

End run.

(** *** Recall *)

Lemma dedup_spec_sorted l : StronglySorted Z.le l -> NoDup (dedup l) /\ (forall z, z ∈ dedup l <-> z ∈ l).
Proof.
  induction 1 as [|x [|y l] So IH F]; [by split; [constructor|]|split; [apply NoDup_singleton|done]|].
  destruct IH as [N E]. change (dedup (x :: y :: l)) with (if x =? y then dedup (y :: l) else x :: dedup (y :: l)).
  destruct (Z.eqb_spec x y) as [->|Ne].
  - split; [done|]. intros z. rewrite E. set_solver.
  - split; [|intros z; rewrite !elem_of_cons, E; set_solver]. constructor; [|done]. rewrite E. intros X.
    apply elem_of_cons in X as [->|X]; [done|]. apply Forall_cons in F as [Lxy _].
    pose proof (StronglySorted_app_1_elem_of Z.le [y] l y x) as Y. cbn [app] in Y.
    assert (y <= x) by (apply Y; [exact So|set_solver|done]). lia.
Qed.

Lemma returned_spec returned : NoDup (dedup (merge_sort Z.le returned)) /\ (forall z, z ∈ dedup (merge_sort Z.le returned) <-> z ∈ returned).
Proof.
  destruct (dedup_spec_sorted (merge_sort Z.le returned)) as [N E]; [apply StronglySorted_merge_sort; apply _|].
  split; [done|]. intros z. by rewrite E, merge_sort_Permutation.
Qed.

Lemma size_list_to_set_le (l : list Z) : (size (list_to_set l : gset Z) <= length l)%nat.
Proof.
  induction l as [|x l IH]; [done|]. cbn [list_to_set length]. rewrite size_union_alt, size_singleton.
  pose proof (subseteq_size ((list_to_set l : gset Z) ∖ {[x]}) (list_to_set l) ltac:(set_solver)). lia.
Qed.

Lemma hits_spec returned truth k :
  hits returned truth k = size (list_to_set returned ∩ list_to_set (take (Z.to_nat k) truth) : gset Z).
Proof.
  destruct (returned_spec returned) as [N E]. unfold hits. set (l := dedup _) in *.
  set (f := List.filter _ l). assert (Nf : NoDup f) by (apply NoDup_ListNoDup, List.NoDup_filter; by apply NoDup_ListNoDup).
  rewrite <- (size_list_to_set (C := gset Z) f Nf). f_equal. apply set_eq. intros x.
  rewrite elem_of_intersection, !elem_of_list_to_set, <- E. unfold f. rewrite list_elem_of_In, filter_In, <- list_elem_of_In, existsb_exists.
  split.
  - intros [Hx (y & Hy & Eq)]. apply Z.eqb_eq in Eq as ->. split; [done|by apply list_elem_of_In].
  - intros [Hx Hy]. split; [done|]. exists x. split; [by apply list_elem_of_In|apply Z.eqb_refl].
Qed.

(** ** Theorems *)


(** Recall is the ann-benchmarks definition.  The hits of a query are the
    number of ids that are both in the reply and among the first [k] true
    neighbours, so neither the order of a reply nor an id it repeats changes
    the recall, and the hits never exceed [k]. *)
Theorem recall_is_intersection (returned truth : list Z) (k : Z) (Hk : 0 <= k) :
  hits returned truth k = size (list_to_set returned ∩ list_to_set (take (Z.to_nat k) truth) : gset Z) /\
  Z.of_nat (hits returned truth k) <= k /\
  (forall returned', (forall id, id ∈ returned' <-> id ∈ returned) -> recall returned' truth k = recall returned truth k).
Proof.
  split; [apply hits_spec|]. split.
  - rewrite hits_spec. pose proof (subseteq_size (list_to_set returned ∩ list_to_set (take (Z.to_nat k) truth) : gset Z)
      (list_to_set (take (Z.to_nat k) truth)) ltac:(set_solver)) as B.
    pose proof (size_list_to_set_le (take (Z.to_nat k) truth)) as C. rewrite length_take in C. lia.
  - intros returned' Eq. unfold recall. rewrite !hits_spec. do 4 f_equal. apply set_eq. intros x.
    by rewrite !elem_of_intersection, !elem_of_list_to_set, Eq.
Qed.

(** The load phase ends.  Each turn of its loop moves past at least one
    row, so as many turns as there are rows are always enough: whatever the
    server answers, the loop does not stop for want of turns. *)
Theorem load_ends `{Peer} (a : SearchArgs) (d : Dataset) (w : World) :
  (load_phase a d w).1 <> Err StillRunning.
Proof.
  assert (L : forall fuel row w, (length (train d) <= row + fuel)%nat -> (load_loop a d fuel row w).1 <> Err StillRunning).
  { pose proof (load_batch_pos a d) as B. induction fuel as [|fuel IH]; intros row w' F; cbn [load_loop]; destruct (Nat.ltb_spec row (length (train d))); try done; [lia|].
    set (end_ := Nat.min _ _). unfold mbind, M_bind. destruct (pipeline _ w') as [[answer|e] w1] eqn:P; [|by unfold pipeline in P; destruct (srv_pipeline _ _)].
    destruct answer as [replies|e]; [|done]. cbn [map_err or_fail mret M_ret]. destruct (first_error replies); [done|]. apply IH. lia. }
  unfold load_phase, mbind, M_bind. cbn [now]. destruct (_ <? _); [done|]. specialize (L (length (train d)) 0%nat w ltac:(lia)).
  destruct (load_loop _ _ _ _ w) as [[[]|e] w1]; [done|]. intros [= ->]. by apply L.
Qed.

(** ** Witnesses: a server that accepts everything and answers at once *)

(** It counts the commands it has answered, and finds the index ready at the
    second poll. *)
Definition reply_to (n : Z) (r : request) : Value :=
  match r with
  | verb :: _ =>
      if bool_decide (verb = bytes_of "FT.INFO") then
        Array [BulkString (bytes_of "state"); BulkString (if n <? 8 then bytes_of "busy" else bytes_of "ready");
               BulkString (bytes_of "backfill_in_progress"); Integer 0;
               BulkString (bytes_of "mutation_queue_size"); BulkString (bytes_of "0")]
      else if bool_decide (verb = bytes_of "EVAL") then BulkString (bytes_of "0")
      else if bool_decide (verb = bytes_of "FT.SEARCH") then
        Array [Integer 2; BulkString (bytes_of "doc:1"); BulkString (bytes_of "doc:1"); BulkString (bytes_of "doc:0")]
      else SimpleString (bytes_of "OK")
  | [] => Error []
  end.

Definition example_peer : Peer :=
  {| srv := Z; srv_now := fun s => s; srv_connect := fun s => (Ok tt, s + 1); srv_ping := fun s => (Ok tt, s + 1);
     srv_cmd := fun s r => (Ok (reply_to s r), s + 1);
     srv_pipeline := fun s rs => (Ok (map (reply_to s) rs), s + 1);
     srv_sleep := fun s t => s + t; debug := fun _ => []; debug_str := fun s => s |}.

Definition example_data : Dataset :=
  {| train := [[0; 1]; [1065353216; 2]; [3; 4]]; train_ncols := 2; test := [[0; 1]; [3; 4]]; test_ncols := 2;
     neighbors := [[1; 2]; [0; 1]]; neighbors_ncols := 2; metric := bytes_of "euclidean" |}.

Definition example_args (clients : Z) : SearchArgs :=
  {| arg_dataset := []; arg_k := 2; arg_ef_search := 128; arg_m := 16; arg_ef_construction := 200; arg_index := bytes_of "idx";
     arg_load_batch := 2; arg_keep_index := false; arg_query_clients := clients; arg_query_loops := 2; arg_reuse_index := false |}.

Definition example_world : @World example_peer := {| w_srv := 0 : @srv example_peer; w_log := [] |}.

Abbreviation example_run clients :=
  (@run_all example_peer (example_args clients) example_data [] 10 [0; 1; 0; 1; 0; 1; 0; 1]%nat example_world).


Example recall_is_intersection_witness :
  hits [1; 1; 0] [1; 2; 0] 2 = 1%nat /\ Z.of_nat (hits [1; 1; 0] [1; 2; 0] 2) <= 2.
Proof. split; [reflexivity|]. apply (proj1 (proj2 (recall_is_intersection [1; 1; 0] [1; 2; 0] 2 ltac:(lia)))). Defined.
